(* ===== verification/_CoqProject ===== *)
-Q . S2P
Prelude.v
Node.v
Routing.v
RoutingTable.v
RoutingTableSpec.v
Utils.v
Storage.v
Fragmentation.v
Text.v
Json.v
Crypto.v
AuthHandler.v
Did.v
Records.v
KeyManager.v
SigCache.v
Sha.v
UnitTests.v
Crawling.v
Protocol.v
ProtocolSpec.v
Interleaving.v
Transport.v
Network.v
NetworkSpec.v
Overlap.v
Workers.v
NodeState.v
Cluster.v
Reliable.v
Maintain.v
Join.v
Clock.v
NodeScript.v
Publish.v
PyBindings.v
Harness.v
Binary64.v
Latency.v
Topology.v
CacheBench.v
Resilience.v
