(* ===== verification/Prelude.v ===== *)
(** * AuthKademlia: a Kademlia DHT of signed DID records

    A verification library for the Rust crate under [src/]: nodes keep records
    (an algorithm name, a signature and a DID document) under SHA-1 keys, find
    each other by XOR distance, and accept a record only if its signature
    verifies.  The code is translated by hand into executable definitions; the
    theorems below are about those definitions.

    ** The program and the files

    Data and the routing table:
    - [Prelude.v] (this file): bytes, machine integers, big-endian encodings,
      results with the [?] operator, sorting by a key, list lemmas, the hint
      database [kad].
    - [Text.v]: the operations on [str] the crate uses (UTF-8 validity, [trim],
      [split], parsing of [u8], [u16] and [usize]).
    - [Utils.v]: [src/src/utils.rs] ([shared_prefix], [bytes_to_bit_string],
      [gather_dict]); the digests are in [SigCache.v] with the hash functions.
    - [Node.v]: [src/src/node.rs].  [Node] with the fold of its 160-bit
      identifier to the 128-bit [long_id], and [NodeHeap], the bounded set of
      closest candidates of a lookup.
    - [Routing.v]: the [KBucket] of [src/src/routing.rs].
    - [RoutingTable.v]: [RoutingTable] and [TableTraverser] of the same file;
      [RoutingTableSpec.v]: its theorems.
    - [Storage.v]: [src/src/storage.rs].  The trait [IStorage] is a class, its
      contract the class [StorageLaws]; [ForgetfulStorage] is an instance.
    - [Fragmentation.v]: [src/src/fragmentation.rs], the datagram format.

    Signatures and documents:
    - [Json.v]: [serde_json::Value] with its accessors, the classes of the
      JSON and base64 codecs, and [sort_json_keys].
    - [Crypto.v]: [src/src/crypto/signature_verifier.rs], [factory.rs],
      [dilithium.rs], [ed25519.rs], [rsa.rs].
    - [AuthHandler.v]: [src/src/auth_handler.rs].  The trait is the class
      [SignatureVerifierHandler], what the protocol relies on is [HandlerLaws];
      the DID handler is an instance.  Also the packing of a signed record
      that the scripts share.
    - [Did.v]: the DID documents and records that [src/scripts/dht_node.rs]
      builds; [Records.v]: the copies of these helpers in the other programs, a
      Module each.
    - [KeyManager.v]: [src/src/crypto/key_manager.rs], over a model of [std::fs].
    - [SigCache.v]: [src/src/signature_cache.rs].
    - [Sha.v]: SHA-1 and SHA-256 of the standard, the instance of the hash
      functions with which [UnitTests.v] evaluates the repository's tests.

    A node:
    - [Crawling.v]: [src/src/crawling.rs], the iterative lookups, for any
      instance of [SpiderProtocol].
    - [Protocol.v]: the request handlers, outgoing calls and background tasks of
      [KademliaProtocol] in [src/src/protocol.rs]; [ProtocolSpec.v]: their
      theorems, and the step relation of a running node.
    - [Interleaving.v]: the same handlers cut at the verification they await, so
      that several of them overlap.
    - [Transport.v]: frames, fragmentation, reassembly and the matching of
      responses to calls in the same file ([send_frame], [call],
      [handle_datagram]).
    - [Network.v]: the [Server] of [src/src/network.rs], over the class [Net] of
      what carries its calls; [NetworkSpec.v]: its theorems, with the instance
      [Running] whose peers answer anything.
    - [Overlap.v]: the same operations, the spawned tasks and the handler of
      [FindValue] with [welcome_if_new] as sequences of accesses to the shared
      state and groups of calls, overlapping each other and the handlers.
    - [Workers.v]: the receive loop and worker tasks that [Server::listen]
      spawns, as an interleaving of steps.
    - [NodeState.v]: [save_state], its loop and the statistics of the server,
      and the module [Lifecycle] of the tasks [listen] starts and [stop] ends.

    Several nodes and the programs:
    - [Cluster.v]: a map of addresses to running servers; its instance
      [cluster_net] of [Net] delivers a call to the handlers of the peer.
    - [Reliable.v] and [Maintain.v]: a cluster that loses nothing and in which every
      node knows every other; what [set] and [get], and then [update] and [delete],
      bring about in it.
    - [Join.v]: how such a cluster comes about: [bootstrap] and the welcomes it spawns.
    - [Clock.v]: the clock of a program: its sleeps, and operations of any duration.
    - [NodeScript.v]: the program [src/scripts/dht_node.rs].
    - [Publish.v]: the program [src/examples/publish_did.rs], in a cluster.
    - [PyBindings.v]: [src/src/py_bindings.rs], calls and sessions.
    - [Harness.v]: the load phases, forgeries and verdict of
      [src/scripts/resilience_attacker.rs], and the seeding of
      [src/scripts/resilience_victim.rs].
    - [Binary64.v]: the floating-point operations used, and how they round;
      [Latency.v]: the percentiles, averages and deviations that three programs
      report, in IEEE binary64.
    - [Topology.v]: the program [src/examples/topology_analysis.rs], thirty nodes
      in a cluster, with its diagnostics and verdict.
    - [CacheBench.v]: the program [src/examples/cache_bench.rs]: its clusters,
      writes, timed reads and comparisons.
    - [Resilience.v]: the two programs of the resilience test, made of the parts
      in [Harness.v].

    ** State and effects

    A struct behind locks is a record passed through the operations.
    [KademliaProtocol] holds the routing table, the storage, the cache, the
    strikes per peer and the tasks spawned but not yet run; a step of a node
    ([ProtocolSpec.step], [Interleaving.istep]) handles a request, or the part of
    it before or after its verification, runs one of those tasks, makes a lookup
    call or serves the node's user; [Overlap.cstep] also runs one access of one of
    the operations, tasks and handlers that have started.  Time is an argument ([now], in nanoseconds;
    buckets keep whole seconds of it).  Unsigned integers are [Z] wrapped at
    their width.  The answers of the network are those of an instance of [Net]:
    a function of the call number, the address and the message, about which
    nothing is assumed, or the other nodes of the cluster.  [Result] is
    [result], [Option] is [option], and a trait is a class.

    Parameters, with what is assumed of them: the sort of
    [sort_unstable_by_key] ([UnstableSort]: a sorted permutation), the iteration
    order of a [HashMap] ([HashOrder]: a permutation), SHA-1 and SHA-256
    ([HashLaws]: output lengths), the signature libraries ([CryptoLaws]: sizes,
    and that a signature verifies), serde_json and base64 ([DocLaws],
    [SerdeLaws], [Base64Laws]: decoding an encoding; [JsonMap]: the order an
    object keeps its members in), hexadecimal text ([HexLaws]), moka ([Moka]: a
    hit is the last value inserted, any lookup may miss), bincode
    ([BincodeLaws]: decoding an encoding), the text form of addresses
    ([NetAddr]), key generation ([KeyGenLaws]).  How long an operation of a
    program takes, what happens at its nodes meanwhile and while it sleeps, and what
    a random choice picks, are functions given to the programs.  Each class has a
    concrete instance with which the theorems are evaluated.

    ** The theorems

    - Records: every record a reachable node holds is authentic, however its
      operations and handlers overlap ([overlapping_operations_safe], after
      [stored_records_authentic] for whole steps), and so is every record of every
      node of a cluster ([cluster_records_authentic]); changes only happen as authorised
      ([record_changes_authorised], [rpc_handlers_outcomes];
      the lemmas [resume_refines_dispatch] and [operation_alone] tie the handlers and
      operations that are cut into steps to the whole ones),
      and what the handler accepts is characterised exactly
      ([handler_accepts]).
    - Documents: a built record is accepted and read back
      ([did_record_roundtrip]) and does not depend on the order of the members
      of its document ([encoding_is_canonical]); all programs make the same records
      ([record_generators_agree]).
    - Routing: the bucket and table invariants, [add_contact] terminates and
      stores the node ([contacts_maintained]), [find_neighbors] returns the
      right number of contacts in order ([find_neighbors_spec]) and the closest ones
      in two cases ([find_neighbors_exact]); the heap of a lookup keeps the closest ([heap_keeps_closest]).
    - Lookups: both kinds end whatever peers answer, with what they promise
      ([lookups_terminate]): the value is one that none of its last round outnumbers.
    - Wire: fragments are reassembled in any order, frames are delivered, a
      response answers exactly the call with its identifier
      ([response_answers_call]); the worker pool loses nothing.
    - Storage and keys: [ForgetfulStorage] refines a map of live entries
      ([forgetful_storage_correct]); keys survive storage, and a generated
      identity's records are accepted ([managed_identity]).
    - Server: every operation returns, keeps the invariant, and returns or
      publishes only authentic values ([server_api_safe]); a saved state reads
      back ([saved_state_reads_back]); a record set at one node of a cluster is
      read at another ([published_record_readable]).  When nothing is lost a node
      that bootstraps is known to all and knows all once no welcome waits, in whatever
      order tasks run ([joining_extends_mesh]), so that any population of at most [k]
      nodes forms a cluster ([clusters_form]).  In it
      [set] succeeds and every node reads the record
      ([working_cluster_serves]), an update is read by every node, unless the
      one that made it held the record and is farthest ([working_cluster_updates]), and a deletion is complete
      ([working_cluster_deletes]).
    - Programs: all outcomes of the node program, of the publishing example, of
      both programs of the resilience test, of the topology test and of the cache
      benchmark ([node_script_outcomes], [publish_did_outcomes],
      [attacker_outcomes] with the verdict [attack_verdict], [victim_outcomes],
      [topology_outcomes], [bench_outcomes]); the two views of the placement of
      records agree ([placement_views_agree]); the signature cache does not change
      what is read ([cached_reads_agree]); the figures are the percentiles they are called ([latency_stats_correct]); a
      Python session keeps the types of its objects ([py_session_typed]).
    - Tests: the unit tests and the integration tests of routing and storage pass
      on the model ([unit_tests_pass], [integration_tests_pass],
      [signing_tests_pass], [key_file_tests_pass]).
    - Behaviours that differ from the documentation or from the intent:
      [id_fold_collisions], [colliding_ids_diverge],
      [find_neighbors_misses_closer], [large_messages_always_dropped],
      [cache_confuses_status_list], [record_authorises_its_deletion],
      [lookup_returns_silent_peer], [set_blocked_by_invalid_value],
      [overlapping_updates_both_win], [overlapping_sets_overwrite],
      [overlapping_welcomes_replicate_twice], [working_cluster_updates] (the copy of
      the farthest updater), [stop_leaves_tasks],
      [no_issuer_path_rejects], [py_level_override], [reader_meets_writer],
      [attacker_p95_rank], [expired_entry_not_culled], [adding_does_not_touch].

    ** Fuel

    [RoutingTable::insert] recurses after a split: [INSERT_FUEL] is 129, one call
    per halving of the 128-bit key space and one to finish
    ([add_contact_total]); with enough colliding identifiers no fuel suffices
    ([colliding_ids_diverge]), and there the model's result is [None].  A lookup
    runs at most twice as many rounds as there are identifiers, plus two
    ([node_lookup_terminates]); [CRAWL_FUEL] is that bound for all 160-bit
    identifiers, so the operations of the server never run out.
    [TableTraverser::next] and [chunks] take the length of their input.  The
    retry loops of the programs count their attempts as the code does, and the
    bounded task sets of the load phases take the number of their tasks plus
    one.  The ranks of percentiles are exact for fewer than [2^39] samples
    ([rank_exact]); the attacker's index is checked for up to 500 ([MAX_SAMPLES]).

    ** Not modelled

    Logging, [Display] and the layout of printed tables ([fmt_dur],
    [fmt_ns]); the convergence summary of the topology test (a logarithm that is
    only printed); the conversions of PyO3 and its runtime start
    ([init_runtime]); the construction of the runtime in each [main]; the
    periodic log line of the victim; changes of the issuer's key file during a run
    (the file is reread at every call, so that a key can be rotated; here it has one
    content per run); the integration tests that open sockets
    ([src/tests/dht_integration.rs], [network_tests.rs], [scenarios/]) and
    [src/tests/crypto_tests.rs]. *)
From stdpp Require Export prelude gmap sorting strings list.
From Stdlib Require Export ZArith Lia.
From Stdlib Require Import Strings.Byte ZArith.Zbitwise.

(** ** Bytes

    Rust's [u8] is [Byte.byte]; [Vec<u8>], [&[u8]] and the UTF-8 bytes of a
    [str] are [list byte]. *)
Abbreviation byte := Byte.byte.
Abbreviation bytes := (list Byte.byte).

Declare Scope kad_scope.
Delimit Scope kad_scope with kad.
Open Scope kad_scope.

(** The bytes of an ASCII literal (Rust's [b"..."] and [&str] constants). *)
Notation "'b!' s" := (String.list_byte_of_string s)
  (at level 8, s at level 0, only parsing) : kad_scope.

#[global] Instance byte_eq_dec : EqDecision byte := Byte.byte_eq_dec.

#[global] Program Instance byte_countable : Countable byte :=
  inj_countable Byte.to_N Byte.of_N _.
Next Obligation. intros b; apply Byte.of_to_N. Qed.

Definition byte_to_Z (b : byte) : Z := Z.of_N (Byte.to_N b).

Definition byte_of_Z (z : Z) : byte :=
  default Byte.x00 (Byte.of_N (Z.to_N (z mod 256))).

Lemma byte_to_Z_range b : (0 <= byte_to_Z b < 256)%Z.
Proof. unfold byte_to_Z. pose proof (Byte.to_N_bounded b). lia. Qed.

Lemma byte_of_to_Z b : byte_of_Z (byte_to_Z b) = b.
Proof.
  unfold byte_of_Z. pose proof (byte_to_Z_range b).
  rewrite Z.mod_small by lia. unfold byte_to_Z.
  rewrite N2Z.id. by rewrite Byte.of_to_N.
Qed.

Lemma byte_to_of_Z z : byte_to_Z (byte_of_Z z) = (z mod 256)%Z.
Proof.
  unfold byte_of_Z, byte_to_Z.
  pose proof (Z.mod_pos_bound z 256 ltac:(lia)) as Hz.
  destruct (Byte.of_N (Z.to_N (z mod 256))) as [b|] eqn:E; simpl.
  - apply Byte.to_of_N in E. rewrite E. lia.
  - apply Byte.of_N_None_iff in E. lia.
Qed.

Lemma byte_to_Z_inj b1 b2 : byte_to_Z b1 = byte_to_Z b2 -> b1 = b2.
Proof. intros E. by rewrite <- (byte_of_to_Z b1), <- (byte_of_to_Z b2), E. Qed.

(** ** Machine integers *)

(** Wrap-around of an unsigned [w]-bit integer. *)
Definition wrap (w z : Z) : Z := (z mod 2 ^ w)%Z.

(** [l.len()] as a [usize]. *)
Definition len {A} (l : list A) : Z := Z.of_nat (length l).

(** [x.div_ceil(d)] on [usize]. *)
Definition div_ceil (x d : nat) : nat := (x + (d - 1)) / d.

(** [x.saturating_sub(y)] on an unsigned integer. *)
Definition saturating_sub (x y : Z) : Z := Z.max 0 (x - y).

Definition U16_MAX : Z := 65535.
Definition U32_MAX : Z := 4294967295.
Definition U128_MAX : Z := 340282366920938463463374607431768211455.

Lemma wrap_range w z : (0 <= w)%Z -> (0 <= wrap w z < 2 ^ w)%Z.
Proof. intros. apply Z.mod_pos_bound. by apply Z.pow_pos_nonneg. Qed.

Lemma wrap_small w z : (0 <= z < 2 ^ w)%Z -> wrap w z = z.
Proof. apply Z.mod_small. Qed.

(** ** Big-endian encodings ([to_be_bytes], [from_be_bytes]) *)

Fixpoint be_bytes (n : nat) (z : Z) : bytes :=
  match n with
  | O => []
  | S n => be_bytes n (z / 256) ++ [byte_of_Z z]
  end.

Definition be_value (l : bytes) : Z :=
  fold_left (fun acc b => acc * 256 + byte_to_Z b)%Z l 0%Z.

Lemma be_bytes_length n z : length (be_bytes n z) = n.
Proof.
  revert z. induction n as [|n IH]; intros z; [done|]. simpl.
  rewrite length_app, IH. simpl. lia.
Qed.

Lemma be_value_acc l a :
  fold_left (fun acc b => acc * 256 + byte_to_Z b)%Z l a
  = (a * 256 ^ Z.of_nat (length l) + be_value l)%Z.
Proof.
  unfold be_value. revert a. induction l as [|b l IH]; intros a; simpl; [lia|].
  rewrite IH, (IH (0 * 256 + byte_to_Z b)%Z).
  rewrite Nat2Z.inj_succ, Z.pow_succ_r by lia. ring.
Qed.

Lemma be_value_nil : be_value [] = 0%Z.
Proof. done. Qed.

Lemma be_value_cons b l :
  be_value (b :: l) = (byte_to_Z b * 256 ^ Z.of_nat (length l) + be_value l)%Z.
Proof. unfold be_value at 1. simpl. by rewrite be_value_acc. Qed.

Lemma be_value_app l1 l2 :
  be_value (l1 ++ l2) = (be_value l1 * 256 ^ Z.of_nat (length l2) + be_value l2)%Z.
Proof. unfold be_value at 1. rewrite fold_left_app. by rewrite be_value_acc. Qed.

Lemma be_value_range l : (0 <= be_value l < 256 ^ Z.of_nat (length l))%Z.
Proof.
  induction l as [|b l IH]; [done|].
  rewrite be_value_cons. simpl length. rewrite Nat2Z.inj_succ, Z.pow_succ_r by lia.
  pose proof (byte_to_Z_range b). nia.
Qed.

Lemma pow256 n : (256 ^ Z.of_nat n = 2 ^ (8 * Z.of_nat n))%Z.
Proof. change 256%Z with (2 ^ 8)%Z. rewrite <- Z.pow_mul_r; lia. Qed.

Lemma be_value_bytes n z : be_value (be_bytes n z) = (z mod 256 ^ Z.of_nat n)%Z.
Proof.
  revert z. induction n as [|n IH]; intros z.
  - simpl. by rewrite Z.mod_1_r.
  - cbn [be_bytes]. rewrite be_value_app, IH, be_value_cons, be_value_nil, byte_to_of_Z.
    change (256 ^ Z.of_nat (length [byte_of_Z z]))%Z with 256%Z.
    change (256 ^ Z.of_nat (length (@nil byte)))%Z with 1%Z.
    rewrite Nat2Z.inj_succ, Z.pow_succ_r by lia.
    rewrite Z.rem_mul_r by (try apply Z.pow_pos_nonneg; lia). ring.
Qed.

Lemma be_value_bytes_small n z :
  (0 <= z < 256 ^ Z.of_nat n)%Z -> be_value (be_bytes n z) = z.
Proof. intros. rewrite be_value_bytes. by apply Z.mod_small. Qed.

Lemma be_value_inj l1 l2 :
  length l1 = length l2 -> be_value l1 = be_value l2 -> l1 = l2.
Proof.
  revert l2. induction l1 as [|b1 l1 IH]; intros [|b2 l2]; try done; intros Hl E.
  injection Hl as Hl. rewrite !be_value_cons, Hl in E.
  pose proof (be_value_range l1) as R1. pose proof (be_value_range l2) as R2.
  rewrite Hl in R1. set (p := (256 ^ Z.of_nat (length l2))%Z) in *.
  assert (byte_to_Z b1 = byte_to_Z b2) as Eb by nia.
  apply byte_to_Z_inj in Eb as ->. f_equal. apply IH; [done|nia].
Qed.

Lemma be_bytes_value n l : length l = n -> be_bytes n (be_value l) = l.
Proof.
  intros Hl. apply be_value_inj; [by rewrite be_bytes_length|].
  apply be_value_bytes_small. rewrite <- Hl. apply be_value_range.
Qed.

(** ** Results: Rust's [Result] with the [?] operator *)

Inductive result (A E : Type) : Type :=
| Ok (a : A)
| Err (e : E).
Arguments Ok {A E} a.
Arguments Err {A E} e.

Definition result_bind {A B E} (r : result A E) (k : A -> result B E) : result B E :=
  match r with Ok a => k a | Err e => Err e end.

(** [r.map_err(f)], which [?] also performs through [From]. *)
Definition map_err {A E F} (f : E -> F) (r : result A E) : result A F :=
  match r with Ok a => Ok a | Err e => Err (f e) end.

(** [o.ok_or(e)] *)
Definition ok_or {A E} (e : E) (o : option A) : result A E :=
  match o with Some a => Ok a | None => Err e end.

(** [r.ok()] *)
Definition ok {A E} (r : result A E) : option A :=
  match r with Ok a => Some a | Err _ => None end.

(** [r.unwrap_or(d)] *)
Definition unwrap_or {A E} (d : A) (r : result A E) : A :=
  match r with Ok a => a | Err _ => d end.

Notation "'let?' x := r 'in' k" := (result_bind r (fun x => k))
  (at level 10, x pattern, r at level 100, k at level 200) : kad_scope.

Lemma result_bind_Ok {A B E} (r : result A E) (k : A -> result B E) b :
  result_bind r k = Ok b <-> exists a, r = Ok a /\ k a = Ok b.
Proof.
  destruct r as [a|e]; simpl; split; [by eauto| |done|]; intros (? & Er & ?); by inversion Er; subst.
Qed.

Lemma map_err_Ok {A E F} (f : E -> F) (r : result A E) a :
  map_err f r = Ok a <-> r = Ok a.
Proof. destruct r; simpl; naive_solver. Qed.

Lemma unwrap_or_true {E} (r : result bool E) : unwrap_or false r = true <-> r = Ok true.
Proof. destruct r as [[]|]; simpl; naive_solver. Qed.

(** ** Sorting

    [slice::sort_unstable_by_key] may reorder elements with equal keys in any
    way.  The model is generic in the sort, and the theorems hold for every
    function with the documented contract: the result is a permutation of the
    input, in ascending order of the key. *)
Class UnstableSort := {
  sort_by_key : forall {A : Type}, (A -> Z) -> list A -> list A;
  sort_by_key_perm : forall {A : Type} (key : A -> Z) (l : list A),
    sort_by_key key l ≡ₚ l;
  sort_by_key_sorted : forall {A : Type} (key : A -> Z) (l : list A),
    StronglySorted (fun x y => (key x <= key y)%Z) (sort_by_key key l)
}.

Definition key_le {A} (key : A -> Z) (x y : A) : Prop := (key x <= key y)%Z.

#[global] Instance key_le_dec {A} (key : A -> Z) : RelDecision (key_le key).
Proof. intros x y. unfold key_le. apply _. Defined.

#[global] Instance key_le_trans {A} (key : A -> Z) : Transitive (key_le key).
Proof. intros x y z. unfold key_le. lia. Qed.

#[global] Instance key_le_total {A} (key : A -> Z) : Total (key_le key).
Proof. intros x y. unfold key_le. lia. Qed.

(** The sort used to evaluate the model: a stable merge sort. *)
#[global] Instance merge_sort_unstable : UnstableSort := {
  sort_by_key A key l := merge_sort (key_le key) l;
  sort_by_key_perm A key l := merge_sort_Permutation (key_le key) l;
  sort_by_key_sorted A key l := StronglySorted_merge_sort (key_le key) l
}.

(** ** Exclusive or on unsigned integers *)

Lemma lxor_range w x y :
  (0 <= w -> 0 <= x < 2 ^ w -> 0 <= y < 2 ^ w -> 0 <= Z.lxor x y < 2 ^ w)%Z.
Proof.
  intros Hw Hx Hy. split; [apply Z.lxor_nonneg; lia|].
  destruct (Z.eq_dec (Z.lxor x y) 0) as [->|Hn]; [lia|].
  assert (0 <= Z.lxor x y)%Z by (apply Z.lxor_nonneg; lia).
  apply Z.log2_lt_pow2; [lia|].
  eapply Z.le_lt_trans; [apply Z.log2_lxor; lia|].
  destruct (Z.eq_dec w 0) as [->|]; [assert (x = 0 /\ y = 0)%Z as [-> ->] by lia; done|].
  assert (forall z, 0 <= z < 2 ^ w -> Z.log2 z < w)%Z as Hlog.
  { intros z Hz. destruct (Z.eq_dec z 0) as [->|]; [simpl; lia|]. apply Z.log2_lt_pow2; lia. }
  apply Z.max_lub_lt; auto.
Qed.

Lemma lxor_triangle x y z :
  (0 <= x -> 0 <= y -> 0 <= z -> Z.lxor x z <= Z.lxor x y + Z.lxor y z)%Z.
Proof.
  intros Hx Hy Hz.
  replace (Z.lxor x z) with (Z.lxor (Z.lxor x y) (Z.lxor y z)).
  - rewrite <- (Z.add_lxor_2land (Z.lxor x y)).
    assert (0 <= Z.land (Z.lxor x y) (Z.lxor y z))%Z; [|lia].
    apply Z.land_nonneg. left. apply Z.lxor_nonneg. lia.
  - rewrite Z.lxor_assoc, <- (Z.lxor_assoc y y z), Z.lxor_nilpotent. by rewrite Z.lxor_0_l.
Qed.

Lemma lxor_mod_pow2 x y n :
  (0 <= n -> Z.lxor x y mod 2 ^ n = Z.lxor (x mod 2 ^ n) (y mod 2 ^ n))%Z.
Proof.
  intros Hn. rewrite <- !Z.land_ones by done. apply Z.bits_inj'. intros i Hi.
  rewrite Z.lxor_spec, !Z.land_spec, Z.lxor_spec.
  by destruct (Z.testbit x i), (Z.testbit y i), (Z.testbit (Z.ones n) i).
Qed.

Lemma lxor_div_pow2 x y n :
  (0 <= n -> Z.lxor x y / 2 ^ n = Z.lxor (x / 2 ^ n) (y / 2 ^ n))%Z.
Proof. intros Hn. rewrite <- !Z.shiftr_div_pow2 by done. apply Z.shiftr_lxor. Qed.

(** ** Lists: [iter().position(p)] followed by [remove(pos)] *)

Section position.
Context {A : Type} (P : A -> Prop) `{forall x, Decision (P x)}.

Definition position (l : list A) : option nat := fst <$> list_find P l.

Lemma position_Some l i :
  position l = Some i ->
  exists l1 x l2, l = l1 ++ x :: l2 /\ P x /\ Forall (fun y => ~ P y) l1 /\
                  delete i l = l1 ++ l2.
Proof.
  unfold position. intros Hi.
  destruct (list_find P l) as [[j x]|] eqn:E; simplify_eq/=.
  apply list_find_Some in E as (Hl & Hx & Hbefore).
  exists (take i l), x, (drop (S i) l). split_and!; [|done| |].
  - by rewrite take_drop_middle.
  - apply Forall_lookup. intros k y Hk. apply lookup_take_Some in Hk as [Hk Hlt].
    by apply (Hbefore k).
  - apply delete_take_drop.
Qed.

Lemma position_None l : position l = None <-> Forall (fun y => ~ P y) l.
Proof.
  unfold position. rewrite fmap_None. apply list_find_None.
Qed.

End position.

(** ** Lists of records with unique keys *)

Section unique_keys.
Context {A K : Type} `{EqDecision K} (key : A -> K).

Lemma NoDup_key_inj (l : list A) x y :
  NoDup (key <$> l) -> x ∈ l -> y ∈ l -> key x = key y -> x = y.
Proof.
  intros Hnd Hx Hy E. induction l as [|z l IH]; [set_solver|].
  apply NoDup_cons in Hnd as [Hz Hnd].
  assert (forall w, w ∈ l -> key w <> key z) as Hne.
  { intros w Hw Ew. apply Hz. rewrite <- Ew. by apply list_elem_of_fmap_2. }
  apply elem_of_cons in Hx as [->|Hx], Hy as [->|Hy]; naive_solver.
Qed.

Lemma NoDup_fmap_filter (P : A -> Prop) `{forall x, Decision (P x)} (l : list A) :
  NoDup (key <$> l) -> NoDup (key <$> filter P l).
Proof.
  intros Hnd. eapply sublist_NoDup; [exact Hnd|].
  apply fmap_sublist, sublist_filter.
Qed.

Lemma NoDup_fmap_take n (l : list A) : NoDup (key <$> l) -> NoDup (key <$> take n l).
Proof.
  intros Hnd. eapply sublist_NoDup; [exact Hnd|]. apply fmap_sublist, sublist_take.
Qed.

Lemma NoDup_fmap_delete i (l : list A) : NoDup (key <$> l) -> NoDup (key <$> delete i l).
Proof.
  intros Hnd. eapply sublist_NoDup; [exact Hnd|]. apply fmap_sublist, sublist_delete.
Qed.

End unique_keys.

Lemma Forall_delete {A} (P : A -> Prop) i (l : list A) : Forall P l -> Forall P (delete i l).
Proof. intros. rewrite delete_take_drop. apply Forall_app; split; auto using Forall_take, Forall_drop. Qed.

Lemma filter_all {A} (P : A -> Prop) `{!forall x, Decision (P x)} l : Forall P l -> filter P l = l.
Proof. induction 1 as [|x l Hx _ IH]; [done|]. by rewrite filter_cons_True, IH. Qed.

Lemma filter_none {A} (P : A -> Prop) `{!forall x, Decision (P x)} l : Forall (fun x => ~ P x) l -> filter P l = [].
Proof. induction 1 as [|x l Hx _ IH]; [done|]. by rewrite filter_cons_False. Qed.

Lemma Forall_filter {A} (P Q : A -> Prop) `{forall x, Decision (Q x)} (l : list A) :
  Forall P l -> Forall P (filter Q l).
Proof. rewrite !Forall_forall. intros HP x Hx%list_elem_of_filter. naive_solver. Qed.

(** ** Lists updated by index *)

Lemma insert_middle {A} (l1 l2 : list A) x y : <[length l1 := y]> (l1 ++ x :: l2) = l1 ++ y :: l2.
Proof. by rewrite insert_app_r_alt, Nat.sub_diag by lia. Qed.

Lemma lookup_split {A} (l : list A) i x :
  l !! i = Some x -> exists l1 l2, l = l1 ++ x :: l2 /\ i = length l1.
Proof.
  intros Hx. exists (take i l), (drop (S i) l). rewrite take_drop_middle by done.
  apply lookup_lt_Some in Hx. by rewrite length_take, Nat.min_l by lia.
Qed.

(** ** Automation

    [kad] holds the structural facts on lists used across the components. *)
Create HintDb kad.
#[export] Hint Resolve NoDup_fmap_filter NoDup_fmap_take NoDup_fmap_delete
  Forall_delete Forall_take Forall_drop Forall_filter : kad.

(** Split on the innermost [match] or [if] of the goal or of a hypothesis. *)
Ltac break_match :=
  match goal with
  | |- context [match ?x with _ => _ end] =>
      lazymatch x with context [match _ with _ => _ end] => fail | _ => destruct x eqn:? end
  | H : context [match ?x with _ => _ end] |- _ =>
      lazymatch x with context [match _ with _ => _ end] => fail | _ => destruct x eqn:? end
  end.
