(* ===== verification/Node.v ===== *)
(** * Node: peers, XOR distances and the bounded heap of a lookup

    Models [src/src/node.rs] (and [ID_LEN] of [src/src/utils.rs]): the [Node]
    record with its folded 128-bit identifier, and [NodeHeap], the bounded
    min-heap ordered by XOR distance to a pivot that iterative lookups use. *)
From S2P Require Import Prelude.
From Stdlib Require Import Strings.Byte.
Local Open Scope Z_scope.

(** ** Node *)

Definition ID_LEN : nat := 20.

Record Node := mkNode {
  id : bytes;
  ip : option string;
  port : option Z;
  long_id : Z
}.

#[global] Instance Node_eq_dec : EqDecision Node.
Proof. solve_decision. Defined.

(** [u128::from_be_bytes(id[..16]) ^ ((u32::from_be_bytes(id[16..20]) as u128) << 96)] *)
Definition id_to_u128 (i : bytes) : Z :=
  let base := be_value (take 16 i) in
  let tail := be_value (take 4 (drop 16 i)) in
  Z.lxor base (wrap 128 (Z.shiftl tail 96)).

Definition Node_new (i : bytes) (ip : option string) (port : option Z) : Node :=
  mkNode i ip port (id_to_u128 i).

Definition from_id (i : bytes) : Node := Node_new i None None.

Definition distance_to (self other : Node) : Z := Z.lxor (long_id self) (long_id other).

Definition same_home_as (self other : Node) : bool :=
  bool_decide (ip self = ip other) && bool_decide (port self = port other).

Definition address (n : Node) : option (string * Z) :=
  match ip n, port n with
  | Some i, Some p => Some (i, p)
  | _, _ => None
  end.

(** What [Node::new] establishes on a 20-byte identifier. *)
Definition wf_node (n : Node) : Prop :=
  length (id n) = ID_LEN /\ long_id n = id_to_u128 (id n).

Lemma from_id_wf i : length i = ID_LEN -> wf_node (from_id i).
Proof. done. Qed.

Lemma Node_new_wf i a p : length i = ID_LEN -> wf_node (Node_new i a p).
Proof. done. Qed.

(** The three fields of an identifier that the fold combines. *)
Definition id_head (i : bytes) : Z := be_value (take 4 i).
Definition id_mid (i : bytes) : bytes := take 12 (drop 4 i).
Definition id_tail (i : bytes) : Z := be_value (take 4 (drop 16 i)).

Lemma id_field_range (i : bytes) n k :
  0 <= be_value (take n (drop k i)) < 256 ^ Z.of_nat n.
Proof.
  pose proof (be_value_range (take n (drop k i))) as R.
  assert (256 ^ Z.of_nat (length (take n (drop k i))) <= 256 ^ Z.of_nat n); [|lia].
  apply Z.pow_le_mono_r; [lia|]. rewrite length_take. lia.
Qed.

Lemma id_base_split (i : bytes) :
  length i = ID_LEN ->
  be_value (take 16 i) = id_head i * 2 ^ 96 + be_value (id_mid i).
Proof.
  intros Hl. unfold id_head, id_mid.
  change 16%nat with (4 + 12)%nat. rewrite <- take_take_drop, be_value_app. rewrite length_take, length_drop, Hl. done.
Qed.

(** The fold in arithmetic form: the top 32 bits are the exclusive or of the
    first and the last four bytes, the low 96 bits the twelve bytes between. *)
Lemma id_to_u128_split (i : bytes) :
  length i = ID_LEN ->
  id_to_u128 i / 2 ^ 96 = Z.lxor (id_head i) (id_tail i) /\
  id_to_u128 i mod 2 ^ 96 = be_value (id_mid i).
Proof.
  intros Hl. unfold id_to_u128. rewrite id_base_split by done.
  pose proof (id_field_range i 4 16) as Ht. fold (id_tail i) in *.
  pose proof (id_field_range i 12 4) as Hm. fold (id_mid i) in Hm.
  change (256 ^ Z.of_nat 4) with (2 ^ 32) in Ht.
  change (256 ^ Z.of_nat 12) with (2 ^ 96) in Hm.
  rewrite Z.shiftl_mul_pow2 by lia. rewrite wrap_small by lia.
  rewrite lxor_div_pow2, lxor_mod_pow2 by lia.
  rewrite Z.div_add_l, Z.div_small, Z.add_0_r, Z.div_mul by lia.
  rewrite Z.add_comm, Z.mod_add, Z.mod_small, Z.mod_mul, Z.lxor_0_r by lia. done.
Qed.

Lemma id_to_u128_range (i : bytes) : length i = ID_LEN -> 0 <= id_to_u128 i < 2 ^ 128.
Proof.
  intros Hl. unfold id_to_u128. apply lxor_range; [lia| |apply wrap_range; lia].
  pose proof (be_value_range (take 16 i)) as R. by rewrite length_take, Hl in R.
Qed.

Lemma wf_node_range n : wf_node n -> 0 <= long_id n < 2 ^ 128.
Proof. intros [Hl ->]. by apply id_to_u128_range. Qed.

Lemma distance_to_range a b :
  wf_node a -> wf_node b -> 0 <= distance_to a b < 2 ^ 128.
Proof. intros. apply lxor_range; [lia|by apply wf_node_range..]. Qed.

Lemma distance_to_sym a b : distance_to a b = distance_to b a.
Proof. apply Z.lxor_comm. Qed.

Lemma distance_to_zero a b : distance_to a b = 0 <-> long_id a = long_id b.
Proof. apply Z.lxor_eq_0_iff. Qed.

Lemma id_mid_inj (i j : bytes) :
  length i = ID_LEN -> length j = ID_LEN ->
  be_value (id_mid i) = be_value (id_mid j) -> id_mid i = id_mid j.
Proof.
  intros Hi Hj. apply be_value_inj. unfold id_mid.
  by rewrite !length_take, !length_drop, Hi, Hj.
Qed.

(** Two identifiers fold to the same integer exactly when their middle
    twelve bytes agree and so do the exclusive ors of their outer words. *)
Lemma id_to_u128_eq_iff (i j : bytes) :
  length i = ID_LEN -> length j = ID_LEN ->
  id_to_u128 i = id_to_u128 j <->
  id_mid i = id_mid j /\ Z.lxor (id_head i) (id_tail i) = Z.lxor (id_head j) (id_tail j).
Proof.
  intros Hi Hj.
  destruct (id_to_u128_split i Hi) as [Di Mi]. destruct (id_to_u128_split j Hj) as [Dj Mj].
  split.
  - intros E. rewrite E in Di, Mi. split; [|congruence].
    apply id_mid_inj; congruence.
  - intros [Em Ex]. rewrite (Z.div_mod (id_to_u128 i) (2 ^ 96)) by lia.
    rewrite (Z.div_mod (id_to_u128 j) (2 ^ 96)) by lia. congruence.
Qed.

(** ** NodeHeap

    [std::collections::BinaryHeap] keeps a bag of entries: [push] adds one,
    [pop] removes a greatest one for [Ord], and [iter]/[drain] list the bag in an
    unspecified order.  The model keeps the bag as a list; whatever the listing
    order, every ordered view goes through [sort_unstable_by_key]. *)

Record HeapEntry := mkEntry { distance : Z; node : Node }.

(** Lexicographic comparison of identifiers, [<[u8; 20] as Ord>::cmp]. *)
Fixpoint id_cmp (a b : bytes) : comparison :=
  match a, b with
  | [], [] => Eq
  | [], _ :: _ => Lt
  | _ :: _, [] => Gt
  | x :: a, y :: b =>
      match byte_to_Z x ?= byte_to_Z y with Eq => id_cmp a b | c => c end
  end.

(** [HeapEntry::cmp]: both comparisons are reversed, so that the max-heap pops
    the smallest distance first. *)
Definition HeapEntry_cmp (self other : HeapEntry) : comparison :=
  match distance other ?= distance self with
  | Eq => id_cmp (id (node other)) (id (node self))
  | c => c
  end.

Record NodeHeap := mkHeap {
  hnode : Node;
  heap : list HeapEntry;
  contacted : gset bytes;
  maxsize : nat
}.

Definition set_heap (h : NodeHeap) (l : list HeapEntry) : NodeHeap :=
  mkHeap (hnode h) l (contacted h) (maxsize h).

Definition entry_id (e : HeapEntry) : bytes := id (node e).

Definition NodeHeap_new (n : Node) (maxsize : nat) : NodeHeap := mkHeap n [] ∅ maxsize.

Definition NodeHeap_contains (h : NodeHeap) (n : Node) : bool :=
  existsb (fun e => bool_decide (entry_id e = id n)) (heap h).

(** The loop body of [push]. *)
Definition push_node (h : NodeHeap) (n : Node) : NodeHeap :=
  if NodeHeap_contains h n then h
  else set_heap h (heap h ++ [mkEntry (distance_to (hnode h) n) n]).

Section heap_sort.
Context `{UnstableSort}.

Definition enforce_maxsize (h : NodeHeap) : NodeHeap :=
  if decide (length (heap h) <= maxsize h)%nat then h
  else set_heap h (take (maxsize h) (sort_by_key distance (heap h))).

Definition push (h : NodeHeap) (nodes : list Node) : NodeHeap :=
  enforce_maxsize (fold_left push_node nodes h).

Definition push_one (h : NodeHeap) (n : Node) : NodeHeap := push h [n].

Definition NodeHeap_iter (h : NodeHeap) : list Node :=
  node <$> take (maxsize h) (sort_by_key distance (heap h)).

Definition to_vec (h : NodeHeap) : list Node := NodeHeap_iter h.

Definition get_ids (h : NodeHeap) : list bytes := id <$> NodeHeap_iter h.

Definition get_uncontacted (h : NodeHeap) : list Node :=
  filter (fun n => id n ∉ contacted h) (NodeHeap_iter h).

Definition have_contacted_all (h : NodeHeap) : bool :=
  match get_uncontacted h with [] => true | _ => false end.

End heap_sort.

Definition heap_remove (h : NodeHeap) (peers : list bytes) : NodeHeap :=
  match peers with
  | [] => h
  | _ => set_heap h (filter (fun e => entry_id e ∉ peers) (heap h))
  end.

(** The entry [BinaryHeap::pop] takes out: a greatest one for [HeapEntry_cmp]. *)
Definition entry_max (a b : HeapEntry) : HeapEntry :=
  match HeapEntry_cmp a b with Lt => b | _ => a end.

Definition heap_top (l : list HeapEntry) : option HeapEntry :=
  match l with [] => None | e :: l => Some (fold_left entry_max l e) end.

Definition popleft (h : NodeHeap) : NodeHeap * option Node :=
  match heap_top (heap h) with
  | None => (h, None)
  | Some e =>
      match position (fun e' => entry_id e' = entry_id e) (heap h) with
      | Some i => (set_heap h (delete i (heap h)), Some (node e))
      | None => (h, None)
      end
  end.

Definition get_node (h : NodeHeap) (i : bytes) : option Node :=
  node <$> (snd <$> list_find (fun e => entry_id e = i) (heap h)).

Definition NodeHeap_len (h : NodeHeap) : nat := length (heap h) `min` maxsize h.

Definition NodeHeap_is_empty (h : NodeHeap) : bool :=
  match heap h with [] => true | _ => false end.

Definition mark_contacted (h : NodeHeap) (n : Node) : NodeHeap :=
  mkHeap (hnode h) (heap h) ({[id n]} ∪ contacted h) (maxsize h).

(** *** Invariant of the heap *)

Record heap_wf (h : NodeHeap) : Prop := {
  hw_nodup : NoDup (entry_id <$> heap h);
  hw_dist : Forall (fun e => distance e = distance_to (hnode h) (node e)) (heap h);
  hw_nodes : Forall (fun e => wf_node (node e)) (heap h);
  hw_size : (length (heap h) <= maxsize h)%nat
}.

Lemma NodeHeap_new_wf n k : heap_wf (NodeHeap_new n k).
Proof. split; simpl; try constructor; lia. Qed.

Lemma contains_spec h n : NodeHeap_contains h n = true <-> id n ∈ entry_id <$> heap h.
Proof.
  unfold NodeHeap_contains. rewrite existsb_exists, list_elem_of_fmap. split.
  - intros (e & He & Hd%bool_decide_eq_true). exists e. by rewrite list_elem_of_In.
  - intros (e & E & He). exists e. rewrite <- list_elem_of_In.
    split; [done|]. by apply bool_decide_eq_true.
Qed.

(** What a batch of [push_node] adds. *)
Record push_spec (h h' : NodeHeap) (nodes : list Node) (extra : list HeapEntry) : Prop := {
  ps_heap : heap h' = heap h ++ extra;
  ps_node : hnode h' = hnode h;
  ps_contacted : contacted h' = contacted h;
  ps_maxsize : maxsize h' = maxsize h;
  ps_extra : Forall (fun e => node e ∈ nodes /\ distance e = distance_to (hnode h) (node e)) extra;
  ps_all : Forall (fun n => id n ∈ entry_id <$> (heap h ++ extra)) nodes;
  ps_nodup : NoDup (entry_id <$> heap h) -> NoDup (entry_id <$> (heap h ++ extra))
}.

Lemma push_node_spec h n : exists extra, push_spec h (push_node h n) [n] extra.
Proof.
  unfold push_node. destruct (NodeHeap_contains h n) eqn:E.
  - apply contains_spec in E. exists []. split; rewrite ?app_nil_r; auto; by constructor.
  - exists [mkEntry (distance_to (hnode h) n) n].
    assert (id n ∉ entry_id <$> heap h) as Hn by (rewrite <- contains_spec; congruence).
    split; simpl; try done; rewrite ?fmap_app.
    + repeat constructor; simpl; set_solver.
    + repeat constructor. simpl. unfold entry_id at 2; simpl. set_solver.
    + intros Hnd. apply NoDup_app. split_and!; [done| |by apply NoDup_singleton].
      simpl. unfold entry_id at 2; simpl. set_solver.
Qed.

Lemma fold_push_spec nodes h : exists extra, push_spec h (fold_left push_node nodes h) nodes extra.
Proof.
  revert h. induction nodes as [|n nodes IH]; intros h; simpl.
  - exists []. split; rewrite ?app_nil_r; auto; constructor.
  - destruct (push_node_spec h n) as [x1 S1]. destruct (IH (push_node h n)) as [x2 S2].
    destruct S1 as [H1 N1 C1 M1 E1 A1 D1], S2 as [H2 N2 C2 M2 E2 A2 D2].
    rewrite H1 in H2, A2, D2. rewrite <- app_assoc in H2. exists (x1 ++ x2).
    split; [done|congruence..| | |].
    + apply Forall_app; split; eapply Forall_impl; try done; rewrite ?N1; simpl;
        intros e [? ?]; set_solver.
    + rewrite app_assoc. constructor; [|done]. inversion A1; subst.
      rewrite fmap_app. set_solver.
    + rewrite app_assoc. auto.
Qed.

Section heap_theorems.
Context `{UnstableSort}.

Lemma sort_elem (h : NodeHeap) e : e ∈ sort_by_key distance (heap h) <-> e ∈ heap h.
Proof. by rewrite sort_by_key_perm. Qed.

Lemma sort_take_le {A} (key : A -> Z) k (l : list A) x y :
  x ∈ take k (sort_by_key key l) -> y ∈ drop k (sort_by_key key l) -> key x <= key y.
Proof.
  intros Hx Hy. pose proof (sort_by_key_sorted key l) as Hs.
  rewrite <- (take_drop k (sort_by_key key l)) in Hs.
  by apply (StronglySorted_app_1_elem_of _ _ _ _ _ Hs).
Qed.

Lemma enforce_maxsize_sub h e : e ∈ heap (enforce_maxsize h) -> e ∈ heap h.
Proof.
  unfold enforce_maxsize. case_decide; simpl; [done|].
  intros He. apply sort_elem. by apply (elem_of_take _ (maxsize h)) in He as (i & ? & _);
    apply list_elem_of_lookup; eauto.
Qed.

Lemma enforce_maxsize_wf h :
  NoDup (entry_id <$> heap h) ->
  Forall (fun e => distance e = distance_to (hnode h) (node e)) (heap h) ->
  Forall (fun e => wf_node (node e)) (heap h) ->
  heap_wf (enforce_maxsize h).
Proof.
  unfold enforce_maxsize. intros Hnd Hd Hn. case_decide; [by split|].
  split; simpl.
  - apply NoDup_fmap_take. by rewrite (sort_by_key_perm distance).
  - apply Forall_take. by rewrite (sort_by_key_perm distance).
  - apply Forall_take. by rewrite (sort_by_key_perm distance).
  - rewrite length_take. lia.
Qed.

Lemma push_wf h nodes : heap_wf h -> Forall wf_node nodes -> heap_wf (push h nodes).
Proof.
  intros [Hnd Hd Hn _] Hw. unfold push.
  destruct (fold_push_spec nodes h) as [x [Eh En _ _ Ex _ D]].
  apply enforce_maxsize_wf; rewrite Eh, ?En; auto; apply Forall_app; split; auto;
    eapply Forall_impl; [exact Ex| |exact Ex|]; simpl; intros e [He ?]; [done|].
  by apply (proj1 (Forall_forall _ _) Hw).
Qed.

Lemma push_fields h nodes :
  hnode (push h nodes) = hnode h /\ contacted (push h nodes) = contacted h /\
  maxsize (push h nodes) = maxsize h.
Proof.
  unfold push, enforce_maxsize. destruct (fold_push_spec nodes h) as [x []].
  case_decide; simpl; auto.
Qed.

(** A batch insertion keeps the closest candidates: a node of the old heap or
    of the batch is either represented in the new heap, or the new heap is full
    and none of its entries is farther than that node. *)
Lemma push_closest h nodes n :
  heap_wf h -> Forall wf_node nodes ->
  n ∈ (node <$> heap h) ++ nodes ->
  id n ∈ entry_id <$> heap (push h nodes) \/
  (length (heap (push h nodes)) = maxsize h /\
   Forall (fun e => distance e <= distance_to (hnode h) n) (heap (push h nodes))).
Proof.
  intros [Hnd Hd Hn _] Hw Hin. unfold push.
  destruct (fold_push_spec nodes h) as [x [Eh En _ Em Ex Ea D]].
  specialize (D Hnd). rewrite <- Eh in D, Ea.
  assert (exists e, e ∈ heap (fold_left push_node nodes h) /\ entry_id e = id n /\
                    distance e = distance_to (hnode h) n) as (e & He & Ei & Edist).
  { apply elem_of_app in Hin as [(e & -> & He)%list_elem_of_fmap|Hin].
    - exists e. rewrite Eh. split_and!; [set_solver|done|].
      by apply (proj1 (Forall_forall _ _) Hd).
    - pose proof (proj1 (Forall_forall _ _) Ea n Hin) as (e & Ei & He)%list_elem_of_fmap.
      exists e. split_and!; [done|done|]. rewrite Eh in He.
      assert (wf_node (node e) /\ distance e = distance_to (hnode h) (node e)) as [Hwe ->].
      { apply elem_of_app in He as [He|He].
        - split; [by apply (proj1 (Forall_forall _ _) Hn)|by apply (proj1 (Forall_forall _ _) Hd)].
        - destruct (proj1 (Forall_forall _ _) Ex e He) as [? ?].
          split; [by apply (proj1 (Forall_forall _ _) Hw)|done]. }
      unfold distance_to. destruct Hwe as [_ ->].
      destruct (proj1 (Forall_forall _ _) Hw n Hin) as [_ ->].
      unfold entry_id in Ei. by rewrite Ei. }
  unfold enforce_maxsize. case_decide as Hsz; [left; apply list_elem_of_fmap; eauto|].
  simpl. rewrite Em in *.
  apply sort_elem in He. rewrite <- (take_drop (maxsize h)) in He.
  apply elem_of_app in He as [He|He]; [left; apply list_elem_of_fmap; eauto|right].
  split.
  - rewrite length_take, (Permutation_length (sort_by_key_perm _ _)). lia.
  - apply Forall_forall. intros e' He'. rewrite <- Edist.
    by eapply sort_take_le.
Qed.

Lemma sorted_nodes h (l : list HeapEntry) :
  Forall (fun e => distance e = distance_to (hnode h) (node e)) l ->
  StronglySorted (fun x y => distance x <= distance y) l ->
  StronglySorted (fun x y => distance_to (hnode h) x <= distance_to (hnode h) y) (node <$> l).
Proof.
  intros Hd Hs. induction Hs as [|e l Hs IH Hle]; simpl; [constructor|].
  apply Forall_cons in Hd as [He Hd]. constructor; [by apply IH|].
  apply Forall_fmap, Forall_forall. intros x Hx. simpl. rewrite <- He.
  rewrite <- (proj1 (Forall_forall _ _) Hd x Hx). by apply (proj1 (Forall_forall _ _) Hle).
Qed.

Lemma iter_wf_eq h :
  heap_wf h -> NodeHeap_iter h = node <$> sort_by_key distance (heap h).
Proof.
  intros Hw. unfold NodeHeap_iter. rewrite take_ge; [done|].
  rewrite (Permutation_length (sort_by_key_perm _ _)). apply hw_size, Hw.
Qed.

Lemma iter_perm h : heap_wf h -> NodeHeap_iter h ≡ₚ node <$> heap h.
Proof. intros Hw. rewrite iter_wf_eq by done. by rewrite sort_by_key_perm. Qed.

Lemma iter_sorted h :
  heap_wf h ->
  StronglySorted (fun x y => distance_to (hnode h) x <= distance_to (hnode h) y)
                 (NodeHeap_iter h).
Proof.
  intros Hw. rewrite iter_wf_eq by done. apply sorted_nodes; [|apply sort_by_key_sorted].
  rewrite sort_by_key_perm. apply hw_dist, Hw.
Qed.

Lemma iter_nodup h : heap_wf h -> NoDup (id <$> NodeHeap_iter h).
Proof.
  intros Hw. rewrite iter_perm by done. rewrite <- list_fmap_compose. apply Hw.
Qed.

Lemma get_uncontacted_spec h n :
  heap_wf h ->
  n ∈ get_uncontacted h <-> n ∈ node <$> heap h /\ id n ∉ contacted h.
Proof.
  intros Hw. unfold get_uncontacted. rewrite list_elem_of_filter, iter_perm by done. tauto.
Qed.

Lemma have_contacted_all_spec h :
  heap_wf h ->
  have_contacted_all h = true <-> Forall (fun e => entry_id e ∈ contacted h) (heap h).
Proof.
  intros Hw. unfold have_contacted_all. rewrite Forall_forall. split.
  - destruct (get_uncontacted h) as [|n l] eqn:E; [|done]. intros _ e He.
    destruct (decide (entry_id e ∈ contacted h)); [done|exfalso].
    assert (node e ∈ get_uncontacted h) as Hin; [|rewrite E in Hin; set_solver].
    apply get_uncontacted_spec; [done|]. split; [by apply list_elem_of_fmap_2|done].
  - intros Hall. destruct (get_uncontacted h) as [|n l] eqn:E; [done|exfalso].
    assert (n ∈ get_uncontacted h) as Hin by (rewrite E; set_solver).
    apply get_uncontacted_spec in Hin as [(e & -> & He)%list_elem_of_fmap Hn]; [|done].
    by apply Hn, (Hall e).
Qed.

End heap_theorems.

Lemma heap_remove_ids h peers :
  heap (heap_remove h peers) = filter (fun e => entry_id e ∉ peers) (heap h).
Proof.
  destruct peers as [|p ps]; simpl; [|done].
  induction (heap h) as [|e l IH]; [done|]. rewrite filter_cons, decide_True, <- IH; set_solver.
Qed.

Lemma heap_remove_wf h peers : heap_wf h -> heap_wf (heap_remove h peers).
Proof.
  intros [Hnd Hd Hn Hs].
  assert (hnode (heap_remove h peers) = hnode h /\ maxsize (heap_remove h peers) = maxsize h)
    as [En Em] by (by destruct peers).
  split; rewrite heap_remove_ids, ?En, ?Em; auto with kad; [by apply Forall_filter..|].
  etrans; [apply length_filter|done].
Qed.

Lemma entry_max_le a b :
  distance (entry_max a b) <= distance a /\ distance (entry_max a b) <= distance b /\
  (entry_max a b = a \/ entry_max a b = b).
Proof.
  unfold entry_max, HeapEntry_cmp. destruct (Z.compare_spec (distance b) (distance a)).
  - destruct (id_cmp _ _); split_and!; auto; lia.
  - split_and!; auto; lia.
  - split_and!; auto; lia.
Qed.

Lemma heap_top_spec l e :
  heap_top l = Some e -> e ∈ l /\ Forall (fun e' => distance e <= distance e') l.
Proof.
  destruct l as [|x l]; [done|]. simpl. intros [= <-]. revert x.
  induction l as [|y l IH]; intros x; simpl; [split; [set_solver|repeat constructor; lia]|].
  destruct (IH (entry_max x y)) as [Hin Hle]. destruct (entry_max_le x y) as (Hx & Hy & Ho).
  apply Forall_cons in Hle as [Hm Hle]. split.
  - apply elem_of_cons in Hin as [->|]; [destruct Ho as [->| ->]; set_solver|set_solver].
  - repeat constructor; [lia|lia|done].
Qed.

(** [popleft] takes out the closest node, exactly that one, and keeps the
    invariant; it answers [None] only on the empty heap. *)
Lemma popleft_spec h :
  heap_wf h ->
  match popleft h with
  | (h', None) => h' = h /\ heap h = []
  | (h', Some n) =>
      heap_wf h' /\ node <$> heap h ≡ₚ n :: (node <$> heap h') /\
      Forall (fun e => distance_to (hnode h) n <= distance e) (heap h)
  end.
Proof.
  intros [Hnd Hd Hn Hs]. unfold popleft.
  destruct (heap_top (heap h)) as [e|] eqn:Et.
  2:{ split; [done|]. by destruct (heap h). }
  apply heap_top_spec in Et as [Hin Hle].
  destruct (position _ _) as [i|] eqn:Ep.
  2:{ apply position_None in Ep. destruct (proj1 (Forall_forall _ _) Ep e Hin). done. }
  apply position_Some in Ep as (l1 & x & l2 & El & Ex & _ & Ed).
  assert (x = e) as ->.
  { apply (NoDup_key_inj entry_id (heap h)); rewrite ?El in *; try done; set_solver. }
  split_and!.
  - split; simpl; auto with kad. rewrite Ed. rewrite El in Hs.
    rewrite length_app in *. simpl in Hs. lia.
  - simpl. rewrite Ed, El, !fmap_app. simpl. by rewrite Permutation_middle.
  - rewrite <- (proj1 (Forall_forall _ _) Hd e Hin). done.
Qed.

(** *** Theorems *)

(** An identifier that differs from [i] in its first and its last word. *)
Definition id_twin (i : bytes) : bytes :=
  be_bytes 4 (Z.lxor (id_head i) 1) ++ id_mid i ++ be_bytes 4 (Z.lxor (id_tail i) 1).

Lemma id_word_range (i : bytes) k : 0 <= Z.lxor (be_value (take 4 (drop k i))) 1 < 256 ^ Z.of_nat 4.
Proof. apply (lxor_range 32); [lia|apply id_field_range|lia]. Qed.

Lemma id_twin_fields (i : bytes) :
  length i = ID_LEN ->
  length (id_twin i) = ID_LEN /\ id_head (id_twin i) = Z.lxor (id_head i) 1 /\
  id_mid (id_twin i) = id_mid i /\ id_tail (id_twin i) = Z.lxor (id_tail i) 1.
Proof.
  intros Hl. assert (length (id_mid i) = 12%nat) as Hm.
  { unfold id_mid. by rewrite length_take, length_drop, Hl. }
  unfold id_twin. split_and!.
  - by rewrite !length_app, !be_bytes_length, Hm.
  - unfold id_head at 1. rewrite take_app_length' by (by rewrite be_bytes_length).
    apply be_value_bytes_small. apply (id_word_range i 0).
  - unfold id_mid at 1. rewrite drop_app_length' by (by rewrite be_bytes_length).
    by rewrite take_app_length' by done.
  - unfold id_tail at 1. rewrite app_assoc, drop_app_length'
      by (by rewrite length_app, be_bytes_length, Hm).
    rewrite take_ge by (by rewrite be_bytes_length).
    apply be_value_bytes_small. apply (id_word_range i 16).
Qed.

(** The 160-bit identifier does not survive the fold into [long_id].  Two
    identifiers get the same [long_id] exactly when they agree on bytes 4 to 15
    and on the exclusive or of their outer words, and every identifier has a
    different one at XOR distance zero (so the comments that say no bit and no
    information is lost do not hold). *)
Theorem id_fold_collisions (i : bytes) :
  length i = ID_LEN ->
  (forall j, length j = ID_LEN ->
     (id_to_u128 i = id_to_u128 j <->
      id_mid i = id_mid j /\
      Z.lxor (id_head i) (id_tail i) = Z.lxor (id_head j) (id_tail j))) /\
  exists j, length j = ID_LEN /\ j <> i /\ distance_to (from_id i) (from_id j) = 0.
Proof.
  intros Hl. split; [intros j Hj; by apply id_to_u128_eq_iff|].
  destruct (id_twin_fields i Hl) as (Hj & Eh & Em & Et).
  exists (id_twin i). split_and!; [done| |].
  - intros E. rewrite E in Eh. symmetry in Eh. apply (f_equal (Z.lxor (id_head i))) in Eh.
    rewrite <- Z.lxor_assoc, Z.lxor_nilpotent, Z.lxor_0_l in Eh. done.
  - apply distance_to_zero. simpl. apply id_to_u128_eq_iff; [done..|].
    rewrite Eh, Em, Et. split; [done|].
    rewrite (Z.lxor_comm (id_tail i)), <- Z.lxor_assoc, (Z.lxor_assoc (id_head i)).
    by rewrite Z.lxor_nilpotent, Z.lxor_0_r.
Qed.

Lemma id_fold_collisions_witness :
  exists j, length j = ID_LEN /\ j <> be_bytes 20 5 /\
            distance_to (from_id (be_bytes 20 5)) (from_id j) = 0.
Proof. apply (proj2 (id_fold_collisions (be_bytes 20 5) eq_refl)). Defined.

(** On the nodes [Node::new] builds, [distance_to] is a pseudometric with
    128-bit values: symmetric, zero exactly between equal [long_id]s, and it
    satisfies the triangle inequality routing relies on. *)
Lemma distance_pseudometric (a b c : Node) :
  wf_node a -> wf_node b -> wf_node c ->
  0 <= distance_to a b < 2 ^ 128 /\
  distance_to a b = distance_to b a /\
  (distance_to a b = 0 <-> long_id a = long_id b) /\
  distance_to a c <= distance_to a b + distance_to b c.
Proof.
  intros Ha Hb Hc. split_and!; try by apply distance_to_range.
  - apply distance_to_sym.
  - apply distance_to_zero.
  - apply lxor_triangle; by apply wf_node_range.
Qed.

(** [NodeHeap::push] preserves the heap's invariant (unique identifiers,
    distances to the pivot, at most [maxsize] entries) and keeps the closest
    candidates: a node of the heap or of the batch that is not kept is no closer
    than any kept one, and is dropped only when the heap is full. *)
Theorem push_keeps_closest `{UnstableSort} (h : NodeHeap) (nodes : list Node) :
  heap_wf h -> Forall wf_node nodes ->
  heap_wf (push h nodes) /\
  forall n, n ∈ (node <$> heap h) ++ nodes ->
    id n ∈ entry_id <$> heap (push h nodes) \/
    (length (heap (push h nodes)) = maxsize h /\
     Forall (fun e => distance e <= distance_to (hnode h) n) (heap (push h nodes))).
Proof. intros Hh Hn. split; [by apply push_wf|intros; by apply push_closest]. Qed.

(** [iter] (hence [to_vec] and [get_ids]) lists each node of the heap once,
    closest first, and [get_uncontacted] is that list without the contacted
    nodes, so [have_contacted_all] means every entry has been contacted. *)
Theorem iter_closest_first `{UnstableSort} (h : NodeHeap) :
  heap_wf h ->
  StronglySorted (fun x y => distance_to (hnode h) x <= distance_to (hnode h) y) (to_vec h) /\
  to_vec h ≡ₚ node <$> heap h /\ NoDup (get_ids h) /\
  get_uncontacted h = filter (fun n => id n ∉ contacted h) (to_vec h) /\
  (have_contacted_all h = true <-> Forall (fun e => entry_id e ∈ contacted h) (heap h)).
Proof.
  intros Hw. split_and!; [by apply iter_sorted|by apply iter_perm|by apply iter_nodup|done|].
  by apply have_contacted_all_spec.
Qed.

(** C24: the heap of a lookup.  [NodeHeap::push] preserves the heap's invariant
    (unique identifiers, distances to the pivot, at most [maxsize] entries) and
    keeps the closest candidates: a node of the heap or of the batch that is not
    kept is no closer than any kept one, and is dropped only when the heap is
    full.  [iter] (hence [to_vec] and [get_ids]) then lists each node once, closest
    first, and [get_uncontacted] is that list without the contacted nodes, so
    [have_contacted_all] means every entry has been contacted. *)
Theorem heap_keeps_closest `{UnstableSort} (h : NodeHeap) (nodes : list Node) :
  heap_wf h -> Forall wf_node nodes ->
  let h' := push h nodes in
  heap_wf h' /\
  (forall n, n ∈ (node <$> heap h) ++ nodes ->
    id n ∈ entry_id <$> heap h' \/
    (length (heap h') = maxsize h /\ Forall (fun e => distance e <= distance_to (hnode h) n) (heap h'))) /\
  StronglySorted (fun x y => distance_to (hnode h') x <= distance_to (hnode h') y) (to_vec h') /\
  to_vec h' ≡ₚ node <$> heap h' /\ NoDup (get_ids h') /\
  get_uncontacted h' = filter (fun n => id n ∉ contacted h') (to_vec h') /\
  (have_contacted_all h' = true <-> Forall (fun e => entry_id e ∈ contacted h') (heap h')).
Proof.
  intros Hh Hn h'. destruct (push_keeps_closest h nodes Hh Hn) as [Hw Hc]. split; [done|]. split; [done|].
  by apply iter_closest_first.
Qed.

Lemma heap_keeps_closest_witness :
  let h := push (NodeHeap_new (from_id (be_bytes 20 0)) 2) [from_id (be_bytes 20 (2 ^ 40))] in
  heap_wf (push h [from_id (be_bytes 20 (2 ^ 50)); from_id (be_bytes 20 (2 ^ 45))]).
Proof.
  apply (heap_keeps_closest
    (push (NodeHeap_new (from_id (be_bytes 20 0)) 2) [from_id (be_bytes 20 (2 ^ 40))])
    [from_id (be_bytes 20 (2 ^ 50)); from_id (be_bytes 20 (2 ^ 45))]).
  - apply push_wf; [apply NodeHeap_new_wf|]. repeat constructor.
  - repeat constructor.
Defined.


Lemma iter_closest_first_witness :
  let h := push (NodeHeap_new (from_id (be_bytes 20 0)) 3)
             [from_id (be_bytes 20 (2 ^ 50)); from_id (be_bytes 20 (2 ^ 40))] in
  to_vec h = [from_id (be_bytes 20 (2 ^ 40)); from_id (be_bytes 20 (2 ^ 50))] /\
  NoDup (get_ids h).
Proof.
  split; [vm_compute; reflexivity|].
  apply (iter_closest_first (push (NodeHeap_new (from_id (be_bytes 20 0)) 3)
             [from_id (be_bytes 20 (2 ^ 50)); from_id (be_bytes 20 (2 ^ 40))])).
  apply push_wf; [apply NodeHeap_new_wf|]. repeat constructor.
Defined.
