(* ===== verification/Routing.v ===== *)
(** * Routing: k-buckets

    Models the [KBucket] half of [src/src/routing.rs]: insertion with
    least-recently-seen order and replacement cache, eviction with promotion,
    splitting, the shared-prefix depth and the loneliness timer.  The clock is an
    argument of the operations that read it. *)
From S2P Require Import Prelude Node.
From Stdlib Require Import Strings.Byte.
Local Open Scope Z_scope.

(** The clock [now] counts nanoseconds from the epoch; buckets keep whole
    seconds. *)
Definition now_secs (now : Z) : Z := Z.max 0 now / 1000000000.

Record KBucket := mkBucket {
  range_lo : Z;
  range_hi : Z;
  bnodes : list Node;
  replacement_nodes : list Node;
  bksize : nat;
  max_replacement_nodes : nat;
  last_updated : Z
}.

Definition set_nodes (b : KBucket) (ns : list Node) : KBucket :=
  mkBucket (range_lo b) (range_hi b) ns (replacement_nodes b) (bksize b)
    (max_replacement_nodes b) (last_updated b).

Definition set_replacements (b : KBucket) (rs : list Node) : KBucket :=
  mkBucket (range_lo b) (range_hi b) (bnodes b) rs (bksize b)
    (max_replacement_nodes b) (last_updated b).

Definition KBucket_new (now lo hi : Z) (ksize : nat) : KBucket :=
  mkBucket lo hi [] [] ksize (ksize * 5)%nat (now_secs now).

Definition touch_last_updated (now : Z) (b : KBucket) : KBucket :=
  mkBucket (range_lo b) (range_hi b) (bnodes b) (replacement_nodes b) (bksize b)
    (max_replacement_nodes b) (now_secs now).

(** [iter().position(|n| n.id == i)] *)
Definition id_position (i : bytes) (l : list Node) : option nat :=
  position (fun n => id n = i) l.

(** [while l.len() > cap { l.pop_front(); }] *)
Fixpoint pop_front_while (cap : nat) (l : list Node) : list Node :=
  match l with
  | [] => []
  | x :: t => if decide (cap < length l)%nat then pop_front_while cap t else l
  end.

Definition add_node (b : KBucket) (n : Node) : KBucket * bool :=
  match id_position (id n) (bnodes b) with
  | Some pos => (set_nodes b (delete pos (bnodes b) ++ [n]), true)
  | None =>
      if decide (length (bnodes b) < bksize b)%nat then
        (set_nodes b (bnodes b ++ [n]), true)
      else
        let rs := match id_position (id n) (replacement_nodes b) with
                  | Some pos => delete pos (replacement_nodes b)
                  | None => replacement_nodes b
                  end ++ [n] in
        (set_replacements b (pop_front_while (max_replacement_nodes b) rs), false)
  end.

(** [VecDeque::pop_back], [Vec::pop] *)
Definition pop_back {A} (l : list A) : option (list A * A) :=
  match rev l with
  | [] => None
  | x :: t => Some (rev t, x)
  end.

Definition remove_node (b : KBucket) (n : Node) : KBucket :=
  let rs := filter (fun m => id m <> id n) (replacement_nodes b) in
  match id_position (id n) (bnodes b) with
  | Some pos =>
      let ns := delete pos (bnodes b) in
      match pop_back rs with
      | Some (rs', r) => set_nodes (set_replacements b rs') (ns ++ [r])
      | None => set_nodes (set_replacements b rs) ns
      end
  | None => set_replacements b rs
  end.

Definition KBucket_contains (b : KBucket) (n : Node) : bool :=
  existsb (fun m => bool_decide (id m = id n)) (bnodes b).

(** Midpoint of a bucket's range. *)
Definition split_mid (b : KBucket) : Z :=
  range_lo b + (range_hi b - range_lo b) / 2.

(** The loop body of [split]. *)
Definition split_step (mid : Z) (p : KBucket * KBucket) (n : Node) : KBucket * KBucket :=
  if decide (long_id n <= mid) then (fst (add_node (fst p) n), snd p)
  else (fst p, fst (add_node (snd p) n)).

(** [mid + 1] is [u128] arithmetic: it wraps when the range is [MAX..=MAX]. *)
Definition split (now : Z) (b : KBucket) : KBucket * KBucket :=
  let mid := split_mid b in
  let low := KBucket_new now (range_lo b) mid (bksize b) in
  let high := KBucket_new now (wrap 128 (mid + 1)) (range_hi b) (bksize b) in
  fold_left (split_step mid) (bnodes b ++ replacement_nodes b) (low, high).

(** [(byte >> shift) & 1] *)
Definition bit_of (b : byte) (shift : nat) : Z :=
  Z.land (Z.shiftr (byte_to_Z b) (Z.of_nat shift)) 1.

(** The iteration space of [depth]: byte by byte, most significant bit first. *)
Definition byte_positions (byte_idx : nat) : list (nat * nat) :=
  (fun shift => (byte_idx, shift)) <$> rev (seq 0 8).

Definition bit_positions (len : nat) : list (nat * nat) :=
  concat (byte_positions <$> seq 0 len).

(** Number of leading elements satisfying the test: a counter incremented
    until the first failure breaks the loop. *)
Fixpoint count_while {A} (f : A -> bool) (l : list A) : nat :=
  match l with
  | x :: t => if f x then S (count_while f t) else 0
  | [] => 0
  end.

Definition bit_at (i : bytes) (p : nat * nat) : Z :=
  bit_of (nth (fst p) i Byte.x00) (snd p).

Definition depth (b : KBucket) : nat :=
  match bnodes b with
  | [] => 0
  | [n] => length (id n) * 8
  | n :: others =>
      count_while (fun p => forallb (fun m => bit_at (id m) p =? bit_at (id n) p) others)
        (bit_positions (length (id n)))
  end.

Definition is_lonely (now : Z) (b : KBucket) : bool :=
  3600 <? saturating_sub (now_secs now) (last_updated b).

Definition KBucket_head (b : KBucket) : option Node := head (bnodes b).

Definition KBucket_len (b : KBucket) : nat := length (bnodes b).

Definition covers (b : KBucket) (x : Z) : bool := (range_lo b <=? x) && (x <=? range_hi b).

(** ** Invariant *)

(** Every contact a bucket knows: the primary list, then the replacements. *)
Definition contacts (b : KBucket) : list Node := bnodes b ++ replacement_nodes b.

(** A node [Node::new] builds whose identifier falls in the bucket's range. *)
Definition in_bucket (b : KBucket) (n : Node) : Prop :=
  wf_node n /\ covers b (long_id n) = true.

Record bucket_wf (b : KBucket) : Prop := {
  bw_size : (length (bnodes b) <= bksize b)%nat;
  bw_full : replacement_nodes b <> [] -> length (bnodes b) = bksize b;
  bw_max : max_replacement_nodes b = (bksize b * 5)%nat;
  bw_cap : (length (replacement_nodes b) <= max_replacement_nodes b)%nat;
  bw_nodup : NoDup (id <$> contacts b);
  bw_nodes : Forall (in_bucket b) (contacts b)
}.

Lemma KBucket_new_wf now lo hi k : bucket_wf (KBucket_new now lo hi k).
Proof. split; simpl; try lia; try constructor; done. Qed.

Lemma covers_spec b x : covers b x = true <-> range_lo b <= x <= range_hi b.
Proof. unfold covers. rewrite andb_true_iff, !Z.leb_le. done. Qed.

Lemma id_position_Some i l pos :
  id_position i l = Some pos ->
  exists l1 x l2, l = l1 ++ x :: l2 /\ id x = i /\ delete pos l = l1 ++ l2 /\
                  i ∉ id <$> l1.
Proof.
  intros H%position_Some. destruct H as (l1 & x & l2 & -> & Hx & Hb & Hd).
  exists l1, x, l2. split_and!; try done.
  rewrite list_elem_of_fmap. intros (y & -> & Hy).
  by apply (proj1 (Forall_forall _ _) Hb y).
Qed.

Lemma id_position_None i l : id_position i l = None <-> i ∉ id <$> l.
Proof.
  unfold id_position. rewrite position_None, Forall_forall, list_elem_of_fmap. naive_solver.
Qed.

Lemma pop_front_while_drop cap l : pop_front_while cap l = drop (length l - cap) l.
Proof.
  induction l as [|x t IH]; [done|]. cbn [pop_front_while]. case_decide as Hc; simpl in *.
  - rewrite IH. destruct cap as [|cap]; simpl.
    + by replace (length t - 0)%nat with (length t) by lia.
    + by replace (length t - cap)%nat with (S (length t - S cap)) by lia.
  - by replace (S (length t) - cap)%nat with 0%nat by lia.
Qed.

Lemma contains_id b n : KBucket_contains b n = true <-> id n ∈ id <$> bnodes b.
Proof.
  unfold KBucket_contains. rewrite existsb_exists, list_elem_of_fmap. split.
  - intros (m & Hm & E%bool_decide_eq_true). exists m. by rewrite list_elem_of_In.
  - intros (m & E & Hm). exists m. rewrite <- list_elem_of_In.
    split; [done|]. by apply bool_decide_eq_true.
Qed.

(** ** Insertion *)

(** Range, capacity and timer, which insertion and eviction leave alone. *)
Definition same_frame (b b' : KBucket) : Prop :=
  range_lo b' = range_lo b /\ range_hi b' = range_hi b /\ bksize b' = bksize b /\
  max_replacement_nodes b' = max_replacement_nodes b /\ last_updated b' = last_updated b.

Lemma same_frame_covers b b' x : same_frame b b' -> covers b' x = covers b x.
Proof. unfold covers. intros (E1 & E2 & _). by rewrite E1, E2. Qed.

Lemma add_node_frame b n : same_frame b (fst (add_node b n)).
Proof. unfold add_node. repeat break_match; repeat split. Qed.

Lemma remove_node_frame b n : same_frame b (remove_node b n).
Proof. unfold remove_node. repeat break_match; repeat split. Qed.

(** The three outcomes of [add_node] on a well-formed bucket. *)
Inductive add_outcome (b : KBucket) (n : Node) : KBucket -> bool -> Prop :=
| add_refresh l1 x l2 :
    bnodes b = l1 ++ x :: l2 -> id x = id n ->
    add_outcome b n (set_nodes b ((l1 ++ l2) ++ [n])) true
| add_append :
    id n ∉ id <$> bnodes b -> (length (bnodes b) < bksize b)%nat -> replacement_nodes b = [] ->
    add_outcome b n (set_nodes b (bnodes b ++ [n])) true
| add_replace r0 :
    id n ∉ id <$> bnodes b -> length (bnodes b) = bksize b ->
    r0 = filter (fun m => id m <> id n) (replacement_nodes b) ->
    add_outcome b n
      (set_replacements b (drop (S (length r0) - max_replacement_nodes b) (r0 ++ [n]))) false.

Lemma filter_id_absent (l : list Node) i : i ∉ id <$> l -> filter (fun m => id m <> i) l = l.
Proof.
  intros Hi. induction l as [|y l IH]; [done|].
  rewrite filter_cons, decide_True by set_solver. by rewrite IH by set_solver.
Qed.

Lemma delete_id_filter l i pos :
  NoDup (id <$> l) -> id_position i l = Some pos ->
  delete pos l = filter (fun m => id m <> i) l.
Proof.
  intros Hnd (l1 & x & l2 & -> & Hx & -> & H1)%id_position_Some.
  rewrite fmap_app in Hnd. apply NoDup_app in Hnd as (_ & Hd & Hnd2).
  rewrite fmap_cons in Hnd2. apply NoDup_cons in Hnd2 as [Hn2 _].
  rewrite filter_app, filter_cons, decide_False by naive_solver.
  rewrite !filter_id_absent; [done|by rewrite <- Hx|done].
Qed.

Lemma add_node_outcome b n :
  bucket_wf b -> let r := add_node b n in add_outcome b n (fst r) (snd r).
Proof.
  intros Hw. unfold add_node. destruct (id_position (id n) (bnodes b)) as [pos|] eqn:Ep.
  - apply id_position_Some in Ep as (l1 & x & l2 & E & Hx & -> & _). by eapply add_refresh.
  - apply id_position_None in Ep. case_decide as Hk; simpl.
    + apply add_append; [done..|]. destruct (replacement_nodes b) eqn:Er; [done|].
      rewrite (bw_full b Hw) in Hk; [lia|]. by rewrite Er.
    + rewrite pop_front_while_drop, length_app. simpl. rewrite Nat.add_1_r.
      assert (NoDup (id <$> replacement_nodes b)) as Hnd.
      { pose proof (bw_nodup b Hw) as Hn. unfold contacts in Hn. rewrite fmap_app in Hn.
        by apply NoDup_app in Hn as (_ & _ & ?). }
      assert (match id_position (id n) (replacement_nodes b) with
              | Some pos => delete pos (replacement_nodes b)
              | None => replacement_nodes b
              end = filter (fun m => id m <> id n) (replacement_nodes b)) as ->.
      { destruct (id_position _ _) eqn:E2; [by apply delete_id_filter|].
        apply id_position_None in E2. by rewrite filter_id_absent. }
      apply add_replace; [done| |done]. pose proof (bw_size b Hw). lia.
Qed.

Lemma contacts_ids b : id <$> contacts b = (id <$> bnodes b) ++ (id <$> replacement_nodes b).
Proof. unfold contacts. by rewrite fmap_app. Qed.

Lemma bucket_ids_split b :
  bucket_wf b ->
  NoDup (id <$> bnodes b) /\ NoDup (id <$> replacement_nodes b) /\
  (forall i, i ∈ id <$> bnodes b -> i ∉ id <$> replacement_nodes b).
Proof.
  intros Hw. pose proof (bw_nodup b Hw) as H. rewrite contacts_ids in H.
  apply NoDup_app in H. naive_solver.
Qed.

Lemma add_node_wf b n :
  bucket_wf b -> wf_node n -> covers b (long_id n) = true ->
  bucket_wf (fst (add_node b n)).
Proof.
  intros Hw Hn Hc. pose proof (add_node_outcome b n Hw) as Ho. simpl in Ho.
  pose proof (bw_nodup b Hw) as Hnd. pose proof (bw_nodes b Hw) as Hall.
  destruct (bucket_ids_split b Hw) as (Hnd1 & Hnd2 & Hdis).
  destruct Hw as [Hs Hf Hm Hcap _ _]. unfold contacts in Hnd, Hall.
  inversion Ho as [l1 x l2 El Ex Eb|Hi Hlt Er Eb|r0 Hi Hlen Er0 Eb]; clear Ho Eb.
  - rewrite El in *. split; simpl; auto.
    + rewrite !length_app in *. simpl in *. lia.
    + intros Hne. specialize (Hf Hne). rewrite !length_app in *. simpl in *. lia.
    + unfold contacts; simpl. assert ((id <$> ((l1 ++ l2) ++ [n]) ++ replacement_nodes b) ≡ₚ
        (id <$> (l1 ++ x :: l2) ++ replacement_nodes b)) as ->; [|done].
      rewrite !fmap_app. simpl. rewrite Ex. solve_Permutation.
    + change (Forall (in_bucket b) (((l1 ++ l2) ++ [n]) ++ replacement_nodes b)).
      rewrite !Forall_app in *. rewrite Forall_cons in Hall.
      split_and!; try apply Hall. by apply Forall_singleton.
  - split; simpl; auto.
    + rewrite length_app. simpl. lia.
    + by rewrite Er.
    + unfold contacts; simpl. rewrite Er, app_nil_r, fmap_app in *.
      apply NoDup_app. split_and!; [done| |by apply NoDup_singleton].
      simpl. set_solver.
    + change (Forall (in_bucket b) ((bnodes b ++ [n]) ++ replacement_nodes b)).
      rewrite Er, app_nil_r in *.
      apply Forall_app; split; [done|by apply Forall_singleton].
  - assert (id n ∉ id <$> r0) as Hr0.
    { subst r0. rewrite list_elem_of_fmap. intros (y & Ey & Hy%list_elem_of_filter). naive_solver. }
    split; simpl; auto.
    + rewrite length_drop, length_app. simpl. lia.
    + rewrite contacts_ids; simpl. apply NoDup_app. split_and!; [done| |].
      * intros i Hin. rewrite list_elem_of_fmap. intros (y & -> & Hy).
        apply (subseteq_drop) in Hy. apply elem_of_app in Hy as [Hy|Hy]; [|set_solver].
        subst r0. apply list_elem_of_filter in Hy as [_ Hy].
        apply (Hdis (id y)); [done|]. by apply list_elem_of_fmap_2.
      * rewrite fmap_drop. eapply sublist_NoDup; [|apply sublist_drop].
        rewrite fmap_app. apply NoDup_app. split_and!; [subst r0; auto with kad| |by apply NoDup_singleton].
        simpl. set_solver.
    + match goal with |- Forall _ (contacts ?b') =>
        change (Forall (in_bucket b) (contacts b')) end.
      unfold contacts; simpl. rewrite Forall_app in *. destruct Hall as [HA HB].
      split; [done|]. apply Forall_drop, Forall_app. split; [|by apply Forall_singleton].
      subst r0. by apply Forall_filter.
Qed.

(** ** Eviction *)

Lemma pop_back_spec {A} (l : list A) :
  match pop_back l with None => l = [] | Some (l', x) => l = l' ++ [x] end.
Proof.
  unfold pop_back. destruct (rev l) as [|x t] eqn:E.
  - rewrite <- (rev_involutive l). by rewrite E.
  - rewrite <- (rev_involutive l), E. done.
Qed.

Lemma delete_id_length l i pos :
  id_position i l = Some pos -> length l = S (length (delete pos l)).
Proof.
  intros (l1 & x & l2 & -> & _ & -> & _)%id_position_Some.
  rewrite !length_app. simpl. lia.
Qed.

(** Eviction removes the node from both lists; what is left is only moved
    between them. *)
Lemma remove_node_contacts b n :
  bucket_wf b ->
  contacts (remove_node b n) ≡ₚ filter (fun m => id m <> id n) (contacts b).
Proof.
  intros Hw. destruct (bucket_ids_split b Hw) as (Hnd & _ & _).
  unfold remove_node, contacts. rewrite filter_app.
  destruct (id_position (id n) (bnodes b)) as [pos|] eqn:Ep; simpl.
  - rewrite <- (delete_id_filter _ _ _ Hnd Ep).
    pose proof (pop_back_spec (filter (fun m => id m <> id n) (replacement_nodes b))) as Hp.
    destruct (pop_back _) as [[rs r]|]; simpl; rewrite Hp; [|done]. solve_Permutation.
  - apply id_position_None in Ep. by rewrite (filter_id_absent (bnodes b)) by done.
Qed.

(** A primary contact other than the evicted one stays primary. *)
Lemma remove_node_keeps b n m :
  bucket_wf b -> m ∈ bnodes b -> id m <> id n -> m ∈ bnodes (remove_node b n).
Proof.
  intros Hw Hm Hne. destruct (bucket_ids_split b Hw) as (Hnd & _ & _). unfold remove_node.
  destruct (id_position (id n) (bnodes b)) as [pos|] eqn:Ep; [|done].
  assert (m ∈ delete pos (bnodes b)) as Hd.
  { rewrite (delete_id_filter _ _ _ Hnd Ep). by apply list_elem_of_filter. }
  destruct (pop_back _) as [[rs r]|]; simpl; [apply elem_of_app; by left|done].
Qed.

Lemma remove_node_sizes b n :
  bucket_wf b ->
  (length (bnodes (remove_node b n)) <= bksize b)%nat /\
  (replacement_nodes (remove_node b n) <> [] -> length (bnodes (remove_node b n)) = bksize b) /\
  (length (replacement_nodes (remove_node b n)) <= max_replacement_nodes b)%nat.
Proof.
  intros [Hs Hf _ Hc _ _]. unfold remove_node.
  set (rs := filter (fun m => id m <> id n) (replacement_nodes b)).
  assert (length rs <= length (replacement_nodes b))%nat as Hrs by apply length_filter.
  assert (rs <> [] -> length (bnodes b) = bksize b) as Hf'.
  { intros Hne. apply Hf. intros E. apply Hne. unfold rs. by rewrite E. }
  destruct (id_position _ _) as [pos|] eqn:Ep; simpl; [|split_and!; auto; lia].
  apply delete_id_length in Ep. pose proof (pop_back_spec rs) as Hp.
  destruct (pop_back rs) as [[rs' r]|]; simpl.
  - rewrite length_app. simpl. rewrite Hp, length_app in Hrs. simpl in Hrs.
    rewrite Hp in Hf'. rewrite Hf' in Ep by (by destruct rs'). split_and!; lia.
  - rewrite Hp. simpl. split_and!; [lia|done|lia].
Qed.

Lemma remove_node_wf b n : bucket_wf b -> bucket_wf (remove_node b n).
Proof.
  intros Hw. destruct (remove_node_sizes b n Hw) as (Hs & Hf & Hc).
  pose proof (remove_node_frame b n) as Hfr.
  pose proof (remove_node_contacts b n Hw) as Hp.
  destruct Hfr as (El & Eh & Ek & Em & Et).
  split; rewrite ?Ek, ?Em; auto; [apply Hw|rewrite Hp..].
  - apply NoDup_fmap_filter, Hw.
  - assert (forall x, covers (remove_node b n) x = covers b x) as Ecov
      by (intros; apply same_frame_covers; repeat split; done).
    eapply Forall_impl; [apply Forall_filter, Hw|]. unfold in_bucket. intros m. by rewrite Ecov.
Qed.

(** ** Splitting *)

Definition add_all (b : KBucket) (l : list Node) : KBucket :=
  fold_left (fun b n => fst (add_node b n)) l b.

#[global] Instance in_bucket_dec b n : Decision (in_bucket b n).
Proof. unfold in_bucket, wf_node. apply _. Defined.

Lemma add_all_wf b l : bucket_wf b -> Forall (in_bucket b) l -> bucket_wf (add_all b l).
Proof.
  revert b. induction l as [|n l IH]; intros b Hw Hall; [done|].
  apply Forall_cons in Hall as [[Hn Hc] Hall]. apply IH; [by apply add_node_wf|].
  eapply Forall_impl; [exact Hall|]. unfold in_bucket. intros m [? ?].
  by rewrite (same_frame_covers b) by apply add_node_frame.
Qed.

Lemma split_fold mid l p :
  fold_left (split_step mid) l p =
  (add_all (fst p) (filter (fun n => long_id n <= mid) l),
   add_all (snd p) (filter (fun n => ~ long_id n <= mid) l)).
Proof.
  revert p. induction l as [|n l IH]; intros [lo hi]; [done|].
  cbn [fold_left]. rewrite IH. unfold split_step. simpl. rewrite !filter_cons.
  repeat case_decide; try done; lia.
Qed.

(** A fresh bucket filled with at most [6k] distinct nodes keeps them all: the
    first [k] as primary nodes, the rest as replacements, in order. *)
Lemma add_all_fresh now lo hi k l :
  NoDup (id <$> l) -> (length l <= k + k * 5)%nat ->
  add_all (KBucket_new now lo hi k) l =
  mkBucket lo hi (take k l) (drop k l) k (k * 5) (now_secs now).
Proof.
  induction l as [|n l IH] using rev_ind; intros Hnd Hlen; [by rewrite take_nil, drop_nil|].
  rewrite fmap_app in Hnd. apply NoDup_app in Hnd as (Hnd & Hdis & _).
  rewrite length_app in Hlen. simpl in Hlen.
  assert (id n ∉ id <$> l) as Hn by (intros Hin; apply (Hdis _ Hin); simpl; set_solver).
  unfold add_all in *. rewrite fold_left_app, IH by (auto || lia). simpl.
  unfold add_node. simpl.
  assert (forall j, id n ∉ id <$> take j l) as Ht.
  { intros j Hin. apply Hn. rewrite fmap_take in Hin. by apply subseteq_take in Hin. }
  assert (forall j, id n ∉ id <$> drop j l) as Hd.
  { intros j Hin. apply Hn. rewrite fmap_drop in Hin. by apply subseteq_drop in Hin. }
  rewrite (proj2 (id_position_None _ _) (Ht k)), (proj2 (id_position_None _ _) (Hd k)).
  rewrite length_take. case_decide as Hk; simpl.
  - unfold set_nodes. simpl. rewrite (take_ge l), (drop_ge l) by lia.
    rewrite take_ge, drop_ge by (rewrite length_app; simpl; lia). done.
  - unfold set_replacements. simpl. rewrite pop_front_while_drop, length_app, length_drop.
    simpl. replace (length l - k + 1 - k * 5)%nat with 0%nat by lia.
    by rewrite drop_0, take_app_le, drop_app_le by lia.
Qed.

Lemma contacts_length b : bucket_wf b -> (length (contacts b) <= bksize b + bksize b * 5)%nat.
Proof.
  intros [Hs _ Hm Hc _ _]. unfold contacts. rewrite length_app. lia.
Qed.

Definition low_half (now : Z) (b : KBucket) : KBucket :=
  let l := filter (fun n => long_id n <= split_mid b) (contacts b) in
  mkBucket (range_lo b) (split_mid b) (take (bksize b) l) (drop (bksize b) l)
    (bksize b) (bksize b * 5) (now_secs now).

Definition high_half (now : Z) (b : KBucket) : KBucket :=
  let l := filter (fun n => ~ long_id n <= split_mid b) (contacts b) in
  mkBucket (wrap 128 (split_mid b + 1)) (range_hi b) (take (bksize b) l) (drop (bksize b) l)
    (bksize b) (bksize b * 5) (now_secs now).

Lemma split_halves now b : bucket_wf b -> split now b = (low_half now b, high_half now b).
Proof.
  intros Hw. unfold split. rewrite split_fold. simpl.
  pose proof (contacts_length b Hw) as Hlen. fold (contacts b) in *.
  rewrite !add_all_fresh; auto using NoDup_fmap_filter, bw_nodup;
    etrans; [apply length_filter|done|apply length_filter|done].
Qed.

Lemma low_half_contacts now b :
  contacts (low_half now b) = filter (fun n => long_id n <= split_mid b) (contacts b).
Proof. unfold contacts at 1. simpl. by rewrite take_drop. Qed.

Lemma high_half_contacts now b :
  contacts (high_half now b) = filter (fun n => ~ long_id n <= split_mid b) (contacts b).
Proof. unfold contacts at 1. simpl. by rewrite take_drop. Qed.

(** No contact is lost by a split. *)
Lemma split_contacts now b :
  contacts (low_half now b) ++ contacts (high_half now b) ≡ₚ contacts b.
Proof.
  rewrite low_half_contacts, high_half_contacts.
  induction (contacts b) as [|n l IH]; [done|]. rewrite !filter_cons.
  repeat case_decide; try lia; simpl; [by rewrite IH|].
  by rewrite <- Permutation_middle, IH.
Qed.

(** A bucket whose range holds at least two points. *)
Definition splittable (b : KBucket) : Prop :=
  0 <= range_lo b /\ range_lo b < range_hi b /\ range_hi b < 2 ^ 128.

Lemma split_mid_range b :
  splittable b -> range_lo b <= split_mid b < range_hi b /\
                  wrap 128 (split_mid b + 1) = split_mid b + 1.
Proof.
  intros (H0 & Hlt & Hmax). unfold split_mid.
  assert (range_lo b <= range_lo b + (range_hi b - range_lo b) / 2 < range_hi b) as Hm.
  { pose proof (Z.div_pos (range_hi b - range_lo b) 2).
    pose proof (Z.div_lt (range_hi b - range_lo b) 2). lia. }
  split; [done|]. apply wrap_small. lia.
Qed.

Lemma filled_bucket_wf now lo hi k l :
  NoDup (id <$> l) -> (length l <= k + k * 5)%nat ->
  Forall (fun n => wf_node n /\ lo <= long_id n <= hi) l ->
  bucket_wf (mkBucket lo hi (take k l) (drop k l) k (k * 5) now).
Proof.
  intros Hnd Hlen Hall. split; simpl; rewrite ?length_take, ?length_drop; try lia.
  - intros Hne. destruct (decide (length l <= k)%nat); [|lia].
    by rewrite drop_ge in Hne by lia.
  - unfold contacts. simpl. by rewrite take_drop.
  - unfold contacts. simpl. rewrite take_drop.
    eapply Forall_impl; [exact Hall|]. intros n [Hn Hr]. split; [done|].
    by apply covers_spec.
Qed.

Lemma halves_wf now b :
  bucket_wf b -> splittable b -> bucket_wf (low_half now b) /\ bucket_wf (high_half now b).
Proof.
  intros Hw Hs. destruct (split_mid_range b Hs) as [Hm Ew].
  pose proof (contacts_length b Hw) as Hlen. unfold low_half, high_half. rewrite Ew.
  split; apply filled_bucket_wf; auto using NoDup_fmap_filter, bw_nodup.
  1, 3: etrans; [apply length_filter|done].
  all: apply Forall_forall; intros n [Hn Hin]%list_elem_of_filter;
    destruct (proj1 (Forall_forall _ _) (bw_nodes b Hw) n Hin) as [Hwn Hc];
    apply covers_spec in Hc; split; [done|lia].
Qed.

(** ** Depth *)

Lemma count_while_le {A} (f : A -> bool) l : (count_while f l <= length l)%nat.
Proof. induction l; simpl; [lia|]. case_match; lia. Qed.

Lemma count_while_before {A} (f : A -> bool) l i x :
  l !! i = Some x -> (i < count_while f l)%nat -> f x = true.
Proof.
  revert i. induction l as [|y l IH]; intros i Hi Hlt; simpl in *; [done|].
  destruct (f y) eqn:E; [|lia]. destruct i; simplify_eq/=; [done|].
  apply (IH i); [done|lia].
Qed.

Lemma count_while_stop {A} (f : A -> bool) l x :
  l !! count_while f l = Some x -> f x = false.
Proof.
  induction l as [|y l IH]; simpl; [done|]. destruct (f y) eqn:E; simpl; [done|].
  congruence.
Qed.

(** Bit [k] of an identifier, counted from the most significant one. *)
Definition id_bit (i : bytes) (k : nat) : Z := bit_at i ((k / 8)%nat, (7 - k mod 8)%nat).

Lemma bit_positions_from j len k :
  (k < 8 * len)%nat ->
  concat (byte_positions <$> seq j len) !! k = Some ((j + k / 8)%nat, (7 - k mod 8)%nat).
Proof.
  revert j k. induction len as [|len IH]; intros j k Hk; [lia|].
  cbn [seq fmap list_fmap concat]. destruct (decide (k < 8)%nat) as [Hlt|Hge].
  - rewrite lookup_app_l by (simpl; lia).
    rewrite Nat.div_small, Nat.mod_small by lia. rewrite Nat.add_0_r.
    do 8 (destruct k as [|k]; [done|]). lia.
  - rewrite lookup_app_r by (simpl; lia). change (length (byte_positions j)) with 8%nat.
    etransitivity; [apply IH; lia|].
    replace k with (k - 8 + 1 * 8)%nat at 3 4 by lia.
    rewrite Nat.div_add, Nat.Div0.mod_add by lia. do 2 f_equal. lia.
Qed.

Lemma bit_positions_lookup len k :
  (k < 8 * len)%nat -> bit_positions len !! k = Some ((k / 8)%nat, (7 - k mod 8)%nat).
Proof. apply bit_positions_from. Qed.

Lemma bit_positions_length len : length (bit_positions len) = (8 * len)%nat.
Proof.
  unfold bit_positions. assert (forall j, length (concat (byte_positions <$> seq j len)) = (8 * len)%nat)
    as Hgen; [|apply Hgen].
  induction len as [|len IH]; intros j; [done|].
  cbn [seq fmap list_fmap concat]. rewrite length_app, IH. simpl. lia.
Qed.

(** [depth] is the length of the longest common bit prefix of the primary
    nodes' identifiers. *)
Lemma depth_prefix b n m rest :
  bnodes b = n :: m :: rest -> length (id n) = ID_LEN ->
  (depth b <= 160)%nat /\
  (forall k x, (k < depth b)%nat -> x ∈ bnodes b -> id_bit (id x) k = id_bit (id n) k) /\
  ((depth b < 160)%nat -> exists x, x ∈ bnodes b /\ id_bit (id x) (depth b) <> id_bit (id n) (depth b)).
Proof.
  intros Eb Hl. unfold depth. rewrite Eb, Hl.
  set (f := fun p => forallb _ (m :: rest)).
  pose proof (count_while_le f (bit_positions ID_LEN)) as Hle.
  rewrite bit_positions_length in Hle. change (8 * ID_LEN)%nat with 160%nat in Hle.
  split_and!; [done| |].
  - intros k x Hk Hx.
    assert (f ((k / 8)%nat, (7 - k mod 8)%nat) = true) as Hf.
    { assert (k < 8 * ID_LEN)%nat as Hk' by (unfold ID_LEN; lia).
      exact (count_while_before f _ _ _ (bit_positions_lookup ID_LEN k Hk') Hk). }
    apply elem_of_cons in Hx as [->|Hx]; [done|].
    unfold f in Hf. rewrite forallb_forall in Hf.
    apply Z.eqb_eq, Hf. by apply list_elem_of_In.
  - intros Hlt. set (d := count_while f (bit_positions ID_LEN)) in *.
    assert (f ((d / 8)%nat, (7 - d mod 8)%nat) = false) as Hf.
    { assert (d < 8 * ID_LEN)%nat as Hd by (unfold ID_LEN; lia).
      exact (count_while_stop f _ _ (bit_positions_lookup ID_LEN d Hd)). }
    unfold f in Hf. apply not_true_iff_false in Hf. rewrite forallb_forall in Hf.
    destruct (decide (Exists (fun x => id_bit (id x) d <> id_bit (id n) d) (m :: rest))) as [He|He].
    + apply Exists_exists in He as (x & Hx & Hne). exists x.
      split; [by apply list_elem_of_further|exact Hne].
    + exfalso. apply Hf. intros x Hx%list_elem_of_In. apply Z.eqb_eq.
      destruct (decide (id_bit (id x) d = id_bit (id n) d)); [done|].
      exfalso. apply He, Exists_exists. eauto.
Qed.

(** ** Theorems *)

(** C17: the bucket invariant (at most [k] primary nodes, replacements only
    behind a full primary list and capped at [5k], no identifier twice in the
    two lists, every identifier inside the range) is preserved by [add_node] and
    [remove_node], and by [split] on a range of at least two points, which
    moreover cuts the range in two adjacent halves and loses no contact. *)
Theorem bucket_invariant (now : Z) (b : KBucket) (n : Node) :
  bucket_wf b -> wf_node n -> covers b (long_id n) = true ->
  bucket_wf (fst (add_node b n)) /\ bucket_wf (remove_node b n) /\
  (splittable b ->
   bucket_wf (fst (split now b)) /\ bucket_wf (snd (split now b)) /\
   contacts (fst (split now b)) ++ contacts (snd (split now b)) ≡ₚ contacts b /\
   range_lo (fst (split now b)) = range_lo b /\
   range_hi (fst (split now b)) + 1 = range_lo (snd (split now b)) /\
   range_hi (snd (split now b)) = range_hi b).
Proof.
  intros Hw Hn Hc. split_and!; [by apply add_node_wf|by apply remove_node_wf|].
  intros Hs. rewrite split_halves by done. destruct (halves_wf now b Hw Hs).
  split_and!; try done; [apply split_contacts|]. simpl.
  by destruct (split_mid_range b Hs) as [_ ->].
Qed.

Lemma bucket_invariant_witness :
  bucket_wf (fst (split 0 (fst (add_node (KBucket_new 0 0 U128_MAX 2) (from_id (be_bytes 20 7)))))).
Proof.
  assert (bucket_wf (fst (add_node (KBucket_new 0 0 U128_MAX 2) (from_id (be_bytes 20 7))))) as Hb
    by (apply add_node_wf; [apply KBucket_new_wf|by split|vm_compute; reflexivity]).
  apply (bucket_invariant 0 _ (from_id (be_bytes 20 9)) Hb); [by split|vm_compute; reflexivity|].
  split_and!; vm_compute; congruence.
Defined.

(** [add_node] on each branch.  A known node moves to the most recently seen
    end and the list keeps its length; a new node is appended when there is room;
    when the bucket is full the primary list is untouched and the node becomes
    the newest replacement ([false] tells the caller). *)
Theorem add_node_branches (b : KBucket) (n : Node) :
  bucket_wf b -> (0 < bksize b)%nat ->
  (id n ∈ id <$> bnodes b ->
     snd (add_node b n) = true /\
     bnodes (fst (add_node b n)) = filter (fun m => id m <> id n) (bnodes b) ++ [n] /\
     length (bnodes (fst (add_node b n))) = length (bnodes b) /\
     replacement_nodes (fst (add_node b n)) = replacement_nodes b) /\
  (id n ∉ id <$> bnodes b -> (length (bnodes b) < bksize b)%nat ->
     snd (add_node b n) = true /\ bnodes (fst (add_node b n)) = bnodes b ++ [n]) /\
  (id n ∉ id <$> bnodes b -> length (bnodes b) = bksize b ->
     snd (add_node b n) = false /\ bnodes (fst (add_node b n)) = bnodes b /\
     last (replacement_nodes (fst (add_node b n))) = Some n).
Proof.
  intros Hw Hk. destruct (bucket_ids_split b Hw) as (Hnd & _ & _).
  pose proof (bw_max b Hw) as Hm.
  pose proof (add_node_outcome b n Hw) as Ho. simpl in Ho.
  unfold add_node in *. split_and!.
  - intros Hin. destruct (id_position _ _) as [pos|] eqn:Ep.
    + pose proof (delete_id_length _ _ _ Ep). rewrite <- (delete_id_filter _ _ _ Hnd Ep).
      simpl. rewrite length_app. simpl. split_and!; [done|done|lia|done].
    + by apply id_position_None in Ep.
  - intros Hn Hlt. rewrite (proj2 (id_position_None _ _) Hn) in *. by rewrite decide_True.
  - intros Hn Hlen. rewrite (proj2 (id_position_None _ _) Hn) in *.
    rewrite decide_False by lia. split_and!; [done..|]. simpl.
    rewrite pop_front_while_drop. rewrite drop_app_le by (rewrite length_app; simpl; lia).
    apply last_snoc.
Qed.

Lemma add_node_branches_witness :
  let b := fst (add_node (KBucket_new 0 0 U128_MAX 1) (from_id (be_bytes 20 7))) in
  last (replacement_nodes (fst (add_node b (from_id (be_bytes 20 9)))))
  = Some (from_id (be_bytes 20 9)).
Proof.
  assert (bucket_wf (fst (add_node (KBucket_new 0 0 U128_MAX 1) (from_id (be_bytes 20 7))))) as Hb
    by (apply add_node_wf; [apply KBucket_new_wf|by split|vm_compute; reflexivity]).
  destruct (add_node_branches _ (from_id (be_bytes 20 9)) Hb) as (_ & _ & H); [simpl; lia|].
  apply H; [|reflexivity]. intros Hin. apply elem_of_cons in Hin as [E|Hin]; [discriminate E|inversion Hin].
Defined.

(** [remove_node] forgets the node in both lists and keeps every other
    contact; evicting a primary node promotes the most recently seen
    replacement, so the primary list shrinks only when no replacement is left. *)
Theorem remove_node_promotes (b : KBucket) (n : Node) :
  bucket_wf b ->
  contacts (remove_node b n) ≡ₚ filter (fun m => id m <> id n) (contacts b) /\
  (id n ∉ id <$> bnodes b -> bnodes (remove_node b n) = bnodes b) /\
  (id n ∈ id <$> bnodes b ->
     bnodes (remove_node b n) =
       filter (fun m => id m <> id n) (bnodes b) ++ option_list (last (replacement_nodes b))).
Proof.
  intros Hw. destruct (bucket_ids_split b Hw) as (Hnd & _ & Hdis).
  split_and!; [by apply remove_node_contacts|..]; unfold remove_node.
  - intros Hn. by rewrite (proj2 (id_position_None _ _) Hn).
  - intros Hn. destruct (id_position _ _) as [pos|] eqn:Ep; [|by apply id_position_None in Ep].
    rewrite (filter_id_absent (replacement_nodes b)) by auto.
    rewrite (delete_id_filter _ _ _ Hnd Ep).
    pose proof (pop_back_spec (replacement_nodes b)) as Hp.
    destruct (pop_back _) as [[rs r]|]; simpl; rewrite Hp.
    + by rewrite last_snoc.
    + by rewrite app_nil_r.
Qed.

Lemma remove_node_promotes_witness :
  let b := add_all (KBucket_new 0 0 U128_MAX 1)
             [from_id (be_bytes 20 7); from_id (be_bytes 20 8); from_id (be_bytes 20 9)] in
  bnodes (remove_node b (from_id (be_bytes 20 7))) = [from_id (be_bytes 20 9)].
Proof.
  assert (bucket_wf (add_all (KBucket_new 0 0 U128_MAX 1)
    [from_id (be_bytes 20 7); from_id (be_bytes 20 8); from_id (be_bytes 20 9)])) as Hb.
  { apply add_all_wf; [apply KBucket_new_wf|]. apply (bool_decide_unpack _); vm_compute; exact I. }
  destruct (remove_node_promotes _ (from_id (be_bytes 20 7)) Hb) as (_ & _ & H).
  refine (eq_trans (H _) _); [apply elem_of_cons; left; reflexivity|vm_compute; reflexivity].
Defined.

(** [depth] is the length of the longest bit prefix shared by the raw
    identifiers of all primary nodes (two nodes or more). *)
Lemma depth_longest_prefix (b : KBucket) (n m : Node) (rest : list Node) :
  bucket_wf b -> bnodes b = n :: m :: rest ->
  (depth b <= 160)%nat /\
  (forall k x, (k < depth b)%nat -> x ∈ bnodes b -> id_bit (id x) k = id_bit (id n) k) /\
  ((depth b < 160)%nat ->
     exists x, x ∈ bnodes b /\ id_bit (id x) (depth b) <> id_bit (id n) (depth b)).
Proof.
  intros Hw Eb. apply (depth_prefix b n m rest); [done|].
  pose proof (bw_nodes b Hw) as Hall. unfold contacts in Hall. rewrite Eb in Hall.
  apply Forall_cons in Hall as [[[Hl _] _] _]. done.
Qed.
