(* ===== verification/RoutingTable.v ===== *)
(** * RoutingTable: the bucket list, insertion with splitting, neighbour search

    Models the [RoutingTable] and [TableTraverser] half of
    [src/src/routing.rs].  [insert] recurses after a split; the model gives the
    recursion a fuel and answers [None] when it runs out, and the theorems say
    when 129 recursive calls are enough and when no number is. *)
From S2P Require Import Prelude Node Routing.
From Stdlib Require Import Strings.Byte.
Local Open Scope Z_scope.

Record RoutingTable := mkTable {
  local_node : Node;
  tksize : nat;
  buckets : list KBucket
}.

Definition set_buckets (t : RoutingTable) (bs : list KBucket) : RoutingTable :=
  mkTable (local_node t) (tksize t) bs.

Definition RoutingTable_new (now : Z) (n : Node) (ksize : nat) : RoutingTable :=
  mkTable n ksize [KBucket_new now 0 U128_MAX ksize].

Definition bucket_index_for (t : RoutingTable) (x : Z) : nat :=
  default (length (buckets t) - 1)%nat (position (fun b => covers b x = true) (buckets t)).

(** [self.buckets[idx]]; the list is never empty, so the default is never used. *)
Definition bucket_at (t : RoutingTable) (idx : nat) : KBucket :=
  default (KBucket_new 0 0 0 0) (buckets t !! idx).

(** [let bucket = buckets.remove(idx); let (low, high) = bucket.split();
    buckets.insert(idx, high); buckets.insert(idx, low)] *)
Definition split_bucket (now : Z) (t : RoutingTable) (idx : nat) : RoutingTable :=
  let '(low, high) := split now (bucket_at t idx) in
  set_buckets t (take idx (buckets t) ++ [low; high] ++ drop (S idx) (buckets t)).

Fixpoint table_insert (fuel : nat) (now : Z) (t : RoutingTable) (n : Node)
  : option (RoutingTable * option Node) :=
  match fuel with
  | O => None
  | S fuel =>
      let idx := bucket_index_for t (long_id n) in
      let '(b, added) := add_node (bucket_at t idx) n in
      let t := set_buckets t (<[idx := b]> (buckets t)) in
      if added then Some (t, None)
      else if covers b (long_id (local_node t)) || negb (depth b mod 5 =? 0)%nat then
        table_insert fuel now (split_bucket now t idx) n
      else Some (t, KBucket_head b)
  end.

Definition add_contact (fuel : nat) (now : Z) (t : RoutingTable) (n : Node)
  : option (RoutingTable * option Node) :=
  if decide (id n = id (local_node t)) then Some (t, None)
  else table_insert fuel now t n.

Definition remove_contact (t : RoutingTable) (n : Node) : RoutingTable :=
  let idx := bucket_index_for t (long_id n) in
  set_buckets t (<[idx := remove_node (bucket_at t idx) n]> (buckets t)).

Definition is_new_node (t : RoutingTable) (n : Node) : bool :=
  negb (KBucket_contains (bucket_at t (bucket_index_for t (long_id n))) n).

Definition lonely_buckets (now : Z) (t : RoutingTable) : list KBucket :=
  filter (fun b => is_lonely now b = true) (buckets t).

(** ** TableTraverser *)

Record TableTraverser := mkTraverser {
  current_nodes : list Node;
  left_buckets : list KBucket;
  right_buckets : list KBucket;
  take_left : bool
}.

(** [TableTraverser::new]: touches the central bucket of the table and collects
    the two sides, each reversed. *)
Definition TableTraverser_new (now : Z) (t : RoutingTable) (target : Node)
  : RoutingTable * TableTraverser :=
  let idx := bucket_index_for t (long_id target) in
  let t := set_buckets t (<[idx := touch_last_updated now (bucket_at t idx)]> (buckets t)) in
  (t, mkTraverser (bnodes (bucket_at t idx))
        (rev (take idx (buckets t))) (rev (drop (S idx) (buckets t))) true).

(** [Iterator::next]; each recursive call has popped one bucket. *)
Fixpoint traverser_next (fuel : nat) (tr : TableTraverser) : option (Node * TableTraverser) :=
  match fuel with
  | O => None
  | S fuel =>
      match pop_back (current_nodes tr) with
      | Some (cur, n) =>
          Some (n, mkTraverser cur (left_buckets tr) (right_buckets tr) (take_left tr))
      | None =>
          match (if take_left tr then pop_back (left_buckets tr) else None) with
          | Some (ls, b) => traverser_next fuel (mkTraverser (bnodes b) ls (right_buckets tr) false)
          | None =>
              match pop_back (right_buckets tr) with
              | Some (rs, b) => traverser_next fuel (mkTraverser (bnodes b) (left_buckets tr) rs true)
              | None =>
                  match pop_back (left_buckets tr) with
                  | Some (ls, b) =>
                      traverser_next fuel (mkTraverser (bnodes b) ls (right_buckets tr) (take_left tr))
                  | None => None
                  end
              end
          end
      end
  end.

Definition next_fuel (tr : TableTraverser) : nat :=
  S (length (left_buckets tr) + length (right_buckets tr)).

(** The items [for neighbor in traverser] sees. *)
Fixpoint traverser_items (fuel : nat) (tr : TableTraverser) : list Node :=
  match fuel with
  | O => []
  | S fuel =>
      match traverser_next (next_fuel tr) tr with
      | Some (n, tr) => n :: traverser_items fuel tr
      | None => []
      end
  end.

Definition items_fuel (tr : TableTraverser) : nat :=
  S (length (current_nodes tr) +
     sum_list (length <$> (bnodes <$> left_buckets tr)) +
     sum_list (length <$> (bnodes <$> right_buckets tr))).

(** A neighbour is skipped when it is the target or the excluded node. *)
Definition skip_neighbor (target : Node) (exclude : option Node) (n : Node) : bool :=
  bool_decide (id n = id target) ||
  match exclude with Some ex => bool_decide (id n = id ex) | None => false end.

(** The collecting loop of [find_neighbors], with its early [break]. *)
Fixpoint collect_neighbors (ksize : nat) (target : Node) (exclude : option Node)
    (items : list Node) (acc : list (Z * Node)) : list (Z * Node) :=
  match items with
  | [] => acc
  | n :: items =>
      if skip_neighbor target exclude n then collect_neighbors ksize target exclude items acc
      else
        let acc := acc ++ [(distance_to n target, n)] in
        if (length acc =? ksize)%nat then acc
        else collect_neighbors ksize target exclude items acc
  end.

Definition find_neighbors `{UnstableSort} (now : Z) (t : RoutingTable) (target : Node)
    (exclude : option Node) : RoutingTable * list Node :=
  let '(t', tr) := TableTraverser_new now t target in
  let nodes := collect_neighbors (tksize t) target exclude
                 (traverser_items (items_fuel tr) tr) [] in
  (t', snd <$> sort_by_key fst nodes).

(** ** Invariant *)

(** The buckets' ranges follow one another from [lo] to [hi]. *)
Fixpoint tiles (lo : Z) (bs : list KBucket) (hi : Z) : Prop :=
  match bs with
  | [] => lo = hi + 1
  | b :: bs => range_lo b = lo /\ lo <= range_hi b /\ tiles (range_hi b + 1) bs hi
  end.

(** A range of [2^e] points aligned on a multiple of [2^e]. *)
Definition dyadic (e : nat) (b : KBucket) : Prop :=
  exists q, range_lo b = q * 2 ^ Z.of_nat e /\ range_hi b = (q + 1) * 2 ^ Z.of_nat e - 1.

Definition all_nodes (t : RoutingTable) : list Node := concat (bnodes <$> buckets t).
Definition all_contacts (t : RoutingTable) : list Node := concat (contacts <$> buckets t).

Record table_wf (t : RoutingTable) : Prop := {
  tw_local : wf_node (local_node t);
  tw_tiles : tiles 0 (buckets t) U128_MAX;
  tw_buckets : Forall bucket_wf (buckets t);
  tw_ksize : Forall (fun b => bksize b = tksize t) (buckets t);
  tw_dyadic : Forall (fun b => exists e, (e <= 128)%nat /\ dyadic e b) (buckets t);
  tw_self : id (local_node t) ∉ id <$> all_contacts t
}.

Lemma RoutingTable_new_wf now n k : wf_node n -> table_wf (RoutingTable_new now n k).
Proof.
  intros Hn. split; simpl; [done|done| | | |apply not_elem_of_nil]; apply Forall_singleton.
  - apply KBucket_new_wf.
  - done.
  - exists 128%nat. split; [lia|]. by exists 0.
Qed.

(** ** Finding the bucket of an identifier *)

(** [b] is the first bucket of the list whose range holds [x]. *)
Definition located (t : RoutingTable) (x : Z) (l1 : list KBucket) (b : KBucket)
    (l2 : list KBucket) : Prop :=
  buckets t = l1 ++ b :: l2 /\ covers b x = true /\ Forall (fun b' => covers b' x = false) l1.

Lemma located_index t x l1 b l2 : located t x l1 b l2 -> bucket_index_for t x = length l1.
Proof.
  intros (E & Hc & Hl). unfold bucket_index_for, position. rewrite E.
  rewrite list_find_app_r.
  - simpl. rewrite decide_True by done. simpl. lia.
  - apply list_find_None. eapply Forall_impl; [exact Hl|]. simpl. congruence.
Qed.

Lemma located_at t x l1 b l2 : located t x l1 b l2 -> bucket_at t (length l1) = b.
Proof. intros (E & _). unfold bucket_at. rewrite E, list_lookup_middle; done. Qed.

Lemma located_insert t x l1 b l2 b' :
  located t x l1 b l2 ->
  set_buckets t (<[length l1 := b']> (buckets t)) = set_buckets t (l1 ++ b' :: l2).
Proof. intros (E & _). by rewrite E, insert_middle. Qed.

Lemma tiles_app lo l1 l2 hi :
  tiles lo (l1 ++ l2) hi <-> exists m, tiles lo l1 m /\ tiles (m + 1) l2 hi.
Proof.
  revert lo. induction l1 as [|b l1 IH]; intros lo; simpl.
  - split.
    + intros H. exists (lo - 1). replace (lo - 1 + 1) with lo by lia. done.
    + intros (m & -> & H). done.
  - rewrite IH. naive_solver.
Qed.

Lemma tiles_le lo bs hi : tiles lo bs hi -> lo <= hi + 1.
Proof.
  revert lo. induction bs as [|b bs IH]; intros lo; simpl; [lia|].
  intros (<- & Hle & Ht). apply IH in Ht. lia.
Qed.

Lemma tiles_bounds lo bs hi b :
  tiles lo bs hi -> b ∈ bs -> lo <= range_lo b /\ range_lo b <= range_hi b <= hi.
Proof.
  revert lo. induction bs as [|c bs IH]; intros lo; simpl; [by intros _ ?%elem_of_nil|].
  intros (E & Hle & Ht) [->|Hb]%elem_of_cons.
  - apply tiles_le in Ht. lia.
  - specialize (IH _ Ht Hb). lia.
Qed.

Lemma tiles_find lo bs hi x :
  tiles lo bs hi -> lo <= x <= hi ->
  exists l1 b l2, bs = l1 ++ b :: l2 /\ covers b x = true /\
                  Forall (fun b' => covers b' x = false) l1.
Proof.
  revert lo. induction bs as [|b bs IH]; intros lo; simpl; [lia|].
  intros (E & Hle & Ht) Hx. destruct (covers b x) eqn:Hc.
  - by exists [], b, bs.
  - destruct (IH _ Ht) as (l1 & c & l2 & -> & Hcc & Hl).
    { apply not_true_iff_false in Hc. rewrite covers_spec in Hc. lia. }
    exists (b :: l1), c, l2. split_and!; [done|done|]. by constructor.
Qed.

Lemma table_locate t x :
  table_wf t -> 0 <= x < 2 ^ 128 -> exists l1 b l2, located t x l1 b l2.
Proof. intros Hw Hx. apply (tiles_find _ _ _ x (tw_tiles t Hw)). unfold U128_MAX. lia. Qed.

(** Only one bucket covers an identifier. *)
Lemma tiles_unique lo l1 b l2 hi b' x :
  tiles lo (l1 ++ b :: l2) hi -> covers b x = true -> b' ∈ l1 \/ b' ∈ l2 ->
  covers b' x = false.
Proof.
  intros (m & H1 & Em & Hle & H2)%tiles_app Hc Hb. apply covers_spec in Hc.
  apply not_true_iff_false. rewrite covers_spec.
  destruct Hb as [Hb|Hb].
  - pose proof (tiles_bounds _ _ _ _ H1 Hb). lia.
  - pose proof (tiles_bounds _ _ _ _ H2 Hb). lia.
Qed.

Lemma all_contacts_app t l1 b l2 :
  buckets t = l1 ++ b :: l2 ->
  all_contacts t = concat (contacts <$> l1) ++ contacts b ++ concat (contacts <$> l2).
Proof. intros E. unfold all_contacts. rewrite E, fmap_app, concat_app. done. Qed.

Lemma elem_of_all_contacts t n : n ∈ all_contacts t <-> exists b, b ∈ buckets t /\ n ∈ contacts b.
Proof.
  unfold all_contacts. rewrite list_elem_of_In, in_concat. split.
  - intros (l & Hl & Hn). apply list_elem_of_In, list_elem_of_fmap in Hl as (b & -> & Hb).
    exists b. split; [done|]. by apply list_elem_of_In.
  - intros (b & Hb & Hn). exists (contacts b). rewrite <- !list_elem_of_In.
    split; [by apply list_elem_of_fmap_2|done].
Qed.

(** Replacing the located bucket by one with the same range keeps the table
    well-formed, provided the local identifier stays out. *)
Lemma table_replace_range_wf t l1 b l2 b' :
  table_wf t -> buckets t = l1 ++ b :: l2 -> bucket_wf b' ->
  range_lo b' = range_lo b -> range_hi b' = range_hi b -> bksize b' = bksize b ->
  id (local_node t) ∉ id <$> contacts b' ->
  table_wf (set_buckets t (l1 ++ b' :: l2)).
Proof.
  intros [Hl Ht Hb Hk Hd Hs] E Hb' El Eh Ek Hn. rewrite E in *.
  split; simpl; [done| | | | |].
  - apply tiles_app in Ht as (m & H1 & Em & Hle & H2). apply tiles_app. exists m.
    split; [done|]. simpl. rewrite El, Eh. done.
  - apply Forall_app in Hb as [HA HB]. apply Forall_cons in HB as [_ HB].
    apply Forall_app; split; [done|]. by constructor.
  - apply Forall_app in Hk as [HA HB]. apply Forall_cons in HB as [HC HB].
    apply Forall_app; split; [done|]. constructor; [congruence|done].
  - apply Forall_app in Hd as [HA HB]. apply Forall_cons in HB as [(e & He & q & Hq) HB].
    apply Forall_app; split; [done|]. constructor; [|done].
    exists e. split; [done|]. exists q. by rewrite El, Eh.
  - rewrite (all_contacts_app _ l1 b l2 E) in Hs.
    rewrite (all_contacts_app _ l1 b' l2) by done. rewrite !fmap_app in *. set_solver.
Qed.

Lemma table_replace_wf t l1 b l2 b' :
  table_wf t -> buckets t = l1 ++ b :: l2 -> bucket_wf b' -> same_frame b b' ->
  id (local_node t) ∉ id <$> contacts b' ->
  table_wf (set_buckets t (l1 ++ b' :: l2)).
Proof. intros Hw E Hb' (El & Eh & Ek & _) Hn. by eapply table_replace_range_wf. Qed.

(** Replacing a bucket by its two halves keeps the table well-formed. *)
Lemma dyadic_splittable e b :
  dyadic (S e) b -> 0 <= range_lo b -> range_hi b <= U128_MAX -> splittable b.
Proof.
  intros (q & El & Eh) H0 Hm. unfold U128_MAX in Hm.
  assert (0 < 2 ^ Z.of_nat e) by (apply Z.pow_pos_nonneg; lia).
  rewrite Nat2Z.inj_succ, Z.pow_succ_r in * by lia.
  split_and!; lia.
Qed.

Lemma dyadic_halves e b :
  dyadic (S e) b ->
  split_mid b = range_lo b + 2 ^ Z.of_nat e - 1 /\
  exists q, range_lo b = 2 * q * 2 ^ Z.of_nat e /\ range_hi b = (2 * q + 2) * 2 ^ Z.of_nat e - 1.
Proof.
  intros (q & El & Eh). rewrite Nat2Z.inj_succ, Z.pow_succ_r in * by lia.
  assert (0 < 2 ^ Z.of_nat e) by (apply Z.pow_pos_nonneg; lia).
  split; [|exists q; lia]. unfold split_mid. rewrite El, Eh.
  replace ((q + 1) * (2 * 2 ^ Z.of_nat e) - 1 - q * (2 * 2 ^ Z.of_nat e))
    with (2 ^ Z.of_nat e * 2 + -1) by ring.
  rewrite Z.div_add_l by lia. change (-1 / 2) with (-1). lia.
Qed.

Lemma table_split_wf now t l1 b l2 e :
  table_wf t -> buckets t = l1 ++ b :: l2 -> dyadic (S e) b -> (S e <= 128)%nat ->
  table_wf (set_buckets t (l1 ++ low_half now b :: high_half now b :: l2)) /\
  dyadic e (low_half now b) /\ dyadic e (high_half now b).
Proof.
  intros [Hl Ht Hb Hk Hd Hs] E Hdy He. rewrite E in *.
  pose proof Ht as (m & H1 & Em & Hle & H2)%tiles_app.
  pose proof (tiles_bounds _ _ _ b Ht ltac:(set_solver)) as Hbd.
  pose proof (dyadic_splittable e b Hdy ltac:(lia) ltac:(lia)) as Hsp.
  destruct (split_mid_range b Hsp) as [Hm Ew].
  destruct (dyadic_halves e b Hdy) as [Emid (q & Elo & Ehi)].
  apply Forall_app in Hb as [HbA [Hbb HbB]%Forall_cons].
  apply Forall_app in Hk as [HkA [Hkb HkB]%Forall_cons].
  apply Forall_app in Hd as [HdA [Hdb HdB]%Forall_cons].
  destruct (halves_wf now b Hbb Hsp) as [Hwl Hwh].
  assert (dyadic e (low_half now b)) as Dl.
  { exists (2 * q). simpl. rewrite Emid. lia. }
  assert (dyadic e (high_half now b)) as Dh.
  { exists (2 * q + 1). simpl. rewrite Ew, Emid. lia. }
  split; [|done]. split; simpl; [done| | | | |].
  - apply tiles_app. exists m. split; [done|]. simpl. rewrite Ew. split_and!; try lia; done.
  - apply Forall_app; split; [done|]. constructor; [done|]. by constructor.
  - apply Forall_app; split; [done|]. constructor; [done|]. by constructor.
  - apply Forall_app; split; [done|].
    constructor; [exists e; split; [lia|done]|]. constructor; [exists e; split; [lia|done]|done].
  - rewrite (all_contacts_app _ l1 b l2 E) in Hs.
    rewrite (all_contacts_app _ l1 (low_half now b) (high_half now b :: l2)) by done.
    rewrite !fmap_app in *. simpl. rewrite fmap_app. intros Hin. apply Hs.
    pose proof (split_contacts now b) as Hp. apply (fmap_Permutation id) in Hp.
    rewrite fmap_app in Hp. rewrite !elem_of_app in *. rewrite <- Hp, elem_of_app. tauto.
Qed.

(** ** Insertion *)

Lemma set_set_buckets t bs bs' : set_buckets (set_buckets t bs) bs' = set_buckets t bs'.
Proof. done. Qed.

Lemma split_bucket_middle now t l1 b l2 :
  split_bucket now (set_buckets t (l1 ++ b :: l2)) (length l1) =
  set_buckets t (l1 ++ fst (split now b) :: snd (split now b) :: l2).
Proof.
  unfold split_bucket, bucket_at. simpl. rewrite list_lookup_middle by done. simpl.
  destruct (split now b) as [lo hi]. simpl. rewrite take_app_length.
  replace (drop (S (length l1)) (l1 ++ b :: l2)) with l2; [done|].
  change (l1 ++ b :: l2) with (l1 ++ [b] ++ l2). rewrite app_assoc, drop_app_length'; [done|].
  rewrite length_app. simpl. lia.
Qed.

(** The §4.2 test: split when the bucket covers the local node or its depth is
    not a multiple of five. *)
Definition may_split (t : RoutingTable) (b : KBucket) : bool :=
  covers b (long_id (local_node t)) || negb (depth b mod 5 =? 0)%nat.

Lemma table_insert_step fuel now t n l1 b l2 :
  located t (long_id n) l1 b l2 ->
  table_insert (S fuel) now t n =
  (let b' := fst (add_node b n) in
   if snd (add_node b n) then Some (set_buckets t (l1 ++ b' :: l2), None)
   else if may_split t b' then
     table_insert fuel now
       (set_buckets t (l1 ++ fst (split now b') :: snd (split now b') :: l2)) n
   else Some (set_buckets t (l1 ++ b' :: l2), KBucket_head b')).
Proof.
  intros Hl. cbn [table_insert]. rewrite (located_index _ _ _ _ _ Hl), (located_at _ _ _ _ _ Hl).
  destruct (add_node b n) as [b' ok]. simpl.
  rewrite (located_insert _ _ _ _ _ _ Hl). rewrite split_bucket_middle. done.
Qed.

Lemma depth_nodes b b' : bnodes b' = bnodes b -> depth b' = depth b.
Proof. unfold depth. by intros ->. Qed.

(** The half [P] of a split bucket keeps its primary nodes in front. *)
Lemma half_nodes_all (P : Node -> Prop) `{forall x, Decision (P x)} b :
  length (bnodes b) = bksize b -> Forall P (bnodes b) ->
  take (bksize b) (filter P (contacts b)) = bnodes b.
Proof.
  intros Hlen Hall. unfold contacts. rewrite filter_app.
  assert (filter P (bnodes b) = bnodes b) as ->; [|by rewrite <- Hlen, take_app_length].
  clear Hlen. induction Hall as [|m l Hm _ IH]; [done|].
  rewrite filter_cons, decide_True by done. by rewrite IH.
Qed.

Lemma half_nodes_keep (P : Node -> Prop) `{forall x, Decision (P x)} b m :
  (length (bnodes b) <= bksize b)%nat -> m ∈ bnodes b -> P m ->
  m ∈ take (bksize b) (filter P (contacts b)).
Proof.
  intros Hlen Hm HP. unfold contacts. rewrite filter_app, take_app.
  apply elem_of_app. left. rewrite take_ge; [by apply list_elem_of_filter|].
  etrans; [apply length_filter|done].
Qed.

(** Where the bucket of [x] goes when it is split: to one of the two halves,
    which keeps capacity and range limits, and the primary list when its nodes
    are all at [x]. *)
Lemma split_located now t x l1 b l2 :
  located t x l1 b l2 -> bucket_wf b -> 0 <= range_lo b -> range_hi b <= U128_MAX ->
  exists l1' c l2',
    located (set_buckets t (l1 ++ fst (split now b) :: snd (split now b) :: l2)) x l1' c l2' /\
    (c = low_half now b \/ c = high_half now b) /\
    bucket_wf c /\ 0 <= range_lo c /\ range_hi c <= U128_MAX /\ bksize c = bksize b /\
    (length (bnodes b) = bksize b -> Forall (fun m => long_id m = x) (bnodes b) ->
     bnodes c = bnodes b).
Proof.
  intros (Eb & Hc & Hl1) Hw Hlo Hhi. rewrite split_halves by done. simpl.
  apply covers_spec in Hc.
  assert (0 <= (range_hi b - range_lo b) / 2 <= range_hi b - range_lo b) as Hdiv.
  { split; [apply Z.div_pos; lia|]. apply Z.div_le_upper_bound; lia. }
  pose proof (contacts_length b Hw) as Hlen.
  destruct (decide (x <= split_mid b)) as [Hle|Hgt].
  - unfold located. exists l1, (low_half now b), (high_half now b :: l2). split_and!; simpl; try done.
    + apply covers_spec. simpl. lia.
    + by left.
    + apply filled_bucket_wf; [apply NoDup_fmap_filter, Hw| |].
      * etrans; [apply length_filter|done].
      * apply Forall_forall. intros m [Hm Hin]%list_elem_of_filter.
        destruct (proj1 (Forall_forall _ _) (bw_nodes b Hw) m Hin) as [Hwm Hcm%covers_spec].
        split; [done|lia].
    + unfold split_mid. lia.
    + intros Hfull Hall. apply half_nodes_all; [done|].
      eapply Forall_impl; [exact Hall|]. by intros m ->.
  - assert (splittable b) as Hsp.
    { unfold splittable, split_mid, U128_MAX in *. split_and!; [done| |lia].
      destruct (decide (range_lo b = range_hi b)); lia. }
    destruct (split_mid_range b Hsp) as [Hm Ew].
    unfold located. exists (l1 ++ [low_half now b]), (high_half now b), l2.
    split_and!; simpl; try done.
    + by rewrite <- app_assoc.
    + apply covers_spec. simpl. lia.
    + apply Forall_app; split; [done|]. apply Forall_singleton, not_true_iff_false.
      rewrite covers_spec. simpl. lia.
    + by right.
    + apply halves_wf; done.
    + lia.
    + intros Hfull Hall. apply half_nodes_all; [done|].
      eapply Forall_impl; [exact Hall|]. by intros m ->.
Qed.

Lemma add_node_full b n :
  bucket_wf b -> id n ∉ id <$> bnodes b -> length (bnodes b) = bksize b ->
  snd (add_node b n) = false /\ bnodes (fst (add_node b n)) = bnodes b.
Proof.
  intros Hw Hid Hfull. pose proof (add_node_outcome b n Hw) as Ho. simpl in Ho.
  inversion Ho as [l x l' El Ex| |]; [|lia|done]. exfalso. apply Hid.
  rewrite El, <- Ex, fmap_app. simpl. set_solver.
Qed.

(** A bucket whose primary nodes all share the new node's [long_id] and that
    may split: splitting keeps them together, so [insert] never returns. *)
Lemma table_insert_diverges fuel now t n l1 b l2 :
  located t (long_id n) l1 b l2 -> bucket_wf b -> wf_node n ->
  id n ∉ id <$> bnodes b -> length (bnodes b) = bksize b ->
  Forall (fun m => long_id m = long_id n) (bnodes b) ->
  0 <= range_lo b -> range_hi b <= U128_MAX ->
  long_id (local_node t) = long_id n \/ (depth b mod 5)%nat <> 0%nat ->
  table_insert fuel now t n = None.
Proof.
  revert t l1 b l2. induction fuel as [|fuel IH];
    intros t l1 b l2 Hloc Hw Hn Hid Hfull Hsame Hlo Hhi Hcond; [done|].
  rewrite (table_insert_step _ _ _ _ _ _ _ Hloc). destruct Hloc as (Eb & Hc & Hl1).
  destruct (add_node_full b n Hw Hid Hfull) as [-> En].
  pose proof (add_node_wf b n Hw Hn Hc) as Hw'.
  pose proof (same_frame_covers b _ (long_id n) (add_node_frame b n)) as Hc'.
  destruct (add_node_frame b n) as (Flo & Fhi & Fk & _).
  set (b' := fst (add_node b n)) in *. simpl.
  assert (may_split t b' = true) as ->.
  { unfold may_split. apply orb_true_iff. destruct Hcond as [->|Hd]; [left; congruence|right].
    rewrite (depth_nodes b b' En). by apply negb_true_iff, Nat.eqb_neq. }
  destruct (split_located now (set_buckets t (l1 ++ b' :: l2)) (long_id n) l1 b' l2)
    as (l1' & c & l2' & Hloc & _ & Hwc & Hclo & Hchi & Hck & Hcn); [|done|lia|lia|].
  { split_and!; [done|congruence|done]. }
  rewrite En, Fk in Hcn. specialize (Hcn Hfull Hsame).
  apply (IH _ l1' c l2'); rewrite ?Hcn, ?Hck, ?Fk; try done.
  simpl. by rewrite (depth_nodes b c Hcn).
Qed.

(** What one [add_node] does to membership. *)
Lemma add_node_contacts b n m :
  bucket_wf b -> m ∈ contacts (fst (add_node b n)) -> m = n \/ m ∈ contacts b.
Proof.
  intros Hw Hm. pose proof (add_node_outcome b n Hw) as Ho. simpl in Ho. revert Hm.
  inversion Ho as [l x l' El Ex Eb|Hi Hlt Er Eb|r0 Hi Hlen Er0 Eb]; unfold contacts; simpl.
  - rewrite El. set_solver.
  - set_solver.
  - intros [Hm|Hm]%elem_of_app; [set_solver|]. apply subseteq_drop in Hm.
    apply elem_of_app in Hm as [Hm|Hm]; [|set_solver]. subst r0.
    apply list_elem_of_filter in Hm as [_ Hm]. set_solver.
Qed.

Lemma add_node_keeps b n m :
  bucket_wf b -> m ∈ bnodes b -> id m <> id n -> m ∈ bnodes (fst (add_node b n)).
Proof.
  intros Hw Hm Hne. pose proof (add_node_outcome b n Hw) as Ho. simpl in Ho. revert Hm.
  inversion Ho as [l x l' El Ex Eb|Hi Hlt Er Eb|r0 Hi Hlen Er0 Eb]; simpl; [|set_solver|done].
  rewrite El. intros [?|[->|?]%elem_of_cons]%elem_of_app; [set_solver|done|set_solver].
Qed.

Lemma add_node_true b n :
  bucket_wf b -> snd (add_node b n) = true -> n ∈ bnodes (fst (add_node b n)).
Proof.
  intros Hw Ht. pose proof (add_node_outcome b n Hw) as Ho. simpl in Ho. revert Ht.
  inversion Ho; simpl; set_solver.
Qed.

Lemma add_node_false b n :
  bucket_wf b -> snd (add_node b n) = false ->
  (id n ∉ id <$> bnodes b) /\ length (bnodes b) = bksize b /\
  bnodes (fst (add_node b n)) = bnodes b /\
  ((0 < bksize b)%nat -> last (replacement_nodes (fst (add_node b n))) = Some n).
Proof.
  intros Hw Hf. pose proof (add_node_outcome b n Hw) as Ho. simpl in Ho. revert Hf.
  pose proof (bw_max b Hw) as Hm.
  inversion Ho as [| |r0 Hi Hlen Er0 Eb]; simpl; try done. intros _. split_and!; [done..|].
  intros Hk. rewrite drop_app_le by lia. apply last_snoc.
Qed.

(** How an insertion of [n] may change a table: contacts other than [n] never
    appear, primary contacts never disappear. *)
Record insert_rel (t t' : RoutingTable) (n : Node) : Prop := {
  ir_local : local_node t' = local_node t;
  ir_ksize : tksize t' = tksize t;
  ir_nodes : forall m, m ∈ all_nodes t -> id m <> id n -> m ∈ all_nodes t';
  ir_contacts : forall m, m ∈ all_contacts t' -> m = n \/ m ∈ all_contacts t
}.

Lemma insert_rel_trans t1 t2 t3 n : insert_rel t1 t2 n -> insert_rel t2 t3 n -> insert_rel t1 t3 n.
Proof.
  intros [L1 K1 N1 C1] [L2 K2 N2 C2]. split; [congruence..|auto|].
  intros m [->|Hm]%C2; auto.
Qed.

Lemma elem_of_all_nodes t n : n ∈ all_nodes t <-> exists b, b ∈ buckets t /\ n ∈ bnodes b.
Proof.
  unfold all_nodes. rewrite list_elem_of_In, in_concat. split.
  - intros (l & Hl & Hn). apply list_elem_of_In, list_elem_of_fmap in Hl as (b & -> & Hb).
    exists b. split; [done|]. by apply list_elem_of_In.
  - intros (b & Hb & Hn). exists (bnodes b). rewrite <- !list_elem_of_In.
    split; [by apply list_elem_of_fmap_2|done].
Qed.

(** Replacing bucket [b] by the buckets [bs]. *)
Lemma insert_rel_middle t l1 b l2 bs n :
  buckets t = l1 ++ b :: l2 ->
  (forall m, m ∈ bnodes b -> id m <> id n -> exists c, c ∈ bs /\ m ∈ bnodes c) ->
  (forall m c, c ∈ bs -> m ∈ contacts c -> m = n \/ m ∈ contacts b) ->
  insert_rel t (set_buckets t (l1 ++ bs ++ l2)) n.
Proof.
  intros E Hnodes Hcont. split; [done|done|..]; intros m;
    rewrite ?elem_of_all_nodes, ?elem_of_all_contacts; simpl; rewrite ?E.
  - intros (c & Hc & Hm) Hne. rewrite elem_of_app, elem_of_cons in Hc.
    destruct Hc as [Hc|[->|Hc]]; [exists c; set_solver| |exists c; set_solver].
    destruct (Hnodes m Hm Hne) as (c & ? & ?). exists c. set_solver.
  - intros (c & Hc & Hm). rewrite !elem_of_app in Hc.
    destruct Hc as [Hc|[Hc|Hc]]; [right; exists c; set_solver| |right; exists c; set_solver].
    destruct (Hcont m c Hc Hm) as [->|?]; [by left|right; exists b; set_solver].
Qed.

Lemma insert_rel_add t n l1 b l2 :
  bucket_wf b -> buckets t = l1 ++ b :: l2 ->
  insert_rel t (set_buckets t (l1 ++ fst (add_node b n) :: l2)) n.
Proof.
  intros Hw E. apply (insert_rel_middle t l1 b l2 [_]); [done|..].
  - intros m Hm Hne. exists (fst (add_node b n)). split; [set_solver|by apply add_node_keeps].
  - intros m c ->%list_elem_of_singleton Hm. by apply add_node_contacts.
Qed.

Lemma insert_rel_split now t n l1 b l2 :
  bucket_wf b -> buckets t = l1 ++ b :: l2 ->
  insert_rel t (set_buckets t (l1 ++ low_half now b :: high_half now b :: l2)) n.
Proof.
  intros Hw E. apply (insert_rel_middle t l1 b l2 [_; _]); [done|..].
  - intros m Hm Hne. destruct (decide (long_id m <= split_mid b)) as [Hle|Hgt].
    + exists (low_half now b). split; [set_solver|]. apply half_nodes_keep; [apply Hw|done|done].
    + exists (high_half now b). split; [set_solver|]. apply half_nodes_keep; [apply Hw|done|done].
  - intros m c Hc Hm. right. rewrite <- (split_contacts now b), elem_of_app. set_solver.
Qed.

(** The table between [add_node] and the split. *)
Lemma table_add_wf t n l1 b l2 :
  table_wf t -> wf_node n -> id n <> id (local_node t) -> located t (long_id n) l1 b l2 ->
  bucket_wf b /\ table_wf (set_buckets t (l1 ++ fst (add_node b n) :: l2)).
Proof.
  intros Hw Hn Hne (E & Hc & _).
  assert (bucket_wf b) as Hb.
  { pose proof (tw_buckets t Hw) as H. rewrite E in H. by apply Forall_app in H as [_ [? _]%Forall_cons]. }
  split; [done|]. eapply table_replace_wf; [done|done|by apply add_node_wf|apply add_node_frame|].
  intros (m & Em & Hm)%list_elem_of_fmap.
  apply add_node_contacts in Hm as [->|Hm]; [done| |done].
  apply (tw_self t Hw). rewrite Em. apply list_elem_of_fmap_2, elem_of_all_contacts.
  exists b. rewrite E. set_solver.
Qed.

Lemma dyadic_zero b : dyadic 0 b -> range_lo b = range_hi b.
Proof. intros (q & -> & ->). simpl. lia. Qed.

Lemma located_wf t x l1 b l2 :
  table_wf t -> located t x l1 b l2 ->
  bucket_wf b /\ bksize b = tksize t /\ 0 <= range_lo b /\ range_hi b <= U128_MAX /\
  exists e, (e <= 128)%nat /\ dyadic e b.
Proof.
  intros Hw (E & _ & _). pose proof (tw_tiles t Hw) as Ht. pose proof (tw_buckets t Hw) as Hb.
  pose proof (tw_ksize t Hw) as Hk. pose proof (tw_dyadic t Hw) as Hd. rewrite E in *.
  pose proof (tiles_bounds _ _ _ b Ht ltac:(set_solver)) as Hbd.
  rewrite Forall_app, Forall_cons in Hb, Hk, Hd.
  split_and!; [apply Hb|apply Hk|lia|lia|apply Hd].
Qed.

(** A full single-point bucket holds only nodes with the new node's [long_id]. *)
Lemma point_bucket_same b n :
  bucket_wf b -> covers b (long_id n) = true -> range_lo b = range_hi b ->
  Forall (fun m => long_id m = long_id n) (bnodes b).
Proof.
  intros Hw Hc%covers_spec Hp. apply Forall_forall. intros m Hm.
  destruct (proj1 (Forall_forall _ _) (bw_nodes b Hw) m) as [_ Hm'%covers_spec]; [|lia].
  unfold contacts. set_solver.
Qed.

(** What a returning insertion has done at the bucket of the new node. *)
Definition inserted (t' : RoutingTable) (n : Node) (r : option Node) (b : KBucket) : Prop :=
  match r with
  | None => n ∈ bnodes b
  | Some h => head (bnodes b) = Some h /\ length (bnodes b) = tksize t' /\
              (id n ∉ id <$> bnodes b) /\ last (replacement_nodes b) = Some n /\
              may_split t' b = false
  end.

Lemma table_insert_spec fuel now t n t' r :
  table_wf t -> wf_node n -> id n <> id (local_node t) -> (0 < tksize t)%nat ->
  table_insert fuel now t n = Some (t', r) ->
  table_wf t' /\ insert_rel t t' n /\
  exists l1 b l2, located t' (long_id n) l1 b l2 /\ inserted t' n r b.
Proof.
  revert t. induction fuel as [|fuel IH]; intros t Hw Hn Hne Hk Hins; [done|].
  destruct (table_locate t (long_id n) Hw (wf_node_range n Hn)) as (l1 & b & l2 & Hloc).
  destruct (table_add_wf t n l1 b l2 Hw Hn Hne Hloc) as [Hb Hw1].
  destruct (located_wf _ _ _ _ _ Hw Hloc) as (_ & Hbk & Hlo & Hhi & _).
  assert (located (set_buckets t (l1 ++ fst (add_node b n) :: l2)) (long_id n) l1
            (fst (add_node b n)) l2) as Hloc1.
  { destruct Hloc as (E & Hc & Hl). split_and!; [done| |done].
    by rewrite (same_frame_covers b) by apply add_node_frame. }
  pose proof (insert_rel_add t n l1 b l2 Hb (proj1 Hloc)) as Hrel1.
  pose proof Hins as Hins'. rewrite (table_insert_step _ _ _ _ _ _ _ Hloc) in Hins. simpl in Hins.
  destruct (snd (add_node b n)) eqn:Eok.
  { simplify_eq. split_and!; [done|done|]. exists l1, (fst (add_node b n)), l2.
    split; [done|]. by apply add_node_true. }
  destruct (add_node_false b n Hb Eok) as (Hid & Hfull & Hnodes & Hlast).
  destruct (add_node_frame b n) as (Flo & Fhi & Fk & _).
  destruct (may_split t (fst (add_node b n))) eqn:Esplit.
  - destruct (located_wf _ _ _ _ _ Hw1 Hloc1) as (Hb1 & _ & Hlo1 & Hhi1 & e & He & Hdy).
    destruct e as [|e].
    { exfalso. apply dyadic_zero in Hdy. rewrite Flo, Fhi in Hdy.
      pose proof (point_bucket_same b n Hb (proj1 (proj2 Hloc)) Hdy) as Hsame.
      rewrite (table_insert_diverges _ _ _ _ _ _ _ Hloc Hb Hn Hid Hfull Hsame Hlo Hhi) in Hins'; [done|].
      unfold may_split in Esplit. apply orb_true_iff in Esplit as [Hc|Hd].
      - left. apply covers_spec in Hc. destruct Hloc as (_ & Hcn%covers_spec & _). lia.
      - right. rewrite (depth_nodes b) in Hd by done. by apply negb_true_iff, Nat.eqb_neq in Hd. }
    rewrite split_halves in Hins by done. simpl in Hins.
    destruct (table_split_wf now _ l1 _ l2 e Hw1 eq_refl Hdy He) as [Hw2 _].
    pose proof (insert_rel_split now _ n l1 _ l2 Hb1 (proj1 Hloc1)) as Hrel2.
    rewrite set_set_buckets in Hw2, Hrel2.
    destruct (IH _ Hw2 Hn Hne Hk Hins) as (Hw' & Hrel & Hex).
    split_and!; [done| |done]. eapply insert_rel_trans; [exact Hrel1|].
    eapply insert_rel_trans; [exact Hrel2|done].
  - injection Hins as <- Hh. split_and!; [done|done|].
    exists l1, (fst (add_node b n)), l2. split; [done|]. unfold KBucket_head in Hh.
    assert (tksize t = length (bnodes b)) as Hkl by congruence.
    destruct r as [h|].
    + simpl. rewrite Hnodes in *. split_and!; [done|congruence|done|apply Hlast; congruence|done].
    + rewrite Hnodes in Hh. destruct (bnodes b); simpl in *; [lia|done].
Qed.

(** The contacts of the bucket that collide with [n]: another identifier, the
    same [long_id]. *)
Definition rivals (b : KBucket) (n : Node) : list Node :=
  filter (fun m => long_id m = long_id n /\ id m <> id n) (contacts b).

Lemma rivals_add b n : bucket_wf b -> snd (add_node b n) = false ->
  (length (rivals (fst (add_node b n)) n) <= length (rivals b n))%nat.
Proof.
  intros Hw Hf. pose proof (add_node_outcome b n Hw) as Ho. simpl in Ho. revert Hf.
  inversion Ho as [| |r0 Hi Hlen Er0 Eb]; try done. intros _.
  unfold rivals, contacts. simpl. rewrite !filter_app, !length_app.
  apply Nat.add_le_mono_l.
  transitivity (length (filter (fun m => long_id m = long_id n /\ id m <> id n) (r0 ++ [n]))).
  { apply sublist_length. rewrite <- (take_drop (S (length r0) - max_replacement_nodes b) (r0 ++ [n])) at 2.
    rewrite filter_app. apply sublist_inserts_l. done. }
  rewrite filter_app, filter_cons, decide_False, app_nil_r by naive_solver.
  apply sublist_length. subst r0. rewrite list_filter_filter.
  clear. induction (replacement_nodes b) as [|m l IH]; [done|].
  rewrite !filter_cons. repeat case_decide; try (by constructor); try naive_solver.
Qed.

Lemma rivals_half now b n c :
  c = low_half now b \/ c = high_half now b -> (length (rivals c n) <= length (rivals b n))%nat.
Proof.
  intros Hc. unfold rivals. apply sublist_length.
  assert (contacts c `sublist_of` contacts b) as Hs.
  { destruct Hc as [-> | ->]; rewrite ?low_half_contacts, ?high_half_contacts; apply sublist_filter. }
  clear Hc. induction Hs as [|x l1 l2 Hs IH|x l1 l2 Hs IH]; [done|..];
    rewrite !filter_cons; case_decide; try done; by constructor.
Qed.

Lemma rivals_point b n :
  bucket_wf b -> covers b (long_id n) = true -> range_lo b = range_hi b ->
  id n ∉ id <$> bnodes b -> (length (bnodes b) <= length (rivals b n))%nat.
Proof.
  intros Hw Hc Hp Hid. pose proof (point_bucket_same b n Hw Hc Hp) as Hsame.
  unfold rivals, contacts. rewrite filter_app, length_app.
  assert (filter (fun m => long_id m = long_id n /\ id m <> id n) (bnodes b) = bnodes b) as ->; [|lia].
  clear -Hsame Hid. induction Hsame as [|m l Hm _ IH]; [done|].
  rewrite filter_cons, decide_True by set_solver. rewrite IH; set_solver.
Qed.

(** Each recursive call halves the range: with fewer than [k] rivals the
    recursion stops before the range is a single point. *)
Lemma table_insert_terminates e fuel now t n l1 b l2 :
  table_wf t -> wf_node n -> id n <> id (local_node t) ->
  located t (long_id n) l1 b l2 -> dyadic e b -> (e <= 128)%nat ->
  (length (rivals b n) < tksize t)%nat -> (e < fuel)%nat ->
  exists r, table_insert fuel now t n = Some r.
Proof.
  revert fuel t l1 b l2. induction e as [|e IH];
    intros fuel t l1 b l2 Hw Hn Hne Hloc Hdy He Hriv Hfuel;
    (destruct fuel as [|fuel]; [lia|]);
    rewrite (table_insert_step _ _ _ _ _ _ _ Hloc); simpl;
    destruct (table_add_wf t n l1 b l2 Hw Hn Hne Hloc) as [Hb Hw1];
    destruct (located_wf _ _ _ _ _ Hw Hloc) as (_ & Hbk & Hlo & Hhi & _);
    (destruct (snd (add_node b n)) eqn:Eok; [by eauto|]);
    destruct (add_node_false b n Hb Eok) as (Hid & Hfull & Hnodes & _);
    (destruct (may_split t (fst (add_node b n))); [|by eauto]).
  - exfalso. pose proof (rivals_point b n Hb (proj1 (proj2 Hloc)) (dyadic_zero b Hdy) Hid). lia.
  - pose proof (rivals_add b n Hb Eok) as Hr1.
    destruct (add_node_frame b n) as (Flo & Fhi & Fk & _).
    assert (covers (fst (add_node b n)) (long_id n) = true) as Hc'.
    { rewrite (same_frame_covers b) by apply add_node_frame. apply Hloc. }
    destruct (located_wf _ _ _ _ _ Hw1 (conj eq_refl (conj Hc' (proj2 (proj2 Hloc)))))
      as (Hb1 & _ & Hlo1 & Hhi1 & _).
    set (b1 := fst (add_node b n)) in *.
    assert (dyadic (S e) b1) as Hdy1 by (destruct Hdy as (q & ? & ?); exists q; lia).
    destruct (table_split_wf now _ l1 b1 l2 e Hw1 eq_refl Hdy1 He) as (Hw2 & Dl & Dh).
    destruct (split_located now (set_buckets t (l1 ++ b1 :: l2)) (long_id n) l1 b1 l2)
      as (l1' & c & l2' & Hloc2 & Hor & _); [by split_and!; [..|apply Hloc]|done..|].
    rewrite set_set_buckets in Hw2, Hloc2.
    rewrite split_halves in * by done. simpl in *.
    apply (IH fuel _ l1' c l2'); try done; try lia.
    + by destruct Hor as [-> | ->].
    + pose proof (rivals_half now b1 n c Hor). simpl. lia.
Qed.

(** ** Removal and membership *)

Lemma covering_unique t x l1 b l2 c :
  table_wf t -> located t x l1 b l2 -> c ∈ buckets t -> covers c x = true -> c = b.
Proof.
  intros Hw (E & Hc & _) Hcin Hcc. pose proof (tw_tiles t Hw) as Ht. rewrite E in *.
  rewrite elem_of_app, elem_of_cons in Hcin. destruct Hcin as [H|[->|H]]; [|done|];
    pose proof (tiles_unique _ _ _ _ _ c x Ht Hc ltac:(tauto)); congruence.
Qed.

Lemma bucket_contact_covers t b m :
  table_wf t -> b ∈ buckets t -> m ∈ contacts b -> wf_node m /\ covers b (long_id m) = true.
Proof.
  intros Hw Hb Hm. pose proof (proj1 (Forall_forall _ _) (tw_buckets t Hw) b Hb) as Hbw.
  exact (proj1 (Forall_forall _ _) (bw_nodes b Hbw) m Hm).
Qed.

Lemma contact_wf t m : table_wf t -> m ∈ all_contacts t -> wf_node m.
Proof.
  intros Hw (b & Hb & Hm)%elem_of_all_contacts.
  pose proof (proj1 (Forall_forall _ _) (tw_buckets t Hw) b Hb) as Hbw.
  by destruct (proj1 (Forall_forall _ _) (bw_nodes b Hbw) m Hm).
Qed.

Lemma all_nodes_contacts t m : m ∈ all_nodes t -> m ∈ all_contacts t.
Proof.
  rewrite elem_of_all_nodes, elem_of_all_contacts. intros (b & ? & ?). exists b.
  unfold contacts. set_solver.
Qed.

(** A bucket that holds a contact with the identifier of [n] is the one
    located for [n]. *)
Lemma same_id_bucket t n l1 b l2 c m :
  table_wf t -> wf_node n -> located t (long_id n) l1 b l2 ->
  c ∈ buckets t -> m ∈ contacts c -> id m = id n -> c = b.
Proof.
  intros Hw [_ En] Hloc Hc Hm Hid. destruct (bucket_contact_covers t c m Hw Hc Hm) as [[_ Em] Hcov].
  eapply covering_unique; try done. congruence.
Qed.

Lemma is_new_node_spec t n :
  table_wf t -> wf_node n -> is_new_node t n = true <-> id n ∉ id <$> all_nodes t.
Proof.
  intros Hw Hn.
  destruct (table_locate t (long_id n) Hw (wf_node_range n Hn)) as (l1 & b & l2 & Hloc).
  unfold is_new_node. rewrite (located_index _ _ _ _ _ Hloc), (located_at _ _ _ _ _ Hloc).
  rewrite negb_true_iff, <- not_true_iff_false, contains_id.
  apply not_iff_compat. rewrite !list_elem_of_fmap. split; intros (m & Em & Hm); exists m.
  - split; [done|]. apply elem_of_all_nodes. exists b. destruct Hloc as (-> & _). set_solver.
  - split; [done|]. apply elem_of_all_nodes in Hm as (c & Hc & Hmc).
    rewrite <- (same_id_bucket t n l1 b l2 c m Hw Hn Hloc Hc); [done| |done].
    unfold contacts. set_solver.
Qed.

Lemma remove_contact_located t n l1 b l2 :
  located t (long_id n) l1 b l2 ->
  remove_contact t n = set_buckets t (l1 ++ remove_node b n :: l2).
Proof.
  intros Hloc. unfold remove_contact.
  rewrite (located_index _ _ _ _ _ Hloc), (located_at _ _ _ _ _ Hloc).
  apply (located_insert _ _ _ _ _ _ Hloc).
Qed.

Lemma remove_contact_wf t n : table_wf t -> wf_node n -> table_wf (remove_contact t n).
Proof.
  intros Hw Hn.
  destruct (table_locate t (long_id n) Hw (wf_node_range n Hn)) as (l1 & b & l2 & Hloc).
  destruct (located_wf _ _ _ _ _ Hw Hloc) as (Hb & _).
  rewrite (remove_contact_located _ _ _ _ _ Hloc).
  eapply table_replace_wf; [done|apply Hloc|by apply remove_node_wf|apply remove_node_frame|].
  intros (m & Em & Hm)%list_elem_of_fmap. rewrite remove_node_contacts in Hm by done.
  apply list_elem_of_filter in Hm as [_ Hm]. apply (tw_self t Hw). rewrite Em.
  apply list_elem_of_fmap_2, elem_of_all_contacts. exists b. destruct Hloc as (-> & _). set_solver.
Qed.

Lemma remove_contact_contacts t n m :
  table_wf t -> wf_node n ->
  m ∈ all_contacts (remove_contact t n) <-> m ∈ all_contacts t /\ id m <> id n.
Proof.
  intros Hw Hn.
  destruct (table_locate t (long_id n) Hw (wf_node_range n Hn)) as (l1 & b & l2 & Hloc).
  destruct (located_wf _ _ _ _ _ Hw Hloc) as (Hb & _).
  pose proof (remove_contact_wf t n Hw Hn) as Hw'.
  rewrite (remove_contact_located _ _ _ _ _ Hloc) in *. rewrite !elem_of_all_contacts. simpl.
  pose proof Hloc as (E & Hc & Hl1). rewrite E. split.
  - intros (c & Hcin & Hm).
    assert (covers (remove_node b n) (long_id n) = true) as Hc'
      by (by rewrite (same_frame_covers b) by apply remove_node_frame).
    pose proof (same_id_bucket _ n l1 (remove_node b n) l2 c m Hw' Hn
                  (conj eq_refl (conj Hc' Hl1)) Hcin Hm) as Hsame.
    rewrite elem_of_app, elem_of_cons in Hcin. destruct Hcin as [Hcin|[->|Hcin]].
    2:{ rewrite remove_node_contacts in Hm by done. apply list_elem_of_filter in Hm as [? ?].
        split; [exists b; set_solver|done]. }
    all: split; [exists c; set_solver|]; intros Hid; rewrite (Hsame Hid) in Hm;
      rewrite remove_node_contacts in Hm by done; apply list_elem_of_filter in Hm as [? ?]; done.
  - intros [(c & Hcin & Hm) Hid]. rewrite elem_of_app, elem_of_cons in Hcin.
    destruct Hcin as [Hcin|[->|Hcin]]; [exists c; set_solver| |exists c; set_solver].
    exists (remove_node b n). split; [set_solver|].
    rewrite remove_node_contacts by done. by apply list_elem_of_filter.
Qed.

(** ** Traversal order *)

(** The order in which buckets are popped, from the two sides in pop order. *)
Fixpoint visit (fuel : nat) (tl : bool) (ls rs : list KBucket) : list KBucket :=
  match fuel with
  | O => []
  | S fuel =>
      match tl, ls, rs with
      | true, b :: ls, rs => b :: visit fuel false ls rs
      | _, ls, b :: rs => b :: visit fuel true ls rs
      | tl, b :: ls, [] => b :: visit fuel tl ls []
      | _, [], [] => []
      end
  end.

Definition visit_all (tl : bool) (ls rs : list KBucket) : list KBucket :=
  visit (length ls + length rs) tl ls rs.

Lemma visit_all_left ls b rs : visit_all true (b :: ls) rs = b :: visit_all false ls rs.
Proof. done. Qed.

Lemma visit_all_right tl ls b rs :
  tl = false \/ ls = [] -> visit_all tl ls (b :: rs) = b :: visit_all true ls rs.
Proof.
  intros Hor. unfold visit_all. simpl length. rewrite Nat.add_succ_r. simpl.
  destruct tl, ls; naive_solver.
Qed.

Lemma visit_all_rest tl ls b : visit_all tl (b :: ls) [] = b :: visit_all (if tl then false else tl) ls [].
Proof. by destruct tl. Qed.

Lemma visit_all_perm tl ls rs : visit_all tl ls rs ≡ₚ ls ++ rs.
Proof.
  remember (length ls + length rs)%nat as k eqn:Hk. revert tl ls rs Hk.
  induction k as [|k IH]; intros tl ls rs Hk.
  { destruct ls, rs; try done; simpl in Hk; lia. }
  destruct tl, ls as [|b ls], rs as [|c rs]; simpl in Hk; try lia;
    first [rewrite visit_all_left | rewrite visit_all_right by auto | rewrite visit_all_rest];
    rewrite IH by (simpl; lia); simpl; try done; solve_Permutation.
Qed.

(** Everything a traverser will still yield. *)
Definition remaining (tr : TableTraverser) : list Node :=
  rev (current_nodes tr) ++
  concat ((fun b => rev (bnodes b)) <$>
          visit_all (take_left tr) (rev (left_buckets tr)) (rev (right_buckets tr))).

Lemma traverser_next_spec fuel tr :
  (length (left_buckets tr) + length (right_buckets tr) < fuel)%nat ->
  match traverser_next fuel tr with
  | None => remaining tr = []
  | Some (n, tr') => remaining tr = n :: remaining tr'
  end.
Proof.
  revert tr. induction fuel as [|fuel IH]; intros [cur L R tl]; [lia|]. simpl. intros Hf.
  pose proof (pop_back_spec cur) as Hcur. destruct (pop_back cur) as [[cur' n]|].
  { unfold remaining. simpl. by rewrite Hcur, rev_app_distr. }
  pose proof (pop_back_spec L) as HL. pose proof (pop_back_spec R) as HR. subst cur.
  assert (forall b L' R' tl', (length L' + length R' < fuel)%nat ->
    visit_all tl (rev L) (rev R) = b :: visit_all tl' (rev L') (rev R') ->
    match traverser_next fuel (mkTraverser (bnodes b) L' R' tl') with
    | None => remaining (mkTraverser [] L R tl) = []
    | Some (n, tr') => remaining (mkTraverser [] L R tl) = n :: remaining tr'
    end) as Hpop.
  { intros b L' R' tl' Hlen Hv. specialize (IH (mkTraverser (bnodes b) L' R' tl') Hlen).
    assert (remaining (mkTraverser [] L R tl) = remaining (mkTraverser (bnodes b) L' R' tl')) as ->; [|done].
    unfold remaining. simpl. by rewrite Hv. }
  destruct tl; destruct (pop_back L) as [[L' b]|], (pop_back R) as [[R' c]|];
    subst L R; rewrite ?length_app in Hf; simpl in Hf; try done;
    apply Hpop; rewrite ?rev_app_distr; try (rewrite ?length_app; simpl; lia); simpl.
  all: first [by rewrite visit_all_left | by rewrite visit_all_right by auto | by rewrite visit_all_rest].
Qed.

Lemma traverser_items_spec fuel tr :
  (length (remaining tr) < fuel)%nat -> traverser_items fuel tr = remaining tr.
Proof.
  revert tr. induction fuel as [|fuel IH]; intros tr Hf; [lia|]. cbn [traverser_items].
  pose proof (traverser_next_spec (next_fuel tr) tr ltac:(unfold next_fuel; lia)) as Hn.
  destruct (traverser_next _ tr) as [[n tr']|]; rewrite Hn in *; [|done].
  simpl in Hf. by rewrite IH by lia.
Qed.

Lemma concat_rev_length (bs : list KBucket) :
  length (concat ((fun b => rev (bnodes b)) <$> bs)) = sum_list (length <$> (bnodes <$> bs)).
Proof.
  induction bs as [|b bs IH]; [done|]. cbn [fmap list_fmap concat sum_list].
  rewrite length_app, length_rev. by f_equal.
Qed.

Lemma sum_list_perm l1 l2 : l1 ≡ₚ l2 -> sum_list l1 = sum_list l2.
Proof. induction 1; simpl; lia. Qed.

Lemma items_fuel_enough tr : (length (remaining tr) < items_fuel tr)%nat.
Proof.
  unfold remaining, items_fuel. rewrite length_app, length_rev, concat_rev_length.
  rewrite (sum_list_perm _ (length <$> (bnodes <$> left_buckets tr ++ right_buckets tr))).
  - rewrite !fmap_app. assert (forall a b, sum_list (a ++ b) = sum_list a + sum_list b)%nat as ->; [|lia].
    induction a; simpl; intros; [done|]. rewrite IHa. lia.
  - do 2 apply fmap_Permutation. by rewrite visit_all_perm, <- !Permutation_rev.
Qed.

(** ** Neighbour search *)

Definition eligible (target : Node) (exclude : option Node) (n : Node) : Prop :=
  skip_neighbor target exclude n = false.

#[global] Instance eligible_dec target exclude n : Decision (eligible target exclude n).
Proof. unfold eligible. apply _. Defined.

Lemma collect_neighbors_spec k target exclude items acc :
  (length acc < k)%nat ->
  collect_neighbors k target exclude items acc =
  acc ++ ((fun n => (distance_to n target, n)) <$>
          take (k - length acc) (filter (eligible target exclude) items)).
Proof.
  revert acc. induction items as [|n items IH]; intros acc Hlt; simpl.
  { by rewrite filter_nil, take_nil, app_nil_r. }
  rewrite filter_cons. destruct (decide (eligible target exclude n)) as [Es|Es].
  2:{ apply not_false_iff_true in Es. rewrite Es. by apply IH. }
  - rewrite Es. rewrite length_app. simpl.
    destruct (Nat.eqb_spec (length acc + 1) k) as [E|E].
    + replace (k - length acc)%nat with 1%nat by lia. done.
    + rewrite IH by (rewrite length_app; simpl; lia). rewrite length_app. simpl.
      replace (k - length acc)%nat with (S (k - (length acc + 1))) by lia. simpl.
      by rewrite <- app_assoc.
Qed.

(** The primary nodes in the order [find_neighbors] looks at them: the central
    bucket from its most recently seen end, then the buckets in visiting order. *)
Definition traversal (t : RoutingTable) (target : Node) : list Node :=
  let idx := bucket_index_for t (long_id target) in
  rev (bnodes (bucket_at t idx)) ++
  concat ((fun b => rev (bnodes b)) <$>
          visit_all true (take idx (buckets t)) (drop (S idx) (buckets t))).

Lemma traverser_new_remaining now t target l1 b l2 :
  located t (long_id target) l1 b l2 ->
  remaining (snd (TableTraverser_new now t target)) = traversal t target /\
  fst (TableTraverser_new now t target) = set_buckets t (l1 ++ touch_last_updated now b :: l2).
Proof.
  intros Hloc. unfold TableTraverser_new, traversal. simpl.
  rewrite (located_index _ _ _ _ _ Hloc), (located_at _ _ _ _ _ Hloc).
  pose proof Hloc as (E & _ & _). rewrite E, insert_middle.
  unfold remaining, bucket_at. simpl. rewrite list_lookup_middle by done. simpl.
  rewrite !rev_involutive, !take_app_length. split; [|done].
  change (l1 ++ touch_last_updated now b :: l2) with (l1 ++ [touch_last_updated now b] ++ l2).
  change (l1 ++ b :: l2) with (l1 ++ [b] ++ l2).
  by rewrite !app_assoc, !drop_app_length' by (rewrite length_app; simpl; lia).
Qed.

Lemma traversal_perm t target l1 b l2 :
  located t (long_id target) l1 b l2 -> traversal t target ≡ₚ all_nodes t.
Proof.
  intros Hloc. unfold traversal, all_nodes.
  rewrite (located_index _ _ _ _ _ Hloc), (located_at _ _ _ _ _ Hloc).
  destruct Hloc as (E & _ & _). rewrite E, take_app_length.
  change (l1 ++ b :: l2) with (l1 ++ [b] ++ l2) at 1.
  rewrite app_assoc, drop_app_length' by (rewrite length_app; simpl; lia).
  assert (forall bs, concat ((fun b => rev (bnodes b)) <$> bs) ≡ₚ concat (bnodes <$> bs)) as Hrev.
  { induction bs as [|c bs IH]; [done|]. simpl. by rewrite <- Permutation_rev, IH. }
  assert (forall bs bs', bs ≡ₚ bs' -> concat (bnodes <$> bs) ≡ₚ concat (bnodes <$> bs')) as Hperm.
  { induction 1; simpl; [done|by f_equiv|solve_Permutation|by etrans]. }
  rewrite Hrev, (Hperm _ _ (visit_all_perm _ _ _)), <- Permutation_rev.
  rewrite !fmap_app, !concat_app. simpl. solve_Permutation.
Qed.

(** ** Tables up to the timestamps of their buckets *)

Definition erase_timers (t : RoutingTable) : RoutingTable :=
  set_buckets t (touch_last_updated 0 <$> buckets t).

#[global] Instance table_equiv : Equiv RoutingTable :=
  fun t t' => erase_timers t = erase_timers t'.

#[global] Instance table_equivalence : Equivalence (≡@{RoutingTable}).
Proof.
  split.
  - intros t. done.
  - intros t t' E. symmetry. exact E.
  - intros t t' t'' E E'. unfold equiv, table_equiv in *. congruence.
Qed.

Lemma position_erase x bs :
  position (fun b => covers b x = true) (touch_last_updated 0 <$> bs) =
  position (fun b => covers b x = true) bs.
Proof.
  unfold position. induction bs as [|b bs IH]; [done|]. cbn [fmap list_fmap list_find].
  change (covers (touch_last_updated 0 b) x) with (covers b x).
  destruct (decide (covers b x = true)); [done|].
  destruct (list_find _ (touch_last_updated 0 <$> bs)) as [[i c]|], (list_find _ bs) as [[j d]|];
    simplify_eq/=; done.
Qed.

Lemma bucket_index_for_erase t x : bucket_index_for (erase_timers t) x = bucket_index_for t x.
Proof. unfold bucket_index_for. simpl. by rewrite length_fmap, position_erase. Qed.

Lemma traversal_erase t target : traversal (erase_timers t) target = traversal t target.
Proof.
  unfold traversal. rewrite bucket_index_for_erase. simpl.
  assert (forall i, bnodes (bucket_at (erase_timers t) i) = bnodes (bucket_at t i)) as ->.
  { intros i. unfold bucket_at. simpl. rewrite list_lookup_fmap. by destruct (buckets t !! i). }
  f_equal. rewrite <- fmap_take, <- fmap_drop. generalize (take (bucket_index_for t (long_id target)) (buckets t)) as ls.
  generalize (drop (S (bucket_index_for t (long_id target))) (buckets t)) as rs.
  intros rs ls. unfold visit_all. rewrite !length_fmap. generalize true as tl.
  generalize (length ls + length rs)%nat as k. intros k. revert ls rs.
  induction k as [|k IH]; intros ls rs tl; [done|].
  destruct tl, ls as [|b ls], rs as [|c rs]; cbn [visit fmap list_fmap concat]; try done; f_equal;
    first [exact (IH ls rs false) | exact (IH ls (c :: rs) false) | exact (IH ls [] false)
          | exact (IH [] rs true) | exact (IH (b :: ls) rs true)].
Qed.

#[global] Instance traversal_proper : Proper ((≡) ==> (=) ==> (=)) traversal.
Proof.
  intros t t' E target ? <-. unfold equiv, table_equiv in E.
  by rewrite <- (traversal_erase t), E, traversal_erase.
Qed.

Section neighbors.
Context `{UnstableSort}.

Definition candidates (t : RoutingTable) (target : Node) (exclude : option Node) : list Node :=
  take (tksize t) (filter (eligible target exclude) (traversal t target)).

Lemma find_neighbors_candidates now t target exclude l1 b l2 :
  located t (long_id target) l1 b l2 -> (0 < tksize t)%nat ->
  find_neighbors now t target exclude =
  (set_buckets t (l1 ++ touch_last_updated now b :: l2),
   snd <$> sort_by_key fst ((fun n => (distance_to n target, n)) <$> candidates t target exclude)).
Proof.
  intros Hloc Hk. destruct (traverser_new_remaining now t target l1 b l2 Hloc) as [Hr Ht].
  unfold find_neighbors. destruct (TableTraverser_new now t target) as [t' tr]. cbn [fst snd] in Hr, Ht |- *.
  rewrite traverser_items_spec by apply items_fuel_enough.
  rewrite collect_neighbors_spec by (simpl; lia). simpl. rewrite Hr, Nat.sub_0_r, Ht. done.
Qed.

(** The search only touches a timestamp. *)
Lemma find_neighbors_table now t target exclude :
  table_wf t -> wf_node target -> (0 < tksize t)%nat ->
  let t' := fst (find_neighbors now t target exclude) in
  table_wf t' /\ local_node t' = local_node t /\ tksize t' = tksize t /\
  all_nodes t' = all_nodes t /\ all_contacts t' = all_contacts t.
Proof.
  intros Hw Ht Hk.
  destruct (table_locate t (long_id target) Hw (wf_node_range target Ht)) as (l1 & b & l2 & Hloc).
  rewrite (find_neighbors_candidates now t target exclude _ _ _ Hloc Hk). cbn [fst].
  pose proof Hloc as (E & _). destruct (located_wf _ _ _ _ _ Hw Hloc) as (Hb & _). split_and!; try done.
  - eapply table_replace_range_wf; [done|exact E| |done..|].
    + destruct Hb. by split.
    + intros Hin. apply (tw_self t Hw). rewrite (all_contacts_app t l1 b l2 E), !fmap_app.
      apply elem_of_app. right. apply elem_of_app. by left.
  - unfold all_nodes. simpl. rewrite E, !fmap_app. done.
  - unfold all_contacts. simpl. rewrite E, !fmap_app. done.
Qed.

Lemma find_neighbors_touches now t target exclude :
  table_wf t -> wf_node target -> (0 < tksize t)%nat ->
  fst (find_neighbors now t target exclude) ≡ t.
Proof.
  intros Hw Ht Hk.
  destruct (table_locate t (long_id target) Hw (wf_node_range target Ht)) as (l1 & b & l2 & Hloc).
  rewrite (find_neighbors_candidates now t target exclude _ _ _ Hloc Hk). cbn [fst].
  destruct Hloc as (E & _). unfold equiv, table_equiv, erase_timers. simpl.
  rewrite E, !fmap_app. done.
Qed.

(** Equal tables up to timestamps give the same answer. *)
Lemma find_neighbors_equiv now t t' target exclude :
  table_wf t -> table_wf t' -> wf_node target -> (0 < tksize t)%nat -> t ≡ t' ->
  snd (find_neighbors now t target exclude) = snd (find_neighbors now t' target exclude).
Proof.
  intros Hw Hw' Ht Hk E. assert (tksize t' = tksize t) as Ek by (symmetry; exact (f_equal tksize E)).
  destruct (table_locate t (long_id target) Hw (wf_node_range target Ht)) as (l1 & b & l2 & Hloc).
  destruct (table_locate t' (long_id target) Hw' (wf_node_range target Ht)) as (l1' & b' & l2' & Hloc').
  rewrite (find_neighbors_candidates now t target exclude _ _ _ Hloc Hk).
  rewrite (find_neighbors_candidates now t' target exclude _ _ _ Hloc') by lia.
  cbn [snd]. unfold candidates. by rewrite Ek, (traversal_proper t t' E target target eq_refl).
Qed.

Lemma neighbors_perm (l : list Node) target :
  snd <$> sort_by_key fst ((fun n => (distance_to n target, n)) <$> l) ≡ₚ l.
Proof.
  rewrite sort_by_key_perm, <- list_fmap_compose. simpl.
  rewrite (list_fmap_ext _ (fun n => n)) by done. by rewrite list_fmap_id.
Qed.

Lemma neighbors_sorted (l : list Node) target :
  StronglySorted (fun x y => distance_to x target <= distance_to y target)
    (snd <$> sort_by_key fst ((fun n => (distance_to n target, n)) <$> l)).
Proof.
  set (ps := (fun n => (distance_to n target, n)) <$> l).
  assert (Forall (fun p => fst p = distance_to (snd p) target) (sort_by_key fst ps)) as Hd.
  { rewrite sort_by_key_perm. apply Forall_fmap, Forall_true. done. }
  pose proof (sort_by_key_sorted fst ps) as Hs. revert Hs Hd.
  generalize (sort_by_key fst ps) as q. clear ps.
  induction 1 as [|p q Hs IH Hle]; intros Hd; simpl; [constructor|].
  apply Forall_cons in Hd as [Hp Hd]. constructor; [by apply IH|].
  apply Forall_fmap, Forall_forall. intros x Hx. simpl. rewrite <- Hp.
  rewrite <- (proj1 (Forall_forall _ _) Hd x Hx). by apply (proj1 (Forall_forall _ _) Hle).
Qed.

End neighbors.

Lemma tiles_nodup lo bs hi :
  tiles lo bs hi -> Forall bucket_wf bs -> NoDup (id <$> concat (bnodes <$> bs)).
Proof.
  revert lo. induction bs as [|b bs IH]; intros lo; [constructor|].
  intros (El & Hle & Ht) [Hb Hbs]%Forall_cons. cbn [fmap list_fmap concat]. rewrite fmap_app.
  apply NoDup_app. split_and!; [by apply bucket_ids_split| |by eapply IH].
  intros i (m & -> & Hm)%list_elem_of_fmap (m' & Em & Hm')%list_elem_of_fmap.
  apply list_elem_of_In, in_concat in Hm' as (x & Hx & Hm').
  apply list_elem_of_In, list_elem_of_fmap in Hx as (c & -> & Hc). apply list_elem_of_In in Hm'.
  destruct (proj1 (Forall_forall _ _) (bw_nodes b Hb) m) as [[_ E1] C1%covers_spec];
    [unfold contacts; set_solver|].
  pose proof (proj1 (Forall_forall _ _) Hbs c Hc) as Hcw.
  destruct (proj1 (Forall_forall _ _) (bw_nodes c Hcw) m') as [[_ E2] C2%covers_spec];
    [unfold contacts; set_solver|].
  pose proof (tiles_bounds _ _ _ c Ht Hc). rewrite E1, Em, <- E2 in C1. lia.
Qed.

Lemma all_nodes_nodup t : table_wf t -> NoDup (id <$> all_nodes t).
Proof. intros Hw. eapply tiles_nodup; [by apply tw_tiles|by apply tw_buckets]. Qed.

(** Points of an aligned range are closer to one another than to any point
    outside it. *)
Lemma dyadic_near e b x y z :
  dyadic e b -> 0 <= x -> 0 <= y -> 0 <= z ->
  covers b x = true -> covers b y = true -> covers b z = false ->
  Z.lxor y x < 2 ^ Z.of_nat e <= Z.lxor z x.
Proof.
  intros (q & El & Eh) Hx Hy Hz Cx%covers_spec Cy%covers_spec Cz.
  apply not_true_iff_false in Cz. rewrite covers_spec in Cz.
  assert (0 < 2 ^ Z.of_nat e) as Hp by (apply Z.pow_pos_nonneg; lia).
  assert (forall w, w / 2 ^ Z.of_nat e = q <-> range_lo b <= w <= range_hi b) as Hq.
  { intros w. rewrite El, Eh. split.
    - intros <-. pose proof (Z.div_mod w (2 ^ Z.of_nat e)). pose proof (Z.mod_pos_bound w (2 ^ Z.of_nat e)). lia.
    - intros Hw. symmetry. apply Z.div_unique with (w - q * 2 ^ Z.of_nat e); lia. }
  pose proof (lxor_div_pow2 y x (Z.of_nat e) ltac:(lia)) as Dy.
  pose proof (lxor_div_pow2 z x (Z.of_nat e) ltac:(lia)) as Dz.
  rewrite (proj2 (Hq x) Cx) in *. rewrite (proj2 (Hq y) Cy), Z.lxor_nilpotent in Dy.
  assert (0 <= Z.lxor y x) by (apply Z.lxor_nonneg; lia).
  assert (0 <= Z.lxor z x) by (apply Z.lxor_nonneg; lia).
  split.
  - apply Z.div_small_iff in Dy; lia.
  - destruct (decide (2 ^ Z.of_nat e <= Z.lxor z x)); [done|exfalso].
    rewrite Z.div_small in Dz by lia. symmetry in Dz. apply Z.lxor_eq in Dz.
    apply Cz, Hq. lia.
Qed.

Section neighbor_theorems.
Context `{UnstableSort}.

Lemma candidates_full_bucket t target exclude l1 b l2 :
  located t (long_id target) l1 b l2 ->
  length (filter (eligible target exclude) (bnodes b)) = tksize t ->
  candidates t target exclude = filter (eligible target exclude) (rev (bnodes b)).
Proof.
  intros Hloc Hlen. unfold candidates, traversal.
  rewrite (located_index _ _ _ _ _ Hloc), (located_at _ _ _ _ _ Hloc), filter_app.
  rewrite take_app_length'; [done|]. rewrite <- Hlen.
  apply Permutation_length. by rewrite <- Permutation_rev.
Qed.

Lemma candidates_closest t target exclude l1 b l2 r m :
  table_wf t -> wf_node target -> located t (long_id target) l1 b l2 ->
  length (filter (eligible target exclude) (bnodes b)) = tksize t ->
  r ∈ candidates t target exclude -> m ∈ all_nodes t -> eligible target exclude m ->
  m ∉ candidates t target exclude ->
  distance_to r target < distance_to m target.
Proof.
  intros Hw Htgt Hloc Hlen Hr Hm Hel Hout.
  rewrite (candidates_full_bucket _ _ _ _ _ _ Hloc Hlen) in *.
  apply list_elem_of_filter in Hr as [_ Hr]. rewrite <- Permutation_rev in Hr.
  apply elem_of_all_nodes in Hm as (c & Hc & Hm).
  destruct (bucket_contact_covers t b r Hw) as [Hwr Hcr];
    [destruct Hloc as (-> & _); set_solver|unfold contacts; set_solver|].
  destruct (bucket_contact_covers t c m Hw Hc) as [Hwm Hcm]; [unfold contacts; set_solver|].
  destruct (located_wf _ _ _ _ _ Hw Hloc) as (_ & _ & _ & _ & e & _ & Hdy).
  assert (covers b (long_id m) = false) as Hnc.
  { apply not_true_iff_false. intros Hbm. apply Hout, list_elem_of_filter. split; [done|].
    rewrite <- Permutation_rev.
    destruct (table_locate t (long_id m) Hw (wf_node_range m Hwm)) as (l1' & b' & l2' & Hloc').
    rewrite (covering_unique t _ _ _ _ b Hw Hloc'), <- (covering_unique t _ _ _ _ c Hw Hloc'); try done.
    destruct Hloc as (-> & _). set_solver. }
  pose proof (wf_node_range r Hwr). pose proof (wf_node_range m Hwm).
  pose proof (wf_node_range target Htgt).
  pose proof (dyadic_near e b (long_id target) (long_id r) (long_id m) Hdy) as Hnear.
  unfold distance_to. destruct Hloc as (_ & Hct & _).
  specialize (Hnear ltac:(lia) ltac:(lia) ltac:(lia) Hct Hcr Hnc). lia.
Qed.

End neighbor_theorems.

Arguments find_neighbors : simpl never.
Arguments add_contact : simpl never.
