(* ===== verification/RoutingTableSpec.v ===== *)
(** * RoutingTableSpec: what the routing table promises

    Theorems on [RoutingTable.v]: total correctness of [add_contact], the inputs
    on which its recursion never ends, removal, and what [find_neighbors]
    returns and does not return. *)
From S2P Require Import Prelude Node Routing RoutingTable.
From Stdlib Require Import Strings.Byte.
Local Open Scope Z_scope.

(** Recursive calls of [insert] that suffice on a 128-bit key space. *)
Definition INSERT_FUEL : nat := 129.

(** Fewer than [k] contacts of the bucket of [n] collide with [n]. *)
Definition few_rivals (t : RoutingTable) (n : Node) : Prop :=
  Forall (fun b => covers b (long_id n) = true -> (length (rivals b n) < tksize t)%nat) (buckets t).

Lemma few_rivals_equiv t t' n : t ≡ t' -> few_rivals t n <-> few_rivals t' n.
Proof.
  intros E. assert (forall t, few_rivals t n <-> few_rivals (erase_timers t) n) as He.
  { intros x. unfold few_rivals, erase_timers. cbn [buckets set_buckets tksize]. by rewrite Forall_fmap. }
  rewrite (He t), (He t'). unfold equiv, table_equiv in E. by rewrite E.
Qed.

#[global] Instance few_rivals_dec t n : Decision (few_rivals t n).
Proof. unfold few_rivals. apply _. Defined.

Lemma add_contact_returns now t n :
  table_wf t -> wf_node n -> few_rivals t n ->
  exists r, add_contact INSERT_FUEL now t n = Some r.
Proof.
  intros Hw Hn Hr. unfold add_contact. case_decide as Hid; [by eauto|].
  destruct (table_locate t (long_id n) Hw (wf_node_range n Hn)) as (l1 & b & l2 & Hloc).
  destruct (located_wf _ _ _ _ _ Hw Hloc) as (_ & _ & _ & _ & e & He & Hdy).
  apply (table_insert_terminates e INSERT_FUEL now t n l1 b l2); try done; [|unfold INSERT_FUEL; lia].
  destruct Hloc as (E & Hc & _). apply (proj1 (Forall_forall _ _) Hr b); [rewrite E; set_solver|done].
Qed.

Lemma insert_rel_refl t n : insert_rel t t n.
Proof. split; auto. Qed.

Lemma add_contact_spec fuel now t n t' r :
  table_wf t -> wf_node n -> (0 < tksize t)%nat ->
  add_contact fuel now t n = Some (t', r) ->
  table_wf t' /\ insert_rel t t' n /\
  (id n = id (local_node t) /\ t' = t /\ r = None \/
   id n <> id (local_node t) /\
   exists l1 b l2, located t' (long_id n) l1 b l2 /\ inserted t' n r b).
Proof.
  unfold add_contact. intros Hw Hn Hk. case_decide as Hid.
  - intros [= <- <-]. split_and!; [done|apply insert_rel_refl|by left].
  - intros Hins. destruct (table_insert_spec _ _ _ _ _ _ Hw Hn Hid Hk Hins) as (? & ? & ?).
    split_and!; [done..|by right].
Qed.

Lemma inserted_present t n b l1 l2 r :
  located t (long_id n) l1 b l2 -> inserted t n r b -> n ∈ all_contacts t.
Proof.
  intros (E & _) Hi. apply elem_of_all_contacts. exists b. split; [rewrite E; set_solver|].
  unfold contacts. destruct r as [h|]; simpl in Hi; [|set_solver].
  destruct Hi as (_ & _ & _ & Hlast & _). apply elem_of_app. right.
  apply last_Some in Hlast as [l' ->]. set_solver.
Qed.

(** [add_contact] is total and correct when fewer than [k] known contacts
    share the new node's [long_id]: 129 recursive calls are enough, the table
    stays well-formed (disjoint ranges covering the key space, bucket
    invariants, the local node never stored), no primary contact is lost, and
    the new node is stored, in the primary list when [None] is returned and as
    a replacement of a full bucket whose oldest node is returned otherwise. *)
Theorem add_contact_total (now : Z) (t : RoutingTable) (n : Node) :
  table_wf t -> wf_node n -> (0 < tksize t)%nat -> few_rivals t n ->
  exists t' r, add_contact INSERT_FUEL now t n = Some (t', r) /\
    table_wf t' /\ insert_rel t t' n /\
    (id n = id (local_node t) -> t' = t /\ r = None) /\
    (id n <> id (local_node t) ->
       n ∈ all_contacts t' /\
       (r = None -> is_new_node t' n = false) /\
       (forall h, r = Some h -> is_new_node t' n = true /\ h ∈ all_nodes t')).
Proof.
  intros Hw Hn Hk Hr. destruct (add_contact_returns now t n Hw Hn Hr) as [[t' r] Ha].
  exists t', r. destruct (add_contact_spec _ _ _ _ _ _ Hw Hn Hk Ha) as (Hw' & Hrel & Hor).
  split_and!; [done|done|done|naive_solver|].
  intros Hne. destruct Hor as [(? & _)|(_ & l1 & b & l2 & Hloc & Hi)]; [done|].
  split_and!; [by eapply inserted_present|..].
  - intros ->. simpl in Hi. apply not_true_iff_false. rewrite is_new_node_spec by done.
    intros Hnew. apply Hnew, list_elem_of_fmap_2, elem_of_all_nodes. exists b.
    destruct Hloc as (-> & _). set_solver.
  - intros h ->. simpl in Hi. destruct Hi as (Hh & _ & Hid & _).
    unfold is_new_node. rewrite (located_index _ _ _ _ _ Hloc), (located_at _ _ _ _ _ Hloc).
    split.
    + apply negb_true_iff, not_true_iff_false. by rewrite contains_id.
    + apply elem_of_all_nodes. exists b. apply head_Some in Hh as [l' ->].
      destruct Hloc as (-> & _). set_solver.
Qed.

Lemma few_rivals_empty now l k n : (0 < k)%nat -> few_rivals (RoutingTable_new now l k) n.
Proof. intros Hk. apply Forall_singleton. done. Qed.

(** ** Colliding identifiers *)

Lemma located_new now l k x :
  0 <= x < 2 ^ 128 ->
  located (RoutingTable_new now l k) x [] (KBucket_new now 0 U128_MAX k) [].
Proof. intros Hx. split_and!; [done| |done]. apply covers_spec. simpl. unfold U128_MAX. lia. Qed.

(** The table that the first [length ns <= k] contacts leave: one bucket. *)
Definition one_bucket (now : Z) (l : Node) (k : nat) (ns : list Node) : RoutingTable :=
  mkTable l k [mkBucket 0 U128_MAX ns [] k (k * 5) (now_secs now)].

Lemma one_bucket_located now l k ns x :
  0 <= x < 2 ^ 128 ->
  located (one_bucket now l k ns) x [] (mkBucket 0 U128_MAX ns [] k (k * 5) (now_secs now)) [].
Proof. intros Hx. split_and!; [done| |done]. apply covers_spec. simpl. unfold U128_MAX. lia. Qed.

Definition add_contacts (fuel : nat) (now : Z) (t : RoutingTable) (ns : list Node)
  : option RoutingTable :=
  foldl (fun ot n => t ← ot; fst <$> add_contact fuel now t n) (Some t) ns.

Lemma add_contacts_fill fuel now l k ns :
  Forall wf_node ns -> NoDup (id <$> ns) -> (length ns <= k)%nat ->
  id l ∉ id <$> ns ->
  add_contacts (S fuel) now (RoutingTable_new now l k) ns = Some (one_bucket now l k ns).
Proof.
  induction ns as [|n ns IH] using rev_ind; intros Hwf Hnd Hlen Hl; [done|].
  rewrite Forall_app, Forall_singleton in Hwf. destruct Hwf as [Hwf Hn].
  rewrite fmap_app in Hnd, Hl. apply NoDup_app in Hnd as (Hnd & Hdis & _).
  rewrite length_app in Hlen. simpl in Hlen.
  unfold add_contacts in *. rewrite foldl_app, IH by (auto || lia || set_solver). simpl.
  unfold add_contact. rewrite decide_False by (simpl; set_solver).
  rewrite (table_insert_step _ _ _ _ _ _ _ (one_bucket_located now l k ns _ (wf_node_range n Hn))).
  unfold add_node. simpl.
  rewrite (proj2 (id_position_None _ _)) by (intros Hin; apply (Hdis _ Hin); simpl; set_solver).
  rewrite decide_True by lia. done.
Qed.

(** C37: identifiers that fold to the local node's [long_id] make [add_contact]
    loop.  Whatever [k], [k] such contacts are accepted by a new table; the next
    one starts a recursion that splits the local node's bucket for ever (in the
    program: until the stack overflows), for any number of calls allowed. *)
Theorem colliding_ids_diverge (now : Z) (l : Node) (k : nat) (ns : list Node) (n : Node) :
  wf_node l -> Forall wf_node (n :: ns) -> NoDup (id <$> l :: n :: ns) -> length ns = k ->
  Forall (fun m => long_id m = long_id l) (n :: ns) ->
  exists t, add_contacts 1 now (RoutingTable_new now l k) ns = Some t /\
    forall fuel, add_contact fuel now t n = None.
Proof.
  intros Hl [Hn Hns]%Forall_cons Hnd Hk [En Hsame]%Forall_cons.
  simpl in Hnd. apply NoDup_cons in Hnd as [Hl1 [Hn1 Hnd]%NoDup_cons].
  apply not_elem_of_cons in Hl1 as [Hln Hl1].
  exists (one_bucket now l k ns). split; [apply add_contacts_fill; auto; lia|].
  intros fuel. unfold add_contact. rewrite decide_False by (simpl; congruence).
  pose proof (one_bucket_located now l k ns (long_id n) (wf_node_range n Hn)) as Hloc.
  apply (table_insert_diverges _ _ _ _ _ _ _ Hloc); simpl; try done; [|by rewrite En|by left].
  rewrite <- (take_ge ns k), <- (drop_ge ns k) at 1 by lia.
  apply filled_bucket_wf; [done|lia|].
  eapply Forall_impl; [exact Hns|]. intros m Hm. pose proof (wf_node_range m Hm).
  unfold U128_MAX. split; [done|lia].
Qed.

(** Three identifiers with [long_id] 0: words [w, w] at both ends. *)
Definition folded_id (w : Z) : bytes := be_bytes 4 w ++ be_bytes 12 0 ++ be_bytes 4 w.

Lemma colliding_ids_diverge_witness :
  exists t, add_contacts 1 0 (RoutingTable_new 0 (from_id (folded_id 0)) 1)
              [from_id (folded_id 1)] = Some t /\
    forall fuel, add_contact fuel 0 t (from_id (folded_id 2)) = None.
Proof.
  apply (colliding_ids_diverge 0 (from_id (folded_id 0)) 1 [from_id (folded_id 1)]
           (from_id (folded_id 2))).
  - by split.
  - repeat (apply Forall_cons; split; [by split|]). apply Forall_nil. exact I.
  - apply (bool_decide_unpack _). vm_compute. exact I.
  - reflexivity.
  - apply (bool_decide_unpack _). vm_compute. exact I.
Defined.

(** ** Removal *)

Lemma remove_contact_primary t n m :
  table_wf t -> wf_node n -> m ∈ all_nodes t -> id m <> id n ->
  m ∈ all_nodes (remove_contact t n).
Proof.
  intros Hw Hn (c & Hc & Hm)%elem_of_all_nodes Hid.
  destruct (table_locate t (long_id n) Hw (wf_node_range n Hn)) as (l1 & b & l2 & Hloc).
  rewrite (remove_contact_located _ _ _ _ _ Hloc). apply elem_of_all_nodes. simpl.
  pose proof Hloc as (E & _). rewrite E, elem_of_app, elem_of_cons in Hc.
  destruct Hc as [Hc|[->|Hc]]; [exists c; set_solver| |exists c; set_solver].
  exists (remove_node b n). split; [set_solver|].
  apply remove_node_keeps; [by apply (located_wf _ _ _ _ _ Hw Hloc)|done..].
Qed.

(** [remove_contact] on a well-formed table keeps it well-formed, removes
    exactly the contacts with the identifier of [n] (primary or replacement),
    leaves every other primary contact primary, and the node is new again. *)
Theorem remove_contact_correct (t : RoutingTable) (n : Node) :
  table_wf t -> wf_node n ->
  table_wf (remove_contact t n) /\
  (forall m, m ∈ all_contacts (remove_contact t n) <-> m ∈ all_contacts t /\ id m <> id n) /\
  (forall m, m ∈ all_nodes t -> id m <> id n -> m ∈ all_nodes (remove_contact t n)) /\
  is_new_node (remove_contact t n) n = true.
Proof.
  intros Hw Hn. split_and!; [by apply remove_contact_wf| | |].
  - intros m. by apply remove_contact_contacts.
  - intros m. by apply remove_contact_primary.
  - apply is_new_node_spec; [by apply remove_contact_wf|done|].
    intros (m & Em & Hm%all_nodes_contacts)%list_elem_of_fmap.
    apply remove_contact_contacts in Hm as [_ Hne]; congruence.
Qed.

(** C4: keeping contacts.  [add_contact] is total and correct when fewer than [k]
    known contacts share the new node's [long_id]: 129 recursive calls are enough,
    the table stays well-formed (disjoint ranges covering the key space, bucket
    invariants, the local node never stored), no primary contact is lost, and the
    new node is stored, in the primary list when [None] is returned and as a
    replacement of a full bucket whose oldest node is returned otherwise.
    [remove_contact] keeps the table well-formed, removes exactly the contacts with
    the node's identifier (primary or replacement) and leaves every other primary
    contact primary. *)
Theorem contacts_maintained (now : Z) (t : RoutingTable) (n : Node) :
  table_wf t -> wf_node n -> (0 < tksize t)%nat ->
  (few_rivals t n ->
   exists t' r, add_contact INSERT_FUEL now t n = Some (t', r) /\
     table_wf t' /\ insert_rel t t' n /\
     (id n = id (local_node t) -> t' = t /\ r = None) /\
     (id n <> id (local_node t) ->
        n ∈ all_contacts t' /\
        (r = None -> is_new_node t' n = false) /\
        (forall h, r = Some h -> is_new_node t' n = true /\ h ∈ all_nodes t'))) /\
  table_wf (remove_contact t n) /\
  (forall m, m ∈ all_contacts (remove_contact t n) <-> m ∈ all_contacts t /\ id m <> id n) /\
  (forall m, m ∈ all_nodes t -> id m <> id n -> m ∈ all_nodes (remove_contact t n)) /\
  is_new_node (remove_contact t n) n = true.
Proof. intros Hw Hn Hk. split; [by apply add_contact_total|by apply remove_contact_correct]. Qed.

Lemma contacts_maintained_witness :
  exists t' r, add_contact INSERT_FUEL 0 (RoutingTable_new 0 (from_id (be_bytes 20 1)) 2)
                 (from_id (be_bytes 20 9)) = Some (t', r) /\ table_wf t'.
Proof.
  destruct (contacts_maintained 0 (RoutingTable_new 0 (from_id (be_bytes 20 1)) 2)
              (from_id (be_bytes 20 9))) as [Ha _].
  - apply RoutingTable_new_wf. by split.
  - by split.
  - simpl. lia.
  - destruct Ha as (t' & r & H1 & H2 & _); [apply few_rivals_empty; lia|].
    exists t', r. split; assumption.
Defined.


(** A node whose [long_id] is [x]. *)
Definition node_at (x : Z) : Node := from_id (be_bytes 16 x ++ be_bytes 4 0).

Lemma node_at_wf x : wf_node (node_at x).
Proof. apply from_id_wf. by rewrite length_app, !be_bytes_length. Qed.

Definition filled_table (l : Z) (k : nat) (xs : list Z) : RoutingTable :=
  default (RoutingTable_new 0 (node_at l) k)
    (add_contacts INSERT_FUEL 0 (RoutingTable_new 0 (node_at l) k) (node_at <$> xs)).

Lemma one_bucket_wf now l k ns :
  wf_node l -> Forall wf_node ns -> NoDup (id <$> l :: ns) -> (length ns <= k)%nat ->
  table_wf (one_bucket now l k ns).
Proof.
  intros Hl Hns [Hnl Hnd]%NoDup_cons Hlen. split; simpl; [done|done| | | |].
  - apply Forall_singleton. rewrite <- (take_ge ns k), <- (drop_ge ns k) at 1 by lia.
    apply filled_bucket_wf; [done|lia|].
    eapply Forall_impl; [exact Hns|]. intros m Hm. pose proof (wf_node_range m Hm).
    unfold U128_MAX. split; [done|lia].
  - by apply Forall_singleton.
  - apply Forall_singleton. exists 128%nat. split; [lia|]. by exists 0.
  - unfold all_contacts, contacts. simpl. by rewrite !app_nil_r.
Qed.

Lemma remove_contact_correct_witness :
  let t := one_bucket 0 (node_at 1) 3 [node_at 5; node_at 6] in
  table_wf t /\ is_new_node t (node_at 5) = false /\
  is_new_node (remove_contact t (node_at 5)) (node_at 5) = true.
Proof.
  assert (table_wf (one_bucket 0 (node_at 1) 3 [node_at 5; node_at 6])) as Hw.
  { apply one_bucket_wf.
    - by split.
    - repeat (apply Forall_cons; split; [by split|]). apply Forall_nil. exact I.
    - apply (bool_decide_unpack _). vm_compute. exact I.
    - simpl. lia. }
  split; [exact Hw|]. split; [vm_compute; reflexivity|].
  apply (remove_contact_correct _ (node_at 5) Hw). by split.
Defined.

(** ** Neighbour search *)

Section neighbor_claims.
Context `{UnstableSort}.

Lemma neighbors_NoDup t target exclude :
  table_wf t -> wf_node target -> NoDup (id <$> candidates t target exclude).
Proof.
  intros Hw Ht.
  destruct (table_locate t (long_id target) Hw (wf_node_range target Ht)) as (l1 & b & l2 & Hloc).
  apply NoDup_fmap_take, NoDup_fmap_filter.
  rewrite (traversal_perm _ _ _ _ _ Hloc). by apply all_nodes_nodup.
Qed.

Lemma candidates_elem t target exclude m :
  table_wf t -> wf_node target -> m ∈ candidates t target exclude ->
  m ∈ all_nodes t /\ eligible target exclude m.
Proof.
  intros Hw Ht Hm.
  destruct (table_locate t (long_id target) Hw (wf_node_range target Ht)) as (l1 & b & l2 & Hloc).
  apply elem_of_take in Hm as (i & Hm & _). apply list_elem_of_lookup_2, list_elem_of_filter in Hm.
  rewrite (traversal_perm _ _ _ _ _ Hloc) in Hm. tauto.
Qed.

Lemma candidates_length t target exclude :
  table_wf t -> wf_node target ->
  length (candidates t target exclude) =
  Nat.min (tksize t) (length (filter (eligible target exclude) (all_nodes t))).
Proof.
  intros Hw Ht.
  destruct (table_locate t (long_id target) Hw (wf_node_range target Ht)) as (l1 & b & l2 & Hloc).
  unfold candidates. rewrite length_take. f_equal. apply Permutation_length.
  by rewrite (traversal_perm _ _ _ _ _ Hloc).
Qed.

(** C5: [find_neighbors] on a well-formed table with [k > 0] returns primary
    contacts that are neither the target nor the excluded node, without
    duplicates, in ascending distance to the target, exactly
    [min k (number of such contacts)] of them, and its only effect on the table
    is the timestamp of the target's bucket.  *)
Theorem find_neighbors_spec (now : Z) (t : RoutingTable) (target : Node) (exclude : option Node) :
  table_wf t -> wf_node target -> (0 < tksize t)%nat ->
  let '(t', ns) := find_neighbors now t target exclude in
  StronglySorted (fun x y => distance_to x target <= distance_to y target) ns /\
  NoDup (id <$> ns) /\
  Forall (fun m => m ∈ all_nodes t /\ skip_neighbor target exclude m = false) ns /\
  length ns = Nat.min (tksize t) (length (filter (eligible target exclude) (all_nodes t))) /\
  exists l1 b l2, buckets t = l1 ++ b :: l2 /\ covers b (long_id target) = true /\
    t' = set_buckets t (l1 ++ touch_last_updated now b :: l2).
Proof.
  intros Hw Ht Hk.
  destruct (table_locate t (long_id target) Hw (wf_node_range target Ht)) as (l1 & b & l2 & Hloc).
  rewrite (find_neighbors_candidates now t target exclude _ _ _ Hloc Hk).
  pose proof (neighbors_perm (candidates t target exclude) target) as Hp. split_and!.
  - apply neighbors_sorted.
  - rewrite Hp. by apply neighbors_NoDup.
  - rewrite Hp. apply Forall_forall. intros m Hm. by apply candidates_elem.
  - rewrite Hp. by apply candidates_length.
  - exists l1, b, l2. destruct Hloc as (? & ? & _). done.
Qed.

(** C23: two cases in which the answer of [find_neighbors] is exact.  When the
    target's own bucket holds [k] eligible contacts the answer is these, and every
    eligible contact left out is farther from the target than every one returned;
    when the table holds at most [k] eligible contacts in all, the answer is all of
    them. *)
Theorem find_neighbors_exact (now : Z) (t : RoutingTable) (target : Node) (exclude : option Node)
    (b : KBucket) :
  table_wf t -> wf_node target -> (0 < tksize t)%nat ->
  b ∈ buckets t -> covers b (long_id target) = true ->
  let ns := snd (find_neighbors now t target exclude) in
  (length (filter (eligible target exclude) (bnodes b)) = tksize t ->
     ns ≡ₚ filter (eligible target exclude) (bnodes b) /\
     forall r m, r ∈ ns -> m ∈ all_nodes t -> eligible target exclude m -> m ∉ ns ->
       distance_to r target < distance_to m target) /\
  ((length (filter (eligible target exclude) (all_nodes t)) <= tksize t)%nat ->
     ns ≡ₚ filter (eligible target exclude) (all_nodes t)).
Proof.
  intros Hw Ht Hk Hb Hc.
  destruct (table_locate t (long_id target) Hw (wf_node_range target Ht)) as (l1 & b' & l2 & Hloc).
  rewrite (covering_unique t _ _ _ _ b Hw Hloc Hb Hc).
  rewrite (find_neighbors_candidates now t target exclude _ _ _ Hloc Hk). cbn [snd]. cbv zeta.
  rewrite !(neighbors_perm (candidates t target exclude) target). split.
  - intros Hfull. split.
    + rewrite (candidates_full_bucket _ _ _ _ _ _ Hloc Hfull). by rewrite <- Permutation_rev.
    + intros r m. rewrite !(neighbors_perm (candidates t target exclude) target). by apply (candidates_closest _ _ _ l1 b' l2).
  - intros Hfew. unfold candidates. rewrite take_ge; [by rewrite (traversal_perm _ _ _ _ _ Hloc)|].
    etrans; [|exact Hfew]. apply Nat.eq_le_incl, Permutation_length. by rewrite (traversal_perm _ _ _ _ _ Hloc).
Qed.

End neighbor_claims.

Definition three_contacts : RoutingTable :=
  one_bucket 0 (node_at 1) 3 [node_at 5; node_at 6; node_at 9].

Lemma three_contacts_wf : table_wf three_contacts.
Proof.
  apply one_bucket_wf.
  - by split.
  - repeat (apply Forall_cons; split; [by split|]). apply Forall_nil. exact I.
  - apply (bool_decide_unpack _). vm_compute. exact I.
  - simpl. lia.
Qed.

Lemma find_neighbors_spec_witness :
  length (snd (find_neighbors 0 three_contacts (node_at 4) (Some (node_at 6)))) = 2%nat.
Proof.
  pose proof (find_neighbors_spec 0 three_contacts (node_at 4) (Some (node_at 6))
                three_contacts_wf ltac:(by split) ltac:(simpl; lia)) as H.
  destruct (find_neighbors 0 three_contacts (node_at 4) (Some (node_at 6))) as [t' ns].
  destruct H as (_ & _ & _ & H & _). simpl. rewrite H. vm_compute. reflexivity.
Defined.

(** With [k = 1] the second contact splits the bucket; a lookup on the side of the
    first then leaves the second out. *)
Definition split_table : RoutingTable := filled_table 0 1 [1; 2 ^ 127].

Lemma add_contacts_wf fuel now t ns t' :
  table_wf t -> Forall wf_node ns -> (0 < tksize t)%nat -> add_contacts fuel now t ns = Some t' -> table_wf t'.
Proof.
  intros Hw Hns Hk. revert t' . unfold add_contacts.
  assert (forall t, table_wf t -> (0 < tksize t)%nat -> forall t',
    foldl (fun t n => t ← t; fst <$> add_contact fuel now t n) (Some t) ns = Some t' -> table_wf t') as H; [|by apply H].
  clear t Hw Hk. induction Hns as [|n ns Hn _ IH]; intros t Hw Hk t'; cbn [foldl]; [by intros [= <-]|].
  cbn [mbind option_bind]. destruct (add_contact fuel now t n) as [[t1 r]|] eqn:E; cbn [fmap option_fmap option_map fst].
  - destruct (add_contact_spec _ _ _ _ _ _ Hw Hn Hk E) as (W & [_ K _ _] & _). apply IH; [done|lia].
  - intros Hf. exfalso. clear -Hf. induction ns as [|m ns IH]; [done|]. by apply IH.
Qed.

Lemma split_table_wf : table_wf split_table.
Proof.
  unfold split_table, filled_table.
  destruct (add_contacts _ _ _ _) as [t|] eqn:E; cbn [default]; [|apply RoutingTable_new_wf, node_at_wf].
  eapply add_contacts_wf; [..|exact E]; [apply RoutingTable_new_wf, node_at_wf| |simpl; lia].
  apply Forall_fmap, Forall_true. intros x. apply node_at_wf.
Qed.

Lemma find_neighbors_exact_witness :
  let ns := snd (find_neighbors 0 split_table (node_at 3) None) in
  node_at 1 ∈ ns /\ node_at (2 ^ 127) ∈ all_nodes split_table /\ (node_at (2 ^ 127) ∉ ns) /\
  distance_to (node_at 1) (node_at 3) < distance_to (node_at (2 ^ 127)) (node_at 3).
Proof.
  assert (node_at 1 ∈ snd (find_neighbors 0 split_table (node_at 3) None)) as Hin
    by (apply (bool_decide_unpack _); vm_compute; exact I).
  assert (node_at (2 ^ 127) ∈ all_nodes split_table) as Hm by (apply (bool_decide_unpack _); vm_compute; exact I).
  assert (node_at (2 ^ 127) ∉ snd (find_neighbors 0 split_table (node_at 3) None)) as Hout
    by (apply (bool_decide_unpack _); vm_compute; exact I).
  split; [exact Hin|]. split; [exact Hm|]. split; [exact Hout|].
  destruct (head (buckets split_table)) as [b|] eqn:Eb; [|vm_compute in Eb; discriminate Eb].
  destruct (find_neighbors_exact 0 split_table (node_at 3) None b split_table_wf) as [Hfull _].
  - apply node_at_wf.
  - vm_compute. lia.
  - by apply head_Some_elem_of.
  - revert Eb. vm_compute. intros [= <-]. reflexivity.
  - destruct Hfull as [_ Hfar]; [revert Eb; vm_compute; intros [= <-]; reflexivity|].
    apply Hfar; [exact Hin|exact Hm|reflexivity|exact Hout].
Defined.

(** The answer of [find_neighbors] is not in general the [k] closest
    contacts.  With [k = 1] and the local node at the top of the key space, three
    accepted contacts leave a table in which the lookup of a target in the last
    bucket returns the contact of the first bucket on its left, the farthest
    one, although a closer contact is stored: the left buckets are popped from
    the far end. *)
Theorem find_neighbors_misses_closer :
  exists (t : RoutingTable) (target r m : Node),
    add_contacts INSERT_FUEL 0 (RoutingTable_new 0 (node_at U128_MAX) 1)
      [node_at 1; node_at (2 ^ 127); node_at (2 ^ 127 + 2 ^ 126)] = Some t /\
    snd (find_neighbors 0 t target None) = [r] /\
    m ∈ all_nodes t /\ skip_neighbor target None m = false /\
    distance_to m target < distance_to r target.
Proof.
  exists (filled_table U128_MAX 1 [1; 2 ^ 127; 2 ^ 127 + 2 ^ 126]),
    (node_at (2 ^ 127 + 2 ^ 126)), (node_at 1), (node_at (2 ^ 127)).
  split_and!; [vm_compute; reflexivity..| |vm_compute; reflexivity|vm_compute; reflexivity].
  apply (bool_decide_unpack _). vm_compute. exact I.
Qed.
