(* ===== verification/Utils.v ===== *)
(** * Utils: the general-purpose helpers of [src/src/utils.rs]

    SHA-1 is a library function and a parameter of the files that use [digest];
    here are the helpers whose code is in the repository. *)
From S2P Require Import Prelude Node Routing.
From Stdlib Require Import Strings.Byte.

(** [shared_prefix]: [take_while] over the indices below the shortest length. *)
Definition min_len (args : list bytes) : nat :=
  match args with
  | [] => 0
  | a :: args => foldr (fun b m => Nat.min (length b) m) (length a) args
  end.

Definition agree_at (args : list bytes) (first : bytes) (i : nat) : bool :=
  forallb (fun a => bool_decide (a !! i = first !! i)) args.

Definition shared_prefix (args : list bytes) : bytes :=
  match args with
  | [] => []
  | first :: _ =>
      take (count_while (agree_at args first) (seq 0 (min_len args))) first
  end.

(** [format!("{:08b}", b)], most significant bit first, as ['0']/['1'] bytes. *)
Definition byte_bits (b : byte) : bytes :=
  (fun i => if Z.testbit (byte_to_Z b) (7 - Z.of_nat i) then Byte.x31 else Byte.x30) <$> seq 0 8.

Definition bytes_to_bit_string (l : bytes) : bytes := mbind byte_bits l.

(** [gather_dict]: the entries of the map in some order, split into keys and
    futures, the futures run ([join_all] keeps their order), and zipped back. *)
Definition gather_dict {K F V} `{Countable K} (run : F -> V) (dic : gmap K F) : gmap K V :=
  let '(keys, futs) := (fst <$> map_to_list dic, snd <$> map_to_list dic) in
  list_to_map (zip keys (run <$> futs)).

Lemma min_len_le args a : a ∈ args -> (min_len args <= length a)%nat.
Proof.
  destruct args as [|b args]; [by intros ?%elem_of_nil|]. simpl. revert b.
  induction args as [|c args IH]; intros b Ha; simpl.
  - apply list_elem_of_singleton in Ha as ->. lia.
  - apply elem_of_cons in Ha as [->|[->|Ha]%elem_of_cons].
    + specialize (IH b ltac:(left)). lia.
    + lia.
    + specialize (IH b ltac:(by right)). lia.
Qed.

Lemma min_len_reached args : args <> [] -> exists a, a ∈ args /\ length a = min_len args.
Proof.
  destruct args as [|b args]; [done|]. intros _. simpl.
  induction args as [|c args IH]; simpl; [exists b; set_solver|].
  destruct IH as (a & Ha & Ea). destruct (decide (length c <= length a)).
  - exists c. split; [set_solver|lia].
  - exists a. split; [set_solver|lia].
Qed.

Lemma agree_at_spec args first i :
  agree_at args first i = true <-> Forall (fun a => a !! i = first !! i) args.
Proof.
  unfold agree_at. rewrite forallb_forall, Forall_forall.
  setoid_rewrite bool_decide_eq_true. setoid_rewrite list_elem_of_In. done.
Qed.

Lemma prefix_of_agree (p a : bytes) :
  p `prefix_of` a <-> forall i x, p !! i = Some x -> a !! i = Some x.
Proof.
  split.
  - intros [k ->] i x Hx. by apply lookup_app_l_Some.
  - intros Hall. exists (drop (length p) a). apply list_eq. intros i.
    destruct (decide (i < length p)) as [Hi|Hi].
    + apply lookup_lt_is_Some in Hi as [x Hx]. rewrite (Hall i x Hx). symmetry. by apply lookup_app_l_Some.
    + rewrite lookup_app_r, lookup_drop by lia. f_equal. lia.
Qed.

(** [shared_prefix] is the longest common prefix: a prefix of every
    argument, of which every common prefix of a non-empty list of arguments is
    a prefix. *)
Lemma shared_prefix_longest (args : list bytes) :
  Forall (fun a => shared_prefix args `prefix_of` a) args /\
  (forall p, args <> [] -> Forall (fun a => p `prefix_of` a) args -> p `prefix_of` shared_prefix args).
Proof.
  destruct args as [|first args']; [by split|]. set (args := first :: args').
  pose proof (count_while_le (agree_at args first) (seq 0 (min_len args))) as Hle.
  rewrite length_seq in Hle.
  assert (shared_prefix args = take (count_while (agree_at args first) (seq 0 (min_len args))) first) as -> by done.
  pose proof (min_len_le args first ltac:(left)) as Hfirst. split.
  - apply Forall_forall. intros a Ha. apply prefix_of_agree. intros i x [Hx Hi]%lookup_take_Some.
    assert (agree_at args first i = true) as Hag%agree_at_spec.
    { eapply count_while_before; [|exact Hi]. rewrite lookup_seq_lt by lia. done. }
    by rewrite (proj1 (Forall_forall _ _) Hag a Ha).
  - intros p _ Hp. apply prefix_of_agree. intros i x Hx.
    assert (forall a, a ∈ args -> a !! i = Some x) as Hcom.
    { intros a Ha. by apply (proj1 (prefix_of_agree p a) (proj1 (Forall_forall _ _) Hp a Ha)). }
    apply lookup_take_Some. split; [apply Hcom; left|].
    set (c := count_while _ _) in *. destruct (decide (i < c)) as [|Hge]; [done|exfalso].
    destruct (min_len_reached args ltac:(done)) as (s & Hs & Es).
    pose proof (lookup_lt_Some _ _ _ (Hcom s Hs)) as Hlt.
    assert (agree_at args first c = false) as Hbad.
    { apply (count_while_stop _ (seq 0 (min_len args))). rewrite lookup_seq_lt by lia. done. }
    apply not_true_iff_false in Hbad. apply Hbad, agree_at_spec, Forall_forall. intros a Ha.
    assert (is_Some (p !! c)) as [y Hy] by (apply lookup_lt_is_Some; apply lookup_lt_Some in Hx; lia).
    rewrite (proj1 (prefix_of_agree p a) (proj1 (Forall_forall _ _) Hp a Ha) c y Hy).
    symmetry. apply (proj1 (prefix_of_agree p first)); [|done].
    apply (proj1 (Forall_forall _ _) Hp). left.
Qed.

Lemma gather_dict_spec {K F V} `{Countable K} (run : F -> V) (dic : gmap K F) :
  gather_dict run dic = run <$> dic.
Proof.
  unfold gather_dict. rewrite <- (list_to_map_to_list (run <$> dic)), map_to_list_fmap.
  f_equal. generalize (map_to_list dic) as l.
  induction l as [|[a b] l IHl]; [done|]. exact (f_equal (cons (a, run b)) IHl).
Qed.
