(* ===== verification/Storage.v ===== *)
(** * Storage: the key-value store interface and its TTL implementation

    Models [src/src/storage.rs].  The trait [IStorage] is a class: its
    operations take the current time (the code reads [Instant::now()]), and its
    laws say what the protocol layer relies on, against an abstract view of the
    store: the map of the live entries with their insertion times.
    [ForgetfulStorage] is an instance; its [DashMap] is a [gmap], iterated in
    some unspecified order, so the laws of the iterators are up to permutation.
    Times are nanoseconds of a monotonic clock. *)
From S2P Require Import Prelude.
Local Open Scope Z_scope.

Definition DEFAULT_TTL : Z := 604800.

(** [Duration::from_secs] *)
Definition from_secs (s : Z) : Z := s * 1000000000.

(** [inserted_at.elapsed()], which saturates at zero. *)
Definition elapsed (now inserted_at : Z) : Z := saturating_sub now inserted_at.

(** ** The interface *)

Class IStorage (S : Type) := {
  set : Z -> S -> bytes -> bytes -> S;
  insert_if_absent : Z -> S -> bytes -> bytes -> S * bool;
  get_default : Z -> S -> bytes -> option bytes -> option bytes;
  delete_key : Z -> S -> bytes -> S;
  iter_older_than : Z -> S -> Z -> list (bytes * bytes);
  iter_all : Z -> S -> list (bytes * bytes)
}.

(** The default method of the trait. *)
Definition get {S} `{IStorage S} (now : Z) (s : S) (key : bytes) : option bytes :=
  get_default now s key None.

(** What an implementation promises: the operations act on [live now s], the
    entries visible at time [now]. *)
Class StorageLaws (S : Type) `{IStorage S} := {
  live : Z -> S -> gmap bytes (bytes * Z);
  live_mono now now' s : now <= now' -> live now' s ⊆ live now s;
  set_live now s k v : live now (set now s k v) = <[k := (v, now)]> (live now s);
  insert_if_absent_live now s k v :
    insert_if_absent now s k v =
      (fst (insert_if_absent now s k v), bool_decide (live now s !! k = None)) /\
    live now (fst (insert_if_absent now s k v)) =
      match live now s !! k with Some _ => live now s | None => <[k := (v, now)]> (live now s) end;
  get_default_live now s k d :
    get_default now s k d = match live now s !! k with Some (v, _) => Some v | None => d end;
  delete_live now s k : live now (delete_key now s k) = delete k (live now s);
  iter_older_than_live now s sec :
    iter_older_than now s sec ≡ₚ
      (fun e => (fst e, fst (snd e))) <$>
        filter (fun e => from_secs sec <= elapsed now (snd (snd e))) (map_to_list (live now s));
  iter_all_live now s :
    iter_all now s ≡ₚ (fun e => (fst e, fst (snd e))) <$> map_to_list (live now s)
}.

(** ** The implementation *)

Record ForgetfulStorage := mkStorage {
  data : gmap bytes (bytes * Z);
  ttl : Z
}.

Definition ForgetfulStorage_new (ttl : Z) : ForgetfulStorage := mkStorage ∅ ttl.

(** [ttl] is an [i64]; [self.ttl as u64] wraps. *)
Definition is_expired (now : Z) (s : ForgetfulStorage) (inserted_at : Z) : bool :=
  if ttl s =? -1 then false
  else from_secs (wrap 64 (ttl s)) <? elapsed now inserted_at.

Definition fs_set (now : Z) (s : ForgetfulStorage) (key value : bytes) : ForgetfulStorage :=
  mkStorage (<[key := (value, now)]> (data s)) (ttl s).

Definition fs_insert_if_absent (now : Z) (s : ForgetfulStorage) (key value : bytes)
  : ForgetfulStorage * bool :=
  match data s !! key with
  | None => (mkStorage (<[key := (value, now)]> (data s)) (ttl s), true)
  | Some e =>
      if is_expired now s (snd e) then (mkStorage (<[key := (value, now)]> (data s)) (ttl s), true)
      else (s, false)
  end.

Definition fs_get_default (now : Z) (s : ForgetfulStorage) (key : bytes) (default : option bytes)
  : option bytes :=
  match data s !! key with
  | Some entry => if negb (is_expired now s (snd entry)) then Some (fst entry) else default
  | None => default
  end.

Definition fs_delete (now : Z) (s : ForgetfulStorage) (key : bytes) : ForgetfulStorage :=
  mkStorage (delete key (data s)) (ttl s).

Definition fs_iter_older_than (now : Z) (s : ForgetfulStorage) (seconds_old : Z)
  : list (bytes * bytes) :=
  (fun e => (fst e, fst (snd e))) <$>
    filter (fun e => (from_secs seconds_old <=? elapsed now (snd (snd e))) &&
                     negb (is_expired now s (snd (snd e))) = true) (map_to_list (data s)).

Definition fs_iter_all (now : Z) (s : ForgetfulStorage) : list (bytes * bytes) :=
  (fun e => (fst e, fst (snd e))) <$>
    filter (fun e => negb (is_expired now s (snd (snd e))) = true) (map_to_list (data s)).

#[global] Instance forgetful_istorage : IStorage ForgetfulStorage := {
  set := fs_set;
  insert_if_absent := fs_insert_if_absent;
  get_default := fs_get_default;
  delete_key := fs_delete;
  iter_older_than := fs_iter_older_than;
  iter_all := fs_iter_all
}.

(** ** Refinement *)

Definition fs_live (now : Z) (s : ForgetfulStorage) : gmap bytes (bytes * Z) :=
  filter (fun e => is_expired now s (snd (snd e)) = false) (data s).

Lemma fresh_not_expired now s : is_expired now s now = false.
Proof.
  unfold is_expired. case_match; [done|]. apply Z.ltb_ge. unfold elapsed, saturating_sub, from_secs.
  pose proof (wrap_range 64 (ttl s) ltac:(lia)). lia.
Qed.

Lemma is_expired_data now m t i : is_expired now (mkStorage m t) i = is_expired now (mkStorage ∅ t) i.
Proof. done. Qed.

Lemma expired_mono now now' s i :
  now <= now' -> is_expired now s i = true -> is_expired now' s i = true.
Proof.
  unfold is_expired, elapsed, saturating_sub. case_match; [done|]. rewrite !Z.ltb_lt. lia.
Qed.

Lemma fs_live_lookup now s k e :
  fs_live now s !! k = Some e <-> data s !! k = Some e /\ is_expired now s (snd e) = false.
Proof. unfold fs_live. by rewrite map_lookup_filter_Some. Qed.

Lemma fs_live_None now s k :
  fs_live now s !! k = None <->
  data s !! k = None \/ exists e, data s !! k = Some e /\ is_expired now s (snd e) = true.
Proof.
  unfold fs_live. rewrite map_lookup_filter_None. simpl. setoid_rewrite not_false_iff_true.
  destruct (data s !! k) as [e|]; naive_solver.
Qed.

Lemma fs_live_mono now now' s : now <= now' -> fs_live now' s ⊆ fs_live now s.
Proof.
  intros Hle. apply map_subseteq_spec. intros k e [Hd He]%fs_live_lookup.
  apply fs_live_lookup. split; [done|].
  apply not_true_iff_false. intros Hexp. apply (expired_mono now now') in Hexp; [congruence|done].
Qed.

Lemma fs_set_live now s k v : fs_live now (fs_set now s k v) = <[k := (v, now)]> (fs_live now s).
Proof.
  unfold fs_live, fs_set. simpl. rewrite map_filter_insert_True by (simpl; apply fresh_not_expired).
  by destruct s.
Qed.

Lemma fs_live_keep now s k e :
  data s !! k = Some e -> is_expired now s (snd e) = true ->
  fs_live now s = filter (fun e => is_expired now s (snd (snd e)) = false) (delete k (data s)).
Proof.
  intros Hk He. unfold fs_live. rewrite map_filter_delete.
  rewrite delete_id; [done|]. apply map_lookup_filter_None. right. simpl. naive_solver congruence.
Qed.

Lemma fs_insert_if_absent_live now s k v :
  fs_insert_if_absent now s k v =
    (fst (fs_insert_if_absent now s k v), bool_decide (fs_live now s !! k = None)) /\
  fs_live now (fst (fs_insert_if_absent now s k v)) =
    match fs_live now s !! k with
    | Some _ => fs_live now s
    | None => <[k := (v, now)]> (fs_live now s)
    end.
Proof.
  unfold fs_insert_if_absent. destruct (data s !! k) as [e|] eqn:Ed.
  - destruct (is_expired now s (snd e)) eqn:Ee.
    + assert (fs_live now s !! k = None) as El by (apply fs_live_None; eauto).
      rewrite El, bool_decide_true by done. split; [done|]. apply fs_set_live.
    + assert (fs_live now s !! k = Some e) as El by (by apply fs_live_lookup).
      rewrite El, bool_decide_false by done. done.
  - assert (fs_live now s !! k = None) as El by (apply fs_live_None; eauto).
    rewrite El, bool_decide_true by done. split; [done|]. apply fs_set_live.
Qed.

Lemma fs_get_default_live now s k d :
  fs_get_default now s k d = match fs_live now s !! k with Some (v, _) => Some v | None => d end.
Proof.
  unfold fs_get_default. destruct (fs_live now s !! k) as [[v i]|] eqn:El.
  - apply fs_live_lookup in El as [-> Ee]. simpl in *. by rewrite Ee.
  - apply fs_live_None in El as [->|(e & -> & ->)]; done.
Qed.

Lemma fs_delete_live now s k : fs_live now (fs_delete now s k) = delete k (fs_live now s).
Proof. unfold fs_live, fs_delete. simpl. rewrite map_filter_delete. by destruct s. Qed.

Lemma fs_iter_filter now s :
  map_to_list (fs_live now s) ≡ₚ
  filter (fun e => negb (is_expired now s (snd (snd e))) = true) (map_to_list (data s)).
Proof.
  apply NoDup_Permutation.
  - apply NoDup_map_to_list.
  - apply NoDup_filter, NoDup_map_to_list.
  - intros [k e]. rewrite list_elem_of_filter, !elem_of_map_to_list, fs_live_lookup. simpl.
    rewrite negb_true_iff. tauto.
Qed.

Lemma fs_iter_all_live now s :
  fs_iter_all now s ≡ₚ (fun e => (fst e, fst (snd e))) <$> map_to_list (fs_live now s).
Proof. unfold fs_iter_all. by rewrite fs_iter_filter. Qed.

Lemma fs_iter_older_than_live now s sec :
  fs_iter_older_than now s sec ≡ₚ
    (fun e => (fst e, fst (snd e))) <$>
      filter (fun e => from_secs sec <= elapsed now (snd (snd e))) (map_to_list (fs_live now s)).
Proof.
  unfold fs_iter_older_than. apply fmap_Permutation. rewrite fs_iter_filter.
  rewrite list_filter_filter. apply reflexive_eq, list_filter_iff. intros [k e]. simpl.
  rewrite andb_true_iff, Z.leb_le. tauto.
Qed.

#[global] Instance forgetful_laws : StorageLaws ForgetfulStorage := {
  live := fs_live;
  live_mono := fs_live_mono;
  set_live := fs_set_live;
  insert_if_absent_live := fs_insert_if_absent_live;
  get_default_live := fs_get_default_live;
  delete_live := fs_delete_live;
  iter_older_than_live := fs_iter_older_than_live;
  iter_all_live := fs_iter_all_live
}.

(** ** Consequences of the laws, for any implementation *)

Section storage_client.
Context {S : Type} `{StorageLaws S}.

Lemma get_live now (s : S) k : get now s k = fst <$> live now s !! k.
Proof. unfold get. rewrite get_default_live. by destruct (live now s !! k) as [[]|]. Qed.

Lemma get_set now (s : S) k v k' :
  get now (set now s k v) k' = if decide (k = k') then Some v else get now s k'.
Proof. rewrite !get_live, set_live, lookup_insert. by case_decide. Qed.

Lemma insert_if_absent_result now (s : S) k v :
  snd (insert_if_absent now s k v) = bool_decide (get now s k = None).
Proof.
  destruct (insert_if_absent_live now s k v) as [-> _]. simpl. rewrite get_live.
  apply bool_decide_ext. by rewrite fmap_None.
Qed.

Lemma get_insert_if_absent now (s : S) k v k' :
  get now (fst (insert_if_absent now s k v)) k' =
  if decide (k = k') then Some (default v (get now s k)) else get now s k'.
Proof.
  rewrite !get_live. destruct (insert_if_absent_live now s k v) as [_ ->].
  destruct (live now s !! k) as [[w i]|] eqn:E; case_decide; subst; simpl.
  - by rewrite E.
  - done.
  - by rewrite lookup_insert_eq.
  - by rewrite lookup_insert_ne.
Qed.

Lemma get_delete now (s : S) k k' :
  get now (delete_key now s k) k' = if decide (k = k') then None else get now s k'.
Proof. rewrite !get_live, delete_live, lookup_delete. by case_decide. Qed.

Lemma get_mono now now' (s : S) k v :
  now <= now' -> get now' s k = Some v -> get now s k = Some v.
Proof.
  rewrite !get_live, !fmap_Some. intros Hle (e & He & ->). exists e. split; [|done].
  by apply (lookup_weaken _ _ _ _ He (live_mono now now' s Hle)).
Qed.

Lemma iter_all_get now (s : S) k v : (k, v) ∈ iter_all now s <-> get now s k = Some v.
Proof.
  rewrite iter_all_live, get_live, list_elem_of_fmap, fmap_Some. split.
  - intros ([k' [v' i]] & [= -> ->] & He%elem_of_map_to_list). eauto.
  - intros ([v' i] & He & [= ->]). exists (k, (v', i)). split; [done|]. by apply elem_of_map_to_list.
Qed.

Lemma iter_all_nodup now (s : S) : NoDup (fst <$> iter_all now s).
Proof. rewrite iter_all_live, <- list_fmap_compose. apply NoDup_fst_map_to_list. Qed.

Lemma iter_older_than_all now (s : S) sec k v :
  (k, v) ∈ iter_older_than now s sec -> (k, v) ∈ iter_all now s.
Proof.
  rewrite iter_older_than_live, iter_all_live, !list_elem_of_fmap.
  intros (e & -> & [_ He]%list_elem_of_filter). eauto.
Qed.

End storage_client.

(** [ForgetfulStorage] implements a map of unexpired entries: a read after
    [set], [insert_if_absent] or [delete] is what the corresponding map update
    gives, [insert_if_absent] reports success exactly when a read finds nothing
    (an expired entry counts as absent) and never overwrites a live value, and
    [iter_all] lists exactly the readable pairs, each key once. *)
Theorem forgetful_refines_map (now : Z) (s : ForgetfulStorage) (k v k' : bytes) :
  get now (set now s k v) k' = (if decide (k = k') then Some v else get now s k') /\
  snd (insert_if_absent now s k v) = bool_decide (get now s k = None) /\
  get now (fst (insert_if_absent now s k v)) k' =
    (if decide (k = k') then Some (default v (get now s k)) else get now s k') /\
  get now (delete_key now s k) k' = (if decide (k = k') then None else get now s k') /\
  (forall w, (k', w) ∈ iter_all now s <-> get now s k' = Some w) /\
  NoDup (fst <$> iter_all now s).
Proof.
  split_and!; [apply get_set|apply insert_if_absent_result|apply get_insert_if_absent
              |apply get_delete|intros w; apply iter_all_get|apply iter_all_nodup].
Qed.

(** The life of an entry.  A value written at [t], with no later write of
    its key, is read at a later [t'] exactly when the [ttl] is [-1] or at most
    [ttl] seconds (as a [u64]) have passed; [iter_older_than] lists it exactly
    when it is live and at least that old. *)
Theorem forgetful_ttl (t t' : Z) (s : ForgetfulStorage) (k v : bytes) (sec : Z) :
  t <= t' ->
  let s' := set t s k v in
  let alive := ttl s = -1 \/ t' - t <= from_secs (wrap 64 (ttl s)) in
  (get t' s' k = Some v <-> alive) /\
  (get t' s' k = None <-> ~ alive) /\
  ((k, v) ∈ iter_older_than t' s' sec <-> alive /\ from_secs sec <= t' - t).
Proof.
  intros Hle s' alive.
  assert (live t' s' !! k = if bool_decide alive then Some (v, t) else None) as Hl.
  { destruct (fs_live t' s' !! k) as [e|] eqn:E; simpl; rewrite E.
    - apply fs_live_lookup in E as [Ed Ee]. simpl in Ed. rewrite lookup_insert_eq in Ed.
      injection Ed as <-. rewrite bool_decide_true; [done|]. revert Ee. unfold is_expired, alive. simpl.
      destruct (Z.eqb_spec (ttl s) (-1)); [by left|]. rewrite Z.ltb_ge.
      unfold elapsed, saturating_sub. intros. right. lia.
    - rewrite bool_decide_false; [done|]. intros Ha.
      apply fs_live_None in E as [E|(e & Ed & Ee)]; simpl in *; rewrite lookup_insert_eq in *; simplify_eq.
      revert Ee. unfold is_expired, elapsed, saturating_sub. simpl. unfold alive in Ha.
      destruct (Z.eqb_spec (ttl s) (-1)); [done|]. rewrite Z.ltb_lt. intros. destruct Ha; lia. }
  rewrite !get_live, Hl. split_and!.
  - case_bool_decide; simpl; naive_solver.
  - case_bool_decide; simpl; naive_solver.
  - rewrite iter_older_than_live, list_elem_of_fmap. split.
    + intros ([k0 [v0 i]] & [= <- <-] & [Hf He%elem_of_map_to_list]%list_elem_of_filter).
      rewrite Hl in He. revert Hf. simpl. unfold elapsed, saturating_sub.
      case_bool_decide; simplify_eq. intros. split; [done|lia].
    + intros [Ha Hs]. exists (k, (v, t)). split; [done|]. apply list_elem_of_filter. split.
      * simpl. unfold elapsed, saturating_sub. lia.
      * apply elem_of_map_to_list. rewrite Hl. by rewrite bool_decide_true.
Qed.

(** C26: [ForgetfulStorage] implements a map of unexpired entries: a read after
    [set], [insert_if_absent] or [delete] is what the corresponding map update
    gives, [insert_if_absent] reports success exactly when a read finds nothing
    (an expired entry counts as absent) and never overwrites a live value, and
    [iter_all] lists exactly the readable pairs, each key once.  A value written at
    [now] and not again is read at a later [t'] exactly when the [ttl] is [-1] or
    at most [ttl] seconds (as a [u64]) have passed, and [iter_older_than] lists it
    exactly when it is live and at least that old. *)
Theorem forgetful_storage_correct (now : Z) (s : ForgetfulStorage) (k v k' : bytes) :
  (get now (set now s k v) k' = (if decide (k = k') then Some v else get now s k') /\
   snd (insert_if_absent now s k v) = bool_decide (get now s k = None) /\
   get now (fst (insert_if_absent now s k v)) k' =
     (if decide (k = k') then Some (default v (get now s k)) else get now s k') /\
   get now (delete_key now s k) k' = (if decide (k = k') then None else get now s k') /\
   (forall w, (k', w) ∈ iter_all now s <-> get now s k' = Some w) /\
   NoDup (fst <$> iter_all now s)) /\
  forall t' sec, now <= t' ->
    let s' := set now s k v in
    let alive := ttl s = -1 \/ t' - now <= from_secs (wrap 64 (ttl s)) in
    (get t' s' k = Some v <-> alive) /\ (get t' s' k = None <-> ~ alive) /\
    ((k, v) ∈ iter_older_than t' s' sec <-> alive /\ from_secs sec <= t' - now).
Proof. split; [apply forgetful_refines_map|]. intros t' sec Hle. by apply forgetful_ttl. Qed.


Lemma forgetful_ttl_witness :
  get 3000000000 (set 0 (ForgetfulStorage_new 2) [] []) [] = None /\
  get 2000000000 (set 0 (ForgetfulStorage_new 2) [] []) [] = Some [].
Proof.
  split.
  - apply (forgetful_ttl 0 3000000000 (ForgetfulStorage_new 2) [] [] 0); [lia|].
    simpl. unfold from_secs, wrap. intros [Hn|Hn]; vm_compute in Hn; [discriminate|by apply Hn].
  - apply (forgetful_ttl 0 2000000000 (ForgetfulStorage_new 2) [] [] 0); [lia|].
    right. vm_compute. discriminate.
Defined.
