(* ===== verification/Fragmentation.v ===== *)
(** * Fragmentation: splitting a message into datagrams and reassembling it

    Models [src/src/fragmentation.rs]: the 12-byte header, [encode_fragments],
    [parse_fragment] and the reassembly buffer of one message.  [u16] and [u32]
    values are integers, cast with [wrap]. *)
From S2P Require Import Prelude.
From Stdlib Require Import Strings.Byte.
Local Open Scope Z_scope.

Definition FRAG_MAGIC : Z := 0x4B414446.
Definition FRAG_HEADER_LEN : nat := 12.
Definition FRAG_CHUNK_SIZE : nat := 1400.
(** Ten seconds, in nanoseconds. *)
Definition REASSEMBLY_TTL : Z := 10000000000.
Definition MAX_MESSAGE_SIZE : Z := 256 * 1024.

(** ** The reassembly buffer *)

Record ReassemblyEntry := mkEntry {
  total : Z;
  received : Z;
  chunks : list (option bytes);
  created_at : Z
}.

Definition ReassemblyEntry_new (now tot : Z) : ReassemblyEntry :=
  mkEntry tot 0 (replicate (Z.to_nat tot) None) now.

Definition entry_insert (e : ReassemblyEntry) (index : Z) (payload : bytes)
  : ReassemblyEntry * bool :=
  let idx := Z.to_nat index in
  if (length (chunks e) <=? idx)%nat then (e, false)
  else
    let e :=
      match chunks e !! idx with
      | Some None => mkEntry (total e) (wrap 16 (received e + 1))
                       (<[idx := Some payload]> (chunks e)) (created_at e)
      | _ => e
      end in
    (e, received e =? total e).

(** The loop of [assemble]: [c?] returns [None] from the function. *)
Fixpoint assemble_chunks (cs : list (option bytes)) (out : bytes) : option bytes :=
  match cs with
  | [] => Some out
  | Some c :: cs => assemble_chunks cs (out ++ c)
  | None :: _ => None
  end.

Definition assemble (e : ReassemblyEntry) : option bytes := assemble_chunks (chunks e) [].

(** ** Encoding *)

(** [slice::chunks(n)]; the fuel is the length of the slice. *)
Fixpoint slice_chunks_fuel (fuel n : nat) (l : bytes) : list bytes :=
  match fuel, l with
  | S fuel, _ :: _ => take n l :: slice_chunks_fuel fuel n (drop n l)
  | _, _ => []
  end.

Definition slice_chunks (n : nat) (l : bytes) : list bytes := slice_chunks_fuel (length l) n l.

(** The header and payload written into one datagram buffer. *)
Definition datagram (frag_id index tot : Z) (chunk : bytes) : bytes :=
  be_bytes 4 FRAG_MAGIC ++ be_bytes 4 frag_id ++ be_bytes 2 index ++ be_bytes 2 tot ++ chunk.

Definition encode_fragments (frag_id : Z) (payload : bytes) : list bytes :=
  match payload with
  | [] => [datagram frag_id 0 1 []]
  | _ =>
      let tot := wrap 16 (Z.of_nat (div_ceil (length payload) FRAG_CHUNK_SIZE)) in
      imap (fun i chunk => datagram frag_id (wrap 16 (Z.of_nat i)) tot chunk)
        (slice_chunks FRAG_CHUNK_SIZE payload)
  end.

Record FragHeader := mkHeader {
  frag_id : Z;
  index : Z;
  frag_total : Z
}.

Definition parse_fragment (d : bytes) : option (FragHeader * bytes) :=
  if (length d <? FRAG_HEADER_LEN)%nat then None
  else
    let magic := be_value (take 4 d) in
    if negb (magic =? FRAG_MAGIC) then None
    else
      let fid := be_value (take 4 (drop 4 d)) in
      let idx := be_value (take 2 (drop 8 d)) in
      let tot := be_value (take 2 (drop 10 d)) in
      if (tot =? 0) || (tot <=? idx) then None
      else Some (mkHeader fid idx tot, drop FRAG_HEADER_LEN d).

(** ** Chunking *)

Lemma slice_chunks_concat fuel n l :
  (0 < n)%nat -> (length l <= fuel)%nat -> concat (slice_chunks_fuel fuel n l) = l.
Proof.
  intros Hn. revert l. induction fuel as [|fuel IH]; intros l Hl.
  { destruct l; [done|simpl in Hl; lia]. }
  destruct l as [|b l]; [done|]. cbn [slice_chunks_fuel concat].
  rewrite IH by (rewrite length_drop; simpl in *; lia). apply take_drop.
Qed.

Lemma slice_chunks_lengths fuel n l :
  (0 < n)%nat -> Forall (fun c => 0 < length c <= n)%nat (slice_chunks_fuel fuel n l).
Proof.
  intros Hn. revert l. induction fuel as [|fuel IH]; intros l; [constructor|].
  destruct l as [|b l]; [constructor|]. cbn [slice_chunks_fuel]. constructor; [|apply IH].
  rewrite length_take. simpl. lia.
Qed.

Lemma div_ceil_step x d : (0 < d)%nat -> (0 < x)%nat -> div_ceil x d = S (div_ceil (x - d) d).
Proof.
  intros Hd Hx. unfold div_ceil. destruct (decide (x <= d)%nat).
  - replace (x - d + (d - 1))%nat with (d - 1)%nat by lia. rewrite (Nat.div_small (d - 1)) by lia.
    replace (x + (d - 1))%nat with (x - 1 + 1 * d)%nat by lia.
    rewrite Nat.div_add by lia. rewrite Nat.div_small by lia. done.
  - replace (x + (d - 1))%nat with (x - d + (d - 1) + 1 * d)%nat by lia.
    rewrite Nat.div_add by lia. lia.
Qed.

Lemma slice_chunks_count fuel n l :
  (0 < n)%nat -> (length l <= fuel)%nat -> length (slice_chunks_fuel fuel n l) = div_ceil (length l) n.
Proof.
  intros Hn. revert l. induction fuel as [|fuel IH]; intros l Hl.
  { destruct l; [|simpl in Hl; lia]. simpl. unfold div_ceil. by rewrite Nat.div_small by lia. }
  destruct l as [|b l]; [simpl; unfold div_ceil; by rewrite Nat.div_small by lia|].
  cbn [slice_chunks_fuel length]. rewrite IH by (rewrite length_drop; simpl in *; lia).
  rewrite (div_ceil_step (S (length l)) n) by lia. by rewrite length_drop.
Qed.

Lemma chunk_size_pos : (0 < FRAG_CHUNK_SIZE)%nat.
Proof. unfold FRAG_CHUNK_SIZE. lia. Qed.
#[export] Hint Resolve chunk_size_pos : kad.

(** The fragments of a payload, the empty payload giving one empty fragment. *)
Definition fragments (payload : bytes) : list bytes :=
  match payload with [] => [[]] | _ => slice_chunks FRAG_CHUNK_SIZE payload end.

(** Messages whose fragment count fits the 16-bit field. *)
Definition fits_u16 (payload : bytes) : Prop := Z.of_nat (length (fragments payload)) <= U16_MAX.

Lemma fragments_concat payload : concat (fragments payload) = payload.
Proof. destruct payload; [done|]. by apply slice_chunks_concat; auto with kad. Qed.

Lemma fragments_lengths payload : Forall (fun c => length c <= FRAG_CHUNK_SIZE)%nat (fragments payload).
Proof.
  destruct payload; simpl; [apply Forall_singleton; simpl; lia|].
  eapply Forall_impl; [apply slice_chunks_lengths; auto with kad|]. simpl. lia.
Qed.

Lemma fragments_nonempty payload : (0 < length (fragments payload))%nat.
Proof.
  destruct payload as [|b l]; [simpl; lia|]. unfold fragments, slice_chunks.
  rewrite slice_chunks_count by auto with kad. simpl length.
  rewrite div_ceil_step by auto with kad lia. lia.
Qed.

Lemma encode_fragments_eq fid payload :
  fits_u16 payload ->
  encode_fragments fid payload =
  imap (fun i c => datagram fid (Z.of_nat i) (Z.of_nat (length (fragments payload))) c) (fragments payload).
Proof.
  unfold fits_u16, U16_MAX. destruct payload as [|b l]; [done|].
  unfold encode_fragments, fragments, slice_chunks. intros Hf.
  rewrite <- (slice_chunks_count (length (b :: l))) by auto with kad.
  rewrite (wrap_small 16 (Z.of_nat (length _))) by lia.
  apply imap_ext. intros i c Hi. apply lookup_lt_Some in Hi. by rewrite wrap_small by lia.
Qed.

(** ** Parsing *)

Lemma slice_at i n (a b c : bytes) :
  length a = i -> length b = n -> take n (drop i (a ++ b ++ c)) = b.
Proof. intros Ha Hb. by rewrite drop_app_length', take_app_length' by done. Qed.

Lemma parse_datagram fid idx tot c :
  0 <= fid < 2 ^ 32 -> 0 <= idx < tot -> tot <= 65535 ->
  parse_fragment (datagram fid idx tot c) = Some (mkHeader fid idx tot, c).
Proof.
  intros Hf Hi Ht. unfold parse_fragment, FRAG_HEADER_LEN.
  assert (exists h1 h2 h3 h4, datagram fid idx tot c = h1 ++ h2 ++ h3 ++ h4 ++ c /\
    length h1 = 4%nat /\ length h2 = 4%nat /\ length h3 = 2%nat /\ length h4 = 2%nat /\
    be_value h1 = FRAG_MAGIC /\ be_value h2 = fid /\ be_value h3 = idx /\ be_value h4 = tot)
    as (h1 & h2 & h3 & h4 & -> & L1 & L2 & L3 & L4 & V1 & V2 & V3 & V4).
  { do 4 eexists. split; [reflexivity|]. rewrite !be_bytes_length.
    rewrite !be_value_bytes_small by (unfold FRAG_MAGIC; rewrite pow256; cbn; lia). done. }
  rewrite !length_app, L1, L2, L3, L4.
  destruct (Nat.ltb_spec (4 + (4 + (2 + (2 + length c)))) 12); [lia|].
  rewrite take_app_length', V1, Z.eqb_refl by lia. simpl negb. cbv iota.
  rewrite (slice_at 4 4 h1 h2), V2 by done.
  rewrite (app_assoc h1 h2), (slice_at 8 2 (h1 ++ h2) h3), V3 by (rewrite ?length_app; lia).
  rewrite (app_assoc _ h3), (slice_at 10 2 _ h4), V4 by (rewrite ?length_app; lia).
  rewrite (app_assoc _ h4), drop_app_length' by (rewrite !length_app; lia).
  destruct (Z.eqb_spec tot 0), (Z.leb_spec tot idx); try lia. done.
Qed.

Lemma parse_fragment_inv d h c :
  parse_fragment d = Some (h, c) ->
  d = datagram (frag_id h) (index h) (frag_total h) c /\
  0 <= frag_id h < 2 ^ 32 /\ 0 <= index h < frag_total h /\ frag_total h <= 65535.
Proof.
  unfold parse_fragment, FRAG_HEADER_LEN.
  destruct (Nat.ltb_spec (length d) 12) as [|Hl]; [done|].
  destruct (Z.eqb_spec (be_value (take 4 d)) FRAG_MAGIC) as [Em|]; [|done]. cbn [negb].
  set (tot := be_value (take 2 (drop 10 d))). set (idx := be_value (take 2 (drop 8 d))).
  destruct (Z.eqb_spec tot 0), (Z.leb_spec tot idx); try done. intros [= <- <-]. cbn [frag_id index frag_total].
  assert (forall i len, (i + len <= 12)%nat -> length (take len (drop i d)) = len) as Hlen.
  { intros i len Hi. rewrite length_take, length_drop. lia. }
  pose proof (be_value_range (take 2 (drop 10 d))) as R1.
  pose proof (be_value_range (take 2 (drop 8 d))) as R2.
  pose proof (be_value_range (take 4 (drop 4 d))) as R3.
  rewrite Hlen in R1, R2, R3 by lia. unfold tot, idx in *. cbn in R1, R2, R3.
  split; [|lia]. unfold datagram. rewrite <- Em.
  rewrite (be_bytes_value 4 (take 4 d)) by (apply (Hlen 0%nat 4%nat); lia).
  rewrite !be_bytes_value by (apply Hlen; lia).
  rewrite <- (take_drop 4 d) at 1. f_equal.
  rewrite <- (take_drop 4 (drop 4 d)) at 1. f_equal. rewrite drop_drop.
  rewrite <- (take_drop 2 (drop (4 + 4) d)) at 1. f_equal. rewrite drop_drop.
  rewrite <- (take_drop 2 (drop (4 + 4 + 2) d)) at 1. f_equal. by rewrite drop_drop.
Qed.

(** ** Reassembly *)

(** Chunks present in a buffer. *)
Definition filled (cs : list (option bytes)) : nat := length (filter is_Some cs).

Record entry_wf (e : ReassemblyEntry) : Prop := {
  ew_total : 0 < total e <= U16_MAX;
  ew_length : Z.of_nat (length (chunks e)) = total e;
  ew_received : received e = Z.of_nat (filled (chunks e))
}.

Lemma filled_replicate k : filled (replicate k None) = 0%nat.
Proof. induction k; simpl; [done|]. unfold filled in *. rewrite filter_cons_False by (by intros [? ?]). done. Qed.

Lemma ReassemblyEntry_new_wf now tot : 0 < tot <= U16_MAX -> entry_wf (ReassemblyEntry_new now tot).
Proof.
  intros Ht. split; simpl; [done|rewrite length_replicate; lia|by rewrite filled_replicate].
Qed.

Lemma filled_middle l1 o l2 : filled (l1 ++ o :: l2) = (filled l1 + filled [o] + filled l2)%nat.
Proof.
  unfold filled. change (o :: l2) with ([o] ++ l2). rewrite !filter_app, !length_app. lia.
Qed.

Lemma filled_le cs : (filled cs <= length cs)%nat.
Proof. apply length_filter. Qed.

Lemma filled_all cs : filled cs = length cs <-> Forall is_Some cs.
Proof.
  unfold filled. induction cs as [|o cs IH]; [by split|].
  rewrite Forall_cons, <- IH. destruct o as [c|].
  - rewrite filter_cons_True by eauto. simpl. naive_solver.
  - rewrite filter_cons_False by (by intros [? ?]). simpl.
    pose proof (length_filter is_Some cs). split; [lia|]. intros [[? ?] _]. done.
Qed.

Lemma assemble_chunks_spec cs out :
  assemble_chunks cs out =
  if decide (Forall is_Some cs) then Some (out ++ concat (default [] <$> cs)) else None.
Proof.
  revert out. induction cs as [|[c|] cs IH]; intros out; cbn [assemble_chunks].
  - by rewrite decide_True, app_nil_r by constructor.
  - rewrite IH. destruct (decide (Forall is_Some cs)) as [Ha|Ha].
    + rewrite decide_True by (constructor; eauto). simpl. by rewrite <- app_assoc.
    + rewrite decide_False; [done|]. by intros [_ ?]%Forall_cons.
  - rewrite decide_False; [done|]. by intros [[? ?] _]%Forall_cons.
Qed.

Lemma entry_insert_wf e i c :
  entry_wf e -> 0 <= i < total e ->
  entry_wf (fst (entry_insert e i c)) /\
  total (fst (entry_insert e i c)) = total e /\
  (chunks e !! Z.to_nat i = Some None -> chunks (fst (entry_insert e i c)) = <[Z.to_nat i := Some c]> (chunks e)) /\
  (chunks e !! Z.to_nat i <> Some None -> chunks (fst (entry_insert e i c)) = chunks e) /\
  (snd (entry_insert e i c) = true <-> Forall is_Some (chunks (fst (entry_insert e i c)))).
Proof.
  intros [Ht Hl Hr] Hi. unfold entry_insert, U16_MAX in *.
  destruct (Nat.leb_spec (length (chunks e)) (Z.to_nat i)) as [|Hlt]; [lia|].
  destruct (lookup_lt_is_Some_2 _ _ Hlt) as [o Ho]. rewrite Ho.
  assert (forall e', entry_wf e' -> (received e' =? total e') = true <-> Forall is_Some (chunks e')) as Hflag.
  { intros e' [_ Hl' Hr']. rewrite Z.eqb_eq, <- filled_all. lia. }
  destruct o as [c'|]; simpl; [split_and!; [done|done|done|done|by apply Hflag]|].
  assert (entry_wf (mkEntry (total e) (wrap 16 (received e + 1))
            (<[Z.to_nat i := Some c]> (chunks e)) (created_at e))) as Hw.
  2:{ split_and!; [done|done|done|done|]. by apply (Hflag _ Hw). }
  destruct (lookup_split _ _ _ Ho) as (l1 & l2 & E & Ei).
  rewrite E, Ei in *. rewrite insert_middle. rewrite filled_middle in Hr. change (filled [None]) with 0%nat in Hr.
  rewrite !length_app in *. simpl length in *. pose proof (filled_le l1). pose proof (filled_le l2).
  split; simpl; [done|by rewrite length_app|].
  rewrite filled_middle, wrap_small by lia. change (filled [Some c]) with 1%nat. lia.
Qed.

(** Receiving one datagram of a message. *)
Definition feed_datagram (st : ReassemblyEntry * bool) (d : bytes) : ReassemblyEntry * bool :=
  match parse_fragment d with
  | Some (h, c) => entry_insert (fst st) (index h) c
  | None => st
  end.

Definition feed (e : ReassemblyEntry) (ds : list bytes) : ReassemblyEntry * bool :=
  foldl feed_datagram (e, false) ds.

Section one_message.
Context (fid : Z) (payload : bytes).
Hypothesis (Hfid : 0 <= fid < 2 ^ 32) (Hfits : fits_u16 payload).

Local Abbreviation parts := (fragments payload).
Local Abbreviation tot := (Z.of_nat (length parts)).

Lemma encoded_datagram d :
  d ∈ encode_fragments fid payload <->
  exists i c, parts !! i = Some c /\ d = datagram fid (Z.of_nat i) tot c.
Proof.
  rewrite encode_fragments_eq by done. rewrite list_elem_of_lookup.
  setoid_rewrite list_lookup_imap_Some. naive_solver.
Qed.

Lemma part_index i c : parts !! i = Some c -> 0 <= Z.of_nat i < tot.
Proof. intros Hi%lookup_lt_Some. lia. Qed.

Lemma datagram_parses i c :
  parts !! i = Some c ->
  parse_fragment (datagram fid (Z.of_nat i) tot c) = Some (mkHeader fid (Z.of_nat i) tot, c).
Proof. intros Hi%part_index. unfold fits_u16, U16_MAX in Hfits. apply parse_datagram; lia. Qed.

Lemma datagram_inj i c i' c' :
  parts !! i = Some c -> parts !! i' = Some c' ->
  datagram fid (Z.of_nat i) tot c = datagram fid (Z.of_nat i') tot c' -> i = i'.
Proof.
  intros Hi%datagram_parses Hi'%datagram_parses E. rewrite E, Hi' in Hi. injection Hi. lia.
Qed.

(** The buffer after the datagrams of [ds] have arrived. *)
Definition arrived (ds : list bytes) : list (option bytes) :=
  imap (fun i c => if decide (datagram fid (Z.of_nat i) tot c ∈ ds) then Some c else None) parts.

Lemma arrived_all ds :
  Forall is_Some (arrived ds) <-> (forall d, d ∈ encode_fragments fid payload -> d ∈ ds).
Proof.
  unfold arrived. rewrite Forall_lookup. setoid_rewrite encoded_datagram.
  setoid_rewrite list_lookup_imap_Some. split.
  - intros Hall d (i & c & Hi & ->).
    destruct (Hall i _ (ex_intro _ c (conj Hi eq_refl))) as [c' Hc]. by case_decide.
  - intros Hall i o (c & Hi & ->). rewrite decide_True by eauto. eauto.
Qed.

Lemma arrived_step ds i c :
  parts !! i = Some c ->
  arrived (ds ++ [datagram fid (Z.of_nat i) tot c]) = <[i := Some c]> (arrived ds).
Proof.
  intros Hi. apply list_eq. intros j. unfold arrived. rewrite list_lookup_imap.
  destruct (decide (j = i)) as [->|Hne].
  - rewrite list_lookup_insert_eq by (rewrite length_imap; by apply lookup_lt_Some in Hi).
    rewrite Hi. simpl. rewrite decide_True by set_solver. done.
  - rewrite list_lookup_insert_ne, list_lookup_imap by done.
    destruct (parts !! j) as [c'|] eqn:Hj; [|done]. simpl. f_equal.
    apply decide_ext. rewrite elem_of_app, list_elem_of_singleton. split; [|tauto].
    intros [?|E]; [done|]. by apply datagram_inj in E.
Qed.

Lemma feed_arrived now ds :
  Forall (fun d => d ∈ encode_fragments fid payload) ds ->
  let '(e, done_) := feed (ReassemblyEntry_new now tot) ds in
  entry_wf e /\ total e = tot /\ chunks e = arrived ds /\
  (done_ = true <-> Forall is_Some (chunks e)).
Proof.
  pose proof (fragments_nonempty payload) as Hpos. unfold fits_u16 in Hfits.
  induction ds as [|d ds IH] using rev_ind; intros Hds.
  - assert (entry_wf (ReassemblyEntry_new now tot)) as Hw by (apply ReassemblyEntry_new_wf; lia).
    unfold feed. simpl. split_and!; [done|done| |].
    + unfold arrived. rewrite Nat2Z.id. apply list_eq. intros i. rewrite list_lookup_imap.
      destruct (parts !! i) as [c|] eqn:Hi; cbn [fmap option_fmap option_map].
      * rewrite lookup_replicate_2 by (by apply lookup_lt_Some in Hi). by rewrite decide_False by apply not_elem_of_nil.
      * apply lookup_ge_None in Hi. by apply lookup_ge_None; rewrite length_replicate.
    + split; [done|]. rewrite Nat2Z.id. destruct (length parts) eqn:El; [lia|]. simpl.
      by intros [[? ?] _]%Forall_cons.
  - apply Forall_app in Hds as [Hds [Hd _]%Forall_cons]. specialize (IH Hds).
    unfold feed in *. rewrite foldl_app. simpl. destruct (foldl _ _ ds) as [e b].
    destruct IH as (Hw & Et & Ec & _). apply encoded_datagram in Hd as (i & c & Hi & ->).
    unfold feed_datagram. rewrite (datagram_parses i c Hi). cbn [fst index].
    destruct (entry_insert_wf e (Z.of_nat i) c Hw) as (Hw' & Et' & Hnew & Hold & Hflag);
      [rewrite Et; by apply part_index with c|].
    rewrite Nat2Z.id in *. rewrite arrived_step by done.
    destruct (entry_insert e (Z.of_nat i) c) as [e' b']. cbn [fst snd] in *.
    split_and!; [done|congruence| |done]. rewrite <- Ec.
    assert (chunks e !! i = Some (if decide (datagram fid (Z.of_nat i) tot c ∈ ds) then Some c else None)) as Hl.
    { rewrite Ec. unfold arrived. by rewrite list_lookup_imap, Hi. }
    case_decide; [|by apply Hnew]. rewrite Hold by congruence. symmetry. by apply list_insert_id.
Qed.

End one_message.

Lemma feed_assembles (now fid : Z) (payload : bytes) (ds : list bytes) :
  0 <= fid < 2 ^ 32 -> fits_u16 payload ->
  Forall (fun d => d ∈ encode_fragments fid payload) ds ->
  let '(e, complete) := feed (ReassemblyEntry_new now (Z.of_nat (length (fragments payload)))) ds in
  (complete = true <-> (forall d, d ∈ encode_fragments fid payload -> d ∈ ds)) /\
  assemble e = if complete then Some payload else None.
Proof.
  intros Hf Hfit Hds. pose proof (feed_arrived fid payload Hf Hfit now ds Hds) as Hfeed.
  destruct (feed _ ds) as [e b]. destruct Hfeed as (_ & _ & Ec & Hb). rewrite Ec in Hb. split.
  - by rewrite Hb, arrived_all.
  - unfold assemble. rewrite assemble_chunks_spec, Ec. destruct b.
    + rewrite decide_True by (by apply Hb). simpl. f_equal.
      transitivity (concat (fragments payload)); [|apply fragments_concat]. f_equal.
      apply list_eq. intros i. rewrite list_lookup_fmap. unfold arrived. rewrite list_lookup_imap.
      destruct (fragments payload !! i) as [c|] eqn:Hi; [|done]. simpl. rewrite decide_True; [done|].
      apply (proj1 (arrived_all fid payload Hf Hfit ds)); [by apply Hb|].
      apply encoded_datagram; eauto with lia.
    + rewrite decide_False; [done|]. intros Ha. apply Hb in Ha. done.
Qed.

Lemma encode_NoDup fid payload :
  0 <= fid < 2 ^ 32 -> fits_u16 payload -> NoDup (encode_fragments fid payload).
Proof.
  intros Hf Hfit. rewrite encode_fragments_eq by done. apply NoDup_alt. intros i j d.
  rewrite !list_lookup_imap_Some. intros (c & Hi & ->) (c' & Hj & E).
  by eapply (datagram_inj fid payload Hf Hfit).
Qed.

Lemma feed_created e ds : created_at (fst (feed e ds)) = created_at e.
Proof.
  unfold feed. induction ds as [|d ds IH] using rev_ind; [done|]. rewrite foldl_snoc, <- IH.
  unfold feed_datagram. destruct (parse_fragment d) as [[h c]|]; [|done].
  unfold entry_insert. repeat case_match; done.
Qed.

(** C8: a message that fits the 16-bit fragment counter survives any order of
    arrival and any duplication of its datagrams: after the datagrams [ds] (all
    of the message), the buffer reports completion exactly when every datagram
    has arrived, and then it assembles to the payload, otherwise to nothing. *)
Theorem reassembly_any_order (now fid : Z) (payload : bytes) (ds : list bytes) :
  0 <= fid < 2 ^ 32 -> fits_u16 payload ->
  Forall (fun d => d ∈ encode_fragments fid payload) ds ->
  let '(e, complete) := feed (ReassemblyEntry_new now (Z.of_nat (length (fragments payload)))) ds in
  (complete = true <-> (forall d, d ∈ encode_fragments fid payload -> d ∈ ds)) /\
  assemble e = if complete then Some payload else None.
Proof. apply feed_assembles. Qed.

Lemma reassembly_any_order_witness :
  let p := replicate 1401 Byte.x41 in
  exists e, feed (ReassemblyEntry_new 0 2) (rev (encode_fragments 7 p)) = (e, true) /\
            assemble e = Some p.
Proof.
  cbv zeta. pose proof (reassembly_any_order 0 7 (replicate 1401 Byte.x41)
    (rev (encode_fragments 7 (replicate 1401 Byte.x41)))) as H.
  assert (length (fragments (replicate 1401 Byte.x41)) = 2%nat) as El by (vm_compute; reflexivity).
  rewrite El in H. change (Z.of_nat 2) with 2 in H.
  destruct (feed _ _) as [e b]. exists e.
  destruct H as [H1 H2].
  - lia.
  - unfold fits_u16. rewrite El. vm_compute. discriminate.
  - apply Forall_forall. intros d Hd. by rewrite <- Permutation_rev in Hd.
  - assert (b = true) as -> by (apply H1; intros d Hd; by rewrite <- Permutation_rev).
    split; [reflexivity|assumption].
Defined.

(** The wire format.  [parse_fragment] accepts exactly the datagrams that
    carry the magic, a 32-bit message id and 16-bit fields with
    [index < total], and returns those fields and the rest of the datagram;
    every datagram written by [encode_fragments] is at most 1412 bytes long. *)
Theorem fragment_wire_format (d : bytes) (h : FragHeader) (c : bytes) :
  (parse_fragment d = Some (h, c) <->
     d = datagram (frag_id h) (index h) (frag_total h) c /\
     0 <= frag_id h < 2 ^ 32 /\ 0 <= index h < frag_total h /\ frag_total h <= 65535) /\
  (forall fid payload, fits_u16 payload ->
     Forall (fun g => length g <= FRAG_HEADER_LEN + FRAG_CHUNK_SIZE)%nat (encode_fragments fid payload) /\
     Z.of_nat (length (encode_fragments fid payload)) = Z.max 1 (Z.of_nat (div_ceil (length payload) FRAG_CHUNK_SIZE))).
Proof.
  split; [split|].
  - apply parse_fragment_inv.
  - intros (-> & Hf & Hi & Ht). rewrite parse_datagram by done. by destruct h.
  - intros fid payload Hfit. rewrite encode_fragments_eq by done. split.
    + apply Forall_lookup. intros i g (x & Hx & ->)%list_lookup_imap_Some.
      unfold datagram. rewrite !length_app, !be_bytes_length.
      apply (Forall_lookup_1 _ _ _ _ (fragments_lengths payload)) in Hx. unfold FRAG_HEADER_LEN. lia.
    + rewrite length_imap. pose proof (fragments_nonempty payload) as Hp. destruct payload as [|b l]; [done|].
      unfold fragments, slice_chunks in *. rewrite slice_chunks_count in * by auto with kad. lia.
Qed.

Lemma fragment_wire_format_witness :
  parse_fragment (datagram 5 1 3 [Byte.x01]) = Some (mkHeader 5 1 3, [Byte.x01]).
Proof.
  apply (fragment_wire_format (datagram 5 1 3 [Byte.x01]) (mkHeader 5 1 3) [Byte.x01]).
  split; [reflexivity|]. simpl. lia.
Defined.
