(* ===== verification/Text.v ===== *)
(** * Text: the operations on [str] the program uses

    A [str] is the list of its UTF-8 bytes.  Splitting at an ASCII character,
    trimming white space, parsing a [u8] and checking UTF-8 are functions of the
    Rust standard library; they are defined here on bytes. *)
From S2P Require Import Prelude.
From Stdlib Require Import Strings.Byte.

(** ** UTF-8 *)

Definition in_range (lo hi : Z) (b : byte) : bool :=
  ((lo <=? byte_to_Z b) && (byte_to_Z b <=? hi))%Z.

Definition cont (b : byte) : bool := in_range 0x80 0xBF b.

(** The second byte allowed after a three-byte or four-byte lead (no overlong
    form, no surrogate, nothing above U+10FFFF). *)
Definition second3 (a b : byte) : bool :=
  if in_range 0xE0 0xE0 a then in_range 0xA0 0xBF b
  else if in_range 0xED 0xED a then in_range 0x80 0x9F b
  else in_range 0xE1 0xEF a && cont b.

Definition second4 (a b : byte) : bool :=
  if in_range 0xF0 0xF0 a then in_range 0x90 0xBF b
  else if in_range 0xF4 0xF4 a then in_range 0x80 0x8F b
  else in_range 0xF1 0xF3 a && cont b.

Fixpoint utf8_valid (l : bytes) : bool :=
  match l with
  | [] => true
  | a :: l1 =>
      if in_range 0 0x7F a then utf8_valid l1
      else match l1 with
      | b :: l2 =>
          if in_range 0xC2 0xDF a && cont b then utf8_valid l2
          else match l2 with
          | c :: l3 =>
              if second3 a b && cont c then utf8_valid l3
              else match l3 with
              | d :: l4 => second4 a b && cont c && cont d && utf8_valid l4
              | [] => false
              end
          | [] => false
          end
      | [] => false
      end
  end.

(** [std::str::from_utf8]; the error names the offending input. *)
Record Utf8Error := mkUtf8Error { utf8_input : bytes }.

Definition from_utf8 (l : bytes) : result bytes Utf8Error :=
  if utf8_valid l then Ok l else Err (mkUtf8Error l).

(** ** White space: [trim] *)

(** The encodings of the characters with the [White_Space] property. *)
Definition white_space : list bytes :=
  ((fun b => [b]) <$> [x09; x0a; x0b; x0c; x0d; x20]) ++
  [[xc2; x85]; [xc2; xa0]; [xe1; x9a; x80]] ++
  ((fun b => [xe2; x80; b]) <$> [x80; x81; x82; x83; x84; x85; x86; x87; x88; x89; x8a; xa8; xa9; xaf]) ++
  [[xe2; x81; x9f]; [xe3; x80; x80]].

(** [strip_prefix w l] is the rest of [l] after [w]. *)
Fixpoint strip_prefix (w l : bytes) : option bytes :=
  match w, l with
  | [], l => Some l
  | a :: w, b :: l => if decide (a = b) then strip_prefix w l else None
  | _ :: _, [] => None
  end.

(** Strip leading words of [ws]; every step shortens the list. *)
Fixpoint strip_words (fuel : nat) (ws : list bytes) (l : bytes) : bytes :=
  match fuel with
  | O => l
  | S fuel =>
      match head (omap (fun w => strip_prefix w l) ws) with
      | Some l' => strip_words fuel ws l'
      | None => l
      end
  end.

Definition trim_start (l : bytes) : bytes := strip_words (length l) white_space l.

Definition trim_end (l : bytes) : bytes :=
  rev (strip_words (length l) ((fun w => rev w) <$> white_space) (rev l)).

Definition trim (l : bytes) : bytes := trim_end (trim_start l).

(** [s.trim_end_matches(c)] for an ASCII character. *)
Fixpoint drop_while_eq (c : byte) (l : bytes) : bytes :=
  match l with
  | a :: l' => if decide (a = c) then drop_while_eq c l' else l
  | [] => []
  end.

Definition trim_end_matches (c : byte) (l : bytes) : bytes := rev (drop_while_eq c (rev l)).

(** ** Splitting: [splitn(2, c)] and [split(c).next()] *)

(** The part before the first [c], and the part after it when there is one. *)
Fixpoint split_first (c : byte) (l : bytes) : bytes * option bytes :=
  match l with
  | [] => ([], None)
  | a :: l =>
      if decide (a = c) then ([], Some l)
      else let '(p, r) := split_first c l in (a :: p, r)
  end.

(** [split(c)]: all the parts, never an empty list. *)
Fixpoint split_all (c : byte) (l : bytes) : list bytes :=
  match l with
  | [] => [[]]
  | a :: l =>
      if decide (a = c) then [] :: split_all c l
      else match split_all c l with
           | p :: ps => (a :: p) :: ps
           | [] => [[a]]
           end
  end.

(** [s.parse::<u8>()], [u16], [usize]: an optional [+], at least one digit, at
    most the largest value [max] of the type. *)
Definition digit (b : byte) : option Z :=
  if in_range 48 57 b then Some (byte_to_Z b - 48)%Z else None.

Fixpoint parse_digits (max acc : Z) (l : bytes) : option Z :=
  match l with
  | [] => Some acc
  | b :: l =>
      d ← digit b;
      let acc := (acc * 10 + d)%Z in
      if (acc <=? max)%Z then parse_digits max acc l else None
  end.

Definition parse_uint (max : Z) (l : bytes) : option Z :=
  match l with
  | [] => None
  | b :: l' =>
      if decide (b = x2b) then
        match l' with [] => None | _ => parse_digits max 0 l' end
      else parse_digits max 0 l
  end.

Definition parse_u8 : bytes -> option Z := parse_uint 255.
Definition parse_u16 : bytes -> option Z := parse_uint U16_MAX.

(** ** Facts *)

Lemma split_all_first c l : head (split_all c l) = Some (fst (split_first c l)).
Proof.
  induction l as [|a l IH]; [done|]. simpl. case_decide; [done|].
  destruct (split_first c l) as [p r]. simpl in IH. destruct (split_all c l); simplify_eq/=. done.
Qed.

Lemma split_first_spec c l :
  (c ∉ fst (split_first c l)) /\
  l = fst (split_first c l) ++ match snd (split_first c l) with Some r => c :: r | None => [] end.
Proof.
  induction l as [|a l [IH1 IH2]]; [split; [apply not_elem_of_nil|done]|]. simpl.
  case_decide as E; [subst; split; [apply not_elem_of_nil|done]|].
  destruct (split_first c l) as [p r]. simpl in *. split.
  - apply not_elem_of_cons. split; [congruence|done].
  - by rewrite IH2 at 1.
Qed.

Lemma split_first_app c p r : c ∉ p -> split_first c (p ++ c :: r) = (p, Some r).
Proof.
  induction p as [|a p IH]; intros Hp; simpl; [by rewrite decide_True|].
  apply not_elem_of_cons in Hp as [Ha Hp]. rewrite decide_False by congruence. by rewrite IH.
Qed.

Lemma parse_digits_range max acc l n : (0 <= acc <= max)%Z -> parse_digits max acc l = Some n -> (0 <= n <= max)%Z.
Proof.
  revert acc. induction l as [|b l IH]; intros acc Hacc; simpl; [by intros [= <-]|].
  unfold digit, in_range. destruct (Z.leb_spec 48 (byte_to_Z b)); [|done]. simpl.
  destruct (Z.leb_spec (byte_to_Z b) 57); [|done]. simpl.
  case_match eqn:E; [|done]. apply Z.leb_le in E. apply IH. lia.
Qed.

Lemma parse_uint_range max l n : (0 <= max)%Z -> parse_uint max l = Some n -> (0 <= n <= max)%Z.
Proof.
  intros Hm. unfold parse_uint. repeat case_match; try done; apply parse_digits_range; lia.
Qed.

Lemma utf8_valid_app a b : utf8_valid a = true -> utf8_valid (a ++ b) = utf8_valid b.
Proof.
  remember (length a) as n eqn:Hn. revert a Hn.
  induction n as [n IH] using lt_wf_ind. intros [|c0 a1] Hn; [done|]. simpl in *.
  assert (forall a', (length a' <= length a1)%nat -> utf8_valid a' = true -> utf8_valid (a' ++ b) = utf8_valid b) as IH'.
  { intros a' Hl Hv. eapply IH; [|done|done]. lia. }
  clear IH Hn. case_match; [by apply IH'|]. destruct a1 as [|c1 a2]; [done|]. simpl in *.
  case_match; [apply IH'; lia|]. destruct a2 as [|c2 a3]; [done|]. simpl in *.
  case_match; [apply IH'; lia|]. destruct a3 as [|c3 a4]; [done|]. simpl in *.
  intros [-> Hv]%andb_true_iff. simpl. apply IH'; [lia|done].
Qed.

Lemma split_all_app c p q : split_all c (p ++ c :: q) = split_all c p ++ split_all c q.
Proof.
  induction p as [|a p IH]; simpl; [by rewrite decide_True|]. rewrite IH. case_decide; [done|].
  destruct (split_all c p) as [|x l] eqn:E; [|done].
  pose proof (split_all_first c p) as Hf. rewrite E in Hf. done.
Qed.

Lemma split_all_one c q : c ∉ q -> split_all c q = [q].
Proof.
  induction q as [|a q IH]; [done|]. intros [Ha Hq]%not_elem_of_cons. simpl.
  rewrite decide_False by congruence. by rewrite IH.
Qed.
