(* ===== verification/Json.v ===== *)
(** * Json: serde_json documents and their canonical order

    The part of serde_json the program uses: the type [Value], the [Map] behind
    its objects, indexing, and [to_vec], [from_slice], [to_string_pretty], which
    are operations of the class [SerdeJson].  An object is the list of its
    entries in iteration order.  [Map] is a [BTreeMap] or, with the crate's
    [preserve_order] feature, a map in insertion order; the model covers both
    ([JsonMap]).  [sort_json_keys] is the function of that name (or [sort_json])
    in [src/scripts] and [src/examples]. *)
From S2P Require Import Prelude Text.
From Stdlib Require Import Strings.Byte Floats.SpecFloat.
Local Open Scope Z_scope.

(** ** The order of strings: lexicographic on bytes *)

Fixpoint bytes_ltb (a b : bytes) : bool :=
  match a, b with
  | _, [] => false
  | [], _ :: _ => true
  | x :: a, y :: b => (byte_to_Z x <? byte_to_Z y) || (bool_decide (x = y) && bytes_ltb a b)
  end.

Definition bytes_lt (a b : bytes) : Prop := bytes_ltb a b = true.

#[global] Instance bytes_lt_dec : RelDecision bytes_lt.
Proof. intros a b. unfold bytes_lt. apply _. Defined.

Lemma bytes_lt_cons x y a b :
  bytes_lt (x :: a) (y :: b) <-> byte_to_Z x < byte_to_Z y \/ x = y /\ bytes_lt a b.
Proof.
  unfold bytes_lt. simpl. rewrite orb_true_iff, andb_true_iff, bool_decide_eq_true, Z.ltb_lt. done.
Qed.

#[global] Instance bytes_lt_irrefl : Irreflexive bytes_lt.
Proof. intros a. red. induction a as [|x a IH]; [done|]. rewrite bytes_lt_cons. intros [|[_ ?]]; [lia|done]. Qed.

#[global] Instance bytes_lt_trans : Transitive bytes_lt.
Proof.
  intros a. induction a as [|x a IH]; intros [|y b] [|z c]; try done.
  rewrite !bytes_lt_cons. intros [?|[-> ?]] [?|[-> ?]]; [left; lia|by left|by left|right; eauto].
Qed.

Lemma bytes_lt_total a b : bytes_lt a b \/ a = b \/ bytes_lt b a.
Proof.
  revert b. induction a as [|x a IH]; intros [|y b]; [auto|by left|by right; right|].
  rewrite !bytes_lt_cons. destruct (Z.lt_total (byte_to_Z x) (byte_to_Z y)) as [|[E%byte_to_Z_inj|]];
    [auto| |auto]. subst y. destruct (IH b) as [|[->|]]; auto.
Qed.

(** ** Ordered maps: [BTreeMap<String, A>] *)

Section btree.
Context {A : Type}.
Implicit Types m l : list (bytes * A).

Fixpoint btree_insert (k : bytes) (v : A) m : list (bytes * A) :=
  match m with
  | [] => [(k, v)]
  | (k', v') :: m' =>
      if decide (bytes_lt k k') then (k, v) :: m
      else if decide (k = k') then (k, v) :: m'
      else (k', v') :: btree_insert k v m'
  end.

(** [iter.collect::<BTreeMap<_, _>>()] *)
Definition btree_of l : list (bytes * A) :=
  fold_left (fun m e => btree_insert (fst e) (snd e) m) l [].

Definition entry_lt (a b : bytes * A) : Prop := bytes_lt (fst a) (fst b).

Definition keys_sorted m : Prop := StronglySorted entry_lt m.

#[local] Instance entry_lt_antisymm : AntiSymm (=) entry_lt.
Proof. intros a b H1 H2. destruct (irreflexivity bytes_lt (fst a)). by transitivity (fst b). Qed.

Lemma btree_insert_elem k v m e : e ∈ btree_insert k v m -> e = (k, v) \/ e ∈ m.
Proof.
  induction m as [|[k' v'] m IH]; simpl; [set_solver|].
  repeat case_decide; set_solver.
Qed.

Lemma btree_insert_sorted k v m : keys_sorted m -> keys_sorted (btree_insert k v m).
Proof.
  unfold keys_sorted. induction m as [|[k' v'] m IH]; simpl; intros Hm; [repeat constructor|].
  inversion Hm as [|? ? Hs Hf]; subst. case_decide as Hlt; [|case_decide as E].
  - constructor; [done|]. constructor; [done|]. eapply Forall_impl; [exact Hf|].
    intros e He. unfold entry_lt in *. simpl in *. by transitivity k'.
  - subst k'. by constructor.
  - constructor; [auto|]. apply Forall_forall. intros e [->|He]%btree_insert_elem.
    + unfold entry_lt. simpl. destruct (bytes_lt_total k k') as [|[|]]; done.
    + by apply (proj1 (Forall_forall _ _) Hf).
Qed.

Lemma btree_insert_perm k v m : k ∉ m.*1 -> btree_insert k v m ≡ₚ (k, v) :: m.
Proof.
  induction m as [|[k' v'] m IH]; simpl; intros Hk; [done|].
  apply not_elem_of_cons in Hk as [Hne Hk]. repeat case_decide; [done|done|].
  rewrite (IH Hk). apply perm_swap.
Qed.

Lemma keys_sorted_NoDup m : keys_sorted m -> NoDup m.*1.
Proof.
  unfold keys_sorted. induction 1 as [|[k v] m Hs IH Hf]; simpl; constructor; [|done].
  intros ([k' v'] & -> & He)%list_elem_of_fmap.
  apply (irreflexivity bytes_lt k'). apply (proj1 (Forall_forall _ _) Hf _ He).
Qed.

Lemma btree_of_go l m :
  keys_sorted m -> NoDup (l ++ m).*1 ->
  keys_sorted (fold_left (fun m e => btree_insert (fst e) (snd e) m) l m) /\
  fold_left (fun m e => btree_insert (fst e) (snd e) m) l m ≡ₚ l ++ m.
Proof.
  revert m. induction l as [|[k v] l IH]; intros m Hm Hnd; [done|]. simpl in *.
  apply NoDup_cons in Hnd as [Hk Hnd]. rewrite fmap_app, not_elem_of_app in Hk. destruct Hk as [Hkl Hkm].
  pose proof (btree_insert_perm k v m Hkm) as Hp.
  destruct (IH (btree_insert k v m)) as [Hs Hperm]; [by apply btree_insert_sorted| |].
  - rewrite Hp, fmap_app. simpl. rewrite <- Permutation_middle. constructor; [|by rewrite <- fmap_app].
    rewrite not_elem_of_app. done.
  - split; [done|]. rewrite Hperm, Hp. by rewrite Permutation_middle.
Qed.

Lemma btree_of_perm l : NoDup l.*1 -> btree_of l ≡ₚ l.
Proof. intros Hl. destruct (btree_of_go l []) as [_ Hp]; [constructor|by rewrite app_nil_r|]. by rewrite app_nil_r in Hp. Qed.

Lemma btree_of_sorted l : NoDup l.*1 -> keys_sorted (btree_of l).
Proof. intros Hl. destruct (btree_of_go l []) as [Hs _]; [constructor|by rewrite app_nil_r|done]. Qed.

(** The ordered map of a set of entries is unique. *)
Lemma keys_sorted_unique m1 m2 : keys_sorted m1 -> keys_sorted m2 -> m1 ≡ₚ m2 -> m1 = m2.
Proof. apply StronglySorted_unique. apply _. Qed.

Lemma btree_of_id m : keys_sorted m -> btree_of m = m.
Proof.
  intros Hm. pose proof (keys_sorted_NoDup m Hm). apply keys_sorted_unique; [by apply btree_of_sorted|done|].
  by apply btree_of_perm.
Qed.

Lemma btree_of_proper l1 l2 : NoDup l1.*1 -> l1 ≡ₚ l2 -> btree_of l1 = btree_of l2.
Proof.
  intros Hnd Hp. assert (NoDup l2.*1) by by rewrite <- Hp. apply keys_sorted_unique; try by apply btree_of_sorted.
  by rewrite !btree_of_perm.
Qed.

End btree.

Lemma btree_insert_fmap {A B} (f : A -> B) k v m :
  btree_insert k (f v) (prod_map id f <$> m) = prod_map id f <$> btree_insert k v m.
Proof. induction m as [|[k' v'] m IH]; simpl; [done|]. repeat case_decide; simpl; [done|done|f_equal; apply IH]. Qed.

(** Changing the values commutes with collecting. *)
Lemma btree_of_fmap {A B} (f : A -> B) l : btree_of (prod_map id f <$> l) = prod_map id f <$> btree_of l.
Proof.
  unfold btree_of. change (@nil (bytes * B)) with (prod_map (@id bytes) f <$> []).
  generalize (@nil (bytes * A)) as m. induction l as [|[k v] l IH]; intros m; [done|]. simpl.
  rewrite <- IH. f_equal. apply btree_insert_fmap.
Qed.

Lemma keys_sorted_fmap {A B} (f : A -> B) m : keys_sorted m -> keys_sorted (prod_map id f <$> m).
Proof.
  unfold keys_sorted. induction 1 as [|e m Hs IH Hf]; simpl; constructor; [done|].
  apply Forall_fmap. exact Hf.
Qed.

(** ** Values *)

(** serde_json's [Number]: a [u64], a negative [i64] or an [f64]. *)
Inductive Number :=
| PosInt (n : Z)
| NegInt (n : Z)
| Float (f : spec_float).

Inductive JValue :=
| JNull
| JBool (b : bool)
| JNumber (n : Number)
| JString (s : bytes)
| JArray (l : list JValue)
| JObject (m : list (bytes * JValue)).

Lemma JValue_ind' (P : JValue -> Prop) :
  P JNull -> (forall b, P (JBool b)) -> (forall n, P (JNumber n)) -> (forall s, P (JString s)) ->
  (forall l, Forall P l -> P (JArray l)) ->
  (forall m, Forall (fun e => P (snd e)) m -> P (JObject m)) ->
  forall v, P v.
Proof.
  intros Hnull Hb Hn Hs Ha Ho. fix IH 1.
  intros [|b|n|s|l|m]; [exact Hnull|apply Hb|apply Hn|apply Hs| |].
  - apply Ha. induction l; constructor; [apply IH|done].
  - apply Ho. induction m; constructor; [apply IH|done].
Qed.

(** [v["k"]], [v[i]] and [v.as_str()]: [Null] where there is no such entry. *)
Definition assoc_get {A} (k : bytes) (m : list (bytes * A)) : option A :=
  snd <$> (snd <$> list_find (fun e => fst e = k) m).

Definition index_str (v : JValue) (k : bytes) : JValue :=
  match v with JObject m => default JNull (assoc_get k m) | _ => JNull end.

Definition index_nat (v : JValue) (i : nat) : JValue :=
  match v with JArray l => default JNull (l !! i) | _ => JNull end.

Definition as_str (v : JValue) : option bytes :=
  match v with JString s => Some s | _ => None end.

(** Every object has distinct keys, as a map has. *)
Fixpoint distinct_keys (v : JValue) : bool :=
  match v with
  | JArray l => forallb distinct_keys l
  | JObject m => bool_decide (NoDup m.*1) && forallb (fun e => distinct_keys (snd e)) m
  | _ => true
  end.

(** Strings are UTF-8, numbers are integers of their width. *)
Fixpoint text_json (v : JValue) : bool :=
  match v with
  | JNull | JBool _ => true
  | JNumber (PosInt n) => (0 <=? n) && (n <? 2 ^ 64)
  | JNumber (NegInt n) => (- 2 ^ 63 <=? n) && (n <? 0)
  | JNumber (Float _) => false
  | JString s => utf8_valid s
  | JArray l => forallb text_json l
  | JObject m => forallb (fun e => utf8_valid (fst e) && text_json (snd e)) m
  end.

(** The entries of every object are in the order of their keys. *)
Fixpoint sorted_keys (l : list bytes) : bool :=
  match l with
  | k1 :: (k2 :: _) as l' => bytes_ltb k1 k2 && sorted_keys l'
  | _ => true
  end.

Fixpoint sorted_json (v : JValue) : bool :=
  match v with
  | JArray l => forallb sorted_json l
  | JObject m => sorted_keys m.*1 && forallb (fun e => sorted_json (snd e)) m
  | _ => true
  end.

(** Nesting, which the parser bounds. *)
Fixpoint depth (v : JValue) : nat :=
  match v with
  | JArray l => S (max_list (depth <$> l))
  | JObject m => S (max_list ((fun e => depth (snd e)) <$> m))
  | _ => 0
  end.

(** The map behind an object: [BTreeMap] orders the entries by key, [IndexMap]
    keeps them as inserted. *)
Class JsonMap := {
  map_collect : forall {A : Type}, list (bytes * A) -> list (bytes * A);
  map_collect_perm {A} (l : list (bytes * A)) : NoDup l.*1 -> map_collect l ≡ₚ l;
  map_collect_sorted {A} (l : list (bytes * A)) : keys_sorted l -> map_collect l = l;
  map_collect_idem {A} (l : list (bytes * A)) : NoDup l.*1 -> map_collect (map_collect l) = map_collect l
}.

Definition btree_map : JsonMap := {|
  map_collect A l := btree_of l;
  map_collect_perm A l := btree_of_perm l;
  map_collect_sorted A l := btree_of_id l;
  map_collect_idem A l Hl := btree_of_id _ (btree_of_sorted l Hl)
|}.

Definition index_map : JsonMap := {|
  map_collect A l := l;
  map_collect_perm A l _ := Permutation_refl l;
  map_collect_sorted A l _ := eq_refl;
  map_collect_idem A l _ := eq_refl
|}.

(** Equality of documents up to the order of the entries of objects. *)
Inductive doc_eq : JValue -> JValue -> Prop :=
| doc_eq_refl v : doc_eq v v
| doc_eq_array l l' : Forall2 doc_eq l l' -> doc_eq (JArray l) (JArray l')
| doc_eq_object m m' m'' :
    m ≡ₚ m' -> Forall2 (fun a b => fst a = fst b /\ doc_eq (snd a) (snd b)) m' m'' ->
    doc_eq (JObject m) (JObject m'').

Section sort.
Context `{JM : JsonMap}.

(** The recursion is applied before the entries are collected; see
    [sort_json_keys_object] for the order of the code. *)
Fixpoint sort_json_keys (v : JValue) : JValue :=
  match v with
  | JObject m => JObject (map_collect (btree_of (prod_map id sort_json_keys <$> m)))
  | JArray arr => JArray (sort_json_keys <$> arr)
  | other => other
  end.

Lemma sort_json_keys_object m :
  sort_json_keys (JObject m) =
  JObject (map_collect ((fun '(k, v) => (k, sort_json_keys v)) <$> btree_of m)).
Proof.
  simpl. rewrite btree_of_fmap. do 2 f_equal. apply list_fmap_ext. by intros ? [k v] _.
Qed.

Lemma sort_object m :
  NoDup m.*1 -> sort_json_keys (JObject m) = JObject (btree_of (prod_map id sort_json_keys <$> m)).
Proof.
  intros Hm. simpl. rewrite map_collect_sorted; [done|]. rewrite btree_of_fmap.
  by apply keys_sorted_fmap, btree_of_sorted.
Qed.

End sort.

Lemma sorted_keys_StronglySorted {A} (m : list (bytes * A)) : sorted_keys m.*1 = true <-> keys_sorted m.
Proof.
  split.
  - induction m as [|a m IH]; [constructor|]. intros Hs. apply Sorted_StronglySorted; [intros ???; apply bytes_lt_trans|].
    destruct m as [|b m]; [repeat constructor|]. simpl in Hs. apply andb_true_iff in Hs as [Hab Hs].
    constructor; [apply StronglySorted_Sorted, IH, Hs|]. by constructor.
  - unfold keys_sorted. induction 1 as [|a m Hs IH Hf]; [done|]. destruct m as [|b m]; [done|].
    simpl. apply andb_true_iff. split; [|exact IH]. by inversion Hf.
Qed.

Lemma forallb_Forall {A} (f : A -> bool) l : forallb f l = true <-> Forall (fun x => f x = true) l.
Proof. rewrite forallb_forall, Forall_forall. by setoid_rewrite list_elem_of_In. Qed.

Lemma distinct_object m :
  distinct_keys (JObject m) = true <-> NoDup m.*1 /\ Forall (fun e => distinct_keys (snd e) = true) m.
Proof. simpl. by rewrite andb_true_iff, bool_decide_eq_true, forallb_Forall. Qed.

Lemma sorted_object m :
  sorted_json (JObject m) = true <-> keys_sorted m /\ Forall (fun e => sorted_json (snd e) = true) m.
Proof. simpl. by rewrite andb_true_iff, sorted_keys_StronglySorted, forallb_Forall. Qed.

Lemma fmap_fst_prod {A B} (f : A -> B) (m : list (bytes * A)) : (prod_map id f <$> m).*1 = m.*1.
Proof. rewrite <- list_fmap_compose. by apply list_fmap_ext; intros ? [k v] _. Qed.

(** *** The equivalence *)

#[global] Instance doc_eq_reflexive : Reflexive doc_eq.
Proof. intros v. constructor. Qed.

Local Abbreviation entry_eq := (fun a b : bytes * JValue => fst a = fst b /\ doc_eq (snd a) (snd b)).

Lemma Forall_mp {A} (P Q : A -> Prop) l : Forall (fun x => P x -> Q x) l -> Forall P l -> Forall Q l.
Proof. rewrite !Forall_forall. auto. Qed.

Lemma Forall_fmap_id {A} (f : A -> A) l : Forall (fun x => f x = x) l -> f <$> l = l.
Proof. induction 1 as [|x l E _ IH]; [done|]. rewrite fmap_cons. by rewrite E, IH. Qed.

(** Using what holds of the left list. *)
Lemma Forall2_impl_l {A B} (P : A -> Prop) (R Q : A -> B -> Prop) l k :
  Forall P l -> Forall2 R l k -> (forall x y, P x -> R x y -> Q x y) -> Forall2 Q l k.
Proof. intros HP HR HQ. induction HR; inversion HP; subst; constructor; auto. Qed.

Lemma Forall2_comp {A B C} (P : A -> Prop) (R : A -> B -> Prop) (S : B -> C -> Prop) (Q : A -> C -> Prop) l k n :
  Forall P l -> Forall2 R l k -> Forall2 S k n ->
  (forall x y z, P x -> R x y -> S y z -> Q x z) -> Forall2 Q l n.
Proof.
  intros HP HR HS HQ. revert n HS. induction HR; intros n HS; inversion HS; inversion HP; subst; constructor; eauto.
Qed.

Lemma doc_eq_array_inv l v :
  doc_eq (JArray l) v <-> exists l', v = JArray l' /\ Forall2 doc_eq l l'.
Proof.
  split; [|intros (l' & -> & H); by constructor].
  inversion 1; subst; [|by eauto]. exists l. split; [done|].
  by apply Forall_Forall2_diag, Forall_forall.
Qed.

Lemma doc_eq_object_inv m v :
  doc_eq (JObject m) v <->
  exists m' m'', v = JObject m'' /\ m ≡ₚ m' /\ Forall2 entry_eq m' m''.
Proof.
  split; [|intros (m' & m'' & -> & Hp & H); by econstructor].
  inversion 1; subst; [|by eauto]. exists m, m. split_and!; [done|done|].
  by apply Forall_Forall2_diag, Forall_forall.
Qed.

#[global] Instance doc_eq_symmetric : Symmetric doc_eq.
Proof.
  intros v. induction v as [| | | |l IH|m IH] using JValue_ind'; intros w Hw;
    try (by inversion Hw; subst).
  - apply doc_eq_array_inv in Hw as (l' & -> & Hl). constructor. apply Forall2_flip.
    eapply Forall2_impl_l; [exact IH|exact Hl|]. unfold flip. naive_solver.
  - apply doc_eq_object_inv in Hw as (m' & m'' & -> & Hp & Hm). symmetry in Hp.
    destruct (Permutation_Forall2 Hp Hm) as (m3 & Hp3 & Hm3).
    econstructor; [exact Hp3|]. apply Forall2_flip. eapply Forall2_impl_l; [exact IH|exact Hm3|].
    unfold flip. naive_solver.
Qed.

#[global] Instance doc_eq_transitive : Transitive doc_eq.
Proof.
  intros v. induction v as [| | | |l IH|m IH] using JValue_ind'; intros w u Hw Hu;
    try (by inversion Hw; subst).
  - apply doc_eq_array_inv in Hw as (l' & -> & Hl). apply doc_eq_array_inv in Hu as (l2 & -> & Hl2).
    constructor. eapply Forall2_comp; [exact IH|exact Hl|exact Hl2|]. naive_solver.
  - apply doc_eq_object_inv in Hw as (m1 & m2 & -> & Hp & Hm).
    apply doc_eq_object_inv in Hu as (n1 & n2 & -> & Hq & Hn).
    apply Forall2_flip in Hm. destruct (Permutation_Forall2 Hq Hm) as (x & Hx & Hnx).
    apply Forall2_flip in Hnx. apply (doc_eq_object _ x); [by rewrite Hp|].
    rewrite Hp, Hx in IH. eapply Forall2_comp; [exact IH|exact Hnx|exact Hn|]. unfold flip.
    intros ??? HP [-> ?] [-> ?]. eauto.
Qed.

#[global] Instance doc_eq_equivalence : Equivalence doc_eq.
Proof. split; apply _. Qed.

Section sort_facts.
Context `{JM : JsonMap}.

(** Sorting only reorders entries. *)
Lemma sort_doc_eq v : distinct_keys v = true -> doc_eq v (sort_json_keys v).
Proof.
  induction v as [| | | |l IH|m IH] using JValue_ind'; intros Hd; try done.
  - constructor. simpl in Hd. apply forallb_Forall in Hd. apply Forall2_fmap_r, Forall_Forall2_diag.
    exact (Forall_mp _ _ _ IH Hd).
  - apply distinct_object in Hd as [Hnd Hd]. rewrite sort_object by done.
    rewrite btree_of_fmap. apply (doc_eq_object _ (btree_of m)); [by rewrite btree_of_perm|].
    apply Forall2_fmap_r, Forall_Forall2_diag. rewrite btree_of_perm by done.
    eapply Forall_impl; [exact (Forall_mp _ _ _ IH Hd)|]. done.
Qed.

(** The result does not depend on the order of the entries. *)
Lemma sort_doc_eq_eq v w : distinct_keys v = true -> doc_eq v w -> sort_json_keys v = sort_json_keys w.
Proof.
  revert w. induction v as [| | | |l IH|m IH] using JValue_ind'; intros w Hd Hw;
    try (by inversion Hw; subst).
  - apply doc_eq_array_inv in Hw as (l' & -> & Hl). simpl in *. f_equal. apply forallb_Forall in Hd.
    induction Hl; [done|]. inversion IH; inversion Hd; subst. simpl. f_equal; eauto.
  - apply doc_eq_object_inv in Hw as (m1 & m2 & -> & Hp & Hm).
    apply distinct_object in Hd as [Hnd Hd].
    assert (prod_map id sort_json_keys <$> m1 = prod_map id sort_json_keys <$> m2) as E.
    { rewrite Hp in IH, Hd. clear Hp Hnd. induction Hm as [|[k a] [k' b] ? ? [? ?]]; [done|].
      inversion IH; inversion Hd; subst. simpl in *. subst. f_equal; [|eauto].
      unfold prod_map. simpl. f_equal. eauto. }
    simpl. rewrite <- E. do 2 f_equal. apply btree_of_proper; [by rewrite fmap_fst_prod|by rewrite Hp].
Qed.

Lemma sort_sorted v : distinct_keys v = true -> sorted_json (sort_json_keys v) = true.
Proof.
  induction v as [| | | |l IH|m IH] using JValue_ind'; intros Hd; try done.
  - simpl in *. apply forallb_Forall, Forall_fmap. apply forallb_Forall in Hd.
    exact (Forall_mp _ _ _ IH Hd).
  - apply distinct_object in Hd as [Hnd Hd]. rewrite sort_object by done. apply sorted_object.
    rewrite btree_of_fmap. split; [by apply keys_sorted_fmap, btree_of_sorted|].
    rewrite btree_of_perm by done. apply Forall_fmap. exact (Forall_mp _ _ _ IH Hd).
Qed.

Lemma sorted_distinct v : sorted_json v = true -> distinct_keys v = true.
Proof.
  induction v as [| | | |l IH|m IH] using JValue_ind'; intros Hs; try done.
  - simpl in *. apply forallb_Forall in Hs. apply forallb_Forall.
    exact (Forall_mp _ _ _ IH Hs).
  - apply sorted_object in Hs as [Hk Hs]. apply distinct_object. split; [by apply keys_sorted_NoDup|].
    exact (Forall_mp _ _ _ IH Hs).
Qed.

(** A sorted document is not changed. *)
Lemma sort_id v : sorted_json v = true -> sort_json_keys v = v.
Proof.
  induction v as [| | | |l IH|m IH] using JValue_ind'; intros Hs; try done.
  - simpl in *. f_equal. apply forallb_Forall in Hs. apply Forall_fmap_id.
    exact (Forall_mp _ _ _ IH Hs).
  - apply sorted_object in Hs as [Hk Hs]. rewrite sort_object by by apply keys_sorted_NoDup.
    f_equal. rewrite btree_of_fmap, btree_of_id by done. apply Forall_fmap_id.
    eapply Forall_impl; [exact (Forall_mp _ _ _ IH Hs)|]. intros [k w] E. unfold prod_map. simpl in *. by rewrite E.
Qed.

End sort_facts.

(** *** What the equivalence preserves *)

Lemma assoc_get_Some {A} (k : bytes) (m : list (bytes * A)) v :
  NoDup m.*1 -> assoc_get k m = Some v <-> (k, v) ∈ m.
Proof.
  unfold assoc_get. intros Hnd. split.
  - destruct (list_find _ m) as [[i [k' v']]|] eqn:E; simpl; [|done]. intros [= <-].
    apply list_find_Some in E as (Hi & <- & _). by eapply list_elem_of_lookup_2.
  - intros Hin. destruct (list_find _ m) as [[i [k' v']]|] eqn:E; simpl.
    + apply list_find_Some in E as (Hi & E & _). simpl in E. subst k'. f_equal.
      apply list_elem_of_lookup_2 in Hi.
      by pose proof (NoDup_key_inj fst m _ _ Hnd Hi Hin eq_refl) as [= ->].
    + apply list_find_None in E. exfalso. by apply (proj1 (Forall_forall _ _) E _ Hin).
Qed.

Lemma assoc_get_perm {A} (k : bytes) (m m' : list (bytes * A)) :
  NoDup m.*1 -> m ≡ₚ m' -> assoc_get k m = assoc_get k m'.
Proof.
  intros Hnd Hp. assert (NoDup m'.*1) by by rewrite <- Hp.
  apply option_eq. intros v. rewrite !assoc_get_Some by done. by rewrite Hp.
Qed.

Lemma assoc_get_fmap {A B} (f : A -> B) k m : assoc_get k (prod_map id f <$> m) = f <$> assoc_get k m.
Proof.
  unfold assoc_get. rewrite list_find_fmap. by destruct (list_find _ m) as [[i [k' v]]|].
Qed.

Lemma max_list_perm l l' : l ≡ₚ l' -> max_list l = max_list l'.
Proof. induction 1; simpl; lia. Qed.

Lemma forallb_perm {A} (f : A -> bool) l l' : l ≡ₚ l' -> forallb f l = forallb f l'.
Proof.
  induction 1 as [|x l l' _ IH|x y l|l1 l2 l3 _ IH1 _ IH2]; simpl; [done|by rewrite IH| |congruence].
  by rewrite !andb_assoc, (andb_comm (f y)).
Qed.

Lemma doc_eq_text v w : doc_eq v w -> text_json v = text_json w.
Proof.
  revert w. induction v as [| | | |l IH|m IH] using JValue_ind'; intros w Hw; try (by inversion Hw; subst).
  - apply doc_eq_array_inv in Hw as (l' & -> & Hl). simpl.
    induction Hl; [done|]. inversion IH; subst. simpl. f_equal; auto.
  - apply doc_eq_object_inv in Hw as (m1 & m2 & -> & Hp & Hm). simpl. rewrite (forallb_perm _ _ _ Hp).
    rewrite Hp in IH. clear Hp. induction Hm as [|[k a] [k' b] ? ? [? ?]]; [done|].
    inversion IH; subst. simpl in *. subst. f_equal; [f_equal|]; auto.
Qed.

Lemma doc_eq_depth v w : doc_eq v w -> depth v = depth w.
Proof.
  revert w. induction v as [| | | |l IH|m IH] using JValue_ind'; intros w Hw; try (by inversion Hw; subst).
  - apply doc_eq_array_inv in Hw as (l' & -> & Hl). simpl. f_equal.
    induction Hl; [done|]. inversion IH; subst. simpl. f_equal; auto.
  - apply doc_eq_object_inv in Hw as (m1 & m2 & -> & Hp & Hm). simpl. f_equal.
    rewrite (max_list_perm _ ((fun e => depth (snd e)) <$> m1)) by by rewrite Hp.
    rewrite Hp in IH. clear Hp. induction Hm as [|[k a] [k' b] ? ? [? ?]]; [done|].
    inversion IH; subst. simpl in *. f_equal; auto.
Qed.

Section sort_index.
Context `{JM : JsonMap}.

(** Reading an entry commutes with sorting. *)
Lemma index_sort v k :
  distinct_keys v = true -> index_str (sort_json_keys v) k = sort_json_keys (index_str v k).
Proof.
  destruct v as [| | | |l|m]; try done. intros [Hnd _]%distinct_object. rewrite sort_object by done.
  cbn [index_str]. rewrite (assoc_get_perm _ _ (prod_map id sort_json_keys <$> m)).
  - rewrite assoc_get_fmap. by destruct (assoc_get k m).
  - apply keys_sorted_NoDup, btree_of_sorted. by rewrite fmap_fst_prod.
  - by rewrite btree_of_perm by by rewrite fmap_fst_prod.
Qed.

Lemma index_nat_sort v i : index_nat (sort_json_keys v) i = sort_json_keys (index_nat v i).
Proof. destruct v as [| | | |l|m]; try done. simpl. rewrite list_lookup_fmap. by destruct (l !! i). Qed.

Lemma distinct_index v k : distinct_keys v = true -> distinct_keys (index_str v k) = true.
Proof.
  destruct v as [| | | |l|m]; try done. intros [Hnd Hd]%distinct_object. simpl.
  destruct (assoc_get k m) as [v|] eqn:E; [|done]. apply assoc_get_Some in E; [|done].
  by apply (proj1 (Forall_forall _ _) Hd (k, v)).
Qed.

Lemma distinct_nth v i : distinct_keys v = true -> distinct_keys (index_nat v i) = true.
Proof.
  destruct v as [| | | |l|m]; try done. simpl. rewrite forallb_Forall, Forall_lookup. intros Hd.
  destruct (l !! i) as [v|] eqn:E; [|done]. by eapply Hd.
Qed.

Lemma as_str_sort v : as_str (sort_json_keys v) = as_str v.
Proof. by destruct v. Qed.

(** An object as [json!] builds it. *)
Definition obj (l : list (bytes * JValue)) : JValue := JObject (map_collect l).

Lemma obj_index l k : NoDup l.*1 -> index_str (obj l) k = default JNull (assoc_get k l).
Proof.
  intros Hl. simpl. rewrite (assoc_get_perm _ _ l); [done| |by apply map_collect_perm].
  by rewrite map_collect_perm.
Qed.

Lemma obj_distinct l :
  NoDup l.*1 -> distinct_keys (obj l) = forallb (fun e => distinct_keys (snd e)) l.
Proof.
  intros Hl. simpl. rewrite bool_decide_true by by rewrite map_collect_perm. simpl.
  by apply forallb_perm, map_collect_perm.
Qed.

Lemma obj_doc_eq l : NoDup l.*1 -> doc_eq (obj l) (JObject l).
Proof.
  intros Hl. apply (doc_eq_object _ l); [by apply map_collect_perm|].
  by apply Forall_Forall2_diag, Forall_forall.
Qed.

Lemma obj_text l : NoDup l.*1 -> text_json (obj l) = forallb (fun e => utf8_valid (fst e) && text_json (snd e)) l.
Proof. intros Hl. by rewrite (doc_eq_text _ _ (obj_doc_eq l Hl)). Qed.

Lemma obj_depth l : NoDup l.*1 -> depth (obj l) = S (max_list ((fun e => depth (snd e)) <$> l)).
Proof. intros Hl. by rewrite (doc_eq_depth _ _ (obj_doc_eq l Hl)). Qed.

End sort_index.

(** Distinctness of literal keys. *)
Ltac literal_keys := apply (bool_decide_unpack _); vm_compute; exact I.

(** ** Encoding *)

Class SerdeJson := {
  SerdeError : Type;
  to_vec : JValue -> result bytes SerdeError;
  to_string_pretty : JValue -> result bytes SerdeError;
  from_slice : bytes -> result JValue SerdeError
}.

(** The entries of every object are in the order the map keeps them. *)
Fixpoint map_shaped `{JsonMap} (v : JValue) : Prop :=
  match v with
  | JArray l => foldr (fun v P => map_shaped v /\ P) True l
  | JObject m => map_collect m = m /\ foldr (fun e P => map_shaped (snd e) /\ P) True m
  | _ => True
  end.

Lemma foldr_Forall {A} (P : A -> Prop) l : foldr (fun x Q => P x /\ Q) True l <-> Forall P l.
Proof. induction l as [|x l IH]; simpl; [done|]. by rewrite Forall_cons, IH. Qed.

(** A document that is printed and parsed back unchanged: integers, strings and
    objects, nested less deep than the parser's limit of 128. *)
Definition printable `{JsonMap} (v : JValue) : Prop :=
  text_json v = true /\ map_shaped v /\ (depth v < 128)%nat.

Lemma sorted_shaped `{JsonMap} v : sorted_json v = true -> map_shaped v.
Proof.
  induction v as [| | | |l IH|m IH] using JValue_ind'; intros Hs; try done.
  - simpl in *. apply foldr_Forall. apply forallb_Forall in Hs. exact (Forall_mp _ _ _ IH Hs).
  - apply sorted_object in Hs as [Hk Hs]. simpl. split; [by apply map_collect_sorted|].
    apply (foldr_Forall (fun e => map_shaped (snd e))). exact (Forall_mp _ _ _ IH Hs).
Qed.

Lemma obj_shaped `{JsonMap} l : NoDup l.*1 -> Forall (fun e => map_shaped (snd e)) l -> map_shaped (obj l).
Proof.
  intros Hl Hm. simpl. split; [by apply map_collect_idem|].
  apply (foldr_Forall (fun e => map_shaped (snd e))). by rewrite map_collect_perm.
Qed.

(** What serde_json documents: writing a [Value] to memory does not fail, and
    both forms are read back, and nothing is read from an empty input. *)
Class SerdeLaws `{JsonMap} `{SerdeJson} := {
  to_vec_ok v : exists b, to_vec v = Ok b;
  pretty_ok v : exists b, to_string_pretty v = Ok b;
  to_vec_roundtrip v b : printable v -> to_vec v = Ok b -> from_slice b = Ok v;
  pretty_roundtrip v b : printable v -> to_string_pretty v = Ok b -> from_slice b = Ok v;
  empty_input v : from_slice [] <> Ok v
}.

(** base64's [URL_SAFE_NO_PAD] engine. *)
Class Base64Engine := {
  Base64Error : Type;
  b64_encode : bytes -> bytes;
  b64_decode : bytes -> result bytes Base64Error
}.

Class Base64Laws `{Base64Engine} := {
  b64_roundtrip l : b64_decode (b64_encode l) = Ok l;
  b64_no_pad l : x3d ∉ b64_encode l;
  b64_text l : utf8_valid (b64_encode l) = true
}.

(** ** A concrete encoding

    Documents as trees, trees as binary numbers, one byte per bit. *)
Definition Leaf : Type := bool + (Z + (Z + (bytes + (bool + (bool + (unit + (bool * positive * Z))))))).

Definition leaf_of_number (n : Number) : Leaf :=
  match n with
  | PosInt n => inr (inl n)
  | NegInt n => inr (inr (inl n))
  | Float (S754_zero s) => inr (inr (inr (inr (inl s))))
  | Float (S754_infinity s) => inr (inr (inr (inr (inr (inl s)))))
  | Float S754_nan => inr (inr (inr (inr (inr (inr (inl tt))))))
  | Float (S754_finite s m e) => inr (inr (inr (inr (inr (inr (inr (s, m, e)))))))
  end.

Fixpoint tree_of (v : JValue) : gen_tree Leaf :=
  match v with
  | JNull => GenNode 0 []
  | JBool b => GenLeaf (inl b)
  | JNumber n => GenLeaf (leaf_of_number n)
  | JString s => GenLeaf (inr (inr (inr (inl s))))
  | JArray l => GenNode 1 (tree_of <$> l)
  | JObject m => GenNode 2 ((fun e => GenNode 3 [GenLeaf (inr (inr (inr (inl (fst e))))); tree_of (snd e)]) <$> m)
  end.

Definition value_of_leaf (l : Leaf) : JValue :=
  match l with
  | inl b => JBool b
  | inr (inl n) => JNumber (PosInt n)
  | inr (inr (inl n)) => JNumber (NegInt n)
  | inr (inr (inr (inl s))) => JString s
  | inr (inr (inr (inr (inl s)))) => JNumber (Float (S754_zero s))
  | inr (inr (inr (inr (inr (inl s))))) => JNumber (Float (S754_infinity s))
  | inr (inr (inr (inr (inr (inr (inl _)))))) => JNumber (Float S754_nan)
  | inr (inr (inr (inr (inr (inr (inr (s, m, e))))))) => JNumber (Float (S754_finite s m e))
  end.

Fixpoint of_tree (t : gen_tree Leaf) : JValue :=
  match t with
  | GenLeaf l => value_of_leaf l
  | GenNode 1 ts => JArray (of_tree <$> ts)
  | GenNode 2 ts =>
      JObject ((fun t => match t with
                         | GenNode 3 [GenLeaf (inr (inr (inr (inl k)))); t'] => (k, of_tree t')
                         | _ => ([], JNull)
                         end) <$> ts)
  | GenNode _ _ => JNull
  end.

Lemma of_tree_of v : of_tree (tree_of v) = v.
Proof.
  induction v as [| |[| |[]]| |l IH|m IH] using JValue_ind'; simpl; try done; f_equal.
  - rewrite <- list_fmap_compose. by apply Forall_fmap_id.
  - rewrite <- list_fmap_compose. apply Forall_fmap_id. eapply Forall_impl; [exact IH|].
    intros [k v] E. simpl in *. by rewrite E.
Qed.

Fixpoint bits_of (p : positive) : bytes :=
  match p with xH => [] | xO p => x00 :: bits_of p | xI p => x01 :: bits_of p end.

Fixpoint of_bits (l : bytes) : positive :=
  match l with [] => xH | x00 :: l => xO (of_bits l) | _ :: l => xI (of_bits l) end.

Lemma of_bits_of p : of_bits (bits_of p) = p.
Proof. induction p; simpl; congruence. Qed.

Definition tree_json : SerdeJson := {|
  SerdeError := unit;
  to_vec v := Ok (bits_of (encode (tree_of v)));
  to_string_pretty v := Ok (bits_of (encode (tree_of v)));
  from_slice b := match decode (of_bits b) with Some t => Ok (of_tree t) | None => Err tt end
|}.

Lemma tree_roundtrip v : @from_slice tree_json (bits_of (encode (tree_of v))) = Ok v.
Proof. simpl. by rewrite of_bits_of, decode_encode, of_tree_of. Qed.

Definition tree_json_laws (JM : JsonMap) : @SerdeLaws JM tree_json.
Proof.
  split; simpl; [eauto|eauto| | |done]; intros v b _ [= <-]; exact (tree_roundtrip v).
Qed.

(** Two letters per byte. *)
Definition nibble_char (n : Z) : byte := byte_of_Z (97 + n).
Definition toy_b64 (l : bytes) : bytes :=
  mbind (fun b => [nibble_char (byte_to_Z b / 16); nibble_char (byte_to_Z b mod 16)]) l.
Fixpoint toy_unb64 (l : bytes) : bytes :=
  match l with
  | a :: b :: l => byte_of_Z (16 * (byte_to_Z a - 97) + (byte_to_Z b - 97)) :: toy_unb64 l
  | _ => []
  end.

Lemma toy_b64_cons b l :
  toy_b64 (b :: l) = nibble_char (byte_to_Z b / 16) :: nibble_char (byte_to_Z b mod 16) :: toy_b64 l.
Proof. done. Qed.

Lemma toy_b64_roundtrip l : toy_unb64 (toy_b64 l) = l.
Proof.
  induction l as [|b l IH]; [done|]. rewrite toy_b64_cons. cbn [toy_unb64]. rewrite IH. f_equal. by destruct b.
Qed.

Lemma toy_b64_no_pad l : x3d ∉ toy_b64 l.
Proof.
  induction l as [|b l IH]; [apply not_elem_of_nil|]. rewrite toy_b64_cons, !not_elem_of_cons.
  split_and!; [by destruct b|by destruct b|done].
Qed.

Lemma toy_b64_text l : utf8_valid (toy_b64 l) = true.
Proof.
  induction l as [|b l IH]; [done|]. rewrite toy_b64_cons.
  destruct b; simpl; exact IH.
Qed.

Definition toy_base64 : Base64Engine := {|
  Base64Error := unit;
  b64_encode := toy_b64;
  b64_decode l := Ok (toy_unb64 l)
|}.

Definition toy_base64_laws : @Base64Laws toy_base64.
Proof.
  split; simpl; [|apply toy_b64_no_pad|apply toy_b64_text]. intros l. by rewrite toy_b64_roundtrip.
Qed.
