(* ===== verification/Crypto.v ===== *)
(** * Crypto: algorithm registry, verifiers, signers and their factories

    Models [src/src/crypto/signature_verifier.rs], [factory.rs],
    [dilithium.rs], [ed25519.rs] and [rsa.rs].  The cryptographic primitives
    (pqcrypto-dilithium, ed25519-dalek, rsa) are the operations of the class
    [CryptoPrims]; what they document is the class [CryptoLaws]. *)
From S2P Require Import Prelude Text.
From stdpp Require Import pretty.
From Stdlib Require Import Strings.Byte.
Local Open Scope Z_scope.

(** ** Errors *)

Inductive VerifierError :=
| UnsupportedAlgorithm (s : bytes)
| InvalidKeyLength (n : Z)
| VerificationFailed (s : bytes).

(** ** The primitives of the three libraries *)

Class CryptoPrims := {
  (** pqcrypto-dilithium, by security level *)
  dil_pk_from_bytes : Z -> bytes -> bool;
  dil_sig_from_bytes : Z -> bytes -> bool;
  dil_sk_from_bytes : Z -> bytes -> bool;
  dil_verify_detached : Z -> bytes -> bytes -> bytes -> bool; (* sig, msg, pk *)
  dil_detached_sign : Z -> bytes -> bytes -> bytes; (* msg, sk *)
  (** ed25519-dalek *)
  ed_verifying_key : bytes -> result bytes bytes;
  ed_verify : bytes -> bytes -> bytes -> bool; (* key, msg, sig *)
  ed_sign : bytes -> bytes -> bytes; (* key, msg *)
  (** rsa *)
  RsaPublicKey : Type;
  RsaPrivateKey : Type;
  rsa_pub_der : bytes -> option RsaPublicKey;
  rsa_pub_pem : bytes -> result RsaPublicKey bytes;
  rsa_priv_der : bytes -> option RsaPrivateKey;
  rsa_priv_pem : bytes -> result RsaPrivateKey bytes;
  rsa_signature : bytes -> result bytes bytes;
  rsa_verify : RsaPublicKey -> bytes -> bytes -> bool; (* msg, sig *)
  rsa_sign : RsaPrivateKey -> Z -> bytes -> bytes; (* randomness, msg *)
  (** the text of an error value of [std::str::from_utf8] *)
  utf8_error_text : Utf8Error -> bytes
}.

(** ** Algorithm registry *)

(** [format!("{}", n)] *)
Definition fmt_Z (n : Z) : bytes := String.list_byte_of_string (pretty n).

Definition missing_level (algorithm_str : bytes) : VerifierError :=
  UnsupportedAlgorithm
    (b! "Dilithium requires a security level suffix, e.g. 'Dilithium-2'. Got: '" ++
     algorithm_str ++ b! "'").

Definition resolve_alg_and_length (algorithm_str : bytes) : result (bytes * Z) VerifierError :=
  let '(part0, level_str) := split_first x2d algorithm_str in
  let alg := trim part0 in
  if decide (alg = b! "RSA") then Ok (b! "RSA", 256)
  else if decide (alg = b! "Ed25519") then Ok (b! "Ed25519", 64)
  else if decide (alg = b! "Dilithium") then
    let? level := ok_or (missing_level algorithm_str) (s ← level_str; parse_u8 (trim s)) in
    let? sig_len :=
      (if level =? 2 then Ok 2420
       else if level =? 3 then Ok 3293
       else if level =? 5 then Ok 4595
       else Err (UnsupportedAlgorithm (b! "Unknown Dilithium security level: " ++ fmt_Z level))) in
    Ok (b! "Dilithium", sig_len)
  else Err (UnsupportedAlgorithm alg).

Definition dilithium_level_from_pubkey_len (n : Z) : option Z :=
  if n =? 1312 then Some 2
  else if n =? 1952 then Some 3
  else if n =? 2592 then Some 5
  else None.

Definition dilithium_level_from_privkey_len (n : Z) : option Z :=
  if n =? 2560 then Some 2
  else if n =? 4032 then Some 3
  else if n =? 4896 then Some 5
  else None.

(** ** Verifiers and signers *)

Section crypto.
Context `{CryptoPrims}.

(** [verify_d2], [verify_d3], [verify_d5]: the same code at three levels. *)
Definition verify_d (level : Z) (pk sig msg : bytes) : result bool VerifierError :=
  if negb (dil_pk_from_bytes level pk) then Err (InvalidKeyLength (len pk))
  else if negb (dil_sig_from_bytes level sig) then
    Err (VerificationFailed (b! "invalid signature bytes"))
  else Ok (dil_verify_detached level sig msg pk).

Definition dilithium_verify (public_key signature message : bytes) : result bool VerifierError :=
  let? level := ok_or (InvalidKeyLength (len public_key))
                  (dilithium_level_from_pubkey_len (len public_key)) in
  verify_d level public_key signature message.

Definition sign_d (level : Z) (sk msg : bytes) : result bytes VerifierError :=
  if negb (dil_sk_from_bytes level sk) then Err (InvalidKeyLength (len sk))
  else Ok (dil_detached_sign level msg sk).

Definition dilithium_sign (private_key message : bytes) : result bytes VerifierError :=
  let? level := ok_or (InvalidKeyLength (len private_key))
                  (dilithium_level_from_privkey_len (len private_key)) in
  sign_d level private_key message.

Definition ed25519_verify (public_key signature message : bytes) : result bool VerifierError :=
  if negb (len public_key =? 32) then Err (InvalidKeyLength (len public_key))
  else if negb (len signature =? 64) then
    Err (VerificationFailed (b! "Ed25519 signature must be 64 bytes, got " ++
                             fmt_Z (len signature)))
  else
    let? verifying_key := map_err VerificationFailed (ed_verifying_key public_key) in
    Ok (ed_verify verifying_key message signature).

Definition ed25519_sign (private_key message : bytes) : result bytes VerifierError :=
  if negb (len private_key =? 32) then Err (InvalidKeyLength (len private_key))
  else Ok (ed_sign private_key message).

Definition load_public_key (key : bytes) : result RsaPublicKey VerifierError :=
  match rsa_pub_der key with
  | Some pk => Ok pk
  | None =>
      let? pem := map_err (fun e => VerificationFailed (utf8_error_text e)) (from_utf8 key) in
      map_err VerificationFailed (rsa_pub_pem pem)
  end.

Definition rsa_verify_key (public_key signature message : bytes) : result bool VerifierError :=
  let? rsa_pub := load_public_key public_key in
  let? sig := map_err VerificationFailed (rsa_signature signature) in
  Ok (rsa_verify rsa_pub message sig).

Definition load_private_key (key : bytes) : result RsaPrivateKey VerifierError :=
  match rsa_priv_der key with
  | Some pk => Ok pk
  | None =>
      let? pem := map_err (fun e => VerificationFailed (utf8_error_text e)) (from_utf8 key) in
      map_err VerificationFailed (rsa_priv_pem pem)
  end.

(** [rng] is what [thread_rng] draws. *)
Definition rsa_sign_key (rng : Z) (private_key message : bytes) : result bytes VerifierError :=
  let? rsa_priv := load_private_key private_key in
  Ok (rsa_sign rsa_priv rng message).

(** ** Factories: the trait objects they return *)

Inductive Algorithm := RSA | Ed25519 | Dilithium.

#[global] Instance Algorithm_eq_dec : EqDecision Algorithm.
Proof. solve_decision. Defined.

Definition base_algorithm (algorithm : bytes) : bytes :=
  trim (default [] (head (split_all x2d algorithm))).

Definition get_verifier (algorithm : bytes) : result Algorithm VerifierError :=
  let base := base_algorithm algorithm in
  if decide (base = b! "RSA") then Ok RSA
  else if decide (base = b! "Ed25519") then Ok Ed25519
  else if decide (base = b! "Dilithium") then Ok Dilithium
  else Err (UnsupportedAlgorithm base).

Definition get_signer (algorithm : bytes) : result Algorithm VerifierError :=
  let base := base_algorithm algorithm in
  if decide (base = b! "RSA") then Ok RSA
  else if decide (base = b! "Ed25519") then Ok Ed25519
  else if decide (base = b! "Dilithium") then Ok Dilithium
  else Err (UnsupportedAlgorithm base).

(** Dynamic dispatch on a [Box<dyn SignatureVerifier>] / [Box<dyn Signer>]. *)
Definition verify (v : Algorithm) : bytes -> bytes -> bytes -> result bool VerifierError :=
  match v with
  | RSA => rsa_verify_key
  | Ed25519 => ed25519_verify
  | Dilithium => dilithium_verify
  end.

Definition sign (rng : Z) (v : Algorithm) : bytes -> bytes -> result bytes VerifierError :=
  match v with
  | RSA => rsa_sign_key rng
  | Ed25519 => ed25519_sign
  | Dilithium => dilithium_sign
  end.

End crypto.

(** ** What the libraries document: key sizes, signature sizes, correctness *)

Definition dil_sizes : list (Z * (Z * Z * Z)) :=
  [(2, (1312, 2560, 2420)); (3, (1952, 4032, 3293)); (5, (2592, 4896, 4595))].

Class CryptoLaws `{CryptoPrims} := {
  dil_keypair : Z -> bytes -> bytes -> Prop;
  dil_keypair_sizes level pk sk : dil_keypair level pk sk ->
    exists n, (level, (len pk, len sk, n)) ∈ dil_sizes /\
      forall msg, len (dil_detached_sign level msg sk) = n;
  dil_keypair_parses level pk sk : dil_keypair level pk sk ->
    dil_pk_from_bytes level pk = true /\ dil_sk_from_bytes level sk = true /\
    forall msg, dil_sig_from_bytes level (dil_detached_sign level msg sk) = true;
  dil_correct level pk sk msg : dil_keypair level pk sk ->
    dil_verify_detached level (dil_detached_sign level msg sk) msg pk = true;
  ed_keypair : bytes -> bytes -> Prop;
  ed_keypair_sizes pk sk : ed_keypair pk sk ->
    len pk = 32 /\ len sk = 32 /\ forall msg, len (ed_sign sk msg) = 64;
  ed_correct pk sk msg : ed_keypair pk sk ->
    exists vk, ed_verifying_key pk = Ok vk /\ ed_verify vk msg (ed_sign sk msg) = true;
  rsa_keypair : RsaPublicKey -> RsaPrivateKey -> Prop;
  rsa_sign_size p s rng msg : rsa_keypair p s -> len (rsa_sign s rng msg) = 256;
  rsa_correct p s rng msg : rsa_keypair p s ->
    exists sig, rsa_signature (rsa_sign s rng msg) = Ok sig /\ rsa_verify p msg sig = true
}.

Section crypto_facts.
Context `{CryptoLaws}.

(** [pk], [sk] is a key pair of the algorithm that the string [alg] names, and
    [n] is the length of its signatures. *)
Definition key_pair (alg : bytes) (v : Algorithm) (n : Z) (pk sk : bytes) : Prop :=
  get_verifier alg = Ok v /\ snd <$> (match resolve_alg_and_length alg with Ok r => Some r | Err _ => None end) = Some n /\
  match v with
  | Dilithium => exists level, dil_keypair level pk sk /\ (level, (len pk, len sk, n)) ∈ dil_sizes
  | Ed25519 => ed_keypair pk sk
  | RSA => exists p s, load_public_key pk = Ok p /\ load_private_key sk = Ok s /\ rsa_keypair p s
  end.

Lemma dil_sizes_levels level lpk lsk n :
  (level, (lpk, lsk, n)) ∈ dil_sizes ->
  dilithium_level_from_pubkey_len lpk = Some level /\ dilithium_level_from_privkey_len lsk = Some level.
Proof.
  unfold dil_sizes. rewrite !elem_of_cons, elem_of_nil.
  intros [[= -> -> -> ->]|[[= -> -> -> ->]|[[= -> -> -> ->]|[]]]]; done.
Qed.

Lemma dil_sizes_sig level lpk lsk n :
  (level, (lpk, lsk, n)) ∈ dil_sizes ->
  n = if level =? 2 then 2420 else if level =? 3 then 3293 else 4595.
Proof.
  unfold dil_sizes. rewrite !elem_of_cons, elem_of_nil.
  intros [[= -> -> -> ->]|[[= -> -> -> ->]|[[= -> -> -> ->]|[]]]]; reflexivity.
Qed.

Lemma dil_sizes_fun level lpk lsk n n' :
  (level, (lpk, lsk, n)) ∈ dil_sizes -> (level, (lpk, lsk, n')) ∈ dil_sizes -> n = n'.
Proof. intros E E'. apply dil_sizes_sig in E, E'. by rewrite E, E'. Qed.

Lemma dilithium_roundtrip level pk sk msg :
  dil_keypair level pk sk ->
  dilithium_sign sk msg = Ok (dil_detached_sign level msg sk) /\
  dilithium_verify pk (dil_detached_sign level msg sk) msg = Ok true.
Proof.
  intros Hk. destruct (dil_keypair_sizes _ _ _ Hk) as (n & Hs & _).
  destruct (dil_sizes_levels _ _ _ _ Hs) as [Epk Esk].
  destruct (dil_keypair_parses _ _ _ Hk) as (Ppk & Psk & Psig).
  unfold dilithium_sign, dilithium_verify. rewrite Epk, Esk. simpl.
  unfold sign_d, verify_d. rewrite Ppk, Psk, Psig. simpl. by rewrite dil_correct.
Qed.

Lemma resolve_rsa_ed alg v n r :
  get_verifier alg = Ok v -> resolve_alg_and_length alg = Ok (r, n) ->
  (v = RSA -> n = 256) /\ (v = Ed25519 -> n = 64) /\
  (v = Dilithium -> n ∈ [2420; 3293; 4595]).
Proof.
  unfold get_verifier, resolve_alg_and_length, base_algorithm. rewrite split_all_first.
  destruct (split_first x2d alg) as [p l]. simpl.
  destruct (decide (trim p = _)) as [|_]; [by intros [= <-] [= _ <-]|].
  destruct (decide (trim p = _)) as [|_]; [by intros [= <-] [= _ <-]|].
  destruct (decide (trim p = _)) as [|_]; [|done].
  intros [= <-]. rewrite result_bind_Ok. intros (level & _ & E).
  apply result_bind_Ok in E as (k & Ek & [= _ <-]).
  split; [done|]. split; [done|]. intros _.
  destruct (level =? 2); [injection Ek as <-; apply elem_of_cons; by left|].
  destruct (level =? 3); [injection Ek as <-; apply elem_of_cons; right; apply elem_of_cons; by left|].
  destruct (level =? 5); [|done].
  injection Ek as <-. do 2 (apply elem_of_cons; right). apply elem_of_cons. by left.
Qed.

Lemma sign_verify_ok rng alg v n pk sk msg :
  key_pair alg v n pk sk ->
  exists s, sign rng v sk msg = Ok s /\ len s = n /\ verify v pk s msg = Ok true.
Proof.
  intros (Hv & Hr & Hk). destruct (resolve_alg_and_length alg) as [[r n']|] eqn:Er; simplify_eq/=.
  destruct (resolve_rsa_ed _ _ _ _ Hv Er) as (Hrsa & Hed & _).
  destruct v; simpl.
  - destruct Hk as (p & s & Ep & Es & Hps). unfold rsa_sign_key, rsa_verify_key. rewrite Ep, Es. simpl.
    eexists. split; [reflexivity|]. split; [rewrite Hrsa by done; by eapply rsa_sign_size|].
    destruct (rsa_correct p s rng msg Hps) as (sig & -> & Hok). simpl. by rewrite Hok.
  - destruct (ed_keypair_sizes _ _ Hk) as (Lpk & Lsk & Lsig). unfold ed25519_sign, ed25519_verify.
    rewrite Lsk. simpl. eexists. split; [reflexivity|]. rewrite Lsig. split; [by rewrite Hed|].
    rewrite Lpk. simpl. destruct (ed_correct pk sk msg Hk) as (vk & -> & Hok). simpl. by rewrite Hok.
  - destruct Hk as (level & Hd & Hs). destruct (dilithium_roundtrip level pk sk msg Hd) as [Es Ev].
    eexists. split; [exact Es|]. split; [|done].
    destruct (dil_keypair_sizes _ _ _ Hd) as (m & Hs' & ->). by eapply dil_sizes_fun.
Qed.

End crypto_facts.

(** ** A concrete instance of the libraries

    Used to evaluate the model: a key is one repeated byte and the signature
    is that byte followed by the message, padded or cut to the fixed length. *)
Definition toy_tag (n : nat) (key msg : bytes) : bytes :=
  take n (take 1 key ++ msg ++ replicate n x00).

Definition toy_sig_len (level : Z) : nat :=
  Z.to_nat (if level =? 2 then 2420 else if level =? 3 then 3293 else 4595).

Definition toy_prims : CryptoPrims := {|
  dil_pk_from_bytes _ _ := true;
  dil_sig_from_bytes level s := bool_decide (length s = toy_sig_len level);
  dil_sk_from_bytes _ _ := true;
  dil_verify_detached level s msg pk := bool_decide (s = toy_tag (toy_sig_len level) pk msg);
  dil_detached_sign level msg sk := toy_tag (toy_sig_len level) sk msg;
  ed_verifying_key k := Ok k;
  ed_verify k msg s := bool_decide (s = toy_tag 64 k msg);
  ed_sign k msg := toy_tag 64 k msg;
  RsaPublicKey := bytes;
  RsaPrivateKey := bytes;
  rsa_pub_der k := Some k;
  rsa_pub_pem k := Ok k;
  rsa_priv_der k := Some k;
  rsa_priv_pem k := Ok k;
  rsa_signature s := Ok s;
  rsa_verify k msg s := bool_decide (s = toy_tag 256 k msg);
  rsa_sign k _ msg := toy_tag 256 k msg;
  utf8_error_text _ := []
|}.

Lemma toy_tag_len n key msg : len (toy_tag n key msg) = Z.of_nat n.
Proof. unfold toy_tag, len. rewrite length_take, !length_app, length_replicate. lia. Qed.

Lemma toy_tag_head n key key' msg : head key = head key' -> toy_tag n key msg = toy_tag n key' msg.
Proof. unfold toy_tag. destruct key, key'; simpl; naive_solver. Qed.

Program Definition toy_laws : @CryptoLaws toy_prims := {|
  dil_keypair level pk sk :=
    head pk = head sk /\ (level, (len pk, len sk, Z.of_nat (toy_sig_len level))) ∈ dil_sizes;
  ed_keypair pk sk := head pk = head sk /\ len pk = 32 /\ len sk = 32;
  rsa_keypair p s := head p = head s
|}.
Next Obligation. intros level pk sk [_ Hs]. eexists. split; [exact Hs|]. intros. apply toy_tag_len. Qed.
Next Obligation.
  intros level pk sk _. split; [done|]. split; [done|]. intros msg. simpl.
  apply bool_decide_eq_true. pose proof (toy_tag_len (toy_sig_len level) sk msg) as E. unfold len in E. lia.
Qed.
Next Obligation.
  intros level pk sk msg [Hh _]. simpl. apply bool_decide_eq_true. by apply toy_tag_head.
Qed.
Next Obligation. intros pk sk (Hh & Hp & Hs). split; [done|]. split; [done|]. intros msg. apply toy_tag_len. Qed.
Next Obligation.
  intros pk sk msg (Hh & _). exists pk. split; [done|]. simpl. apply bool_decide_eq_true.
  by apply toy_tag_head.
Qed.
Next Obligation. intros. apply toy_tag_len. Qed.
Next Obligation.
  intros p s rng msg Hh. eexists. split; [reflexivity|]. simpl. apply bool_decide_eq_true.
  by apply toy_tag_head.
Qed.

(** ** Claims *)

Definition algorithm_name (v : Algorithm) : bytes :=
  match v with RSA => b! "RSA" | Ed25519 => b! "Ed25519" | Dilithium => b! "Dilithium" end.

Definition signature_lengths (v : Algorithm) : list Z :=
  match v with RSA => [256] | Ed25519 => [64] | Dilithium => [2420; 3293; 4595] end.

(** The registry and the factories agree on every algorithm string: both
    factories select the same algorithm or fail alike; when the registry
    resolves a string, the factories select the algorithm of the resolved name
    and the length is one of its signature lengths; when the registry fails, the
    factories fail with the same error, except for a Dilithium string with no
    usable level. *)
Lemma registry_factory_agree (s : bytes) :
  get_signer s = get_verifier s /\
  match resolve_alg_and_length s with
  | Ok (name, n) => exists v, get_verifier s = Ok v /\ name = algorithm_name v /\ n ∈ signature_lengths v
  | Err e => get_verifier s = Err e \/ get_verifier s = Ok Dilithium
  end.
Proof.
  split; [done|]. destruct (resolve_alg_and_length s) as [[name n]|e] eqn:Er.
  - assert (exists v, get_verifier s = Ok v /\ name = algorithm_name v) as (v & Hv & Hn).
    { revert Er. unfold get_verifier, resolve_alg_and_length, base_algorithm. rewrite split_all_first.
      destruct (split_first x2d s) as [p l]. cbn [fst default from_option].
      repeat case_decide; try done; [intros [= <- _]; eauto..|].
      intros (level & _ & (k & _ & [= <- _])%result_bind_Ok)%result_bind_Ok. eauto. }
    exists v. split; [done|]. split; [done|].
    destruct (resolve_rsa_ed _ _ _ _ Hv Er) as (H1 & H2 & H3).
    destruct v; simpl; [rewrite H1 by done; left|rewrite H2 by done; left|by apply H3].
  - revert Er. unfold get_verifier, resolve_alg_and_length, base_algorithm. rewrite split_all_first.
    destruct (split_first x2d s) as [p l]. cbn [fst default from_option].
    repeat case_decide; try done; [intros _; by right|]. intros [= <-]. by left.
Qed.

(** Signing then verifying through the factories succeeds for every key
    pair of the algorithm a string names, and the signature has the length the
    registry gives for that string; the Dilithium level is inferred from the
    private key when signing and from the public key when verifying. *)
Theorem sign_verify_roundtrip `{CryptoLaws} (rng : Z) (alg : bytes) (v : Algorithm) (n : Z)
    (pk sk msg : bytes) :
  key_pair alg v n pk sk ->
  exists s, get_signer alg = Ok v /\ sign rng v sk msg = Ok s /\ len s = n /\
            verify v pk s msg = Ok true.
Proof.
  intros Hk. destruct (sign_verify_ok rng alg v n pk sk msg Hk) as (s & ? & ? & ?).
  exists s. destruct Hk as (Hv & _). by split_and!.
Qed.

Lemma sign_verify_roundtrip_witness :
  exists s, @sign toy_prims 0 Dilithium (replicate 2560 x07) (b! "hello") = Ok s /\
            @verify toy_prims Dilithium (replicate 1312 x07) s (b! "hello") = Ok true.
Proof.
  destruct (@sign_verify_roundtrip toy_prims toy_laws 0 (b! "Dilithium-2") Dilithium 2420
              (replicate 1312 x07) (replicate 2560 x07) (b! "hello")) as (s & _ & Hs & _ & Hv).
  - split; [reflexivity|]. split; [reflexivity|]. exists 2.
    split; [split; [reflexivity|]|]; apply (bool_decide_unpack _); vm_compute; exact I.
  - exists s. split; assumption.
Defined.
