(* ===== verification/AuthHandler.v ===== *)
(** * AuthHandler: verification of signed DID records

    Models [src/src/auth_handler.rs] and the packing of a signed record in
    [src/scripts/dht_node.rs].  The trait [SignatureVerifierHandler] is a
    class, so that the protocol layer is modelled for every handler;
    [DIDSignatureVerifierHandler] is an instance.  serde_json and base64 are the
    operations of [DocLib]; the file system the handler reads is a function from
    paths to contents or an I/O error. *)
From S2P Require Import Prelude Text Json Crypto.
From Stdlib Require Import Strings.Byte.
Local Open Scope Z_scope.

(** serde_json's [Value] with the indexing used here, and base64's
    [URL_SAFE_NO_PAD]; their error values are abstract. *)
Class DocLib := {
  Value : Type;
  JsonError : Type;
  DecodeError : Type;
  json_from_slice : bytes -> result Value JsonError;
  json_get : Value -> bytes -> Value;      (* doc["name"] *)
  json_nth : Value -> nat -> Value;        (* doc[0] *)
  json_as_str : Value -> option bytes;
  b64url_decode : bytes -> result bytes DecodeError;
  b64url_encode : bytes -> bytes
}.

Inductive AuthHandlerError `{DocLib} (io_error : Type) :=
| Crypto (e : VerifierError)
| Json (e : JsonError)
| Base64 (e : DecodeError)
| Io (e : io_error)
| MissingField (s : bytes)
| Utf8 (e : Utf8Error)
| InvalidFormat.
Arguments Crypto {_ _} e.
Arguments Json {_ _} e.
Arguments Base64 {_ _} e.
Arguments Io {_ _} e.
Arguments MissingField {_ _} s.
Arguments Utf8 {_ _} e.
Arguments InvalidFormat {_ _}.

(** The trait the protocol and server layers call. *)
Class SignatureVerifierHandler (H E : Type) := {
  handle_signature_verification : H -> bytes -> result bool E;
  handle_update_verification : H -> bytes -> bytes -> bytes -> result bool E;
  handle_signature_delete_operation : H -> bytes -> bytes -> bytes -> result bool E;
  handle_issuer_node_signature_verification : H -> bytes -> result bool E
}.

(** What the protocol layer relies on: an accepted update is itself a record
    that verifies. *)
Class HandlerLaws (H E : Type) `{SignatureVerifierHandler H E} := {
  update_self_signed h value old_value auth :
    handle_update_verification h value old_value auth = Ok true ->
    handle_signature_verification h value = Ok true
}.

Section handler.
Context `{CP : CryptoPrims} `{DL : DocLib} {io_error : Type}.

Local Abbreviation err := (AuthHandlerError io_error).

Definition get_alg_string (value : bytes) : result bytes err :=
  if len value <? 12 then Err InvalidFormat
  else
    let raw := take 12 value in
    let end_ := default (length raw) (position (fun b => b = x00) raw) in
    map_err Utf8 (from_utf8 (take end_ raw)).

Definition extract_sig_and_data (value : bytes) (sig_length : Z) : result (bytes * bytes) err :=
  let data_start := 12 + sig_length in
  if len value <? data_start then Err InvalidFormat
  else Ok (take (Z.to_nat sig_length) (drop 12 value), drop (Z.to_nat data_start) value).

Definition decode_b64url (key : bytes) : result bytes err :=
  let stripped := trim_end_matches x3d key in
  map_err Base64 (b64url_decode stripped).

Definition doc_key (doc : Value) : option bytes :=
  json_as_str
    (json_get (json_get (json_nth (json_get doc (b! "verificationMethod")) 0) (b! "publicKeyJwk"))
       (b! "x")).

Definition public_key_from_did_doc (data : bytes) : result bytes err :=
  let? doc := map_err Json (json_from_slice data) in
  let? x := ok_or (MissingField (b! "verificationMethod[0].publicKeyJwk.x")) (doc_key doc) in
  decode_b64url x.

Record DIDSignatureVerifierHandler := mkDIDHandler {
  issuer_pub_key_path : bytes;
  (** the file system at the time of the call *)
  read_file : bytes -> result bytes io_error
}.

Definition load_issuer_pub_key (h : DIDSignatureVerifierHandler) : result bytes err :=
  map_err Io (read_file h (issuer_pub_key_path h)).

Definition verify_self_signed (h : DIDSignatureVerifierHandler) (value : bytes) : result bool err :=
  let? alg := get_alg_string value in
  let? (_, sig_len) := map_err Crypto (resolve_alg_and_length alg) in
  let? (signature, data) := extract_sig_and_data value sig_len in
  let? pub_key := public_key_from_did_doc data in
  let? verifier := map_err Crypto (get_verifier alg) in
  map_err Crypto (verify verifier pub_key signature data).

Definition verify_key_rotation (h : DIDSignatureVerifierHandler)
    (new_value old_value auth_signature : bytes) : result bool err :=
  let? old_alg := get_alg_string old_value in
  let? (_, old_sig_len) := map_err Crypto (resolve_alg_and_length old_alg) in
  let? (_, old_data) := extract_sig_and_data old_value old_sig_len in
  let? old_pub_key := public_key_from_did_doc old_data in
  let? verifier := map_err Crypto (get_verifier old_alg) in
  let? ok := map_err Crypto (verify verifier old_pub_key auth_signature new_value) in
  if negb ok then Ok false else verify_self_signed h new_value.

Definition did_delete_operation (h : DIDSignatureVerifierHandler)
    (value auth_signature delete_msg : bytes) : result bool err :=
  let? alg := get_alg_string value in
  let? (_, sig_len) := map_err Crypto (resolve_alg_and_length alg) in
  let? (_, data) := extract_sig_and_data value sig_len in
  let? pub_key := public_key_from_did_doc data in
  let? verifier := map_err Crypto (get_verifier alg) in
  map_err Crypto (verify verifier pub_key auth_signature delete_msg).

Definition did_issuer_verification (h : DIDSignatureVerifierHandler) (value : bytes)
  : result bool err :=
  let? alg := get_alg_string value in
  let? (_, sig_len) := map_err Crypto (resolve_alg_and_length alg) in
  let? (signature, data) := extract_sig_and_data value sig_len in
  let? issuer_pub_key := load_issuer_pub_key h in
  let? verifier := map_err Crypto (get_verifier alg) in
  map_err Crypto (verify verifier issuer_pub_key signature data).

#[global] Instance did_handler
  : SignatureVerifierHandler DIDSignatureVerifierHandler err := {
  handle_signature_verification := verify_self_signed;
  handle_update_verification h value old_value auth_signature :=
    verify_key_rotation h value old_value auth_signature;
  handle_signature_delete_operation := did_delete_operation;
  handle_issuer_node_signature_verification := did_issuer_verification
}.

(** ** Building a record: what [build_signed_record] of the node script does
    with the serialised document *)

(** A 12-byte buffer of zeros over which the name is copied. *)
Definition alg_field (algorithm : bytes) : bytes :=
  let copy_len := Nat.min (length algorithm) 12 in
  take copy_len algorithm ++ replicate (12 - copy_len) x00.

Definition sign_and_pack (doc_bytes secret_key algorithm : bytes) : bytes :=
  let sig := dil_detached_sign 2 doc_bytes secret_key in
  alg_field algorithm ++ sig ++ doc_bytes.

(** ** Record layout *)

Record layout (value alg sig data : bytes) : Prop := {
  lay_field : exists pad, value = alg ++ pad ++ sig ++ data /\ len (alg ++ pad) = 12 /\
                          (pad = [] \/ head pad = Some x00);
  lay_alg : (x00 ∉ alg) /\ utf8_valid alg = true
}.

Lemma get_alg_string_layout value alg sig data :
  layout value alg sig data -> get_alg_string value = Ok alg.
Proof.
  intros [(pad & -> & Hl & Hp) [Hz Hu]]. unfold get_alg_string, len in *.
  rewrite length_app in Hl. rewrite !length_app.
  destruct (Z.ltb_spec (Z.of_nat (length alg + (length pad + (length sig + length data)))) 12); [lia|].
  rewrite (app_assoc alg), take_app_length' by (rewrite length_app; lia).
  assert (default (length (alg ++ pad)) (position (fun b => b = x00) (alg ++ pad)) = length alg) as ->.
  { unfold position. rewrite list_find_app_r.
    2:{ apply list_find_None, Forall_forall. intros b Hb ->. done. }
    destruct pad as [|b pad]; simpl; [by rewrite app_nil_r|].
    destruct Hp as [|[= ->]]; [done|]. rewrite decide_True by done. simpl. lia. }
  rewrite take_app_length. unfold from_utf8. by rewrite Hu.
Qed.

Lemma extract_layout value alg sig data :
  layout value alg sig data -> extract_sig_and_data value (len sig) = Ok (sig, data).
Proof.
  intros [(pad & -> & Hl & _) _]. unfold extract_sig_and_data, len in *.
  rewrite (app_assoc alg). rewrite !length_app in *.
  destruct (Z.ltb_spec (Z.of_nat (length alg + length pad + (length sig + length data))) (12 + Z.of_nat (length sig))); [lia|].
  assert (length (alg ++ pad) = 12%nat) as Hl' by (rewrite length_app; lia).
  rewrite drop_app_length', Nat2Z.id, take_app_length by done.
  rewrite (app_assoc _ sig), drop_app_length' by (rewrite !length_app; lia). done.
Qed.

Lemma get_alg_string_inv value alg :
  get_alg_string value = Ok alg ->
  exists pad rest, value = alg ++ pad ++ rest /\ len (alg ++ pad) = 12 /\
    (pad = [] \/ head pad = Some x00) /\ (x00 ∉ alg) /\ utf8_valid alg = true.
Proof.
  unfold get_alg_string. destruct (Z.ltb_spec (len value) 12) as [|Hl]; [done|].
  rewrite map_err_Ok. unfold from_utf8. case_match eqn:Hu; [|done]. intros [= <-].
  set (raw := take 12 value) in *. unfold len in *.
  assert (length raw = 12%nat) as Hr by (unfold raw; rewrite length_take; lia).
  exists (drop (default (length raw) (position (fun b => b = x00) raw)) raw), (drop 12 value).
  split_and!; [|rewrite take_drop; lia| | |done].
  { rewrite app_assoc, take_drop. unfold raw. by rewrite take_drop. }
  - destruct (position _ raw) as [i|] eqn:E; simpl; [|left; by rewrite drop_ge by lia].
    right. unfold position in E. destruct (list_find _ raw) as [[j b]|] eqn:F; simplify_eq/=.
    apply list_find_Some in F as (F & -> & _). by rewrite (drop_S _ _ _ F).
  - destruct (position _ raw) as [i|] eqn:E; simpl.
    + unfold position in E. destruct (list_find _ raw) as [[j b]|] eqn:F; simplify_eq/=.
      apply list_find_Some in F as (_ & _ & Hb). intros (k & Hk & Hlt)%elem_of_take.
      by apply (Hb k x00).
    + apply position_None in E. rewrite take_ge by lia. intros Hin.
      by apply (proj1 (Forall_forall _ _) E _ Hin).
Qed.

Lemma extract_inv value n sig data :
  0 <= n -> extract_sig_and_data value n = Ok (sig, data) ->
  value = take 12 value ++ sig ++ data /\ len sig = n /\ 12 + n <= len value.
Proof.
  unfold extract_sig_and_data, len. intros Hn.
  destruct (Z.ltb_spec (Z.of_nat (length value)) (12 + n)); [done|]. intros [= <- <-]. split_and!.
  - replace (Z.to_nat (12 + n)) with (12 + Z.to_nat n)%nat by lia. rewrite <- drop_drop.
    by rewrite !take_drop.
  - rewrite length_take, length_drop. lia.
  - done.
Qed.

Lemma resolve_nonneg alg name n : resolve_alg_and_length alg = Ok (name, n) -> 0 <= n.
Proof.
  unfold resolve_alg_and_length. destruct (split_first x2d alg) as [p l].
  repeat case_decide; try (intros [= _ <-]; lia).
  intros (level & _ & (k & Hk & [= _ <-])%result_bind_Ok)%result_bind_Ok.
  repeat case_match; simplify_eq; lia.
Qed.

(** A value splits into its fields exactly when the header can be read. *)
Lemma record_fields value alg name n sig data :
  get_alg_string value = Ok alg -> resolve_alg_and_length alg = Ok (name, n) ->
  extract_sig_and_data value n = Ok (sig, data) ->
  layout value alg sig data /\ len sig = n.
Proof.
  intros Ha%get_alg_string_inv Hr%resolve_nonneg He.
  apply extract_inv in He as (Hv & Hl & _); [|done]. split; [|done].
  destruct Ha as (pad & rest & E & H12 & Hpad & Hz & Hu). split; [|done].
  exists pad. split_and!; [|done|done]. rewrite Hv. rewrite E at 1.
  unfold len in H12. rewrite (app_assoc alg pad), take_app_length' by lia. by rewrite <- app_assoc.
Qed.

End handler.

Arguments DIDSignatureVerifierHandler : clear implicits.

(** What base64 documents for the unpadded URL-safe alphabet. *)
Class DocLaws `{DocLib} := {
  b64url_roundtrip l : b64url_decode (b64url_encode l) = Ok l;
  b64url_no_pad l : x3d ∉ b64url_encode l
}.

Section handler_facts.
Context `{CP : CryptoPrims} `{DL : DocLib} {io_error : Type}.

(** The signature [sig] over [msg] is accepted under the key of the document in
    the record [value], with the record's algorithm. *)
Definition accepted_by (value sig msg : bytes) : Prop :=
  exists alg name own data pk v,
    layout value alg own data /\ resolve_alg_and_length alg = Ok (name, len own) /\
    public_key_from_did_doc (io_error := io_error) data = Ok pk /\
    get_verifier alg = Ok v /\ verify v pk sig msg = Ok true.

(** The common prefix of the handler's operations. *)
Lemma fields_Ok {A} (value : bytes) (k : bytes -> bytes -> bytes -> result A (AuthHandlerError io_error)) a :
  (let? alg := get_alg_string value in
   let? (_, sig_len) := map_err Crypto (resolve_alg_and_length alg) in
   let? (sig, data) := extract_sig_and_data value sig_len in k alg sig data) = Ok a <->
  exists alg name sig data, layout value alg sig data /\
    resolve_alg_and_length alg = Ok (name, len sig) /\ k alg sig data = Ok a.
Proof.
  split.
  - intros (alg & Ha & ([name n] & Hr & ([sig data] & He & Hk)%result_bind_Ok)%result_bind_Ok)%result_bind_Ok.
    apply map_err_Ok in Hr. destruct (record_fields _ _ _ _ _ _ Ha Hr He) as [Hlay <-]. eauto 10.
  - intros (alg & name & sig & data & Hlay & Hr & Hk).
    rewrite (get_alg_string_layout _ _ _ _ Hlay). simpl. rewrite Hr. simpl.
    by rewrite (extract_layout _ _ _ _ Hlay).
Qed.

(** Looking up the document's key and checking a signature under it. *)
Lemma key_check_Ok (data alg sig msg : bytes) b :
  (let? pub_key := public_key_from_did_doc (io_error := io_error) data in
   let? verifier := map_err Crypto (get_verifier alg) in
   map_err Crypto (verify verifier pub_key sig msg)) = Ok b <->
  exists pk v, public_key_from_did_doc (io_error := io_error) data = Ok pk /\
    get_verifier alg = Ok v /\ verify v pk sig msg = Ok b.
Proof.
  split.
  - intros (pk & Hp & (v & Hv & Hs)%result_bind_Ok)%result_bind_Ok.
    apply map_err_Ok in Hv, Hs. eauto.
  - intros (pk & v & -> & Hv & Hs). simpl. rewrite Hv. simpl. by rewrite Hs.
Qed.

Lemma layout_inj value alg sig data alg' sig' data' :
  layout value alg sig data -> layout value alg' sig' data' -> len sig = len sig' ->
  alg = alg' /\ sig = sig' /\ data = data'.
Proof.
  intros H1 H2 Hlen.
  pose proof (get_alg_string_layout (io_error := io_error) _ _ _ _ H1) as A1.
  pose proof (get_alg_string_layout (io_error := io_error) _ _ _ _ H2) as A2.
  pose proof (extract_layout (io_error := io_error) _ _ _ _ H1) as E1.
  pose proof (extract_layout (io_error := io_error) _ _ _ _ H2) as E2.
  rewrite <- Hlen in E2. split; [congruence|]. rewrite E1 in E2. by injection E2.
Qed.

Lemma verify_self_signed_iff (h : DIDSignatureVerifierHandler io_error) value :
  verify_self_signed h value = Ok true <->
  exists alg sig data, layout value alg sig data /\
    (exists name, resolve_alg_and_length alg = Ok (name, len sig)) /\ accepted_by value sig data.
Proof.
  unfold verify_self_signed. rewrite fields_Ok. setoid_rewrite key_check_Ok. unfold accepted_by. split.
  - intros (alg & name & sig & data & Hl & Hr & pk & v & Hp & Hv & Hs). eauto 20.
  - intros (alg & sig & data & Hl & (name & Hr) & alg' & name' & own & data' & pk & v & Hl' & Hr' & Hp & Hv & Hs).
    assert (alg = alg') as <-.
    { pose proof (get_alg_string_layout (io_error := io_error) _ _ _ _ Hl).
      pose proof (get_alg_string_layout (io_error := io_error) _ _ _ _ Hl'). congruence. }
    rewrite Hr in Hr'. injection Hr' as _ Hlen.
    destruct (layout_inj _ _ _ _ _ _ _ Hl Hl' Hlen) as (_ & <- & <-). eauto 20.
Qed.

Lemma delete_operation_iff (h : DIDSignatureVerifierHandler io_error) value auth msg :
  did_delete_operation h value auth msg = Ok true <-> accepted_by value auth msg.
Proof.
  unfold did_delete_operation, accepted_by.
  rewrite (fields_Ok value (fun alg _ data =>
    let? pub_key := public_key_from_did_doc data in
    let? verifier := map_err Crypto (get_verifier alg) in
    map_err Crypto (verify verifier pub_key auth msg))).
  setoid_rewrite key_check_Ok. naive_solver.
Qed.

Lemma key_rotation_iff (h : DIDSignatureVerifierHandler io_error) new old auth :
  verify_key_rotation h new old auth = Ok true <->
  accepted_by old auth new /\ verify_self_signed h new = Ok true.
Proof.
  unfold verify_key_rotation, accepted_by.
  rewrite (fields_Ok old (fun alg _ data =>
    let? pub_key := public_key_from_did_doc data in
    let? verifier := map_err Crypto (get_verifier alg) in
    let? ok := map_err Crypto (verify verifier pub_key auth new) in
    if negb ok then Ok false else verify_self_signed h new)).
  split.
  - intros (alg & name & sig & data & Hl & Hr &
      (pk & Hp & (v & Hv & (ok & Hs & Hn)%result_bind_Ok)%result_bind_Ok)%result_bind_Ok).
    apply map_err_Ok in Hv, Hs. destruct ok; [|done]. eauto 20.
  - intros [(alg & name & own & data & pk & v & Hl & Hr & Hp & Hv & Hs) Hn].
    exists alg, name, own, data. split; [done|]. split; [done|].
    rewrite Hp. simpl. rewrite Hv. simpl. rewrite Hs. done.
Qed.

#[global] Instance did_handler_laws :
  HandlerLaws (DIDSignatureVerifierHandler io_error) (AuthHandlerError io_error).
Proof. constructor. intros h v old a Hu%key_rotation_iff. apply Hu. Qed.

(** The document [data] carries the public key [pk]. *)
Definition doc_has_key (data pk : bytes) : Prop :=
  exists doc, json_from_slice data = Ok doc /\ doc_key doc = Some (b64url_encode pk).

Lemma drop_while_eq_id c l : c ∉ l -> drop_while_eq c l = l.
Proof. destruct l as [|a l]; [done|]. intros [Ha _]%not_elem_of_cons. simpl. by rewrite decide_False by congruence. Qed.

Lemma decode_encoded `{!DocLaws} pk : decode_b64url (io_error := io_error) (b64url_encode pk) = Ok pk.
Proof.
  unfold decode_b64url, trim_end_matches. rewrite drop_while_eq_id.
  - by rewrite rev_involutive, b64url_roundtrip.
  - rewrite <- Permutation_rev. apply b64url_no_pad.
Qed.

Lemma doc_public_key `{!DocLaws} data pk :
  doc_has_key data pk -> public_key_from_did_doc (io_error := io_error) data = Ok pk.
Proof.
  intros (doc & Hd & Hk). unfold public_key_from_did_doc. rewrite Hd. simpl. rewrite Hk. simpl.
  apply decode_encoded.
Qed.

Lemma alg_field_layout alg sig data :
  len alg <= 12 -> x00 ∉ alg -> utf8_valid alg = true ->
  layout (alg_field alg ++ sig ++ data) alg sig data.
Proof.
  unfold len. intros Hl Hz Hu. split; [|done]. unfold alg_field.
  rewrite Nat.min_l, take_ge by lia. exists (replicate (12 - length alg) x00). split_and!.
  - by rewrite <- app_assoc.
  - unfold len. rewrite length_app, length_replicate. lia.
  - destruct (12 - length alg)%nat; [by left|by right].
Qed.

End handler_facts.

(** ** A concrete document library

    The document is the key text itself. *)
Definition toy_doc : DocLib := {|
  Value := bytes;
  JsonError := unit;
  DecodeError := unit;
  json_from_slice d := Ok d;
  json_get v _ := v;
  json_nth v _ := v;
  json_as_str v := Some v;
  b64url_decode l := Ok (toy_unb64 l);
  b64url_encode := toy_b64
|}.

Definition toy_doc_laws : @DocLaws toy_doc.
Proof. split; simpl; [|apply toy_b64_no_pad]. intros l. by rewrite toy_b64_roundtrip. Qed.

(** ** Claims *)

Section handler_claims.
Context `{CP : CryptoPrims} `{DL : DocLib} {io_error : Type}.

(** What [handle_signature_verification] accepts.  It answers [Ok true]
    exactly for the values that read as algorithm field (12 bytes, the name
    ended by a zero byte or by the field), signature of the length registered
    for that name, and document, where the signature verifies over the document
    under the key the document itself carries. *)
Theorem self_signed_characterised (h : DIDSignatureVerifierHandler io_error) (value : bytes) :
  handle_signature_verification h value = Ok true <->
  exists alg name sig data pk v,
    layout value alg sig data /\ resolve_alg_and_length alg = Ok (name, len sig) /\
    public_key_from_did_doc (io_error := io_error) data = Ok pk /\
    get_verifier alg = Ok v /\ verify v pk sig data = Ok true.
Proof.
  simpl. unfold verify_self_signed. rewrite fields_Ok. setoid_rewrite key_check_Ok. naive_solver.
Qed.

(** What [handle_update_verification] accepts: the new record must carry
    its own valid signature, and [auth_signature] must be valid for the whole
    new record under the key of the old record; nothing else is accepted. *)
Theorem update_needs_both_keys (h : DIDSignatureVerifierHandler io_error)
    (value old_value auth_signature : bytes) :
  handle_update_verification h value old_value auth_signature = Ok true <->
  accepted_by (io_error := io_error) old_value auth_signature value /\
  handle_signature_verification h value = Ok true.
Proof. apply key_rotation_iff. Qed.

(** C19: what the handler accepts.  [handle_signature_verification] answers
    [Ok true] exactly for the values that read as algorithm field (12 bytes, the
    name ended by a zero byte or by the field), signature of the length registered
    for that name, and document, where the signature verifies over the document
    under the key the document itself carries.  [handle_update_verification] does
    exactly when the new record is such a value and [auth_signature] is valid for
    the whole new record under the key of the old record. *)
Theorem handler_accepts (h : DIDSignatureVerifierHandler io_error) (value old_value auth_signature : bytes) :
  (handle_signature_verification h value = Ok true <->
   exists alg name sig data pk v,
     layout value alg sig data /\ resolve_alg_and_length alg = Ok (name, len sig) /\
     public_key_from_did_doc (io_error := io_error) data = Ok pk /\
     get_verifier alg = Ok v /\ verify v pk sig data = Ok true) /\
  (handle_update_verification h value old_value auth_signature = Ok true <->
   accepted_by (io_error := io_error) old_value auth_signature value /\
   handle_signature_verification h value = Ok true).
Proof. split; [apply self_signed_characterised|apply update_needs_both_keys]. Qed.


(** A stored record authorises its own deletion.  For every record that
    verifies, the signature and the document it contains are an accepted pair
    of [auth_signature] and [delete_msg]: the deletion handler does not tie the
    message to the operation, and both values are public. *)
Theorem record_authorises_its_deletion (h : DIDSignatureVerifierHandler io_error) (value : bytes) :
  handle_signature_verification h value = Ok true ->
  exists alg sig data, layout value alg sig data /\
    handle_signature_delete_operation h value sig data = Ok true.
Proof.
  intros (alg & sig & data & Hl & _ & Ha)%(verify_self_signed_iff h).
  exists alg, sig, data. split; [done|]. by apply delete_operation_iff.
Qed.

(** A Dilithium-2 record is accepted as its signature is under the key of its
    document. *)
Lemma packed_verdict `{!DocLaws} (h : DIDSignatureVerifierHandler io_error) (doc_bytes pk sig : bytes) :
  len sig = 2420 -> doc_has_key doc_bytes pk ->
  handle_signature_verification h (alg_field (b! "Dilithium-2") ++ sig ++ doc_bytes) =
    map_err Crypto (dilithium_verify pk sig doc_bytes).
Proof.
  intros Hs Hd. simpl. unfold verify_self_signed.
  assert (layout (alg_field (b! "Dilithium-2") ++ sig ++ doc_bytes) (b! "Dilithium-2") sig doc_bytes) as Hl.
  { apply alg_field_layout; [done| |done]. apply (bool_decide_unpack _). vm_compute. exact I. }
  rewrite (get_alg_string_layout _ _ _ _ Hl). cbn [result_bind].
  change (resolve_alg_and_length (b! "Dilithium-2")) with (@Ok (bytes * Z) VerifierError (b! "Dilithium", 2420)).
  cbn [result_bind map_err]. rewrite <- Hs, (extract_layout _ _ _ _ Hl). cbn [result_bind].
  by rewrite (doc_public_key _ pk).
Qed.

(** A record built by the node script from a document with the key of the
    signing pair verifies. *)
Lemma built_record_ok `{!CryptoLaws} `{!DocLaws}
    (h : DIDSignatureVerifierHandler io_error) (doc_bytes pk sk : bytes) :
  dil_keypair 2 pk sk -> doc_has_key doc_bytes pk ->
  handle_signature_verification h (sign_and_pack doc_bytes sk (b! "Dilithium-2")) = Ok true.
Proof.
  intros Hk Hd. unfold sign_and_pack. rewrite (packed_verdict h doc_bytes pk); [|clear Hd|done].
  - by rewrite (proj2 (dilithium_roundtrip 2 pk sk doc_bytes Hk)).
  - destruct (dil_keypair_sizes _ _ _ Hk) as (n & Hs & ->). by rewrite (dil_sizes_sig _ _ _ _ Hs).
Qed.

End handler_claims.

(** The handler of the examples: no issuer key file. *)
Definition toy_handler : DIDSignatureVerifierHandler unit := mkDIDHandler [] (fun _ => Err tt).

Definition toy_record (key : byte) : bytes :=
  @sign_and_pack toy_prims (toy_b64 (replicate 1312 key)) (replicate 2560 key) (b! "Dilithium-2").

Definition toy_did := @did_handler toy_prims toy_doc unit.

Lemma toy_record_ok key :
  handle_signature_verification (SignatureVerifierHandler := toy_did) toy_handler (toy_record key) = Ok true.
Proof.
  change (@verify_self_signed toy_prims toy_doc unit toy_handler (toy_record key) = Ok true).
  apply (@fields_Ok toy_doc unit).
  exists (b! "Dilithium-2"), (b! "Dilithium"),
    (toy_tag 2420 (replicate 2560 key) (toy_b64 (replicate 1312 key))), (toy_b64 (replicate 1312 key)).
  split_and!.
  - apply alg_field_layout; [done| |done]. apply (bool_decide_unpack _). vm_compute. exact I.
  - by rewrite toy_tag_len.
  - apply (@key_check_Ok toy_prims toy_doc unit). exists (replicate 1312 key), Dilithium.
    split_and!; [apply (@doc_public_key toy_doc unit toy_doc_laws); by eexists|done|].
    apply (@dilithium_roundtrip toy_prims toy_laws 2). split; [done|].
    unfold len. rewrite !length_replicate. apply (bool_decide_unpack _). vm_compute. exact I.
Qed.

Lemma record_authorises_its_deletion_witness :
  exists sig data, handle_signature_delete_operation (SignatureVerifierHandler := toy_did) toy_handler (toy_record x07) sig data = Ok true.
Proof.
  destruct (@record_authorises_its_deletion toy_prims toy_doc unit toy_handler (toy_record x07)
              (toy_record_ok x07)) as (alg & sig & data & _ & Hd).
  exists sig, data. exact Hd.
Defined.
