(* ===== verification/Did.v ===== *)
(** * Did: DID documents and the records that carry them

    Models the document and record helpers of the node script
    [src/scripts/dht_node.rs] and of the programs that generate records for
    tests ([src/scripts/resilience_attacker.rs],
    [src/examples/topology_analysis.rs], [src/examples/publish_did.rs]).  Key
    pairs and UUIDs drawn at random are arguments; an [expect] that fails is
    [None].  [serde_doc] gives the record handler of [AuthHandler.v] the JSON
    documents of [Json.v], so that its theorems apply to real documents. *)
From S2P Require Import Prelude Text Json Crypto AuthHandler.
From Stdlib Require Import Strings.Byte.
Local Open Scope Z_scope.

(** The handler's view of serde_json and base64. *)
#[global] Instance serde_doc `{SJ : SerdeJson} `{B6 : Base64Engine} : DocLib := {
  Value := JValue;
  JsonError := SerdeError;
  DecodeError := Base64Error;
  json_from_slice := from_slice;
  json_get := index_str;
  json_nth := index_nat;
  json_as_str := as_str;
  b64url_decode := b64_decode;
  b64url_encode := b64_encode
}.

#[global] Instance serde_doc_laws `{SJ : SerdeJson} `{B6 : Base64Engine} `{BL : !Base64Laws} : DocLaws.
Proof. split; simpl; [apply b64_roundtrip|apply b64_no_pad]. Qed.

Section did.
Context `{CP : CryptoPrims} `{JM : JsonMap} `{SJ : SerdeJson} `{B6 : Base64Engine}.

(** ** The node script *)

Definition base64url_encode (pk : bytes) : bytes := b64_encode pk.

(** [to_vec(..).expect(..)] *)
Definition encode_did_document (doc : JValue) : option bytes :=
  match to_vec (sort_json_keys doc) with Ok b => Some b | Err _ => None end.

Definition build_signed_record (doc : JValue) (secret_key algorithm : bytes) : option bytes :=
  doc_bytes ← encode_did_document doc;
  Some (sign_and_pack doc_bytes secret_key algorithm).

Definition jstr (s : bytes) : JValue := JString s.

Definition build_did_document (did dilithium_pk kyber_pk : bytes) : JValue :=
  obj [
    (b! "@context", JArray [jstr (b! "https://www.w3.org/ns/did/v1")]);
    (b! "id", jstr did);
    (b! "verificationMethod", JArray [
      obj [
        (b! "id", jstr (did ++ b! "#k0"));
        (b! "type", jstr (b! "JsonWebKey2020"));
        (b! "controller", jstr did);
        (b! "publicKeyJwk", obj [
          (b! "kty", jstr (b! "OKP")); (b! "crv", jstr (b! "Dilithium2"));
          (b! "x", jstr (base64url_encode dilithium_pk))])];
      obj [
        (b! "id", jstr (did ++ b! "#k1"));
        (b! "type", jstr (b! "JsonWebKey2020"));
        (b! "controller", jstr did);
        (b! "publicKeyJwk", obj [
          (b! "kty", jstr (b! "OKP")); (b! "crv", jstr (b! "Kyber512"));
          (b! "x", jstr (base64url_encode kyber_pk))])]]);
    (b! "authentication", JArray [jstr (did ++ b! "#k0")]);
    (b! "keyAgreement", JArray [jstr (did ++ b! "#k1")]);
    (b! "service", JArray [
      obj [
        (b! "id", jstr (did ++ b! "#device"));
        (b! "type", jstr (b! "DeviceAgent"));
        (b! "serviceEndpoint", jstr (b! "http://example.com/device"))]])].

Definition SIG_LEN : nat := 2420.

(** The algorithm field is only logged. *)
Definition decode_record (record : bytes) : option bytes :=
  if Nat.ltb (length record) (12 + SIG_LEN) then None
  else
    let json_bytes := drop (12 + SIG_LEN) record in
    doc ← ok (from_slice json_bytes);
    ok (to_string_pretty doc).

(** ** The record generators of the tests *)

Definition generate_did_iiot (uuid : bytes) : bytes := b! "did:iiot:" ++ uuid.

(** [did.split(':').next_back().unwrap().to_string()] *)
Definition dht_key (did : bytes) : option bytes := last (split_all x3a did).

(** [let mut alg = [0u8; 12]; alg[..11].copy_from_slice(b"Dilithium-2")] *)
Definition alg12 : bytes := b! "Dilithium-2" ++ drop 11 (replicate 12 x00).

(** The attacker's [make_record], with the draws of the two key pairs and of
    the UUID. *)
Definition make_record (dpk dsk kpk uuid : bytes) : option (bytes * bytes) :=
  let did := b! "did:iiot:" ++ uuid in
  key ← dht_key did;
  let doc := obj [
    (b! "@context", JArray [jstr (b! "https://www.w3.org/ns/did/v1")]);
    (b! "id", jstr did);
    (b! "verificationMethod", JArray [
      obj [
        (b! "id", jstr (did ++ b! "#k0")); (b! "type", jstr (b! "JsonWebKey2020"));
        (b! "controller", jstr did);
        (b! "publicKeyJwk", obj [
          (b! "kty", jstr (b! "OKP")); (b! "crv", jstr (b! "Dilithium2"));
          (b! "x", jstr (b64_encode dpk))])];
      obj [
        (b! "id", jstr (did ++ b! "#k1")); (b! "type", jstr (b! "JsonWebKey2020"));
        (b! "controller", jstr did);
        (b! "publicKeyJwk", obj [
          (b! "kty", jstr (b! "OKP")); (b! "crv", jstr (b! "Kyber512"));
          (b! "x", jstr (b64_encode kpk))])]]);
    (b! "authentication", JArray [jstr (did ++ b! "#k0")]);
    (b! "keyAgreement", JArray [jstr (did ++ b! "#k1")]);
    (b! "service", JArray [
      obj [
        (b! "id", jstr (did ++ b! "#device"));
        (b! "type", jstr (b! "DeviceAgent"));
        (b! "serviceEndpoint", jstr (b! "http://example.com/device"))]])] in
  doc_bytes ← ok (to_vec (sort_json_keys doc));
  let sig := dil_detached_sign 2 doc_bytes dsk in
  Some (key, alg12 ++ sig ++ doc_bytes).

(** [build_signed_record] and [new_record] of the topology test. *)
Definition topology_signed_record (doc : JValue) (sk : bytes) : option bytes :=
  doc_bytes ← encode_did_document doc;
  let sig := dil_detached_sign 2 doc_bytes sk in
  Some (alg12 ++ sig ++ doc_bytes).

Definition new_record (dpk dsk kpk uuid : bytes) : option (bytes * bytes * bytes) :=
  let did := b! "did:iiot:" ++ uuid in
  key ← dht_key did;
  let doc := build_did_document did dpk kpk in
  record ← topology_signed_record doc dsk;
  Some (did, key, record).

Definition extract_doc (record : bytes) : option JValue :=
  let doc_start := (12 + SIG_LEN)%nat in
  if Nat.leb (length record) doc_start then None
  else ok (from_slice (drop doc_start record)).

End did.
#[local] Opaque obj.

Section did_facts.
Context `{CP : CryptoPrims} `{JM : JsonMap} `{SJ : SerdeJson} `{B6 : Base64Engine}.
Context `{SL : !SerdeLaws} `{BL : !Base64Laws}.

Lemma doc_distinct did dpk kpk : distinct_keys (build_did_document did dpk kpk) = true.
Proof.
  unfold build_did_document. rewrite obj_distinct by literal_keys. simpl.
  rewrite !obj_distinct by literal_keys. simpl. by rewrite !obj_distinct by literal_keys.
Qed.

Lemma doc_depth did dpk kpk : depth (build_did_document did dpk kpk) = 4%nat.
Proof.
  unfold build_did_document. rewrite obj_depth by literal_keys. simpl.
  rewrite !obj_depth by literal_keys. simpl. by rewrite !obj_depth by literal_keys.
Qed.

Lemma doc_text did dpk kpk :
  utf8_valid did = true -> text_json (build_did_document did dpk kpk) = true.
Proof.
  intros Hd. unfold build_did_document. rewrite obj_text by literal_keys. simpl.
  rewrite !obj_text by literal_keys. simpl. rewrite !obj_text by literal_keys. simpl.
  rewrite !(utf8_valid_app did) by done. unfold base64url_encode. rewrite Hd, !b64_text. done.
Qed.
(** The key is found in the sorted document where the builder put it. *)
Lemma doc_key_sort v : distinct_keys v = true -> doc_key (sort_json_keys v) = doc_key v.
Proof.
  intros Hv. unfold doc_key. cbn [json_as_str json_get json_nth serde_doc].
  rewrite index_sort, index_nat_sort, !index_sort, as_str_sort by
    repeat first [done | apply distinct_index | apply distinct_nth]. done.
Qed.

Lemma doc_key_built did dpk kpk : doc_key (build_did_document did dpk kpk) = Some (b64_encode dpk).
Proof.
  unfold doc_key. cbn [json_as_str json_get json_nth serde_doc]. unfold build_did_document.
  rewrite obj_index by literal_keys. simpl. rewrite obj_index by literal_keys. simpl.
  by rewrite obj_index by literal_keys.
Qed.

Lemma sorted_printable v :
  distinct_keys v = true -> text_json v = true -> (depth v < 128)%nat -> printable (sort_json_keys v).
Proof.
  intros Hd Ht Hl. pose proof (sort_doc_eq v Hd) as He. split_and!.
  - by rewrite <- (doc_eq_text _ _ He).
  - by apply sorted_shaped, sort_sorted.
  - by rewrite <- (doc_eq_depth _ _ He).
Qed.

Lemma doc_printable did dpk kpk :
  utf8_valid did = true -> printable (sort_json_keys (build_did_document did dpk kpk)).
Proof.
  intros Hd. apply sorted_printable; [apply doc_distinct|by apply doc_text|].
  rewrite doc_depth. lia.
Qed.

Lemma encode_Some v : exists b, encode_did_document v = Some b /\ to_vec (sort_json_keys v) = Ok b.
Proof. unfold encode_did_document. destruct (to_vec_ok (sort_json_keys v)) as [b ->]. eauto. Qed.

(** [split] has always a last piece. *)
Lemma dht_key_Some did : is_Some (dht_key did).
Proof.
  unfold dht_key. destruct (last (split_all x3a did)) eqn:E; [done|].
  apply last_None in E. pose proof (split_all_first x3a did) as Hf. by rewrite E in Hf.
Qed.

(** The bytes of a document determine its canonical form. *)
Lemma encode_inj v w b :
  printable (sort_json_keys v) -> printable (sort_json_keys w) ->
  encode_did_document v = Some b -> encode_did_document w = Some b -> sort_json_keys v = sort_json_keys w.
Proof.
  intros Hv Hw. destruct (encode_Some v) as (bv & -> & Ev), (encode_Some w) as (bw & -> & Ew).
  intros [= ->] [= ->]. apply (to_vec_roundtrip _ _ Hv) in Ev. apply (to_vec_roundtrip _ _ Hw) in Ew. congruence.
Qed.

(** Reading the document of a packed record. *)
Lemma packed_record `{CL : !CryptoLaws} pk sk doc_bytes alg :
  dil_keypair 2 pk sk -> length (sign_and_pack doc_bytes sk alg) = (12 + SIG_LEN + length doc_bytes)%nat /\
  drop (12 + SIG_LEN) (sign_and_pack doc_bytes sk alg) = doc_bytes.
Proof.
  intros Hk. destruct (dil_keypair_sizes _ _ _ Hk) as (n & Hs & Hlen).
  apply dil_sizes_sig in Hs. simpl in Hs. subst n.
  specialize (Hlen doc_bytes). unfold len, sign_and_pack in *.
  assert (length (alg_field alg) = 12%nat) as Ha.
  { unfold alg_field. rewrite length_app, length_take, length_replicate. lia. }
  rewrite !length_app, Ha. split; [unfold SIG_LEN; lia|].
  rewrite app_assoc, drop_app_length'; [done|]. rewrite length_app. unfold SIG_LEN. lia.
Qed.

(** The bytes of an identity's document carry its key. *)
Lemma encoded_has_key did dpk kpk b :
  utf8_valid did = true -> encode_did_document (build_did_document did dpk kpk) = Some b -> doc_has_key b dpk.
Proof.
  intros Hd Eb. destruct (encode_Some (build_did_document did dpk kpk)) as (b' & Eb' & Ev).
  assert (b' = b) as -> by congruence. exists (sort_json_keys (build_did_document did dpk kpk)).
  split; [exact (to_vec_roundtrip _ _ (doc_printable did dpk kpk Hd) Ev)|].
  rewrite doc_key_sort by apply doc_distinct. apply doc_key_built.
Qed.

(** The record of an identity verifies. *)
Lemma did_record_verifies `{CL : !CryptoLaws} {io_error} (h : DIDSignatureVerifierHandler io_error) did dpk dsk kpk :
  dil_keypair 2 dpk dsk -> utf8_valid did = true ->
  exists b, encode_did_document (build_did_document did dpk kpk) = Some b /\
    handle_signature_verification h (sign_and_pack b dsk (b! "Dilithium-2")) = Ok true.
Proof.
  intros Hk Hd. destruct (encode_Some (build_did_document did dpk kpk)) as (b & Eb & _).
  exists b. split; [done|]. apply built_record_ok with dpk; [done|]. by eapply encoded_has_key.
Qed.

End did_facts.

(** ** Claims *)

Section did_claims.
Context `{CP : CryptoPrims} `{CL : !CryptoLaws} `{JM : JsonMap} `{SJ : SerdeJson} `{SL : !SerdeLaws}.
Context `{B6 : Base64Engine} `{BL : !Base64Laws} {io_error : Type}.

(** C22: the bytes that are signed depend on the document and not on the order
    of its entries.  For documents a map can hold, with strings and integers
    and within the parser's nesting limit, [encode_did_document] gives the same
    bytes to two of them exactly when they are equal up to the order of the
    entries of their objects. *)
Theorem encoding_is_canonical (v w : JValue) :
  distinct_keys v = true -> text_json v = true -> (depth v < 128)%nat ->
  distinct_keys w = true -> text_json w = true -> (depth w < 128)%nat ->
  encode_did_document v = encode_did_document w <-> doc_eq v w.
Proof.
  intros Hv Tv Lv Hw Tw Lw. split.
  - intros E. rewrite (sort_doc_eq v) by done. symmetry. rewrite (sort_doc_eq w) by done.
    destruct (encode_Some v) as (b & Eb & _).
    rewrite (encode_inj v w b); [done|by apply sorted_printable..|done|congruence].
  - intros E. unfold encode_did_document. by rewrite (sort_doc_eq_eq v w).
Qed.

(** C10: a published identity verifies and is read back.  For a Dilithium-2 key
    pair and any DID string, the record that [build_signed_record] makes of
    [build_did_document] exists, is accepted by the DID handler, and both
    [extract_doc] and [decode_record] give back the document: the first its
    canonical form, with the DID under ["id"], the second a text that parses to
    it. *)
Theorem did_record_roundtrip (h : DIDSignatureVerifierHandler io_error) (did dpk dsk kpk : bytes) :
  dil_keypair 2 dpk dsk -> utf8_valid did = true ->
  exists record doc pretty,
    build_signed_record (build_did_document did dpk kpk) dsk (b! "Dilithium-2") = Some record /\
    handle_signature_verification h record = Ok true /\
    extract_doc record = Some doc /\ doc_eq (build_did_document did dpk kpk) doc /\
    as_str (index_str doc (b! "id")) = Some did /\
    decode_record record = Some pretty /\ from_slice pretty = Ok doc.
Proof.
  intros Hk Hd. set (doc := build_did_document did dpk kpk).
  destruct (encode_Some doc) as (b & Eb & Ev). pose proof (doc_printable did dpk kpk Hd) as Hp. fold doc in Hp.
  destruct (packed_record dpk dsk b (b! "Dilithium-2") Hk) as [Hl Hdrop].
  pose proof (to_vec_roundtrip _ _ Hp Ev) as Hf. destruct (pretty_ok (sort_json_keys doc)) as [p Hpr].
  exists (sign_and_pack b dsk (b! "Dilithium-2")), (sort_json_keys doc), p. split_and!.
  - unfold build_signed_record. by rewrite Eb.
  - destruct (did_record_verifies h did dpk dsk kpk Hk Hd) as (b' & Eb' & Hb').
    replace b with b'; [done|]. fold doc in Eb'. congruence.
  - unfold extract_doc. cbv zeta. rewrite Hl, Hdrop, Hf.
    destruct (Nat.leb_spec (12 + SIG_LEN + length b) (12 + SIG_LEN)); [|done].
    exfalso. destruct b; [by apply empty_input in Hf|cbn [length] in *; lia].
  - apply sort_doc_eq, doc_distinct.
  - rewrite index_sort, as_str_sort by apply doc_distinct. unfold doc, build_did_document.
    by rewrite obj_index by literal_keys.
  - unfold decode_record. cbv zeta. rewrite Hl, Hdrop, Hf, (proj2 (Nat.ltb_ge _ _)) by lia.
    simpl. by rewrite Hpr.
  - by apply pretty_roundtrip.
Qed.

(** The record generators of the tests agree with the node script.  For
    every draw of key pairs and UUID without a colon, [make_record] and
    [new_record] return the UUID as the key and the record that the node script
    builds for [generate_did_iiot]'s DID. *)
Theorem generators_agree (dpk dsk kpk uuid : bytes) :
  x3a ∉ uuid ->
  exists record,
    build_signed_record (build_did_document (generate_did_iiot uuid) dpk kpk) dsk (b! "Dilithium-2") = Some record /\
    make_record dpk dsk kpk uuid = Some (uuid, record) /\
    new_record dpk dsk kpk uuid = Some (generate_did_iiot uuid, uuid, record).
Proof.
  intros Hu. set (doc := build_did_document (generate_did_iiot uuid) dpk kpk).
  destruct (encode_Some doc) as (b & Eb & Ev). exists (sign_and_pack b dsk (b! "Dilithium-2")).
  assert (dht_key (b! "did:iiot:" ++ uuid) = Some uuid) as Ek.
  { unfold dht_key. change (b! "did:iiot:") with (b! "did:iiot" ++ [x3a]). rewrite <- app_assoc. cbn [app].
    by rewrite split_all_app, (split_all_one _ uuid), last_snoc. }
  split_and!.
  - unfold build_signed_record. by rewrite Eb.
  - unfold make_record. rewrite Ek. cbn [mbind option_bind].
    change (sort_json_keys _) with (sort_json_keys doc). rewrite Ev. done.
  - unfold new_record, topology_signed_record. rewrite Ek. cbn [mbind option_bind].
    change (build_did_document _ _ _) with doc. rewrite Eb. done.
Qed.

End did_claims.

(** ** Examples *)

Definition toy_pk : bytes := replicate 1312 x07.
Definition toy_sk : bytes := replicate 2560 x07.
Definition toy_uuid : bytes := b! "4f8a-11".

Lemma toy_keypair : @dil_keypair toy_prims toy_laws 2 toy_pk toy_sk.
Proof.
  split; [done|]. unfold len, toy_pk, toy_sk. rewrite !length_replicate.
  apply (bool_decide_unpack _). vm_compute. exact I.
Qed.

Definition doc_ab : JValue := JObject [(b! "b", JNull); (b! "a", JArray [JString (b! "x")])].
Definition doc_ba : JValue := JObject [(b! "a", JArray [JString (b! "x")]); (b! "b", JNull)].

Lemma encoding_is_canonical_witness :
  @encode_did_document index_map tree_json doc_ab = @encode_did_document index_map tree_json doc_ba.
Proof.
  apply (@encoding_is_canonical index_map tree_json (tree_json_laws _) doc_ab doc_ba); try reflexivity;
    try (simpl; lia).
  apply (doc_eq_object _ [(b! "a", JArray [JString (b! "x")]); (b! "b", JNull)]); [apply perm_swap|].
  repeat constructor.
Defined.

Lemma did_record_roundtrip_witness :
  exists record doc,
    @build_signed_record toy_prims btree_map tree_json
      (@build_did_document btree_map toy_base64 (generate_did_iiot toy_uuid) toy_pk toy_pk) toy_sk (b! "Dilithium-2") = Some record /\
    @handle_signature_verification _ _ (@did_handler toy_prims (@serde_doc tree_json toy_base64) unit) toy_handler record = Ok true /\
    @extract_doc tree_json record = Some doc /\
    as_str (index_str doc (b! "id")) = Some (generate_did_iiot toy_uuid).
Proof.
  destruct (@did_record_roundtrip toy_prims toy_laws btree_map tree_json (tree_json_laws _) toy_base64
    toy_base64_laws unit toy_handler (generate_did_iiot toy_uuid) toy_pk toy_sk toy_pk toy_keypair eq_refl)
    as (record & doc & pretty & H1 & H2 & H3 & _ & H5 & _).
  exists record, doc. auto.
Defined.

Lemma generators_agree_witness :
  exists record, @make_record toy_prims btree_map tree_json toy_base64 toy_pk toy_sk toy_pk toy_uuid = Some (toy_uuid, record).
Proof.
  destruct (@generators_agree toy_prims btree_map tree_json (tree_json_laws _) toy_base64 toy_pk toy_sk toy_pk toy_uuid)
    as (record & _ & E & _); [|exists record; exact E].
  apply (bool_decide_unpack _). vm_compute. exact I.
Defined.
