(* ===== verification/Records.v ===== *)
(** * Records: the record generators of the other programs

    The example and test programs have their own copies of the helpers that build
    DID documents and records ([src/examples/publish_did.rs],
    [src/examples/topology_analysis.rs], [src/examples/cache_bench.rs],
    [src/scripts/resilience_attacker.rs], [src/scripts/resilience_victim.rs]).  Each
    is translated here in a Module of its own, under the names of its source, and
    [record_generators_agree] shows that they all make the records of [Did.v], on
    which the theorems are. *)
From S2P Require Import Prelude Text Json Crypto AuthHandler Did.
From Stdlib Require Import Strings.Byte.
Local Open Scope Z_scope.

(** ** [src/examples/publish_did.rs] *)

Module PublishDid.
Section generator.
Context `{CP : CryptoPrims} `{JM : JsonMap} `{SJ : SerdeJson} `{B6 : Base64Engine}.

Definition base64url_encode (pk : bytes) : bytes := b64_encode pk.

(** As in [Json.v], the recursion is applied before the entries are collected. *)
Fixpoint sort_json_keys (v : JValue) : JValue :=
  match v with
  | JObject m => JObject (map_collect (btree_of (prod_map id sort_json_keys <$> m)))
  | JArray a => JArray (sort_json_keys <$> a)
  | other => other
  end.

Definition encode_did_document (doc : JValue) : option bytes :=
  let canonical := sort_json_keys doc in
  ok (to_vec canonical).

(** [alg_field[..copy_len].copy_from_slice(&alg_bytes[..copy_len])] *)
Definition build_signed_record (doc : JValue) (secret_key algorithm : bytes) : option bytes :=
  doc_bytes ← encode_did_document doc;
  let copy_len := Nat.min (length algorithm) 12 in
  let alg_field := take copy_len algorithm ++ drop copy_len (replicate 12 x00) in
  let signature := dil_detached_sign 2 doc_bytes secret_key in
  Some (alg_field ++ signature ++ doc_bytes).

Definition build_did_document (did dilithium_pk kyber_pk : bytes) : JValue :=
  let dilithium_x := base64url_encode dilithium_pk in
  let kyber_x := base64url_encode kyber_pk in
  obj [
    (b! "@context", JArray [jstr (b! "https://www.w3.org/ns/did/v1")]);
    (b! "id", jstr did);
    (b! "verificationMethod", JArray [
      obj [
        (b! "id", jstr (did ++ b! "#k0")); (b! "type", jstr (b! "JsonWebKey2020")); (b! "controller", jstr did);
        (b! "publicKeyJwk", obj [
          (b! "kty", jstr (b! "OKP")); (b! "crv", jstr (b! "Dilithium2")); (b! "x", jstr (dilithium_x))])];
      obj [
        (b! "id", jstr (did ++ b! "#k1")); (b! "type", jstr (b! "JsonWebKey2020")); (b! "controller", jstr did);
        (b! "publicKeyJwk", obj [
          (b! "kty", jstr (b! "OKP")); (b! "crv", jstr (b! "Kyber512")); (b! "x", jstr (kyber_x))])]]);
    (b! "authentication", JArray [jstr (did ++ b! "#k0")]);
    (b! "keyAgreement", JArray [jstr (did ++ b! "#k1")]);
    (b! "service", JArray [
      obj [
        (b! "id", jstr (did ++ b! "#device")); (b! "type", jstr (b! "DeviceAgent"));
        (b! "serviceEndpoint", jstr (b! "http://example.com/device"))]])].

End generator.
End PublishDid.

(** ** [src/examples/topology_analysis.rs] *)

Module TopologyTest.
Section generator.
Context `{CP : CryptoPrims} `{JM : JsonMap} `{SJ : SerdeJson} `{B6 : Base64Engine}.

Definition base64url (pk : bytes) : bytes := b64_encode pk.

(** As in [Json.v], the recursion is applied before the entries are collected. *)
Fixpoint sort_json_keys (v : JValue) : JValue :=
  match v with
  | JObject m => JObject (map_collect (btree_of (prod_map id sort_json_keys <$> m)))
  | JArray a => JArray (sort_json_keys <$> a)
  | other => other
  end.

Definition encode_did_document (doc : JValue) : option bytes := ok (to_vec (sort_json_keys doc)).

Definition build_did_document (did dpk kpk : bytes) : JValue :=
  obj [
    (b! "@context", JArray [jstr (b! "https://www.w3.org/ns/did/v1")]);
    (b! "id", jstr did);
    (b! "verificationMethod", JArray [
      obj [
        (b! "id", jstr (did ++ b! "#k0")); (b! "type", jstr (b! "JsonWebKey2020")); (b! "controller", jstr did);
        (b! "publicKeyJwk", obj [
          (b! "kty", jstr (b! "OKP")); (b! "crv", jstr (b! "Dilithium2")); (b! "x", jstr (base64url dpk))])];
      obj [
        (b! "id", jstr (did ++ b! "#k1")); (b! "type", jstr (b! "JsonWebKey2020")); (b! "controller", jstr did);
        (b! "publicKeyJwk", obj [
          (b! "kty", jstr (b! "OKP")); (b! "crv", jstr (b! "Kyber512")); (b! "x", jstr (base64url kpk))])]]);
    (b! "authentication", JArray [jstr (did ++ b! "#k0")]);
    (b! "keyAgreement", JArray [jstr (did ++ b! "#k1")]);
    (b! "service", JArray [
      obj [
        (b! "id", jstr (did ++ b! "#device")); (b! "type", jstr (b! "DeviceAgent"));
        (b! "serviceEndpoint", jstr (b! "http://example.com/device"))]])].

Definition build_signed_record (doc : JValue) (sk : bytes) : option bytes :=
  doc_bytes ← encode_did_document doc;
  let sig_bytes := dil_detached_sign 2 doc_bytes sk in
  Some (alg12 ++ sig_bytes ++ doc_bytes).

End generator.
End TopologyTest.

(** ** [src/examples/cache_bench.rs] *)

Module CacheBenchmark.
Section generator.
Context `{CP : CryptoPrims} `{JM : JsonMap} `{SJ : SerdeJson} `{B6 : Base64Engine}.

Definition base64url (pk : bytes) : bytes := b64_encode pk.

(** As in [Json.v], the recursion is applied before the entries are collected. *)
Fixpoint sort_json_keys (v : JValue) : JValue :=
  match v with
  | JObject m => JObject (map_collect (btree_of (prod_map id sort_json_keys <$> m)))
  | JArray a => JArray (sort_json_keys <$> a)
  | other => other
  end.

Definition new_record (dpk dsk kpk uuid : bytes) : option (bytes * bytes) :=
  let did := b! "did:iiot:" ++ uuid in
  key ← dht_key did;
  let doc := obj [
    (b! "@context", JArray [jstr (b! "https://www.w3.org/ns/did/v1")]);
    (b! "id", jstr did);
    (b! "verificationMethod", JArray [
      obj [
        (b! "id", jstr (did ++ b! "#k0")); (b! "type", jstr (b! "JsonWebKey2020")); (b! "controller", jstr did);
        (b! "publicKeyJwk", obj [
          (b! "kty", jstr (b! "OKP")); (b! "crv", jstr (b! "Dilithium2")); (b! "x", jstr (base64url dpk))])];
      obj [
        (b! "id", jstr (did ++ b! "#k1")); (b! "type", jstr (b! "JsonWebKey2020")); (b! "controller", jstr did);
        (b! "publicKeyJwk", obj [
          (b! "kty", jstr (b! "OKP")); (b! "crv", jstr (b! "Kyber512")); (b! "x", jstr (base64url kpk))])]]);
    (b! "authentication", JArray [jstr (did ++ b! "#k0")]);
    (b! "keyAgreement", JArray [jstr (did ++ b! "#k1")]);
    (b! "service", JArray [
      obj [
        (b! "id", jstr (did ++ b! "#device")); (b! "type", jstr (b! "DeviceAgent"));
        (b! "serviceEndpoint", jstr (b! "http://example.com/device"))]])] in
  doc_bytes ← ok (to_vec (sort_json_keys doc));
  let sig := dil_detached_sign 2 doc_bytes dsk in
  Some (key, alg12 ++ sig ++ doc_bytes).

End generator.
End CacheBenchmark.

(** ** [src/scripts/resilience_attacker.rs] and [src/scripts/resilience_victim.rs] *)

Module Attacker.
Section generator.
Context `{CP : CryptoPrims} `{JM : JsonMap} `{SJ : SerdeJson} `{B6 : Base64Engine}.

Definition b64url (data : bytes) : bytes := b64_encode data.

(** As in [Json.v], the recursion is applied before the entries are collected. *)
Fixpoint sort_json (v : JValue) : JValue :=
  match v with
  | JObject m => JObject (map_collect (btree_of (prod_map id sort_json <$> m)))
  | JArray a => JArray (sort_json <$> a)
  | other => other
  end.

End generator.
End Attacker.

Module Victim.
Section generator.
Context `{CP : CryptoPrims} `{JM : JsonMap} `{SJ : SerdeJson} `{B6 : Base64Engine}.

Definition b64url (data : bytes) : bytes := b64_encode data.

(** As in [Json.v], the recursion is applied before the entries are collected. *)
Fixpoint sort_json (v : JValue) : JValue :=
  match v with
  | JObject m => JObject (map_collect (btree_of (prod_map id sort_json <$> m)))
  | JArray a => JArray (sort_json <$> a)
  | other => other
  end.

Definition make_record (dpk dsk kpk uuid : bytes) : option (bytes * bytes) :=
  let did := b! "did:iiot:" ++ uuid in
  key ← dht_key did;
  let doc := obj [
    (b! "@context", JArray [jstr (b! "https://www.w3.org/ns/did/v1")]);
    (b! "id", jstr did);
    (b! "verificationMethod", JArray [
      obj [
        (b! "id", jstr (did ++ b! "#k0")); (b! "type", jstr (b! "JsonWebKey2020")); (b! "controller", jstr did);
        (b! "publicKeyJwk", obj [
          (b! "kty", jstr (b! "OKP")); (b! "crv", jstr (b! "Dilithium2")); (b! "x", jstr (b64url dpk))])];
      obj [
        (b! "id", jstr (did ++ b! "#k1")); (b! "type", jstr (b! "JsonWebKey2020")); (b! "controller", jstr did);
        (b! "publicKeyJwk", obj [
          (b! "kty", jstr (b! "OKP")); (b! "crv", jstr (b! "Kyber512")); (b! "x", jstr (b64url kpk))])]]);
    (b! "authentication", JArray [jstr (did ++ b! "#k0")]);
    (b! "keyAgreement", JArray [jstr (did ++ b! "#k1")]);
    (b! "service", JArray [
      obj [
        (b! "id", jstr (did ++ b! "#device")); (b! "type", jstr (b! "DeviceAgent"));
        (b! "serviceEndpoint", jstr (b! "http://example.com/device"))]])] in
  doc_bytes ← ok (to_vec (sort_json doc));
  let sig := dil_detached_sign 2 doc_bytes dsk in
  Some (key, alg12 ++ sig ++ doc_bytes).

End generator.
End Victim.

(** ** They agree *)

Section agree.
Context `{CP : CryptoPrims} `{JM : JsonMap} `{SJ : SerdeJson} `{B6 : Base64Engine}.

(** All copies of the recursive sort are the one of [Json.v]. *)
Theorem sort_copies_agree (v : JValue) :
  PublishDid.sort_json_keys v = sort_json_keys v /\ TopologyTest.sort_json_keys v = sort_json_keys v /\
  CacheBenchmark.sort_json_keys v = sort_json_keys v /\ Attacker.sort_json v = sort_json_keys v /\
  Victim.sort_json v = sort_json_keys v.
Proof. by split_and!. Qed.

(** The six programs make the same record.  For the same key pairs and UUID, the
    generators of the attacker, the victim, the cache benchmark, the topology test,
    the publishing example and the node program make the same record, under the
    same key (the last two take the key and the DID apart in their callers). *)
Theorem record_generators_agree (dpk dsk kpk uuid : bytes) :
  let did := b! "did:iiot:" ++ uuid in
  let alg := b! "Dilithium-2" in
  let made := make_record dpk dsk kpk uuid in
  Victim.make_record dpk dsk kpk uuid = made /\
  CacheBenchmark.new_record dpk dsk kpk uuid = made /\
  (key ← dht_key did; record ← TopologyTest.build_signed_record (TopologyTest.build_did_document did dpk kpk) dsk;
   Some (key, record)) = made /\
  ('(_, key, record) ← new_record dpk dsk kpk uuid; Some (key, record)) = made /\
  (key ← dht_key (generate_did_iiot uuid);
   record ← PublishDid.build_signed_record (PublishDid.build_did_document (generate_did_iiot uuid) dpk kpk) dsk alg;
   Some (key, record)) = made /\
  (key ← dht_key did; record ← build_signed_record (build_did_document did dpk kpk) dsk alg; Some (key, record)) = made.
Proof.
  intros did alg made. subst made. unfold make_record. fold did. split_and!; [done|done|..].
  - destruct (dht_key did); [|done]. unfold TopologyTest.build_signed_record, TopologyTest.encode_did_document.
    cbn [mbind option_bind]. change (TopologyTest.sort_json_keys ?v) with (sort_json_keys v).
    by destruct (to_vec _).
  - unfold new_record. fold did. destruct (dht_key did); [|done].
    unfold topology_signed_record, encode_did_document. cbn [mbind option_bind]. by destruct (to_vec _).
  - unfold generate_did_iiot. fold did. destruct (dht_key did); [|done].
    unfold PublishDid.build_signed_record, PublishDid.encode_did_document. cbn [mbind option_bind].
    change (PublishDid.sort_json_keys ?v) with (sort_json_keys v). by destruct (to_vec _).
  - destruct (dht_key did); [|done]. unfold build_signed_record, encode_did_document. cbn [mbind option_bind].
    by destruct (to_vec _).
Qed.

End agree.
