(* ===== verification/KeyManager.v ===== *)
(** * KeyManager: generating, storing and loading key pairs

    Models [src/src/crypto/key_manager.rs].  The trait [KeyManager] is a class
    with three instances.  The file system of [std::fs] is modelled as
    directories and files named by their list of components from the root,
    without symbolic links and permissions; key generation of pqcrypto and
    ed25519-dalek is the class [KeyGen], a function of the random bytes drawn. *)
From S2P Require Import Prelude Text Crypto AuthHandler.
From Stdlib Require Import Strings.Byte.
Local Open Scope Z_scope.

(** ** Paths and files *)

Inductive IoKind := NoEntry | NotADirectory | IsADirectory.

Record FileSystem := mkFS {
  cwd : list bytes;
  dirs : gset (list bytes);
  files : gmap (list bytes) bytes
}.

Definition SLASH : byte := x2f.

(** [dir.join(name)]: an absolute name replaces the directory. *)
Definition path_join (dir name : bytes) : bytes :=
  match head name with
  | Some b => if decide (b = SLASH) then name
              else match last dir with
                   | Some c => if decide (c = SLASH) then dir ++ name else dir ++ SLASH :: name
                   | None => name
                   end
  | None => match last dir with
            | Some c => if decide (c = SLASH) then dir else dir ++ [SLASH]
            | None => []
            end
  end.

(** The components of a path: empty ones are skipped. *)
Definition components (p : bytes) : list bytes := filter (fun c => c <> []) (split_all SLASH p).

Definition path_start (fs : FileSystem) (p : bytes) : list bytes :=
  if decide (head p = Some SLASH) then [] else cwd fs.

(** One component from a directory: [.] stays, [..] goes up. *)
Definition walk_one (cur : list bytes) (c : bytes) : list bytes :=
  if decide (c = b! ".") then cur
  else if decide (c = b! "..") then take (length cur - 1) cur
  else cur ++ [c].

(** The directory the components lead to, when all of them are directories. *)
Fixpoint walk_dir (fs : FileSystem) (cur : list bytes) (cs : list bytes) : result (list bytes) IoKind :=
  match cs with
  | [] => Ok cur
  | c :: cs =>
      let nxt := walk_one cur c in
      if decide (nxt ∈ dirs fs) then walk_dir fs nxt cs
      else match files fs !! nxt with Some _ => Err NotADirectory | None => Err NoEntry end
  end.

(** The entry a path names: its parent must be a directory. *)
Definition resolve (fs : FileSystem) (p : bytes) : result (list bytes) IoKind :=
  let cs := components p in
  let? parent := walk_dir fs (path_start fs p) (take (length cs - 1) cs) in
  match last cs with
  | Some c => Ok (walk_one parent c)
  | None => match p with [] => Err NoEntry | _ => Ok parent end
  end.

(** [fs::write]: creates the file or replaces its content. *)
Definition fs_write (fs : FileSystem) (p data : bytes) : result unit IoKind * FileSystem :=
  match resolve fs p with
  | Err e => (Err e, fs)
  | Ok f =>
      if decide (f ∈ dirs fs) then (Err IsADirectory, fs)
      else (Ok tt, mkFS (cwd fs) (dirs fs) (<[f := data]> (files fs)))
  end.

(** [fs::read] *)
Definition fs_read (fs : FileSystem) (p : bytes) : result bytes IoKind :=
  let? f := resolve fs p in
  if decide (f ∈ dirs fs) then Err IsADirectory else ok_or NoEntry (files fs !! f).

(** [fs::create_dir_all(p).ok()]: makes the missing directories, stops at a file. *)
Fixpoint make_dirs (fs : FileSystem) (cur : list bytes) (cs : list bytes) : FileSystem :=
  match cs with
  | [] => fs
  | c :: cs =>
      let nxt := walk_one cur c in
      match files fs !! nxt with
      | Some _ => fs
      | None => make_dirs (mkFS (cwd fs) ({[nxt]} ∪ dirs fs) (files fs)) nxt cs
      end
  end.

Definition create_dir_all (fs : FileSystem) (p : bytes) : FileSystem :=
  make_dirs fs (path_start fs p) (components p).

(** ** The trait *)

Inductive KeyManagerError :=
| NotFound (s : bytes)
| AlreadyExists (s : bytes)
| InvalidSecurityLevel (n : Z)
| CryptoError (e : VerifierError)
| IoError (e : IoKind).

(** The random bytes drawn, in order. *)
Definition entropy := nat -> byte.

Class KeyManager (M : Type) := {
  generate_keypair : M -> entropy -> result (bytes * bytes) KeyManagerError;
  store_public_key : M -> bytes -> bytes -> FileSystem -> result unit KeyManagerError * FileSystem;
  store_private_key : M -> bytes -> bytes -> FileSystem -> result unit KeyManagerError * FileSystem;
  get_public_key : M -> bytes -> FileSystem -> result bytes KeyManagerError;
  get_private_key : M -> bytes -> FileSystem -> result bytes KeyManagerError;
  get_jose_format : M -> bytes -> gmap bytes bytes
}.

Definition write_key (path data : bytes) (fs : FileSystem) : result unit KeyManagerError * FileSystem :=
  let '(r, fs) := fs_write fs path data in (map_err IoError r, fs).

Definition read_key (path key_name : bytes) (fs : FileSystem) : result bytes KeyManagerError :=
  map_err (fun _ => NotFound key_name) (fs_read fs path).

(** ** The libraries that make key pairs *)

Class KeyGen := {
  dil_generate : Z -> entropy -> bytes * bytes;      (* level *)
  kyber_generate : Z -> entropy -> bytes * bytes;    (* 512, 768, 1024 *)
  ed_public_key : bytes -> bytes                     (* of a 32-byte seed *)
}.

Class KeyGenLaws `{KeyGen} `{CryptoLaws} := {
  dil_generate_ok level rng : level ∈ [2; 3; 5] ->
    dil_keypair level (fst (dil_generate level rng)) (snd (dil_generate level rng));
  ed_public_key_ok seed : len seed = 32 -> ed_keypair (ed_public_key seed) seed
}.

(** ** The three managers *)

Record DilithiumKeyManager := mkDilithiumKM { dkeys_dir : bytes; dsecurity_level : Z }.
Record KyberKeyManager := mkKyberKM { kkeys_dir : bytes; ksecurity_level : Z }.
Record Ed25519KeyManager := mkEdKM { ekeys_dir : bytes }.

Section managers.
Context `{CP : CryptoPrims} `{DL : DocLib} `{KG : KeyGen}.

Definition b64encode_key (key : bytes) : bytes := b64url_encode key.
Definition b64decode_key (s : bytes) : result bytes DecodeError := b64url_decode s.

Definition DilithiumKeyManager_new (keys_dir : bytes) (security_level : Z) (fs : FileSystem)
  : DilithiumKeyManager * FileSystem :=
  (mkDilithiumKM keys_dir security_level, create_dir_all fs keys_dir).

Definition dilithium_km_sign (m : DilithiumKeyManager) (private_key message : bytes)
  : result bytes KeyManagerError :=
  map_err CryptoError (dilithium_sign private_key message).

Definition dilithium_km_verify (m : DilithiumKeyManager) (public_key message signature : bytes)
  : result bool KeyManagerError :=
  map_err CryptoError (dilithium_verify public_key signature message).

#[global] Instance dilithium_km : KeyManager DilithiumKeyManager := {
  generate_keypair m rng :=
    if dsecurity_level m =? 2 then Ok (dil_generate 2 rng)
    else if dsecurity_level m =? 3 then Ok (dil_generate 3 rng)
    else if dsecurity_level m =? 5 then Ok (dil_generate 5 rng)
    else Err (InvalidSecurityLevel (dsecurity_level m));
  store_public_key m key_name public_key fs :=
    write_key (path_join (dkeys_dir m) (key_name ++ b! ".public")) public_key fs;
  store_private_key m key_name private_key fs :=
    write_key (path_join (dkeys_dir m) (key_name ++ b! ".private")) private_key fs;
  get_public_key m key_name fs :=
    read_key (path_join (dkeys_dir m) (key_name ++ b! ".public")) key_name fs;
  get_private_key m key_name fs :=
    read_key (path_join (dkeys_dir m) (key_name ++ b! ".private")) key_name fs;
  get_jose_format m public_key :=
    list_to_map [(b! "kty", b! "MLWE"); (b! "alg", b! "CRYDI" ++ fmt_Z (dsecurity_level m));
                 (b! "x", b64encode_key public_key)]
}.

Definition KyberKeyManager_new (keys_dir : bytes) (security_level : Z) (fs : FileSystem)
  : KyberKeyManager * FileSystem :=
  (mkKyberKM keys_dir security_level, create_dir_all fs keys_dir).

#[global] Instance kyber_km : KeyManager KyberKeyManager := {
  generate_keypair m rng :=
    if ksecurity_level m =? 512 then Ok (kyber_generate 512 rng)
    else if ksecurity_level m =? 768 then Ok (kyber_generate 768 rng)
    else if ksecurity_level m =? 1024 then Ok (kyber_generate 1024 rng)
    else Err (InvalidSecurityLevel (ksecurity_level m));
  store_public_key m key_name public_key fs :=
    write_key (path_join (kkeys_dir m) (key_name ++ b! ".public")) public_key fs;
  store_private_key m key_name private_key fs :=
    write_key (path_join (kkeys_dir m) (key_name ++ b! ".private")) private_key fs;
  get_public_key m key_name fs :=
    read_key (path_join (kkeys_dir m) (key_name ++ b! ".public")) key_name fs;
  get_private_key m key_name fs :=
    read_key (path_join (kkeys_dir m) (key_name ++ b! ".private")) key_name fs;
  get_jose_format m public_key :=
    list_to_map [(b! "kty", b! "KEM"); (b! "alg", b! "KYBER" ++ fmt_Z (ksecurity_level m));
                 (b! "x", b64encode_key public_key)]
}.

Definition Ed25519KeyManager_new (keys_dir : bytes) (fs : FileSystem) : Ed25519KeyManager * FileSystem :=
  (mkEdKM keys_dir, create_dir_all fs keys_dir).

Definition ed25519_km_sign (m : Ed25519KeyManager) (private_key message : bytes)
  : result bytes KeyManagerError :=
  map_err CryptoError (ed25519_sign private_key message).

Definition ed25519_km_verify (m : Ed25519KeyManager) (public_key message signature : bytes)
  : result bool KeyManagerError :=
  map_err CryptoError (ed25519_verify public_key signature message).

#[global] Instance ed25519_km : KeyManager Ed25519KeyManager := {
  generate_keypair m rng :=
    let seed := rng <$> seq 0 32 in
    Ok (ed_public_key seed, seed);
  store_public_key m key_name public_key fs :=
    write_key (path_join (ekeys_dir m) (key_name ++ b! ".public")) public_key fs;
  store_private_key m key_name private_key fs :=
    write_key (path_join (ekeys_dir m) (key_name ++ b! ".private")) private_key fs;
  get_public_key m key_name fs :=
    read_key (path_join (ekeys_dir m) (key_name ++ b! ".public")) key_name fs;
  get_private_key m key_name fs :=
    read_key (path_join (ekeys_dir m) (key_name ++ b! ".private")) key_name fs;
  get_jose_format m public_key :=
    list_to_map [(b! "kty", b! "OKP"); (b! "crv", b! "Ed25519"); (b! "x", b64encode_key public_key)]
}.

End managers.

(** What the storage side of a manager is: files of one directory. *)
Class FileBacked (M : Type) `{KeyManager M} := {
  km_dir : M -> bytes;
  store_public_file m n k fs : store_public_key m n k fs = write_key (path_join (km_dir m) (n ++ b! ".public")) k fs;
  store_private_file m n k fs : store_private_key m n k fs = write_key (path_join (km_dir m) (n ++ b! ".private")) k fs;
  get_public_file m n fs : get_public_key m n fs = read_key (path_join (km_dir m) (n ++ b! ".public")) n fs;
  get_private_file m n fs : get_private_key m n fs = read_key (path_join (km_dir m) (n ++ b! ".private")) n fs
}.

Section backed.
Context `{CP : CryptoPrims} `{DL : DocLib} `{KG : KeyGen}.
#[global] Program Instance dilithium_backed : FileBacked DilithiumKeyManager := {| km_dir := dkeys_dir |}.
Solve All Obligations with done.
#[global] Program Instance kyber_backed : FileBacked KyberKeyManager := {| km_dir := kkeys_dir |}.
Solve All Obligations with done.
#[global] Program Instance ed25519_backed : FileBacked Ed25519KeyManager := {| km_dir := ekeys_dir |}.
Solve All Obligations with done.
End backed.

(** ** Paths of keys *)

Definition plain (name : bytes) : Prop := SLASH ∉ name.

(** The directory that [dir] names. *)
Definition key_dir (fs : FileSystem) (dir : bytes) : result (list bytes) IoKind :=
  walk_dir fs (path_start fs dir) (components dir).

Lemma components_app p q : components (p ++ SLASH :: q) = components p ++ components q.
Proof. unfold components. by rewrite split_all_app, filter_app. Qed.

Lemma components_plain c : plain c -> c <> [] -> components c = [c].
Proof.
  intros Hc Hne. unfold components. rewrite split_all_one by done.
  by rewrite filter_cons_True.
Qed.

Lemma components_snoc dir c :
  plain c -> c <> [] -> components (path_join dir c) = components dir ++ [c].
Proof.
  intros Hc Hne. destruct c as [|a c]; [done|]. unfold path_join. cbn [head].
  rewrite decide_False by (apply not_elem_of_cons in Hc; naive_solver).
  destruct dir as [|x dir _] using rev_ind; [simpl; by rewrite components_plain|].
  rewrite last_snoc. case_decide as Hx.
  - subst x. rewrite <- app_assoc. simpl. rewrite !components_app.
    by rewrite (components_plain (a :: c)), app_nil_r.
  - by rewrite components_app, (components_plain (a :: c)).
Qed.

Lemma path_start_join fs dir c :
  plain c -> c <> [] -> path_start fs (path_join dir c) = path_start fs dir.
Proof.
  intros Hc Hne. destruct c as [|a c]; [done|]. unfold path_join, path_start. cbn [head].
  assert (a <> SLASH) as Ha by (apply not_elem_of_cons in Hc; naive_solver).
  rewrite (decide_False (P := a = SLASH)) by done.
  destruct dir as [|x dir]; [simpl; by rewrite !decide_False by congruence|].
  assert (is_Some (last (x :: dir))) as [y ->] by (by apply last_is_Some).
  by destruct (decide (y = SLASH)).
Qed.

Lemma resolve_join fs dir d c :
  plain c -> (2 < length c)%nat -> key_dir fs dir = Ok d -> resolve fs (path_join dir c) = Ok (d ++ [c]).
Proof.
  intros Hc Hl Hd. assert (c <> []) as Hne by (intros ->; simpl in Hl; lia).
  unfold resolve. rewrite components_snoc, path_start_join by done.
  rewrite length_app. cbn [length]. rewrite Nat.add_sub, take_app_length.
  unfold key_dir in Hd. rewrite Hd, last_snoc. simpl. unfold walk_one.
  rewrite !decide_False; [done|intros ->; simpl in Hl; lia..].
Qed.

Lemma walk_dir_same fs fs' cur cs d :
  dirs fs' = dirs fs -> walk_dir fs cur cs = Ok d -> walk_dir fs' cur cs = Ok d.
Proof.
  intros Ed. revert cur. induction cs as [|c cs IH]; intros cur; simpl; [done|]. rewrite Ed.
  case_decide; [apply IH|]. by case_match.
Qed.

Lemma key_dir_same fs fs' dir d :
  cwd fs' = cwd fs -> dirs fs' = dirs fs -> key_dir fs dir = Ok d -> key_dir fs' dir = Ok d.
Proof.
  intros Ec Ed. unfold key_dir, path_start. rewrite Ec. by apply walk_dir_same.
Qed.

(** Writing and reading a key file, given the directory [d] it is in. *)
Lemma write_key_join fs dir d c data :
  plain c -> (2 < length c)%nat -> key_dir fs dir = Ok d -> d ++ [c] ∉ dirs fs ->
  write_key (path_join dir c) data fs = (Ok tt, mkFS (cwd fs) (dirs fs) (<[d ++ [c] := data]> (files fs))).
Proof.
  intros Hc Hl Hd Hn. unfold write_key, fs_write. rewrite (resolve_join _ _ d) by done. by rewrite decide_False.
Qed.

Lemma read_key_join fs dir d c name :
  plain c -> (2 < length c)%nat -> key_dir fs dir = Ok d ->
  read_key (path_join dir c) name fs =
  if decide (d ++ [c] ∈ dirs fs) then Err (NotFound name) else ok_or (NotFound name) (files fs !! (d ++ [c])).
Proof.
  intros Hc Hl Hd. unfold read_key, fs_read. rewrite (resolve_join _ _ d) by done. simpl.
  case_decide; [done|]. by destruct (files fs !! (d ++ [c])).
Qed.

Lemma plain_file name suffix : plain name -> plain suffix -> plain (name ++ suffix).
Proof. unfold plain. rewrite elem_of_app. naive_solver. Qed.

Lemma public_file_ok name :
  plain name -> plain (name ++ b! ".public") /\ (2 < length (name ++ b! ".public"))%nat.
Proof.
  intros Hn. rewrite length_app. split; [|simpl; lia]. apply plain_file; [done|].
  apply (bool_decide_unpack _). vm_compute. exact I.
Qed.

Lemma private_file_ok name :
  plain name -> plain (name ++ b! ".private") /\ (2 < length (name ++ b! ".private"))%nat.
Proof.
  intros Hn. rewrite length_app. split; [|simpl; lia]. apply plain_file; [done|].
  apply (bool_decide_unpack _). vm_compute. exact I.
Qed.

(** A public and a private key never share a file, whatever their names. *)
Lemma public_private_differ (n n' : bytes) : n ++ b! ".public" <> n' ++ b! ".private".
Proof.
  intros E. apply (f_equal last) in E. revert E.
  change (b! ".public") with (b! ".publi" ++ b! "c"). change (b! ".private") with (b! ".privat" ++ b! "e").
  rewrite !app_assoc. change (b! "c") with [x63]. change (b! "e") with [x65]. by rewrite !last_snoc.
Qed.

(** Two key files of the same directory with equal names. *)
Ltac file_clash :=
  let E := fresh in
  intros E%(inj (app _)); apply (f_equal head) in E; injection E as E;
  first [ apply app_inv_tail in E; congruence
        | by apply public_private_differ in E
        | symmetry in E; by apply public_private_differ in E ].

(** [create_dir_all] makes the directory when no file is in the way. *)
Fixpoint no_file_on (fs : FileSystem) (cur cs : list bytes) : bool :=
  match cs with
  | [] => true
  | c :: cs =>
      let nxt := walk_one cur c in
      bool_decide (files fs !! nxt = None) && no_file_on fs nxt cs
  end.

Lemma no_file_on_same fs fs' cur cs : files fs' = files fs -> no_file_on fs' cur cs = no_file_on fs cur cs.
Proof. intros E. revert cur. induction cs as [|c cs IH]; intros cur; simpl; [done|]. by rewrite E, IH. Qed.

Lemma make_dirs_grows fs cur cs :
  dirs fs ⊆ dirs (make_dirs fs cur cs) /\ files (make_dirs fs cur cs) = files fs /\ cwd (make_dirs fs cur cs) = cwd fs.
Proof.
  revert fs cur. induction cs as [|c cs IH]; intros fs cur; simpl; [done|].
  case_match; [done|]. edestruct IH as (Hd & Hf & Hw). rewrite Hf, Hw. split; [|done].
  etrans; [|exact Hd]. simpl. set_solver.
Qed.

Lemma make_dirs_walk fs cur cs :
  no_file_on fs cur cs = true -> walk_dir (make_dirs fs cur cs) cur cs = Ok (foldl walk_one cur cs).
Proof.
  revert fs cur. induction cs as [|c cs IH]; intros fs cur; simpl; [done|].
  intros [Hf Hr]%andb_true_iff. apply bool_decide_eq_true in Hf. rewrite Hf.
  rewrite decide_True.
  - apply IH. by rewrite (no_file_on_same fs).
  - eapply (proj1 (make_dirs_grows _ _ _)). simpl. set_solver.
Qed.

Lemma create_dir_all_dir fs dir :
  no_file_on fs (path_start fs dir) (components dir) = true ->
  key_dir (create_dir_all fs dir) dir = Ok (foldl walk_one (path_start fs dir) (components dir)).
Proof.
  intros Hn. unfold key_dir, create_dir_all.
  replace (path_start (make_dirs fs _ _) dir) with (path_start fs dir).
  - by apply make_dirs_walk.
  - unfold path_start at 1 2. by rewrite (proj2 (proj2 (make_dirs_grows _ _ _))).
Qed.

(** Directories that exist are not created again. *)
Lemma make_dirs_existing fs cur cs d :
  no_file_on fs cur cs = true -> walk_dir fs cur cs = Ok d -> make_dirs fs cur cs = fs.
Proof.
  revert cur. induction cs as [|c cs IH]; intros cur; simpl; [done|].
  intros [Hf Hr]%andb_true_iff. apply bool_decide_eq_true in Hf. rewrite Hf. case_decide as Hd; [|done].
  intros Hw. replace (mkFS _ _ _) with fs; [by apply IH|].
  destruct fs as [w ds fl]. simpl in *. f_equal. set_solver.
Qed.

Lemma create_dir_all_again fs dir :
  no_file_on fs (path_start fs dir) (components dir) = true ->
  create_dir_all (create_dir_all fs dir) dir = create_dir_all fs dir.
Proof.
  intros Hn. pose proof (create_dir_all_dir fs dir Hn) as Hd. unfold key_dir in Hd.
  eapply make_dirs_existing; [|exact Hd]. unfold create_dir_all.
  destruct (make_dirs_grows fs (path_start fs dir) (components dir)) as (_ & Hf & Hc).
  rewrite (no_file_on_same fs) by done. unfold path_start at 1. by rewrite Hc.
Qed.

(** ** Claims *)

Section manager_claims.
Context {M : Type} `{FB : FileBacked M}.

Lemma stored_key_files (m : M) fs name pk sk d :
  plain name -> key_dir fs (km_dir m) = Ok d ->
  d ++ [name ++ b! ".public"] ∉ dirs fs -> d ++ [name ++ b! ".private"] ∉ dirs fs ->
  exists fs1 fs2, store_public_key m name pk fs = (Ok tt, fs1) /\
    store_private_key m name sk fs1 = (Ok tt, fs2) /\
    cwd fs2 = cwd fs /\ dirs fs2 = dirs fs /\
    files fs2 = <[d ++ [name ++ b! ".private"] := sk]> (<[d ++ [name ++ b! ".public"] := pk]> (files fs)).
Proof.
  intros Hn Hd H1 H2. destruct (public_file_ok name Hn) as [Pp Lp]. destruct (private_file_ok name Hn) as [Ps Ls].
  eexists _, _. rewrite store_public_file, store_private_file.
  rewrite (write_key_join fs _ d) by done. split; [reflexivity|].
  rewrite (write_key_join _ _ d); [|done|done|by apply (key_dir_same fs)|done].
  split; [reflexivity|]. by split_and!.
Qed.

Lemma loaded_keys (m : M) fs name pk sk d :
  plain name -> key_dir fs (km_dir m) = Ok d ->
  d ++ [name ++ b! ".public"] ∉ dirs fs -> d ++ [name ++ b! ".private"] ∉ dirs fs ->
  exists fs1 fs2, store_public_key m name pk fs = (Ok tt, fs1) /\
    store_private_key m name sk fs1 = (Ok tt, fs2) /\
    get_public_key m name fs2 = Ok pk /\ get_private_key m name fs2 = Ok sk.
Proof.
  intros Hn Hd H1 H2. destruct (stored_key_files m fs name pk sk d Hn Hd H1 H2) as (fs1 & fs2 & E1 & E2 & Ec & Ed & Ef).
  assert (key_dir fs2 (km_dir m) = Ok d) as Hd2 by exact (key_dir_same fs fs2 _ d Ec Ed Hd).
  exists fs1, fs2. split; [done|]. split; [done|].
  destruct (public_file_ok name Hn) as [Pp Lp]. destruct (private_file_ok name Hn) as [Ps Ls].
  rewrite get_public_file, get_private_file, !(read_key_join fs2 _ d) by done. rewrite Ed, Ef, !decide_False by done.
  by rewrite lookup_insert_eq, lookup_insert_ne, lookup_insert_eq by file_clash.
Qed.

(** Keys survive storage.  For each of the three managers, when the key
    directory exists and no directory has the name of the key files, storing a
    public and a private key under a name (without slashes) succeeds and loading
    them gives the same bytes; keys stored under other names are not touched,
    and a name under which nothing was stored gives [NotFound]. *)
Theorem stored_keys_load (m : M) (fs : FileSystem) (name pk sk : bytes) (d : list bytes) :
  plain name -> key_dir fs (km_dir m) = Ok d ->
  d ++ [name ++ b! ".public"] ∉ dirs fs -> d ++ [name ++ b! ".private"] ∉ dirs fs ->
  exists fs1 fs2, store_public_key m name pk fs = (Ok tt, fs1) /\
    store_private_key m name sk fs1 = (Ok tt, fs2) /\
    get_public_key m name fs2 = Ok pk /\ get_private_key m name fs2 = Ok sk /\
    forall name', plain name' -> name' <> name ->
      get_public_key m name' fs2 = get_public_key m name' fs /\
      get_private_key m name' fs2 = get_private_key m name' fs /\
      (files fs !! (d ++ [name' ++ b! ".public"]) = None ->
       get_public_key m name' fs2 = Err (NotFound name')).
Proof.
  intros Hn Hd H1 H2. destruct (loaded_keys m fs name pk sk d Hn Hd H1 H2) as (fs1 & fs2 & E1 & E2 & Hp & Hs).
  destruct (stored_key_files m fs name pk sk d Hn Hd H1 H2) as (fs1' & fs2' & E1' & E2' & Ec & Ed & Ef).
  rewrite E1 in E1'. simplify_eq/=. rewrite E2 in E2'. simplify_eq/=.
  assert (key_dir fs2' (km_dir m) = Ok d) as Hd2 by exact (key_dir_same fs fs2' _ d Ec Ed Hd).
  exists fs1', fs2'. do 4 (split; [done|]). intros name' Hn' Hne.
  destruct (public_file_ok name' Hn') as [Pp' Lp']. destruct (private_file_ok name' Hn') as [Ps' Ls'].
  rewrite !get_public_file, !get_private_file, !(read_key_join fs2' _ d), !(read_key_join fs _ d) by done.
  rewrite Ed, Ef, !lookup_insert_ne.
  - split; [done|]. split; [done|]. intros ->. by case_decide.
  - file_clash.
  - file_clash.
  - file_clash.
  - file_clash.
Qed.

End manager_claims.

Section identity_claims.
Context `{CP : CryptoPrims} `{DL : DocLib} `{KG : KeyGen} {io_error : Type}.

Lemma dilithium_generate (m : DilithiumKeyManager) rng :
  generate_keypair m rng =
  if decide (dsecurity_level m ∈ [2; 3; 5]) then Ok (dil_generate (dsecurity_level m) rng)
  else Err (InvalidSecurityLevel (dsecurity_level m)).
Proof.
  destruct m as [dir level]. simpl. destruct (Z.eqb_spec level 2) as [->|H2]; [done|].
  destruct (Z.eqb_spec level 3) as [->|H3]; [done|]. destruct (Z.eqb_spec level 5) as [->|H5]; [done|].
  rewrite decide_False; [done|]. rewrite !elem_of_cons, elem_of_nil. naive_solver.
Qed.

(** C27: the life of an identity.  A Dilithium manager over a directory it
    creates, for a supported level, generates a key pair, stores it and loads
    it; the loaded keys sign messages that verify; the [x] field of the public
    key's JWK decodes to the public key; and at level 2 the record built from a
    document with that field and the loaded private key is accepted by the
    record handler.  For any other level generation fails with that level. *)
Theorem managed_identity `{!CryptoLaws} `{!KeyGenLaws} `{!DocLaws} (h : DIDSignatureVerifierHandler io_error)
    (dir name : bytes) (level : Z) (rng : entropy) (fs fs0 : FileSystem) (m : DilithiumKeyManager) :
  let d := foldl walk_one (path_start fs dir) (components dir) in
  DilithiumKeyManager_new dir level fs = (m, fs0) ->
  no_file_on fs (path_start fs dir) (components dir) = true ->
  plain name -> d ++ [name ++ b! ".public"] ∉ dirs fs0 -> d ++ [name ++ b! ".private"] ∉ dirs fs0 ->
  match generate_keypair m rng with
  | Err e => e = InvalidSecurityLevel level /\ level ∉ [2; 3; 5]
  | Ok (pk, sk) => level ∈ [2; 3; 5] /\
      exists fs1 fs2, store_public_key m name pk fs0 = (Ok tt, fs1) /\
        store_private_key m name sk fs1 = (Ok tt, fs2) /\
        exists pk' sk' x, get_public_key m name fs2 = Ok pk' /\ get_private_key m name fs2 = Ok sk' /\
          (forall msg, exists s, dilithium_km_sign m sk' msg = Ok s /\
                                 dilithium_km_verify m pk' msg s = Ok true) /\
          get_jose_format m pk' !! (b! "x") = Some x /\
          decode_b64url (io_error := io_error) x = Ok pk /\
          (level = 2 -> forall doc v, json_from_slice doc = Ok v -> doc_key v = Some x ->
             handle_signature_verification h (sign_and_pack doc sk' (b! "Dilithium-2")) = Ok true)
  end.
Proof.
  intros d [= <- <-] Hfree Hn Hp1 Hp2. rewrite dilithium_generate. cbn [dsecurity_level].
  case_decide as Hl; [|done]. pose proof (dil_generate_ok level rng Hl) as Hk.
  destruct (dil_generate level rng) as [pk sk]. cbn [fst snd] in Hk. split; [done|].
  destruct (loaded_keys (FB := dilithium_backed) (mkDilithiumKM dir level) (create_dir_all fs dir) name pk sk d Hn
              (create_dir_all_dir fs dir Hfree) Hp1 Hp2) as (fs1 & fs2 & E1 & E2 & Hp & Hs).
  exists fs1, fs2. do 2 (split; [done|]). exists pk, sk, (b64url_encode pk).
  do 2 (split; [done|]). split_and!.
  - intros msg. destruct (dilithium_roundtrip level pk sk msg Hk) as [Es Ev].
    eexists. unfold dilithium_km_sign, dilithium_km_verify. rewrite Es. split; [done|]. by rewrite Ev.
  - vm_compute. reflexivity.
  - by apply decode_encoded.
  - intros -> doc v Hv Hx. apply (built_record_ok h doc pk sk Hk). by exists v.
Qed.

End identity_claims.

(** ** A concrete file system and concrete generators *)

Definition toy_fs : FileSystem := mkFS [b! "home"] {[ []; [b! "home"] ]} ∅.

Definition toy_keygen : KeyGen := {|
  dil_generate level rng :=
    (replicate (if level =? 2 then 1312 else if level =? 3 then 1952 else 2592) (rng 0%nat),
     replicate (if level =? 2 then 2560 else if level =? 3 then 4032 else 4896) (rng 0%nat));
  kyber_generate level rng := ([rng 0%nat], [rng 0%nat]);
  ed_public_key seed := seed
|}.

Definition toy_keygen_laws : @KeyGenLaws toy_keygen toy_prims toy_laws.
Proof.
  split.
  - intros level rng Hl. split.
    + rewrite !elem_of_cons, elem_of_nil in Hl. by destruct Hl as [->|[->|[->|[]]]].
    + cbn [dil_generate toy_keygen fst snd]. unfold len. rewrite !length_replicate.
      rewrite !elem_of_cons, elem_of_nil in Hl.
      destruct Hl as [->|[->|[->|[]]]]; apply (bool_decide_unpack _); vm_compute; exact I.
  - intros seed Hs. by split_and!.
Qed.

Lemma stored_keys_load_witness :
  exists fs1 fs2,
    store_public_key (KeyManager := @ed25519_km toy_doc toy_keygen) (mkEdKM []) (b! "alice") [x01] toy_fs = (Ok tt, fs1) /\
    store_private_key (KeyManager := @ed25519_km toy_doc toy_keygen) (mkEdKM []) (b! "alice") [x02] fs1 = (Ok tt, fs2) /\
    get_public_key (KeyManager := @ed25519_km toy_doc toy_keygen) (mkEdKM []) (b! "alice") fs2 = Ok [x01].
Proof.
  destruct (stored_keys_load (FB := @ed25519_backed toy_doc toy_keygen) (mkEdKM []) toy_fs (b! "alice") [x01] [x02]
              [b! "home"]) as (fs1 & fs2 & E1 & E2 & E3 & _).
  - apply (bool_decide_unpack _). vm_compute. exact I.
  - vm_compute. reflexivity.
  - apply (bool_decide_unpack _). vm_compute. exact I.
  - apply (bool_decide_unpack _). vm_compute. exact I.
  - exists fs1, fs2. split; [exact E1|]. split; [exact E2|exact E3].
Defined.

Definition toy_identity : DilithiumKeyManager * FileSystem := DilithiumKeyManager_new (b! "keys/a") 2 toy_fs.

Lemma managed_identity_witness :
  exists pk sk s, @dilithium_km_sign toy_prims (fst toy_identity) sk (b! "hello") = Ok s /\
    @dilithium_km_verify toy_prims (fst toy_identity) pk (b! "hello") s = Ok true.
Proof.
  pose proof (@managed_identity toy_prims toy_doc toy_keygen unit toy_laws toy_keygen_laws toy_doc_laws toy_handler
    (b! "keys/a") (b! "alice") 2 (fun _ => x07) toy_fs (snd toy_identity) (fst toy_identity)) as H.
  cbv zeta in H. specialize (H eq_refl eq_refl).
  destruct (generate_keypair (KeyManager := @dilithium_km toy_doc toy_keygen) (fst toy_identity) (fun _ => x07))
    as [[pk sk]|e] eqn:Eg; [|discriminate Eg].
  destruct H as (_ & fs1 & fs2 & E1 & E2 & pk' & sk' & x & Hp & _ & Hs & _).
  - apply (bool_decide_unpack _). vm_compute. exact I.
  - apply (bool_decide_unpack _). vm_compute. exact I.
  - apply (bool_decide_unpack _). vm_compute. exact I.
  - destruct (Hs (b! "hello")) as (s & Hok & Hv). exists pk', sk', s. split; [exact Hok|exact Hv].
Defined.
