(* ===== verification/SigCache.v ===== *)
(** * SigCache: the cache of signature verdicts

    Models [src/src/signature_cache.rs].  The moka cache is the class [Moka]:
    a lookup may miss at any time (eviction by size, expiry after
    an hour), but a hit returns the value last inserted for that key.  SHA-256
    is the function [sha256] of the class [Hashes] (with SHA-1, used by
    [digest] of [src/src/utils.rs]). *)
From S2P Require Import Prelude.
Local Open Scope Z_scope.

Class Hashes := {
  sha1 : bytes -> bytes;
  sha256 : bytes -> bytes
}.

(** Output sizes, which the array types of the code state. *)
Class HashLaws `{Hashes} := {
  sha1_length l : length (sha1 l) = 20%nat;
  sha256_length l : length (sha256 l) = 32%nat
}.

(** [digest(s)] and [digest_bytes(data)] *)
Definition digest_bytes `{Hashes} (l : bytes) : bytes := sha1 l.
Definition digest `{Hashes} (s : bytes) : bytes := digest_bytes s.

Class Moka (C : Type) := {
  moka_new : Z -> Z -> C;                  (* capacity, seconds to live *)
  moka_get : Z -> C -> bytes -> option bool;
  moka_insert : Z -> C -> bytes -> bool -> C;
  moka_count : C -> Z;
  (** the values last inserted *)
  moka_log : C -> gmap bytes bool;
  moka_log_new cap live : moka_log (moka_new cap live) = ∅;
  moka_log_insert now c k b : moka_log (moka_insert now c k b) = <[k := b]> (moka_log c);
  moka_get_log now c k b : moka_get now c k = Some b -> moka_log c !! k = Some b
}.

Section sig_cache.
Context {C : Type} `{Moka C} `{Hashes}.

Record SignatureCache := mkSigCache { cache : C }.

Definition SignatureCache_new (max_capacity : Z) : SignatureCache :=
  mkSigCache (moka_new max_capacity 3600).

Definition compute_key (value : bytes) : bytes := sha256 value.

Definition get_by_key (now : Z) (s : SignatureCache) (key : bytes) : option bool :=
  moka_get now (cache s) key.

Definition insert_by_key (now : Z) (s : SignatureCache) (key : bytes) (result : bool) : SignatureCache :=
  mkSigCache (moka_insert now (cache s) key result).

Definition cache_get (now : Z) (s : SignatureCache) (value : bytes) : option bool :=
  moka_get now (cache s) (compute_key value).

Definition cache_insert (now : Z) (s : SignatureCache) (value : bytes) (result : bool) : SignatureCache :=
  mkSigCache (moka_insert now (cache s) (compute_key value) result).

Definition entry_count (s : SignatureCache) : Z := moka_count (cache s).

(** Every verdict held is a positive one, for a value with that hash which
    satisfies [good]. *)
Definition cache_sound (good : bytes -> Prop) (s : SignatureCache) : Prop :=
  forall k b, moka_log (cache s) !! k = Some b -> b = true /\ exists v, compute_key v = k /\ good v.

Lemma cache_sound_new good cap : cache_sound good (SignatureCache_new cap).
Proof. intros k b Hk. simpl in Hk. rewrite moka_log_new in Hk. done. Qed.

Lemma cache_sound_insert good now s v :
  cache_sound good s -> good v -> cache_sound good (insert_by_key now s (compute_key v) true).
Proof.
  intros Hs Hv k b. simpl. rewrite moka_log_insert, lookup_insert_Some.
  intros [[<- <-]|[_ Hk]]; [eauto|by apply Hs].
Qed.

Lemma cache_sound_get good now s v b :
  cache_sound good s -> get_by_key now s (compute_key v) = Some b ->
  b = true /\ exists v', compute_key v' = compute_key v /\ good v'.
Proof. intros Hs Hg%moka_get_log. by apply Hs. Qed.

End sig_cache.
Arguments SignatureCache C : clear implicits.

(** ** A concrete cache: entries with insertion times, refused when full *)

Record SimpleCache := mkSimple {
  entries : gmap bytes (bool * Z);
  history : gmap bytes bool;
  capacity : Z;
  time_to_live : Z
}.

Definition simple_get (now : Z) (c : SimpleCache) (k : bytes) : option bool :=
  match entries c !! k with
  | Some e =>
      if (now - snd e <=? time_to_live c * 1000000000) && bool_decide (history c !! k = Some (fst e))
      then Some (fst e) else None
  | None => None
  end.

Definition simple_insert (now : Z) (c : SimpleCache) (k : bytes) (b : bool) : SimpleCache :=
  mkSimple (if Z.of_nat (size (entries c)) <? capacity c then <[k := (b, now)]> (entries c) else entries c)
    (<[k := b]> (history c)) (capacity c) (time_to_live c).

Lemma simple_get_log now c k b : simple_get now c k = Some b -> history c !! k = Some b.
Proof.
  unfold simple_get. destruct (entries c !! k) as [e|]; [|done].
  destruct (_ <=? _); [|done]. simpl. case_bool_decide; [|done]. by intros [= <-].
Qed.

#[global] Instance simple_cache : Moka SimpleCache := {
  moka_new cap live := mkSimple ∅ ∅ cap live;
  moka_get := simple_get;
  moka_insert := simple_insert;
  moka_count c := Z.of_nat (size (entries c));
  moka_log := history;
  moka_log_new _ _ := eq_refl;
  moka_log_insert _ _ _ _ := eq_refl;
  moka_get_log := simple_get_log
}.
