(* ===== verification/Sha.v ===== *)
(** * Sha: the standard hash functions

    The hash functions are parameters of the development ([Hashes] of
    [SigCache.v]), since their code is in the crates [sha1] and [sha2].  What these
    crates document is that they compute the functions of FIPS 180-4.  This file
    gives the standard's definitions as an instance, so that the model can be
    evaluated on the identifiers the program really uses; the test vectors at the
    end are those of the standard. *)
From S2P Require Import Prelude SigCache.
Local Open Scope Z_scope.

(** ** Words of 32 bits *)

Definition low32 (x : Z) : Z := Z.land x 0xffffffff.
Lemma low32_wrap x : low32 x = wrap 32 x.
Proof. exact (Z.land_ones x 32 ltac:(lia)). Qed.

Definition add32 (x y : Z) : Z := low32 (x + y).
Definition not32 (x : Z) : Z := Z.lxor 0xffffffff x.
Definition rotl (n x : Z) : Z := Z.lor (low32 (Z.shiftl x n)) (Z.shiftr x (32 - n)).
Definition rotr (n x : Z) : Z := rotl (32 - n) x.
Definition ch (x y z : Z) : Z := Z.lxor (Z.land x y) (Z.land (not32 x) z).
Definition maj (x y z : Z) : Z := Z.lxor (Z.land x y) (Z.lxor (Z.land x z) (Z.land y z)).
Definition parity (x y z : Z) : Z := Z.lxor x (Z.lxor y z).

(** Words as they are counted from the end of a list that grows at its head. *)
Definition back (ws : list Z) (n : nat) : Z := nth (n - 1) ws 0.

Fixpoint words (n : nat) (l : bytes) : list Z :=
  match n with
  | O => []
  | S n => be_value (take 4 l) :: words n (drop 4 l)
  end.

Definition word_bytes (ws : list Z) : bytes := mbind (be_bytes 4) ws.

Lemma word_bytes_length ws : length (word_bytes ws) = (4 * length ws)%nat.
Proof.
  induction ws as [|w ws IH]; [done|]. unfold word_bytes. rewrite bind_cons, length_app, be_bytes_length.
  fold (word_bytes ws). rewrite IH. cbn [length]. lia.
Qed.

(** The message, a byte 0x80, zeros to 56 modulo 64 and the length in bits. *)
Definition pad (l : bytes) : bytes :=
  let n := length l in
  l ++ [Byte.x80] ++ replicate ((119 - n mod 64) mod 64)%nat Byte.x00 ++ be_bytes 8 (8 * Z.of_nat n).

Fixpoint blocks (fuel : nat) (l : bytes) : list (list Z) :=
  match fuel with
  | O => []
  | S fuel => match l with [] => [] | _ => words 16 (take 64 l) :: blocks fuel (drop 64 l) end
  end.

(** The schedule of a block: [n] more words before [ws], newest first. *)
Fixpoint extend (next : list Z -> Z) (n : nat) (ws : list Z) : list Z :=
  match n with
  | O => ws
  | S n => extend next n (next ws :: ws)
  end.

Definition schedule (next : list Z -> Z) (rounds : nat) (block : list Z) : list Z :=
  reverse (extend next (rounds - 16) (reverse block)).

(** A compression: the rounds, whose result is added to the state word by word. *)
Definition compress {K} (round : list Z -> K * Z -> list Z) (ks : list K) (next : list Z -> Z)
    (st : list Z) (block : list Z) : list Z :=
  zip_with add32 st (fold_left round (zip ks (schedule next (length ks) block)) st).

Definition run_blocks (f : list Z -> list Z -> list Z) (init : list Z) (l : bytes) : bytes :=
  let p := pad l in
  word_bytes (fold_left f (blocks (length p) p) init).

(** ** SHA-1 *)

Definition sha1_next (ws : list Z) : Z :=
  rotl 1 (Z.lxor (Z.lxor (back ws 3) (back ws 8)) (Z.lxor (back ws 14) (back ws 16))).

Definition sha1_ks : list ((Z -> Z -> Z -> Z) * Z) :=
  replicate 20 (ch, 0x5a827999) ++ replicate 20 (parity, 0x6ed9eba1) ++
  replicate 20 (maj, 0x8f1bbcdc) ++ replicate 20 (parity, 0xca62c1d6).

Definition sha1_round (st : list Z) (kw : ((Z -> Z -> Z -> Z) * Z) * Z) : list Z :=
  match st with
  | [a; b; c; d; e] =>
      [add32 (rotl 5 a) (add32 (fst (fst kw) b c d) (add32 e (add32 (snd (fst kw)) (snd kw))));
       a; rotl 30 b; c; d]
  | _ => st
  end.

Definition sha1_init : list Z := [0x67452301; 0xefcdab89; 0x98badcfe; 0x10325476; 0xc3d2e1f0].

Definition sha1_fn (l : bytes) : bytes := run_blocks (compress sha1_round sha1_ks sha1_next) sha1_init l.

(** ** SHA-256 *)

Definition sha256_next (ws : list Z) : Z :=
  let s0 x := Z.lxor (rotr 7 x) (Z.lxor (rotr 18 x) (Z.shiftr x 3)) in
  let s1 x := Z.lxor (rotr 17 x) (Z.lxor (rotr 19 x) (Z.shiftr x 10)) in
  add32 (s1 (back ws 2)) (add32 (back ws 7) (add32 (s0 (back ws 15)) (back ws 16))).

(** The constants are the first 32 bits of the fractional parts of the cube roots
    and the square roots of the first primes. *)
Fixpoint first_primes (fuel n : nat) (c : Z) (found : list Z) : list Z :=
  match fuel with
  | O => found
  | S fuel =>
      if (length found =? n)%nat then found
      else if forallb (fun p => negb (c mod p =? 0)) found then first_primes fuel n (c + 1) (found ++ [c])
      else first_primes fuel n (c + 1) found
  end.

(** The largest number from [r], below [r + 2 ^ bits], whose cube is at most [x]. *)
Fixpoint cube_root (bits : nat) (r x : Z) : Z :=
  match bits with
  | O => r
  | S bits =>
      let r' := r + 2 ^ Z.of_nat bits in
      cube_root bits (if r' ^ 3 <=? x then r' else r) x
  end.

Definition sha256_ks : list Z :=
  Eval vm_compute in (fun p => low32 (cube_root 36 0 (p * 2 ^ 96))) <$> first_primes 400 64 2 [].

Definition sha256_round (st : list Z) (kw : Z * Z) : list Z :=
  match st with
  | [a; b; c; d; e; f; g; h] =>
      let S0 := Z.lxor (rotr 2 a) (Z.lxor (rotr 13 a) (rotr 22 a)) in
      let S1 := Z.lxor (rotr 6 e) (Z.lxor (rotr 11 e) (rotr 25 e)) in
      let t1 := add32 h (add32 S1 (add32 (ch e f g) (add32 (fst kw) (snd kw)))) in
      [add32 t1 (add32 S0 (maj a b c)); a; b; c; add32 d t1; e; f; g]
  | _ => st
  end.

Definition sha256_init : list Z :=
  Eval vm_compute in (fun p => low32 (Z.sqrt (p * 2 ^ 64))) <$> first_primes 400 8 2 [].

Definition sha256_fn (l : bytes) : bytes := run_blocks (compress sha256_round sha256_ks sha256_next) sha256_init l.

(** ** The instance *)

#[export] Instance fips_hashes : Hashes := { sha1 := sha1_fn; sha256 := sha256_fn }.

Lemma fold_left_length {B} (f : list Z -> B -> list Z) xs n st :
  (forall st x, length st = n -> length (f st x) = n) ->
  length st = n -> length (fold_left f xs st) = n.
Proof. intros Hf. revert st. induction xs as [|x xs IH]; intros st Hst; [done|]. cbn. auto. Qed.

Lemma compress_length {K} (round : list Z -> K * Z -> list Z) ks next n st block :
  (forall st x, length st = n -> length (round st x) = n) ->
  length st = n -> length (compress round ks next st block) = n.
Proof.
  intros Hr Hst. unfold compress. rewrite length_zip_with, (fold_left_length round _ n) by done. lia.
Qed.

Lemma run_blocks_length f init l n :
  (forall st x, length st = n -> length (f st x) = n) ->
  length init = n -> length (run_blocks f init l) = (4 * n)%nat.
Proof.
  intros Hf Hi. unfold run_blocks. rewrite word_bytes_length. f_equal. by apply fold_left_length.
Qed.

Lemma sha1_round_length st x : length st = 5%nat -> length (sha1_round st x) = 5%nat.
Proof. unfold sha1_round. by repeat (destruct st as [|? st]; try done). Qed.

Lemma sha256_round_length st x : length st = 8%nat -> length (sha256_round st x) = 8%nat.
Proof. unfold sha256_round. by repeat (destruct st as [|? st]; try done). Qed.

#[export] Instance fips_hash_laws : HashLaws.
Proof.
  split; intros l.
  - apply (run_blocks_length _ _ _ 5); [|done]. intros st x. apply compress_length, sha1_round_length.
  - apply (run_blocks_length _ _ _ 8); [|done]. intros st x. apply compress_length, sha256_round_length.
Qed.

(** ** The test vectors of the standard *)

Definition two_blocks : bytes := b! "abcdbcdecdefdefgefghfghighijhijkijkljklmklmnlmnomnopnopq".

Example sha1_vectors :
  be_value (sha1 (b! "abc")) = 0xa9993e364706816aba3e25717850c26c9cd0d89d /\
  be_value (sha1 two_blocks) = 0x84983e441c3bd26ebaae4aa1f95129e5e54670f1 /\
  be_value (sha1 []) = 0xda39a3ee5e6b4b0d3255bfef95601890afd80709.
Proof. repeat split; vm_compute; reflexivity. Qed.

Example sha256_vectors :
  be_value (sha256 (b! "abc")) = 0xba7816bf8f01cfea414140de5dae2223b00361a396177a9cb410ff61f20015ad /\
  be_value (sha256 two_blocks) = 0x248d6a61d20638b8e5c026930c3e6039a33ce45964ff2167f6ecedd419db06c1 /\
  be_value (sha256 []) = 0xe3b0c44298fc1c149afbf4c8996fb92427ae41e4649b934ca495991b7852b855.
Proof. repeat split; vm_compute; reflexivity. Qed.
