(* ===== verification/UnitTests.v ===== *)
(** * UnitTests: the repository's own tests, run on the model

    The unit tests of [src/src/utils.rs], [node.rs], [routing.rs], [storage.rs] and
    [crypto/signature_verifier.rs] and the integration tests
    [src/tests/routing_tests.rs] and [src/tests/storage_tests.rs], translated and
    evaluated: identifiers are SHA-1 digests of the names the tests use
    ([Sha.v]), so the tables, heaps and stores are those of the test runs.  The
    tests of the factories, verifiers and key managers draw keys; they are shown to
    pass for all draws and any libraries that keep their laws.

    A test is a boolean, the conjunction of its assertions; an assertion about a
    table that an insertion may fail to return is [asserted].  A test starts at a
    time given to it, and [sleep] adds to it. *)
From S2P Require Import Prelude Node Routing RoutingTable RoutingTableSpec Utils Storage Crypto AuthHandler KeyManager SigCache Sha.
Local Open Scope Z_scope.

Definition asserted (r : option bool) : bool := default false r.

Definition millis (n : Z) : Z := n * 1000000.

Definition any_id (n : Node) (l : list Node) : bool := existsb (fun m => bool_decide (id m = id n)) l.

(** [for i in 0..n { ... format!("<prefix>{}", i) ... }] *)
Definition numbered (prefix : bytes) (n : nat) : list bytes :=
  (fun i => prefix ++ fmt_Z (Z.of_nat i)) <$> seq 0 n.

(** Successive calls of [add_contact]. *)
Definition add_contacts (now : Z) (t : RoutingTable) (l : list Node) : option RoutingTable :=
  foldl (fun ot n => t ← ot; fst <$> add_contact INSERT_FUEL now t n) (Some t) l.

Definition ascending (l : list Z) : bool :=
  bool_decide (l = sort_by_key (fun x => x) l).

Section tests.
Context `{Hashes}.

Definition make_node (key : bytes) : Node := from_id (digest key).

(** ** [utils.rs] *)

Definition test_digest_is_20_bytes : bool := (length (digest (b! "hello")) =? ID_LEN)%nat.

Definition test_shared_prefix_empty : bool := bool_decide (shared_prefix [] = []).

Definition test_shared_prefix_common : bool :=
  let a := b! "hello world" in
  let b := b! "hello rust" in
  bool_decide (shared_prefix [a; b] = b! "hello ").

Definition test_bytes_to_bit_string : bool := bool_decide (bytes_to_bit_string [byte_of_Z 177] = b! "10110001").

Definition utils_tests : list bool :=
  [test_digest_is_20_bytes; test_shared_prefix_empty; test_shared_prefix_common; test_bytes_to_bit_string].

(** ** [node.rs] *)

Definition heap_respects_maxsize : bool :=
  let pivot := make_node (b! "pivot") in
  let h := foldl push_one (NodeHeap_new pivot 3) (make_node <$> numbered [] 10) in
  (length (heap h) <=? 3)%nat.

Definition heap_no_duplicates : bool :=
  let pivot := make_node (b! "pivot") in
  let h := NodeHeap_new pivot 10 in
  let node := make_node (b! "a") in
  let h := push_one h node in
  let h := push_one h node in
  (length (heap h) =? 1)%nat.

Definition contacted_tracking : bool :=
  let pivot := make_node (b! "pivot") in
  let h := NodeHeap_new pivot 10 in
  let node := make_node (b! "peer") in
  let h := push_one h node in
  negb (have_contacted_all h) &&
  let h := mark_contacted h node in
  have_contacted_all h.

Definition node_tests : list bool := [heap_respects_maxsize; heap_no_duplicates; contacted_tracking].

(** ** [routing.rs] *)

Section routing.
Context (now : Z).

Definition add_and_find : bool :=
  let rt := RoutingTable_new now (make_node (b! "local")) 3 in
  let peer := make_node (b! "peer") in
  asserted (
    rt ← add_contacts now rt [peer];
    let found := snd (find_neighbors now rt (make_node (b! "target")) None) in
    Some (negb (bool_decide (found = [])) && any_id peer found)).

Definition ignores_self : bool :=
  let local := make_node (b! "local") in
  asserted (
    rt ← add_contacts now (RoutingTable_new now local 3) [local];
    let found := snd (find_neighbors now rt local None) in
    Some (negb (any_id local found))).

Definition test_remove_contact : bool :=
  let peer := make_node (b! "peer") in
  asserted (
    rt ← add_contacts now (RoutingTable_new now (make_node (b! "local")) 20) [peer];
    let rt := remove_contact rt peer in
    Some (bool_decide (snd (find_neighbors now rt peer None) = []))).

Definition replacement_node_promoted_on_eviction : bool :=
  let peer_a := make_node (b! "peer_a") in
  let peer_b := make_node (b! "peer_b") in
  asserted (
    rt ← add_contacts now (RoutingTable_new now (make_node (b! "local")) 1) [peer_a; peer_b];
    let rt := remove_contact rt peer_a in
    let found := snd (find_neighbors now rt (make_node (b! "target")) None) in
    Some (any_id peer_b found)).

Definition bucket_splits_on_overflow : bool :=
  let ksize := 2%nat in
  asserted (
    rt ← add_contacts now (RoutingTable_new now (make_node (b! "local")) ksize)
           (make_node <$> numbered (b! "peer") 20);
    let found := snd (find_neighbors now rt (make_node (b! "target")) None) in
    Some (length found <=? ksize)%nat).

Definition find_neighbors_excludes_target : bool :=
  let target := make_node (b! "target") in
  asserted (
    rt ← add_contacts now (RoutingTable_new now (make_node (b! "local")) 20) [target];
    rt ← add_contacts now rt (make_node <$> numbered (b! "peer") 5);
    let found := snd (find_neighbors now rt target None) in
    Some (negb (any_id target found))).

Definition touch_last_updated_prevents_lonely : bool :=
  bool_decide (lonely_buckets now (RoutingTable_new now (make_node (b! "local")) 3) = []).

Definition add_node_does_not_reset_lonely_timer : bool :=
  let b := KBucket_new now 0 U128_MAX 20 in
  let t_before := last_updated b in
  let b := fst (add_node b (make_node (b! "x"))) in
  let t_after := last_updated b in
  t_before =? t_after.

Definition touch_last_updated_resets_timer : bool :=
  let b := KBucket_new now 0 U128_MAX 20 in
  let t_before := last_updated b in
  let b := touch_last_updated (now + from_secs 1) b in
  let t_after := last_updated b in
  t_before <? t_after.

Definition traverser_visits_all_buckets : bool :=
  let ksize := 20%nat in
  asserted (
    rt ← add_contacts now (RoutingTable_new now (make_node (b! "local")) ksize)
           (make_node <$> numbered (b! "peer") 15);
    let found := snd (find_neighbors now rt (make_node (b! "target")) None) in
    Some (negb (bool_decide (found = [])) && (length found <=? ksize)%nat)).

Definition routing_unit_tests : list bool :=
  [add_and_find; ignores_self; test_remove_contact; replacement_node_promoted_on_eviction;
   bucket_splits_on_overflow; find_neighbors_excludes_target; touch_last_updated_prevents_lonely;
   add_node_does_not_reset_lonely_timer; touch_last_updated_resets_timer; traverser_visits_all_buckets].

End routing.

(** ** [tests/routing_tests.rs] *)

Definition make_node_with_addr (label : bytes) (ip : string) (port : Z) : Node :=
  Node_new (digest label) (Some ip) (Some port).

Section routing_tests.
Context (now : Z).

Definition test_add_single_peer_and_find : bool :=
  let peer := make_node (b! "peer_a") in
  asserted (
    rt ← add_contacts now (RoutingTable_new now (make_node (b! "local")) 20) [peer];
    let found := snd (find_neighbors now rt (make_node (b! "target")) None) in
    Some (negb (bool_decide (found = [])) && any_id peer found)).

Definition test_local_node_never_added : bool :=
  let local := make_node (b! "local") in
  asserted (
    rt ← add_contacts now (RoutingTable_new now local 20) [local];
    let found := snd (find_neighbors now rt local None) in
    Some (negb (any_id local found))).

Definition test_find_neighbors_capped_at_k : bool :=
  let ksize := 5%nat in
  asserted (
    rt ← add_contacts now (RoutingTable_new now (make_node (b! "local")) ksize)
           (make_node <$> numbered (b! "p") 50);
    let found := snd (find_neighbors now rt (make_node (b! "target")) None) in
    Some (length found <=? ksize)%nat).

Definition test_find_neighbors_sorted_by_xor_distance : bool :=
  let target := make_node (b! "target") in
  asserted (
    rt ← add_contacts now (RoutingTable_new now (make_node (b! "local")) 20)
           (make_node <$> numbered (b! "node") 10);
    let found := snd (find_neighbors now rt target None) in
    Some (ascending ((fun n => distance_to n target) <$> found))).

Definition test_find_neighbors_exclusion_filter : bool :=
  let excluded := make_node (b! "excluded") in
  asserted (
    rt ← add_contacts now (RoutingTable_new now (make_node (b! "local")) 20)
           [excluded; make_node (b! "other1"); make_node (b! "other2")];
    let found := snd (find_neighbors now rt (make_node (b! "target")) (Some excluded)) in
    Some (negb (any_id excluded found))).

Definition test_remove_contact_integration : bool :=
  let peer := make_node (b! "remove_me") in
  asserted (
    rt ← add_contacts now (RoutingTable_new now (make_node (b! "local")) 20) [peer];
    let rt := remove_contact rt peer in
    let found := snd (find_neighbors now rt peer None) in
    Some (negb (any_id peer found))).

Definition test_is_new_node_detection : bool :=
  let rt := RoutingTable_new now (make_node (b! "local")) 20 in
  let peer := make_node (b! "known") in
  is_new_node rt peer &&
  asserted (rt ← add_contacts now rt [peer]; Some (negb (is_new_node rt peer))).

Definition test_bucket_splits_on_overflow : bool :=
  let ksize := 3%nat in
  asserted (
    rt ← add_contacts now (RoutingTable_new now (make_node (b! "local_split")) ksize)
           (make_node <$> numbered (b! "s") 30);
    let '(rt, found) := find_neighbors now rt (make_node (b! "any_target")) None in
    Some ((length found <=? ksize)%nat && (1 <? length (buckets rt))%nat)).

Definition test_fresh_table_has_no_lonely_buckets : bool :=
  bool_decide (lonely_buckets now (RoutingTable_new now (make_node (b! "lonely")) 20) = []).

Definition test_bucket_not_lonely_after_add : bool :=
  let ksize := 4%nat in
  asserted (
    rt ← add_contacts now (RoutingTable_new now (make_node (b! "local_full")) ksize)
           [make_node (b! "p1"); make_node (b! "p2")];
    let found := snd (find_neighbors now rt (make_node (b! "any")) None) in
    Some (bool_decide (lonely_buckets now rt = []) && (2 <=? length found)%nat)).

End routing_tests.

Definition test_distance_to_self_is_zero : bool :=
  let n := make_node (b! "x") in distance_to n n =? 0.

Definition test_distance_is_symmetric : bool :=
  let a := make_node (b! "alpha") in
  let b := make_node (b! "beta") in
  distance_to a b =? distance_to b a.

Definition test_distinct_nodes_have_nonzero_distance : bool :=
  let a := make_node (b! "node_a") in
  let b := make_node (b! "node_b") in
  negb (distance_to a b =? 0).

Definition test_node_address : bool :=
  let with_addr := make_node_with_addr (b! "n") "10.0.0.1" 1234 in
  let no_addr := make_node (b! "no_addr") in
  bool_decide (address with_addr = Some ("10.0.0.1"%string, 1234)) && bool_decide (address no_addr = None).

Definition test_nodeheap_maxsize_enforced : bool :=
  let h := foldl push_one (NodeHeap_new (make_node (b! "pivot")) 3) (make_node <$> numbered (b! "h") 20) in
  (NodeHeap_len h <=? 3)%nat.

Definition test_nodeheap_no_duplicates : bool :=
  let node := make_node (b! "dup") in
  let h := foldl push_one (NodeHeap_new (make_node (b! "pivot")) 10) [node; node] in
  (NodeHeap_len h =? 1)%nat.

Definition test_nodeheap_iter_distance_order : bool :=
  let pivot := make_node (b! "pivot_ord") in
  let h := foldl push_one (NodeHeap_new pivot 10) (make_node <$> numbered (b! "ord") 5) in
  ascending ((fun n => distance_to n pivot) <$> to_vec h).

Definition test_nodeheap_contact_tracking : bool :=
  let peer := make_node (b! "ct_peer") in
  let h := push_one (NodeHeap_new (make_node (b! "pivot_ct")) 10) peer in
  negb (have_contacted_all h) && have_contacted_all (mark_contacted h peer).

Definition test_nodeheap_get_uncontacted_filters_correctly : bool :=
  let a := make_node (b! "uc_a") in
  let b := make_node (b! "uc_b") in
  let h := foldl push_one (NodeHeap_new (make_node (b! "pivot_uc")) 10) [a; b] in
  let uncontacted := get_uncontacted (mark_contacted h a) in
  bool_decide (id <$> uncontacted = [id b]).

Definition test_nodeheap_remove : bool :=
  let a := make_node (b! "rm_a") in
  let b := make_node (b! "rm_b") in
  let h := foldl push_one (NodeHeap_new (make_node (b! "pivot_rm")) 10) [a; b] in
  let h := heap_remove h [id a] in
  negb (NodeHeap_contains h a) && NodeHeap_contains h b.

Definition routing_integration_tests (now : Z) : list bool :=
  [test_add_single_peer_and_find now; test_local_node_never_added now; test_find_neighbors_capped_at_k now;
   test_find_neighbors_sorted_by_xor_distance now; test_find_neighbors_exclusion_filter now;
   test_remove_contact_integration now; test_is_new_node_detection now; test_bucket_splits_on_overflow now;
   test_fresh_table_has_no_lonely_buckets now; test_bucket_not_lonely_after_add now;
   test_distance_to_self_is_zero; test_distance_is_symmetric; test_distinct_nodes_have_nonzero_distance;
   test_node_address; test_nodeheap_maxsize_enforced; test_nodeheap_no_duplicates;
   test_nodeheap_iter_distance_order; test_nodeheap_contact_tracking;
   test_nodeheap_get_uncontacted_filters_correctly; test_nodeheap_remove].

End tests.

(** ** [storage.rs] and [tests/storage_tests.rs] *)

Section storage.
Context (now : Z).

Definition stores (now : Z) (s : ForgetfulStorage) (k : bytes) (v : option bytes) : bool :=
  bool_decide (get now s k = v).

Definition set_and_get : bool :=
  let s := set now (ForgetfulStorage_new (-1)) (b! "key") (b! "value") in
  stores now s (b! "key") (Some (b! "value")).

Definition test_delete : bool :=
  let s := set now (ForgetfulStorage_new (-1)) (b! "k") (b! "v") in
  let s := delete_key now s (b! "k") in
  stores now s (b! "k") None.

Definition ttl_expiry : bool :=
  let s := set now (ForgetfulStorage_new 1) (b! "k") (b! "v") in
  stores (now + millis 1100) s (b! "k") None.

Definition no_ttl_never_expires : bool :=
  let s := set now (ForgetfulStorage_new (-1)) (b! "k") (b! "v") in
  stores (now + millis 10) s (b! "k") (Some (b! "v")).

Definition test_iter_older_than : bool :=
  let s := set now (ForgetfulStorage_new (-1)) (b! "a") (b! "1") in
  let now := now + millis 1100 in
  let s := set now s (b! "b") (b! "2") in
  bool_decide (fst <$> iter_older_than now s 1 = [b! "a"]).

Definition insert_if_absent_new_key : bool :=
  let '(s, inserted) := insert_if_absent now (ForgetfulStorage_new (-1)) (b! "k") (b! "v1") in
  inserted && stores now s (b! "k") (Some (b! "v1")).

Definition insert_if_absent_existing_key : bool :=
  let s := set now (ForgetfulStorage_new (-1)) (b! "k") (b! "v1") in
  let '(s, inserted) := insert_if_absent now s (b! "k") (b! "v2") in
  negb inserted && stores now s (b! "k") (Some (b! "v1")).

Definition insert_if_absent_replaces_expired : bool :=
  let s := set now (ForgetfulStorage_new 1) (b! "k") (b! "old") in
  let now := now + millis 1100 in
  let '(s, inserted) := insert_if_absent now s (b! "k") (b! "new") in
  inserted && stores now s (b! "k") (Some (b! "new")).

Definition storage_unit_tests : list bool :=
  [set_and_get; test_delete; ttl_expiry; no_ttl_never_expires; test_iter_older_than;
   insert_if_absent_new_key; insert_if_absent_existing_key; insert_if_absent_replaces_expired].

Definition test_basic_set_and_get : bool :=
  let s := set now (ForgetfulStorage_new (-1)) (b! "key1") (b! "value1") in
  stores now s (b! "key1") (Some (b! "value1")).

Definition test_get_missing_key_returns_none : bool :=
  stores now (ForgetfulStorage_new (-1)) (b! "ghost") None.

Definition test_get_default_fallback : bool :=
  let fallback := Some (b! "default") in
  bool_decide (get_default now (ForgetfulStorage_new (-1)) (b! "missing") fallback = fallback).

Definition test_get_default_prefers_stored_value : bool :=
  let s := set now (ForgetfulStorage_new (-1)) (b! "k") (b! "real") in
  bool_decide (get_default now s (b! "k") (Some (b! "fallback")) = Some (b! "real")).

Definition test_overwrite_replaces_value : bool :=
  let s := set now (ForgetfulStorage_new (-1)) (b! "k") (b! "first") in
  let s := set now s (b! "k") (b! "second") in
  stores now s (b! "k") (Some (b! "second")).

Definition test_delete_removes_entry : bool :=
  let s := set now (ForgetfulStorage_new (-1)) (b! "k") (b! "v") in
  stores now (delete_key now s (b! "k")) (b! "k") None.

Definition test_no_ttl_entries_persist_forever : bool :=
  let s := set now (ForgetfulStorage_new (-1)) (b! "k") (b! "v") in
  let now := now + millis 50 in
  let s := set now s (b! "other") (b! "x") in
  stores now s (b! "k") (Some (b! "v")).

Definition test_entry_expires_after_ttl : bool :=
  let s := set now (ForgetfulStorage_new 1) (b! "k") (b! "v") in
  let now := now + millis 1100 in
  let s := set now s (b! "trigger_cull") (b! "x") in
  stores now s (b! "k") None.

Definition test_entry_survives_within_ttl : bool :=
  let s := set now (ForgetfulStorage_new 60) (b! "k") (b! "v") in
  stores (now + millis 50) s (b! "k") (Some (b! "v")).

Definition test_default_ttl_constant_is_one_week : bool := DEFAULT_TTL =? 604800.

Definition test_iter_older_than_returns_stale_entries : bool :=
  let s := set now (ForgetfulStorage_new (-1)) (b! "old") (b! "1") in
  let now := now + millis 1100 in
  let s := set now s (b! "new") (b! "2") in
  bool_decide (fst <$> iter_older_than now s 1 = [b! "old"]).

Definition test_iter_older_than_zero_returns_all : bool :=
  let s := set now (ForgetfulStorage_new (-1)) (b! "a") (b! "1") in
  let s := set now s (b! "b") (b! "2") in
  (length (iter_older_than (now + millis 10) s 0) =? 2)%nat.

Definition test_iter_all_returns_all_entries : bool :=
  let s := set now (ForgetfulStorage_new (-1)) (b! "a") (b! "1") in
  let s := set now s (b! "b") (b! "2") in
  let s := set now s (b! "c") (b! "3") in
  (length (iter_all now s) =? 3)%nat.

Definition test_iter_all_excludes_expired_entries : bool :=
  let s := set now (ForgetfulStorage_new 1) (b! "will_expire") (b! "x") in
  let now := now + millis 1100 in
  let s := set now s (b! "fresh") (b! "y") in
  bool_decide (fst <$> iter_all now s = [b! "fresh"]).

Definition test_large_binary_value_roundtrip : bool :=
  let payload := (fun i => byte_of_Z (Z.of_nat i mod 256)) <$> seq 0 (12 + 2420 + 512) in
  let s := set now (ForgetfulStorage_new (-1)) (b! "did:iiot:test") payload in
  stores now s (b! "did:iiot:test") (Some payload).

Definition test_multiple_independent_keys : bool :=
  let keys := (fun i => Z.of_nat i) <$> seq 0 20 in
  let s := foldl (fun s i => set now s [byte_of_Z i] [byte_of_Z (i * 2)]) (ForgetfulStorage_new (-1)) keys in
  forallb (fun i => stores now s [byte_of_Z i] (Some [byte_of_Z (i * 2)])) keys.

Definition storage_integration_tests : list bool :=
  [test_basic_set_and_get; test_get_missing_key_returns_none; test_delete_removes_entry;
   test_no_ttl_entries_persist_forever; test_iter_older_than_returns_stale_entries;
   test_iter_all_returns_all_entries; test_get_default_fallback; test_get_default_prefers_stored_value; test_overwrite_replaces_value;
   test_entry_expires_after_ttl; test_entry_survives_within_ttl; test_default_ttl_constant_is_one_week;
   test_iter_older_than_zero_returns_all; test_iter_all_excludes_expired_entries;
   test_large_binary_value_roundtrip; test_multiple_independent_keys].

End storage.

(** ** [signature_verifier.rs] *)

Definition resolves_to (alg : bytes) (r : option (bytes * Z)) : bool :=
  match resolve_alg_and_length alg, r with
  | Ok x, Some y => bool_decide (x = y)
  | Err _, None => true
  | _, _ => false
  end.

Definition resolve_rsa : bool := resolves_to (b! "RSA") (Some (b! "RSA", 256)).

Definition resolve_ed25519 : bool := resolves_to (b! "Ed25519") (Some (b! "Ed25519", 64)).

Definition resolve_dilithium_levels : bool :=
  resolves_to (b! "Dilithium-2") (Some (b! "Dilithium", 2420)) &&
  resolves_to (b! "Dilithium-3") (Some (b! "Dilithium", 3293)) &&
  resolves_to (b! "Dilithium-5") (Some (b! "Dilithium", 4595)).

Definition resolve_dilithium_no_level_errors : bool := resolves_to (b! "Dilithium") None.

Definition resolve_unknown_errors : bool := resolves_to (b! "ECDSA") None.

Definition pubkey_level_inference : bool :=
  bool_decide (dilithium_level_from_pubkey_len 1312 = Some 2) &&
  bool_decide (dilithium_level_from_pubkey_len 1952 = Some 3) &&
  bool_decide (dilithium_level_from_pubkey_len 2592 = Some 5) &&
  bool_decide (dilithium_level_from_pubkey_len 999 = None).

Definition registry_tests : list bool :=
  [resolve_rsa; resolve_ed25519; resolve_dilithium_levels; resolve_dilithium_no_level_errors;
   resolve_unknown_errors; pubkey_level_inference].

(** ** The tests pass *)

(** An arbitrary time at which the tests run. *)
Definition START : Z := from_secs 1700000000.

Theorem unit_tests_pass :
  Forall (eq true) (utils_tests ++ node_tests ++ routing_unit_tests START ++ storage_unit_tests START ++
                    registry_tests).
Proof. vm_compute. repeat constructor. Qed.

Theorem integration_tests_pass :
  Forall (eq true) (routing_integration_tests START ++ storage_integration_tests START).
Proof. vm_compute. repeat constructor. Qed.

(** Two comments of the integration tests describe something else than the code.
    An expired entry is not removed by the next write: it is only hidden. *)
Theorem expired_entry_not_culled (now : Z) (s : ForgetfulStorage) (k k' v : bytes) (e : bytes * Z) :
  data s !! k = Some e -> k <> k' -> data (set now s k' v) !! k = Some e.
Proof. intros He Hk. cbn. by rewrite lookup_insert_ne. Qed.

(** Adding a contact does not touch the bucket it goes to. *)
Theorem adding_does_not_touch (b : KBucket) (n : Node) : last_updated (fst (add_node b n)) = last_updated b.
Proof. unfold add_node. by repeat case_match; simplify_eq/=. Qed.

(** ** The tests that draw keys

    [r.unwrap()] panics on an error, which fails the test. *)
Definition unwrap {A E} (r : result A E) (k : A -> bool) : bool :=
  match r with Ok a => k a | Err _ => false end.

Definition is_err {A E} (r : result A E) : bool := match r with Ok _ => false | Err _ => true end.

Notation "'let!' x := r 'in' k" := (unwrap r (fun x => k))
  (at level 10, x pattern, r at level 100, k at level 200) : kad_scope.

Section key_tests.
Context `{CP : CryptoPrims} `{DL : DocLib} `{KG : KeyGen}.

(** [dilithium.rs]: [rng] is what [keypair] draws. *)

Definition dilithium2_sign_verify_roundtrip (rng : entropy) : bool :=
  let '(pk, sk) := dil_generate 2 rng in
  let msg := b! "test message for dilithium2" in
  let! sig := dilithium_sign sk msg in
  let! ok := dilithium_verify pk sig msg in ok.

Definition dilithium3_sign_verify_roundtrip (rng : entropy) : bool :=
  let '(pk, sk) := dil_generate 3 rng in
  let msg := b! "test message for dilithium3" in
  let! sig := dilithium_sign sk msg in
  let! ok := dilithium_verify pk sig msg in ok.

Definition dilithium2_tampered_message_fails (rng : entropy) : bool :=
  let '(pk, sk) := dil_generate 2 rng in
  let! sig := dilithium_sign sk (b! "original") in
  let! ok := dilithium_verify pk sig (b! "tampered") in negb ok.

Definition wrong_key_length_errors : bool :=
  is_err (dilithium_verify (replicate 100 Byte.x00) (replicate 2420 Byte.x00) (b! "msg")).

(** [ed25519.rs] *)

Definition random_signing_key (rng : entropy) : bytes := rng <$> seq 0 32.

Definition sign_verify_roundtrip (rng : entropy) : bool :=
  let sk := random_signing_key rng in
  let pk := ed_public_key sk in
  let msg := b! "hello ed25519" in
  let! sig := ed25519_sign sk msg in
  let! ok := ed25519_verify pk sig msg in ok.

Definition tampered_message_fails (rng : entropy) : bool :=
  let sk := random_signing_key rng in
  let pk := ed_public_key sk in
  let! sig := ed25519_sign sk (b! "original") in
  let! ok := ed25519_verify pk sig (b! "tampered") in negb ok.

Definition wrong_pubkey_length_errors : bool :=
  is_err (ed25519_verify (replicate 31 Byte.x00) (replicate 64 Byte.x00) (b! "msg")).

Definition wrong_sig_length_errors (rng : entropy) : bool :=
  let pk := ed_public_key (random_signing_key rng) in
  is_err (ed25519_verify pk (replicate 63 Byte.x00) (b! "msg")).

(** [rsa.rs]: the DER texts are those of a generated pair, [rng] the draws of the
    signature. *)

Definition rsa_sign_verify_roundtrip (pub_der priv_der : bytes) (rng : Z) : bool :=
  let msg := b! "hello rsa" in
  let! sig := rsa_sign_key rng priv_der msg in
  let! ok := rsa_verify_key pub_der sig msg in ok.

Definition rsa_tampered_message_fails (pub_der priv_der : bytes) (rng : Z) : bool :=
  let! sig := rsa_sign_key rng priv_der (b! "original") in
  let! ok := rsa_verify_key pub_der sig (b! "tampered") in negb ok.

(** [factory.rs] *)

Definition factory_returns_dilithium_verifier (rng : entropy) : bool :=
  let! verifier := get_verifier (b! "Dilithium-2") in
  let '(pk, sk) := dil_generate 2 rng in
  let msg := b! "factory test" in
  let sig := dil_detached_sign 2 msg sk in
  let! ok := verify verifier pk sig msg in ok.

Definition factory_returns_ed25519_verifier : bool :=
  let! verifier := get_verifier (b! "Ed25519") in true.

Definition factory_unknown_algorithm_errors : bool :=
  is_err (get_verifier (b! "ECDSA")) && is_err (get_signer (b! "ECDSA")).

Definition signer_factory_dilithium (draw : Z) (rng : entropy) : bool :=
  let! signer := get_signer (b! "Dilithium-2") in
  let '(pk, sk) := dil_generate 2 rng in
  let msg := b! "signer factory test" in
  let! sig := sign draw signer sk msg in
  let! verifier := get_verifier (b! "Dilithium-2") in
  let! ok := verify verifier pk sig msg in ok.

(** [key_manager.rs], over a file system and the directory of the test. *)

Definition generate_store_retrieve {M} `{KeyManager M} (km : M) (name : bytes) (rng : entropy) (fs : FileSystem) : bool :=
  let! (pk, sk) := generate_keypair km rng in
  let '(r, fs) := store_public_key km name pk fs in
  let! _ := r in
  let '(r, fs) := store_private_key km name sk fs in
  let! _ := r in
  let! pk' := get_public_key km name fs in
  let! sk' := get_private_key km name fs in
  bool_decide (pk' = pk) && bool_decide (sk' = sk).

Definition dilithium2_generate_store_retrieve (tmp_dir : bytes) (rng : entropy) (fs : FileSystem) : bool :=
  let '(km, fs) := DilithiumKeyManager_new tmp_dir 2 fs in
  generate_store_retrieve km (b! "alice") rng fs.

Definition kyber512_generate_store_retrieve (tmp_dir : bytes) (rng : entropy) (fs : FileSystem) : bool :=
  let '(km, fs) := KyberKeyManager_new tmp_dir 512 fs in
  generate_store_retrieve km (b! "bob") rng fs.

Definition ed25519_generate_store_retrieve (tmp_dir : bytes) (rng : entropy) (fs : FileSystem) : bool :=
  let '(km, fs) := Ed25519KeyManager_new tmp_dir fs in
  generate_store_retrieve km (b! "carol") rng fs.

Definition km_dilithium_roundtrip (level : Z) (msg tmp_dir : bytes) (rng : entropy) (fs : FileSystem) : bool :=
  let '(km, fs) := DilithiumKeyManager_new tmp_dir level fs in
  let! (pk, sk) := generate_keypair km rng in
  let! sig := dilithium_km_sign km sk msg in
  let! ok := dilithium_km_verify km pk msg sig in ok.

Definition km_dilithium2_roundtrip := km_dilithium_roundtrip 2 (b! "hello dilithium2").
Definition km_dilithium3_roundtrip := km_dilithium_roundtrip 3 (b! "level 3").
Definition km_dilithium5_roundtrip := km_dilithium_roundtrip 5 (b! "level 5").

Definition dilithium_invalid_level_errors (tmp_dir : bytes) (rng : entropy) (fs : FileSystem) : bool :=
  is_err (generate_keypair (fst (DilithiumKeyManager_new tmp_dir 4 fs)) rng).

Definition kyber_invalid_level_errors (tmp_dir : bytes) (rng : entropy) (fs : FileSystem) : bool :=
  is_err (generate_keypair (fst (KyberKeyManager_new tmp_dir 256 fs)) rng).

Definition dilithium_key_not_found_error (tmp_dir : bytes) (fs : FileSystem) : bool :=
  let '(km, fs) := DilithiumKeyManager_new tmp_dir 2 fs in
  match get_public_key km (b! "nonexistent") fs with Err (NotFound _) => true | _ => false end.

(** [jose["x"]] is not empty. *)
Definition has_x (jose : gmap bytes bytes) : bool :=
  match jose !! (b! "x") with Some (_ :: _) => true | _ => false end.

Definition dilithium_jose_format (tmp_dir : bytes) (rng : entropy) (fs : FileSystem) : bool :=
  let km := fst (DilithiumKeyManager_new tmp_dir 2 fs) in
  let! (pk, _) := generate_keypair km rng in
  let jose := get_jose_format km pk in
  bool_decide (jose !! (b! "kty") = Some (b! "MLWE")) && bool_decide (jose !! (b! "alg") = Some (b! "CRYDI2")) &&
  has_x jose.

Definition kyber_generate_test (level : Z) (tmp_dir : bytes) (rng : entropy) (fs : FileSystem) : bool :=
  let km := fst (KyberKeyManager_new tmp_dir level fs) in
  let! (pk, _) := generate_keypair km rng in
  negb (bool_decide (pk = [])).

Definition kyber768_generate := kyber_generate_test 768.
Definition kyber1024_generate := kyber_generate_test 1024.

Definition kyber_jose_format (tmp_dir : bytes) (rng : entropy) (fs : FileSystem) : bool :=
  let km := fst (KyberKeyManager_new tmp_dir 512 fs) in
  let! (pk, _) := generate_keypair km rng in
  let jose := get_jose_format km pk in
  bool_decide (jose !! (b! "kty") = Some (b! "KEM")) && bool_decide (jose !! (b! "alg") = Some (b! "KYBER512")) &&
  has_x jose.

Definition ed25519_jose_format (tmp_dir : bytes) (rng : entropy) (fs : FileSystem) : bool :=
  let km := fst (Ed25519KeyManager_new tmp_dir fs) in
  let! (pk, _) := generate_keypair km rng in
  let jose := get_jose_format km pk in
  bool_decide (jose !! (b! "kty") = Some (b! "OKP")) && bool_decide (jose !! (b! "crv") = Some (b! "Ed25519")) &&
  has_x jose.

Definition km_ed25519_sign_verify_roundtrip (tmp_dir : bytes) (rng : entropy) (fs : FileSystem) : bool :=
  let km := fst (Ed25519KeyManager_new tmp_dir fs) in
  let! (pk, sk) := generate_keypair km rng in
  let msg := b! "hello ed25519 key manager" in
  let! sig := ed25519_km_sign km sk msg in
  let! ok := ed25519_km_verify km pk msg sig in ok.

Definition ed25519_tampered_message_rejected (tmp_dir : bytes) (rng : entropy) (fs : FileSystem) : bool :=
  let km := fst (Ed25519KeyManager_new tmp_dir fs) in
  let! (pk, sk) := generate_keypair km rng in
  let! sig := ed25519_km_sign km sk (b! "original") in
  let! ok := ed25519_km_verify km pk (b! "tampered") sig in negb ok.

Definition b64_roundtrip_test : bool :=
  let data := b! "test bytes " ++ [Byte.x00; Byte.xff] in
  let! decoded := b64decode_key (b64encode_key data) in
  bool_decide (decoded = data).

End key_tests.

(** ** The tests that draw keys pass

    For any libraries that keep their laws, whatever is drawn. *)
Section key_tests_pass.
Context `{CL : CryptoLaws} `{DLw : DocLaws} `{KG : KeyGen} `{KL : !KeyGenLaws}.

Lemma dil_drawn level rng msg :
  level ∈ [2; 3; 5] -> let '(pk, sk) := dil_generate level rng in
  dilithium_sign sk msg = Ok (dil_detached_sign level msg sk) /\
  dilithium_verify pk (dil_detached_sign level msg sk) msg = Ok true.
Proof.
  intros Hl. pose proof (dil_generate_ok level rng Hl) as Hk. destruct (dil_generate level rng) as [pk sk].
  by apply dilithium_roundtrip.
Qed.

Lemma ed_drawn rng : ed_keypair (ed_public_key (random_signing_key rng)) (random_signing_key rng).
Proof. apply ed_public_key_ok. unfold len, random_signing_key. by rewrite length_fmap, length_seq. Qed.

Lemma ed_signs rng msg :
  let sk := random_signing_key rng in
  ed25519_sign sk msg = Ok (ed_sign sk msg) /\ ed25519_verify (ed_public_key sk) (ed_sign sk msg) msg = Ok true.
Proof.
  pose proof (ed_drawn rng) as Hk. cbv zeta. revert Hk. generalize (random_signing_key rng). intros sk Hk.
  destruct (ed_keypair_sizes _ _ Hk) as (Lp & Ls & Lg). destruct (ed_correct _ _ msg Hk) as (vk & Ev & Hok).
  unfold ed25519_sign, ed25519_verify. rewrite Lp, Ls, Lg, Ev. cbn. by rewrite Hok.
Qed.

Lemma dilithium_verifier : get_verifier (b! "Dilithium-2") = Ok Dilithium.
Proof. vm_compute. reflexivity. Qed.

Lemma dilithium_signer : get_signer (b! "Dilithium-2") = Ok Dilithium.
Proof. vm_compute. reflexivity. Qed.

(** A drawn pair of level [level], with the signature of [msg] it makes. *)
Ltac draw_pair level msg :=
  match goal with
  | rng : entropy |- _ =>
      let Es := fresh "Es" in let Ev := fresh "Ev" in
      generalize (dil_drawn level rng msg ltac:(rewrite !elem_of_cons; auto));
      destruct (dil_generate level rng) as [pk sk]; intros [Es Ev];
      cbv beta iota zeta; cbn [unwrap verify sign]; rewrite ?Es; cbn [unwrap verify]; rewrite Ev; cbn [unwrap]
  end.

Lemma km_dilithium_passes level msg tmp_dir rng fs :
  level ∈ [2; 3; 5] -> km_dilithium_roundtrip level msg tmp_dir rng fs = true.
Proof.
  intros Hl. pose proof (dil_drawn level rng msg Hl) as Hd. unfold km_dilithium_roundtrip, DilithiumKeyManager_new.
  rewrite dilithium_generate. cbn [dsecurity_level]. rewrite decide_True by done.
  destruct (dil_generate level rng) as [pk sk]. destruct Hd as [Es Ev]. cbn [unwrap].
  unfold dilithium_km_sign, dilithium_km_verify. rewrite Es. cbn [unwrap map_err]. by rewrite Ev.
Qed.

(** Signing and verifying, directly, through the factories and through the
    managers. *)
Theorem signing_tests_pass (rng : entropy) (tmp_dir : bytes) (fs : FileSystem) (draw : Z) :
  Forall (eq true)
    [dilithium2_sign_verify_roundtrip rng; dilithium3_sign_verify_roundtrip rng; sign_verify_roundtrip rng;
     factory_returns_dilithium_verifier rng; signer_factory_dilithium draw rng;
     km_dilithium2_roundtrip tmp_dir rng fs; km_dilithium3_roundtrip tmp_dir rng fs;
     km_dilithium5_roundtrip tmp_dir rng fs; km_ed25519_sign_verify_roundtrip tmp_dir rng fs].
Proof.
  repeat apply Forall_cons_2; try apply Forall_nil_2; symmetry.
  - unfold dilithium2_sign_verify_roundtrip. by draw_pair 2 (b! "test message for dilithium2").
  - unfold dilithium3_sign_verify_roundtrip. by draw_pair 3 (b! "test message for dilithium3").
  - unfold sign_verify_roundtrip. destruct (ed_signs rng (b! "hello ed25519")) as [-> E]. cbn [unwrap]. by rewrite E.
  - unfold factory_returns_dilithium_verifier. rewrite dilithium_verifier. cbn [unwrap].
    by draw_pair 2 (b! "factory test").
  - unfold signer_factory_dilithium. rewrite dilithium_verifier, dilithium_signer. cbn [unwrap].
    by draw_pair 2 (b! "signer factory test").
  - apply km_dilithium_passes. rewrite !elem_of_cons. auto.
  - apply km_dilithium_passes. rewrite !elem_of_cons. auto.
  - apply km_dilithium_passes. rewrite !elem_of_cons. auto.
  - unfold km_ed25519_sign_verify_roundtrip. cbn [fst Ed25519KeyManager_new generate_keypair ed25519_km unwrap].
    fold (random_signing_key rng). unfold ed25519_km_sign, ed25519_km_verify.
    destruct (ed_signs rng (b! "hello ed25519 key manager")) as [-> E]. cbn [unwrap map_err]. by rewrite E.
Qed.

(** Errors: wrong lengths, unknown algorithms and levels. *)
Theorem error_tests_pass (rng : entropy) (tmp_dir : bytes) (fs : FileSystem) :
  Forall (eq true)
    [wrong_key_length_errors; wrong_pubkey_length_errors; wrong_sig_length_errors rng;
     factory_returns_ed25519_verifier; factory_unknown_algorithm_errors;
     dilithium_invalid_level_errors tmp_dir rng fs; kyber_invalid_level_errors tmp_dir rng fs; b64_roundtrip_test].
Proof.
  repeat apply Forall_cons_2; try apply Forall_nil_2; symmetry; try reflexivity.
  - unfold wrong_sig_length_errors, ed25519_verify.
    by destruct (ed_keypair_sizes _ _ (ed_drawn rng)) as (-> & _).
  - unfold b64_roundtrip_test, b64decode_key, b64encode_key. rewrite b64url_roundtrip. reflexivity.
Qed.

(** The answer of a verifier about another message is the library's. *)
Lemma dil_other level pk sk msg msg' :
  dil_keypair level pk sk ->
  dilithium_verify pk (dil_detached_sign level msg sk) msg' =
  Ok (dil_verify_detached level (dil_detached_sign level msg sk) msg' pk).
Proof.
  intros Hk. destruct (dil_keypair_sizes _ _ _ Hk) as (n & Hs & _).
  destruct (dil_sizes_levels _ _ _ _ Hs) as [Epk _]. destruct (dil_keypair_parses _ _ _ Hk) as (Pp & _ & Pg).
  unfold dilithium_verify. rewrite Epk. cbn. unfold verify_d. by rewrite Pp, Pg.
Qed.

Lemma ed_other pk sk msg msg' :
  ed_keypair pk sk -> exists vk, ed_verifying_key pk = Ok vk /\
    ed25519_verify pk (ed_sign sk msg) msg' = Ok (ed_verify vk msg' (ed_sign sk msg)).
Proof.
  intros Hk. destruct (ed_keypair_sizes _ _ Hk) as (Lp & _ & Lg). destruct (ed_correct _ _ msg Hk) as (vk & Ev & _).
  exists vk. split; [done|]. unfold ed25519_verify. by rewrite Lp, Lg, Ev.
Qed.

(** Tampering is detected when the library detects it: the wrappers pass its
    answer on. *)
Theorem tampering_tests_pass (rng : entropy) (tmp_dir : bytes) (fs : FileSystem) :
  let '(pk, sk) := dil_generate 2 rng in
  let seed := random_signing_key rng in
  dil_verify_detached 2 (dil_detached_sign 2 (b! "original") sk) (b! "tampered") pk = false ->
  (forall vk, ed_verifying_key (ed_public_key seed) = Ok vk ->
     ed_verify vk (b! "tampered") (ed_sign seed (b! "original")) = false) ->
  Forall (eq true)
    [dilithium2_tampered_message_fails rng; tampered_message_fails rng;
     ed25519_tampered_message_rejected tmp_dir rng fs].
Proof.
  pose proof (dil_drawn 2 rng (b! "original") ltac:(rewrite !elem_of_cons; auto)) as Hd.
  pose proof (dil_generate_ok 2 rng ltac:(rewrite !elem_of_cons; auto)) as Hk.
  unfold dilithium2_tampered_message_fails. destruct (dil_generate 2 rng) as [pk sk]. cbv zeta.
  intros Hdil Hed. destruct (ed_signs rng (b! "original")) as [Es _].
  destruct (ed_other _ _ (b! "original") (b! "tampered") (ed_drawn rng)) as (vk & Evk & Ev).
  rewrite (Hed vk Evk) in Ev.
  repeat apply Forall_cons_2; try apply Forall_nil_2; symmetry.
  - destruct Hd as [-> _]. cbn [unwrap]. rewrite (dil_other 2 pk sk) by done. by rewrite Hdil.
  - unfold tampered_message_fails. cbv zeta. rewrite Es. cbn [unwrap]. by rewrite Ev.
  - unfold ed25519_tampered_message_rejected. cbn [fst Ed25519KeyManager_new generate_keypair ed25519_km unwrap].
    fold (random_signing_key rng). unfold ed25519_km_sign, ed25519_km_verify. rewrite Es. cbn [unwrap map_err].
    by rewrite Ev.
Qed.

(** A pair of RSA keys as DER texts. *)
Theorem rsa_tests_pass (pub_der priv_der : bytes) (rng : Z) (p : RsaPublicKey) (s : RsaPrivateKey) :
  load_public_key pub_der = Ok p -> load_private_key priv_der = Ok s -> rsa_keypair p s ->
  rsa_sign_verify_roundtrip pub_der priv_der rng = true /\
  forall sig, rsa_signature (rsa_sign s rng (b! "original")) = Ok sig ->
    rsa_tampered_message_fails pub_der priv_der rng = negb (rsa_verify p (b! "tampered") sig).
Proof.
  intros Ep Es Hk. split.
  - unfold rsa_sign_verify_roundtrip, rsa_sign_key, rsa_verify_key. rewrite Ep, Es. cbn [result_bind unwrap].
    destruct (rsa_correct p s rng (b! "hello rsa") Hk) as (sig & -> & Hok). cbn [result_bind map_err unwrap]. exact Hok.
  - intros sig Hs. unfold rsa_tampered_message_fails, rsa_sign_key, rsa_verify_key. rewrite Ep, Es.
    cbn [result_bind unwrap]. by rewrite Hs.
Qed.

Lemma store_retrieve_passes {M} `{FB : FileBacked M} (km : M) name rng fs pk sk d :
  generate_keypair km rng = Ok (pk, sk) -> plain name -> key_dir fs (km_dir km) = Ok d ->
  d ++ [name ++ b! ".public"] ∉ dirs fs -> d ++ [name ++ b! ".private"] ∉ dirs fs ->
  generate_store_retrieve km name rng fs = true.
Proof.
  intros Eg Hn Hd Hp Hs. destruct (loaded_keys km fs name pk sk d Hn Hd Hp Hs) as (fs1 & fs2 & E1 & E2 & E3 & E4).
  unfold generate_store_retrieve. rewrite Eg. cbn [unwrap]. rewrite E1. cbn [unwrap]. rewrite E2. cbn [unwrap].
  rewrite E3. cbn [unwrap]. rewrite E4. cbn [unwrap]. by rewrite !bool_decide_true.
Qed.

(** Storing and loading, in a directory that can be created and in which no
    directory has the name of a key. *)
Theorem key_file_tests_pass (rng : entropy) (tmp_dir : bytes) (fs : FileSystem) :
  let d := foldl walk_one (path_start fs tmp_dir) (components tmp_dir) in
  no_file_on fs (path_start fs tmp_dir) (components tmp_dir) = true ->
  (forall name, d ++ [name] ∉ dirs (create_dir_all fs tmp_dir)) ->
  files fs !! (d ++ [b! "nonexistent.public"]) = None ->
  Forall (eq true)
    [dilithium2_generate_store_retrieve tmp_dir rng fs; kyber512_generate_store_retrieve tmp_dir rng fs;
     ed25519_generate_store_retrieve tmp_dir rng fs; dilithium_key_not_found_error tmp_dir fs].
Proof.
  intros d Hfree Hdirs Hnone. pose proof (create_dir_all_dir fs tmp_dir Hfree) as Hd.
  assert (forall name, bool_decide (plain name) = true -> plain name) as Hplain
    by (intros name; apply bool_decide_eq_true).
  repeat apply Forall_cons_2; try apply Forall_nil_2; symmetry.
  - unfold dilithium2_generate_store_retrieve. cbn [DilithiumKeyManager_new].
    destruct (dil_generate 2 rng) as [pk sk] eqn:E.
    eapply (store_retrieve_passes (FB := dilithium_backed) _ _ _ _ pk sk d); [by rewrite <- E|by apply Hplain|exact Hd|apply Hdirs..].
  - unfold kyber512_generate_store_retrieve. cbn [KyberKeyManager_new].
    destruct (kyber_generate 512 rng) as [pk sk] eqn:E.
    eapply (store_retrieve_passes (FB := kyber_backed) _ _ _ _ pk sk d); [by rewrite <- E|by apply Hplain|exact Hd|apply Hdirs..].
  - unfold ed25519_generate_store_retrieve. cbn [Ed25519KeyManager_new].
    eapply (store_retrieve_passes (FB := ed25519_backed)); [reflexivity|by apply Hplain|exact Hd|apply Hdirs..].
  - unfold dilithium_key_not_found_error. cbn [DilithiumKeyManager_new].
    rewrite (get_public_file (FileBacked := dilithium_backed)).
    rewrite (read_key_join _ _ d); [|by apply Hplain|vm_compute; lia|exact Hd].
    rewrite decide_False by apply Hdirs. unfold create_dir_all.
    rewrite (proj1 (proj2 (make_dirs_grows _ _ _))).
    change (b! "nonexistent" ++ b! ".public") with (b! "nonexistent.public"). by rewrite Hnone.
Qed.

Lemma has_x_member (k1 k2 v1 v2 x : bytes) :
  k1 <> b! "x" -> k2 <> b! "x" -> x <> [] -> has_x (list_to_map [(k1, v1); (k2, v2); (b! "x", x)]) = true.
Proof.
  intros H1 H2 Hx. unfold has_x. cbn [list_to_map foldr curry fst snd].
  rewrite !lookup_insert_ne, lookup_insert_eq by done. by destruct x.
Qed.

Lemma long_key_nonempty (l : bytes) : 0 < len l -> l <> [].
Proof. by intros Hl ->. Qed.

(** The JWK of a key, when base64 gives text for bytes and public keys are not
    empty. *)
Theorem jose_tests_pass (rng : entropy) (tmp_dir : bytes) (fs : FileSystem) :
  (forall l, l <> [] -> b64url_encode l <> []) -> (forall level, fst (kyber_generate level rng) <> []) ->
  Forall (eq true)
    [dilithium_jose_format tmp_dir rng fs; kyber_jose_format tmp_dir rng fs; ed25519_jose_format tmp_dir rng fs;
     kyber768_generate tmp_dir rng fs; kyber1024_generate tmp_dir rng fs].
Proof.
  intros Hb Hkyber.
  pose proof (dil_keypair_sizes _ _ _ (dil_generate_ok 2 rng ltac:(rewrite !elem_of_cons; auto))) as (n & Hs & _).
  assert (fst (dil_generate 2 rng) <> []) as Hdil.
  { apply long_key_nonempty. revert Hs. unfold dil_sizes. rewrite !elem_of_cons, elem_of_nil. intros Hs.
    destruct Hs as [E|[E|[E|[]]]]; injection E as E _ _; try done; rewrite E; lia. }
  assert (ed_public_key (random_signing_key rng) <> []) as Hed.
  { apply long_key_nonempty. rewrite (proj1 (ed_keypair_sizes _ _ (ed_drawn rng))). lia. }
  pose proof (Hkyber 512) as H512. pose proof (Hkyber 768) as H768. pose proof (Hkyber 1024) as H1024.
  repeat apply Forall_cons_2; try apply Forall_nil_2; symmetry.
  - unfold dilithium_jose_format. rewrite dilithium_generate. cbn [fst DilithiumKeyManager_new dsecurity_level].
    rewrite decide_True by (rewrite !elem_of_cons; auto). destruct (dil_generate 2 rng) as [pk sk].
    cbn [unwrap get_jose_format dilithium_km dsecurity_level]. rewrite has_x_member by (done || by apply Hb).
    rewrite andb_true_r. apply andb_true_iff. split; by apply bool_decide_eq_true.
  - unfold kyber_jose_format. cbn [fst KyberKeyManager_new generate_keypair kyber_km ksecurity_level Z.eqb Pos.eqb].
    destruct (kyber_generate 512 rng) as [pk sk]. cbn [unwrap get_jose_format kyber_km].
    rewrite has_x_member by (done || by apply Hb).
    rewrite andb_true_r. apply andb_true_iff. split; by apply bool_decide_eq_true.
  - unfold ed25519_jose_format. cbn [fst Ed25519KeyManager_new generate_keypair ed25519_km unwrap get_jose_format].
    rewrite has_x_member by (done || by apply Hb).
    rewrite andb_true_r. apply andb_true_iff. split; by apply bool_decide_eq_true.
  - unfold kyber768_generate, kyber_generate_test.
    cbn [fst KyberKeyManager_new generate_keypair kyber_km ksecurity_level Z.eqb Pos.eqb].
    destruct (kyber_generate 768 rng) as [pk sk]. cbn [unwrap]. by rewrite bool_decide_false.
  - unfold kyber1024_generate, kyber_generate_test.
    cbn [fst KyberKeyManager_new generate_keypair kyber_km ksecurity_level Z.eqb Pos.eqb].
    destruct (kyber_generate 1024 rng) as [pk sk]. cbn [unwrap]. by rewrite bool_decide_false.
Qed.

End key_tests_pass.
