(* ===== verification/Crawling.v ===== *)
(** * Crawling: the iterative lookups

    Models [src/src/crawling.rs].  The trait [SpiderProtocol] is a class over
    the protocol's state, the network included: each call may change the state
    and its answer is whatever that state gives.  The futures of a round run
    concurrently in the program; the model runs them in list order.  The loops
    have a fuel, and theorems bound the rounds needed.  The order in which a
    [HashMap] is iterated is arbitrary ([HashOrder]). *)
From S2P Require Import Prelude Node.
From Stdlib Require Import Strings.Byte.
Local Open Scope Z_scope.

(** Iteration order of a [HashMap], for the [n]-th map created. *)
Class HashOrder := {
  hash_iter : forall {A : Type}, nat -> list A -> list A;
  hash_iter_perm : forall {A : Type} (n : nat) (l : list A), hash_iter n l ≡ₚ l
}.

#[global] Instance plain_order : HashOrder :=
  {| hash_iter _ _ l := l; hash_iter_perm _ _ _ := reflexivity _ |}.

(** ** Responses *)

Definition NodeTuple : Type := bytes * option string * option Z.

Inductive FindPayload :=
| Nodes (l : list NodeTuple)
| Value (v : bytes)
| Empty.

Record RawResponse := mkRaw { raw_happened : bool; payload : FindPayload }.

Definition happened (r : RawResponse) : bool := raw_happened r.

Definition has_value (r : RawResponse) : bool :=
  match payload r with Value _ => true | _ => false end.

Definition get_value (r : RawResponse) : option bytes :=
  match payload r with Value v => Some v | _ => None end.

Definition tuple_node (t : NodeTuple) : option Node :=
  let '(id_bytes, ip, port) := t in
  if negb (Nat.eqb (length id_bytes) ID_LEN) then None
  else Some (Node_new id_bytes ip port).

Definition get_node_list (r : RawResponse) : list Node :=
  match payload r with Nodes tuples => omap tuple_node tuples | _ => [] end.

Class SpiderProtocol (P : Type) := {
  call_find_node : P -> Node -> Node -> P * RawResponse;
  call_find_value : P -> Node -> Node -> P * RawResponse;
  call_store : P -> Node -> bytes -> bytes -> P * bool
}.

(** ** The crawl *)

Record SpiderCrawl := mkCrawl {
  cksize : nat;
  alpha : nat;
  cnode : Node;
  nearest : NodeHeap;
  last_ids_crawled : list bytes
}.

Definition set_nearest (c : SpiderCrawl) (h : NodeHeap) : SpiderCrawl :=
  mkCrawl (cksize c) (alpha c) (cnode c) h (last_ids_crawled c).

Section crawl.
Context `{UnstableSort} `{HashOrder} {P : Type} `{SpiderProtocol P}.

Definition SpiderCrawl_new (n : Node) (peers : list Node) (ksize alpha : nat) : SpiderCrawl :=
  mkCrawl ksize alpha n (push (NodeHeap_new n ksize) peers) [].

(** The peers a round contacts. *)
Definition round_peers (c : SpiderCrawl) : list Node :=
  let current_ids := get_ids (nearest c) in
  let count := if decide (current_ids = last_ids_crawled c) then NodeHeap_len (nearest c)
               else alpha c in
  take count (get_uncontacted (nearest c)).

(** Run the calls of a round, collecting [(id, response)] pairs. *)
Fixpoint call_all (rpc : P -> Node -> Node -> P * RawResponse) (target : Node) (p : P)
    (peers : list Node) : P * list (bytes * RawResponse) :=
  match peers with
  | [] => (p, [])
  | peer :: peers =>
      let '(p, r) := rpc p peer target in
      let '(p, rs) := call_all rpc target p peers in
      (p, (id peer, r) :: rs)
  end.

Definition find_round (rpc : P -> Node -> Node -> P * RawResponse) (p : P) (c : SpiderCrawl)
  : P * SpiderCrawl * gmap bytes RawResponse :=
  let uncontacted := round_peers c in
  let c' := mkCrawl (cksize c) (alpha c) (cnode c)
              (foldl mark_contacted (nearest c) uncontacted) (get_ids (nearest c)) in
  let '(p, rs) := call_all rpc (cnode c) p uncontacted in
  (p, c', list_to_map rs).

(** *** NodeSpiderCrawl *)

(** The loop over the responses: the heap and the peers to remove. *)
Fixpoint node_responses (h : NodeHeap) (to_remove : list bytes) (rs : list (bytes * RawResponse))
  : NodeHeap * list bytes :=
  match rs with
  | [] => (h, to_remove)
  | (peer_id, r) :: rs =>
      if negb (happened r) then node_responses h (to_remove ++ [peer_id]) rs
      else node_responses (push h (get_node_list r)) to_remove rs
  end.

(** One iteration of the loop, up to the test that ends it. *)
Definition node_round (round : nat) (p : P) (c : SpiderCrawl) : P * SpiderCrawl :=
  let '(p, c, responses) := find_round call_find_node p c in
  let '(h, to_remove) := node_responses (nearest c) [] (hash_iter round (map_to_list responses)) in
  (p, set_nearest c (heap_remove h to_remove)).

Fixpoint node_find (fuel round : nat) (p : P) (c : SpiderCrawl) : option (P * SpiderCrawl * list Node) :=
  match fuel with
  | O => None
  | S fuel =>
      let '(p, c) := node_round round p c in
      if have_contacted_all (nearest c) then Some (p, c, to_vec (nearest c))
      else node_find fuel (S round) p c
  end.

(** *** ValueSpiderCrawl *)

Record ValueSpiderCrawl := mkValueCrawl {
  base : SpiderCrawl;
  nearest_without_value : NodeHeap
}.

Definition ValueSpiderCrawl_new (n : Node) (peers : list Node) (ksize alpha : nat) : ValueSpiderCrawl :=
  mkValueCrawl (SpiderCrawl_new n peers ksize alpha) (NodeHeap_new n 1).

(** The loop over the responses: heap, nearest without value, peers to remove,
    values found. *)
Fixpoint value_responses (h nwv : NodeHeap) (to_remove found : list bytes)
    (rs : list (bytes * RawResponse)) : NodeHeap * NodeHeap * list bytes * list bytes :=
  match rs with
  | [] => (h, nwv, to_remove, found)
  | (peer_id, r) :: rs =>
      if negb (happened r) then value_responses h nwv (to_remove ++ [peer_id]) found rs
      else if has_value r then
        value_responses h nwv to_remove (found ++ option_list (get_value r)) rs
      else
        let nwv := match get_node h peer_id with Some peer => push_one nwv peer | None => nwv end in
        value_responses (push h (get_node_list r)) nwv to_remove found rs
  end.

(** [*counts.entry(v).or_insert(0) += 1] over the values. *)
Definition count_values (found : list bytes) : gmap bytes nat :=
  foldl (fun m v => <[v := S (default 0%nat (m !! v))]> m) ∅ found.

(** [Iterator::max_by_key]: the last of the greatest. *)
Definition max_by_count (l : list (bytes * nat)) : option (bytes * nat) :=
  foldl (fun best x => match best with
                       | None => Some x
                       | Some b => if (snd b <=? snd x)%nat then Some x else Some b
                       end) None l.

Definition majority (round : nat) (found : list bytes) : option bytes :=
  fst <$> max_by_count (hash_iter round (map_to_list (count_values found))).

Definition value_round (round : nat) (p : P) (v : ValueSpiderCrawl) : P * ValueSpiderCrawl * list bytes :=
  let '(p, c, responses) := find_round call_find_value p (base v) in
  let '(h, nwv, to_remove, found) :=
    value_responses (nearest c) (nearest_without_value v) [] []
      (hash_iter round (map_to_list responses)) in
  (p, mkValueCrawl (set_nearest c (heap_remove h to_remove)) nwv, found).

Fixpoint value_find (fuel round : nat) (p : P) (v : ValueSpiderCrawl)
  : option (P * ValueSpiderCrawl * (option bytes * list Node)) :=
  match fuel with
  | O => None
  | S fuel =>
      let '(p, v, found) := value_round round p v in
      match found with
      | _ :: _ =>
          let value := majority (S round) found in
          let '(p, v) :=
            match value with
            | Some w =>
                match popleft (nearest_without_value v) with
                | (nwv, Some peer) =>
                    (fst (call_store p peer (id (cnode (base v))) w), mkValueCrawl (base v) nwv)
                | (nwv, None) => (p, mkValueCrawl (base v) nwv)
                end
            | None => (p, v)
            end in
          Some (p, v, (value, []))
      | [] =>
          if have_contacted_all (nearest (base v)) then
            Some (p, v, (None, to_vec (nearest (base v))))
          else value_find fuel (S round) p v
      end
  end.

(** ** The state of a crawl *)

Record crawl_wf (c : SpiderCrawl) : Prop := {
  cw_heap : heap_wf (nearest c);
  cw_node : hnode (nearest c) = cnode c;
  cw_size : maxsize (nearest c) = cksize c
}.

Lemma get_node_list_wf r : Forall wf_node (get_node_list r).
Proof.
  unfold get_node_list. destruct (payload r) as [ts| |]; try constructor.
  apply Forall_forall. intros n ([[i a] p] & _ & Hn)%list_elem_of_omap. unfold tuple_node in Hn.
  destruct (Nat.eqb_spec (length i) ID_LEN); simplify_eq/=. by apply Node_new_wf.
Qed.

Lemma SpiderCrawl_new_wf n peers k a : Forall wf_node peers -> crawl_wf (SpiderCrawl_new n peers k a).
Proof.
  intros Hp. destruct (push_fields (NodeHeap_new n k) peers) as (En & _ & Em).
  split; simpl; [apply push_wf; [apply NodeHeap_new_wf|done]|done|done].
Qed.

Lemma mark_all_fields ns h :
  hnode (foldl mark_contacted h ns) = hnode h /\ heap (foldl mark_contacted h ns) = heap h /\
  maxsize (foldl mark_contacted h ns) = maxsize h /\
  forall i, i ∈ contacted (foldl mark_contacted h ns) <-> i ∈ contacted h \/ i ∈ id <$> ns.
Proof.
  revert h. induction ns as [|n ns IH]; intros h; simpl.
  - split_and!; [done..|]. intros i. rewrite elem_of_nil. tauto.
  - destruct (IH (mark_contacted h n)) as (-> & -> & -> & Hc). split_and!; [done..|].
    intros i. rewrite Hc. simpl. rewrite elem_of_union, elem_of_singleton, elem_of_cons. tauto.
Qed.

Lemma mark_all_wf ns h : heap_wf h -> heap_wf (foldl mark_contacted h ns).
Proof.
  intros [Hnd Hd Hn Hs]. destruct (mark_all_fields ns h) as (En & Eh & Em & _).
  split; rewrite ?En, ?Eh, ?Em; done.
Qed.

Lemma remove_fields h ids :
  hnode (heap_remove h ids) = hnode h /\ maxsize (heap_remove h ids) = maxsize h /\
  contacted (heap_remove h ids) = contacted h.
Proof. by destruct ids. Qed.

(** What processing responses keeps, for both crawls. *)
Lemma node_responses_keeps h rem rs :
  heap_wf h ->
  let h' := fst (node_responses h rem rs) in
  heap_wf h' /\ hnode h' = hnode h /\ maxsize h' = maxsize h /\ contacted h' = contacted h.
Proof.
  revert h rem. induction rs as [|[i r] rs IH]; intros h rem Hw; simpl; [done|].
  destruct (negb (happened r)); [by apply IH|].
  destruct (push_fields h (get_node_list r)) as (En & Ec & Em).
  destruct (IH (push h (get_node_list r)) rem) as (? & -> & -> & ->);
    [by apply push_wf, get_node_list_wf|done].
Qed.

Lemma value_responses_keeps h nwv rem found rs :
  heap_wf h -> heap_wf nwv ->
  let '(h', nwv', _, _) := value_responses h nwv rem found rs in
  heap_wf h' /\ hnode h' = hnode h /\ maxsize h' = maxsize h /\ contacted h' = contacted h /\
  heap_wf nwv' /\ hnode nwv' = hnode nwv /\ maxsize nwv' = maxsize nwv.
Proof.
  revert h nwv rem found. induction rs as [|[i r] rs IH]; intros h nwv rem found Hw Hv; simpl; [done|].
  destruct (negb (happened r)); [by apply IH|]. destruct (has_value r); [by apply IH|].
  set (nwv1 := match get_node h i with Some peer => push_one nwv peer | None => nwv end).
  assert (heap_wf nwv1 /\ hnode nwv1 = hnode nwv /\ maxsize nwv1 = maxsize nwv) as (Hv1 & E1 & E2).
  { unfold nwv1, get_node. destruct (list_find _ (heap h)) as [[j e]|] eqn:Ef; simpl; [|done].
    apply list_find_Some in Ef as (He & _). apply list_elem_of_lookup_2 in He.
    destruct (push_fields nwv [node e]) as (? & _ & ?). split_and!; [|done|done].
    apply push_wf; [done|]. apply Forall_singleton. by apply (proj1 (Forall_forall _ _) (hw_nodes h Hw)). }
  destruct (push_fields h (get_node_list r)) as (En & Ec & Em).
  specialize (IH (push h (get_node_list r)) nwv1 rem found ltac:(by apply push_wf, get_node_list_wf) Hv1).
  destruct (value_responses _ nwv1 rem found rs) as [[[h' nwv'] rem'] found'].
  destruct IH as (? & -> & -> & -> & ? & -> & ->). done.
Qed.

(** ** Termination *)

(** All answers to [rpc] only name nodes of [U]. *)
Definition answers_in (U : gset bytes) (rpc : P -> Node -> Node -> P * RawResponse) : Prop :=
  forall p peer target, Forall (fun n => id n ∈ U) (get_node_list (snd (rpc p peer target))).

Definition known_in (U : gset bytes) (c : SpiderCrawl) : Prop :=
  Forall (fun e => entry_id e ∈ U) (heap (nearest c)).

Lemma push_in (U : gset bytes) h ns :
  Forall (fun e => entry_id e ∈ U) (heap h) -> Forall (fun n => id n ∈ U) ns ->
  Forall (fun e => entry_id e ∈ U) (heap (push h ns)).
Proof.
  intros Hh Hns. apply Forall_forall. intros e He%enforce_maxsize_sub.
  destruct (fold_push_spec ns h) as [x [Eh _ _ _ Ex _ _]]. rewrite Eh in He.
  apply elem_of_app in He as [He|He]; [by apply (proj1 (Forall_forall _ _) Hh)|].
  destruct (proj1 (Forall_forall _ _) Ex e He) as [Hn _]. by apply (proj1 (Forall_forall _ _) Hns).
Qed.

Lemma call_all_in (U : gset bytes) rpc target p peers :
  answers_in U rpc ->
  Forall (fun ir => Forall (fun n => id n ∈ U) (get_node_list (snd ir))) (snd (call_all rpc target p peers)).
Proof.
  intros Ha. revert p. induction peers as [|peer peers IH]; intros p; simpl; [constructor|].
  specialize (Ha p peer target). destruct (rpc p peer target) as [p' r].
  specialize (IH p'). destruct (call_all rpc target p' peers) as [p'' rs]. by constructor.
Qed.

(** What one iteration of either crawl does to the shared state. *)
Record round_rel (U : gset bytes) (c c' : SpiderCrawl) : Prop := {
  rr_wf : crawl_wf c';
  rr_known : known_in U c';
  rr_alpha : alpha c' = alpha c /\ cksize c' = cksize c /\ cnode c' = cnode c;
  rr_last : last_ids_crawled c' = get_ids (nearest c);
  rr_contacted : forall i, i ∈ contacted (nearest c') <->
                   i ∈ contacted (nearest c) \/ i ∈ id <$> round_peers c;
  rr_idle : round_peers c = [] -> nearest c' = nearest c
}.

Lemma responses_in (U : gset bytes) n (rs : list (bytes * RawResponse)) :
  Forall (fun ir => Forall (fun n => id n ∈ U) (get_node_list (snd ir))) rs ->
  Forall (fun ir => Forall (fun n => id n ∈ U) (get_node_list (snd ir)))
    (hash_iter n (map_to_list (list_to_map rs : gmap bytes RawResponse))).
Proof.
  intros Hrs. apply Forall_forall. intros [i r] Hin. rewrite hash_iter_perm in Hin.
  apply elem_of_map_to_list, elem_of_list_to_map_2 in Hin.
  exact (proj1 (Forall_forall _ _) Hrs _ Hin).
Qed.

Lemma node_responses_in (U : gset bytes) h rem rs :
  Forall (fun e => entry_id e ∈ U) (heap h) ->
  Forall (fun ir => Forall (fun n => id n ∈ U) (get_node_list (snd ir))) rs ->
  Forall (fun e => entry_id e ∈ U) (heap (fst (node_responses h rem rs))).
Proof.
  revert h rem. induction rs as [|[i r] rs IH]; intros h rem Hh Hrs; simpl; [done|].
  apply Forall_cons in Hrs as [Hr Hrs]. destruct (negb (happened r)); [by apply IH|].
  apply IH; [by apply push_in|done].
Qed.

Lemma value_responses_in (U : gset bytes) h nwv rem found rs :
  Forall (fun e => entry_id e ∈ U) (heap h) ->
  Forall (fun ir => Forall (fun n => id n ∈ U) (get_node_list (snd ir))) rs ->
  Forall (fun e => entry_id e ∈ U) (heap (value_responses h nwv rem found rs).1.1.1).
Proof.
  revert h nwv rem found. induction rs as [|[i r] rs IH]; intros h nwv rem found Hh Hrs; simpl; [done|].
  apply Forall_cons in Hrs as [Hr Hrs]. destruct (negb (happened r)); [by apply IH|].
  destruct (has_value r); [by apply IH|]. apply IH; [by apply push_in|done].
Qed.

(** The shared part: a heap obtained from the marked one by responses of [U]. *)
Lemma round_rel_intro (U : gset bytes) c h ids :
  crawl_wf c -> heap_wf h -> Forall (fun e => entry_id e ∈ U) (heap h) ->
  let m := foldl mark_contacted (nearest c) (round_peers c) in
  hnode h = hnode m -> maxsize h = maxsize m -> contacted h = contacted m ->
  (round_peers c = [] -> heap_remove h ids = nearest c) ->
  round_rel U c (set_nearest (mkCrawl (cksize c) (alpha c) (cnode c) m (get_ids (nearest c)))
                   (heap_remove h ids)).
Proof.
  intros [Hw En Em] Hh Hu m E1 E2 E3 Hidle.
  destruct (mark_all_fields (round_peers c) (nearest c)) as (F1 & _ & F3 & F4).
  destruct (remove_fields h ids) as (R1 & R2 & R3). split; simpl; auto.
  - split; simpl; [by apply heap_remove_wf|rewrite R1, E1; unfold m; congruence|rewrite R2, E2; unfold m; congruence].
  - unfold known_in. simpl. rewrite heap_remove_ids. by apply Forall_filter.
  - intros i. rewrite R3, E3. apply F4.
Qed.

Lemma hash_iter_nil {A} n : hash_iter n (@nil A) = [].
Proof. apply Permutation_nil_r, hash_iter_perm. Qed.

Lemma find_round_idle rpc p c :
  round_peers c = [] -> (find_round rpc p c).2 = ∅ /\ nearest (find_round rpc p c).1.2 = nearest c.
Proof. intros E. unfold find_round. rewrite E. done. Qed.

Lemma node_round_rel U round p c :
  crawl_wf c -> known_in U c -> answers_in U call_find_node ->
  round_rel U c (snd (node_round round p c)).
Proof.
  intros Hw Hk Ha. unfold node_round, find_round.
  pose proof (call_all_in U call_find_node (cnode c) p (round_peers c) Ha) as Hrs.
  destruct (call_all _ _ p (round_peers c)) as [p' rs] eqn:Ec. cbn [snd] in Hrs.
  cbn [nearest]. set (m := foldl mark_contacted (nearest c) (round_peers c)) in *.
  pose proof (node_responses_keeps m [] (hash_iter round (map_to_list (list_to_map rs : gmap bytes RawResponse)))
                (mark_all_wf _ _ (cw_heap c Hw))) as (Kw & K1 & K2 & K3).
  destruct (mark_all_fields (round_peers c) (nearest c)) as (_ & Fh & _ & _).
  pose proof (node_responses_in U m [] _ ltac:(unfold m; by rewrite Fh) (responses_in U round rs Hrs)) as Hin.
  assert (round_peers c = [] -> node_responses m [] (hash_iter round (map_to_list (list_to_map rs : gmap bytes RawResponse))) = (nearest c, [])) as Hidle.
  { intros E. rewrite E in Ec. simpl in Ec. injection Ec as <- <-. unfold m. rewrite E. simpl.
    by rewrite map_to_list_empty, hash_iter_nil. }
  destruct (node_responses m [] _) as [h rem]. cbn [snd fst] in *.
  apply round_rel_intro; try done. intros E. injection (Hidle E) as -> ->. done.
Qed.

Lemma value_round_rel U round p v :
  crawl_wf (base v) -> heap_wf (nearest_without_value v) -> known_in U (base v) ->
  answers_in U call_find_value ->
  round_rel U (base v) (base (value_round round p v).1.2) /\
  heap_wf (nearest_without_value (value_round round p v).1.2).
Proof.
  intros Hw Hv Hk Ha. unfold value_round, find_round. set (c := base v) in *.
  pose proof (call_all_in U call_find_value (cnode c) p (round_peers c) Ha) as Hrs.
  destruct (call_all _ _ p (round_peers c)) as [p' rs] eqn:Ec. cbn [snd] in Hrs.
  cbn [nearest]. set (m := foldl mark_contacted (nearest c) (round_peers c)) in *.
  pose proof (value_responses_keeps m (nearest_without_value v) [] []
                (hash_iter round (map_to_list (list_to_map rs : gmap bytes RawResponse)))
                (mark_all_wf _ _ (cw_heap c Hw)) Hv) as Hkeep.
  destruct (mark_all_fields (round_peers c) (nearest c)) as (_ & Fh & _ & _).
  pose proof (value_responses_in U m (nearest_without_value v) [] [] _ ltac:(unfold m; by rewrite Fh)
                (responses_in U round rs Hrs)) as Hin.
  assert (round_peers c = [] -> value_responses m (nearest_without_value v) [] []
            (hash_iter round (map_to_list (list_to_map rs : gmap bytes RawResponse)))
            = (nearest c, nearest_without_value v, [], [])) as Hidle.
  { intros E. rewrite E in Ec. simpl in Ec. injection Ec as <- <-. unfold m. rewrite E. simpl.
    by rewrite map_to_list_empty, hash_iter_nil. }
  destruct (value_responses m _ [] [] _) as [[[h nwv] rem] found]. cbn [snd fst] in *.
  destruct Hkeep as (Kw & K1 & K2 & K3 & ? & _ & _). split; [|done].
  apply round_rel_intro; try done. intros E. injection (Hidle E) as -> _ -> _. done.
Qed.

(** Uncontacted identifiers of the universe, and one more round when the next
    one may only record the identifiers. *)
Definition measure (U : gset bytes) (c : SpiderCrawl) : nat :=
  2 * size (U ∖ contacted (nearest c)) +
  (if decide (get_ids (nearest c) = last_ids_crawled c) then 0 else 1).

Lemma round_peers_fresh U c n :
  crawl_wf c -> known_in U c -> n ∈ round_peers c -> id n ∈ U ∖ contacted (nearest c).
Proof.
  intros Hw Hk Hn. unfold round_peers in Hn.
  apply elem_of_take in Hn as (i & Hn%list_elem_of_lookup_2 & _).
  apply get_uncontacted_spec in Hn as [(e & -> & He)%list_elem_of_fmap Hc]; [|apply Hw].
  apply elem_of_difference. split; [|done]. by apply (proj1 (Forall_forall _ _) Hk).
Qed.

Lemma round_peers_nil c :
  crawl_wf c -> have_contacted_all (nearest c) = false -> round_peers c = [] ->
  get_ids (nearest c) <> last_ids_crawled c.
Proof.
  intros Hw Hc Hr E. unfold round_peers in Hr. rewrite decide_True in Hr by done.
  unfold have_contacted_all in Hc. destruct (get_uncontacted (nearest c)) as [|n l] eqn:Eu; [done|].
  assert (n ∈ get_uncontacted (nearest c)) as Hin by (rewrite Eu; left).
  apply get_uncontacted_spec in Hin as [(e & _ & He)%list_elem_of_fmap _]; [|apply Hw].
  pose proof (hw_size _ (cw_heap c Hw)) as Hs. unfold NodeHeap_len in Hr.
  rewrite Nat.min_l in Hr by done. by destruct (heap (nearest c)); [apply elem_of_nil in He|].
Qed.

Lemma round_measure U c c' :
  crawl_wf c -> known_in U c -> round_rel U c c' ->
  have_contacted_all (nearest c') = true \/ (measure U c' < measure U c)%nat.
Proof.
  intros Hw Hk [Hw' Hk' _ Hlast Hcont Hidle].
  destruct (have_contacted_all (nearest c')) eqn:Hall; [by left|right].
  destruct (round_peers c) as [|n l] eqn:Er.
  - rewrite (Hidle eq_refl) in *. unfold measure. rewrite (Hidle eq_refl), Hlast.
    rewrite decide_True by done. rewrite decide_False; [lia|]. by apply round_peers_nil.
  - assert (size (U ∖ contacted (nearest c')) < size (U ∖ contacted (nearest c)))%nat as Hlt.
    { pose proof (round_peers_fresh U c n Hw Hk ltac:(rewrite Er; left)) as Hn.
      apply subset_size. split.
      - intros i [Hi Hc]%elem_of_difference. apply elem_of_difference. split; [done|].
        intros Hx. apply Hc, Hcont. by left.
      - intros Hsub. apply Hsub, elem_of_difference in Hn as [_ Hn]. apply Hn, Hcont. right. left. }
    unfold measure. repeat case_decide; lia.
Qed.

Lemma node_find_returns U fuel round p c :
  crawl_wf c -> known_in U c -> answers_in U call_find_node -> (measure U c < fuel)%nat ->
  exists p' c', node_find fuel round p c = Some (p', c', to_vec (nearest c')).
Proof.
  intros Hw Hk Ha. revert round p c Hw Hk. induction fuel as [|fuel IH]; intros round p c Hw Hk Hf; [lia|].
  cbn [node_find]. pose proof (node_round_rel U round p c Hw Hk Ha) as Hr.
  destruct (node_round round p c) as [p' c']. cbn [snd] in Hr.
  destruct (round_measure U c c' Hw Hk Hr) as [->|Hlt]; [eauto|].
  destruct (have_contacted_all (nearest c')); [eauto|].
  apply IH; [apply Hr|apply Hr|lia].
Qed.

Lemma value_find_returns U fuel round p v :
  crawl_wf (base v) -> heap_wf (nearest_without_value v) -> known_in U (base v) ->
  answers_in U call_find_value -> (measure U (base v) < fuel)%nat ->
  is_Some (value_find fuel round p v).
Proof.
  intros Hw Hv Hk Ha. revert round p v Hw Hv Hk.
  induction fuel as [|fuel IH]; intros round p v Hw Hv Hk Hf; [lia|].
  cbn [value_find]. destruct (value_round_rel U round p v Hw Hv Hk Ha) as [Hr Hv'].
  destruct (value_round round p v) as [[p' v'] found]. cbn [snd fst] in Hr, Hv'.
  destruct found; [|repeat case_match; eauto].
  destruct (round_measure U (base v) (base v') Hw Hk Hr) as [->|Hlt]; [eauto|].
  destruct (have_contacted_all (nearest (base v'))); [eauto|].
  apply IH; [apply Hr|done|apply Hr|lia].
Qed.

Lemma measure_bound U c : (measure U c < 2 * size U + 2)%nat.
Proof.
  unfold measure. pose proof (subseteq_size (U ∖ contacted (nearest c)) U ltac:(set_solver)).
  case_decide; lia.
Qed.

End crawl.

(** ** Majority of the values found *)

Definition occurrences (v : bytes) (l : list bytes) : nat := length (filter (fun w => w = v) l).

Lemma occurrences_absent v l : v ∉ l -> occurrences v l = 0%nat.
Proof.
  unfold occurrences. induction l as [|w l IH]; [done|].
  intros [Hw Hl]%not_elem_of_cons. rewrite filter_cons_False by congruence. by apply IH.
Qed.

Lemma occurrences_snoc v l w :
  occurrences v (l ++ [w]) = (occurrences v l + if decide (w = v) then 1 else 0)%nat.
Proof.
  unfold occurrences. rewrite filter_app, length_app. f_equal.
  rewrite filter_cons, filter_nil. by case_decide.
Qed.

Lemma count_values_lookup found v :
  count_values found !! v = if decide (v ∈ found) then Some (occurrences v found) else None.
Proof.
  unfold count_values. induction found as [|w found IH] using rev_ind; [done|].
  rewrite foldl_snoc, occurrences_snoc.
  assert (v ∈ found ++ [w] <-> v ∈ found \/ w = v) as Hin
    by (rewrite elem_of_app, list_elem_of_singleton; naive_solver).
  destruct (decide (w = v)) as [->|Hne].
  - rewrite lookup_insert_eq, IH. rewrite (decide_True (P := v ∈ found ++ [v])) by tauto. f_equal.
    destruct (decide (v ∈ found)) as [|Hn]; simpl; [lia|]. by rewrite occurrences_absent.
  - rewrite lookup_insert_ne, IH, Nat.add_0_r by done. apply decide_ext. tauto.
Qed.

Lemma max_by_count_spec (l : list (bytes * nat)) (best : option (bytes * nat)) :
  match foldl (fun best x => match best with
                       | None => Some x
                       | Some b => if (snd b <=? snd x)%nat then Some x else Some b
                       end) best l with
  | None => best = None /\ l = []
  | Some b => b ∈ option_list best ++ l /\ Forall (fun x => snd x <= snd b)%nat (option_list best ++ l)
  end.
Proof.
  revert best. induction l as [|x l IH]; intros best; simpl.
  { destruct best as [b|]; simpl; [|done]. split; [set_solver|]. by apply Forall_singleton. }
  match goal with |- context [foldl _ ?b l] => specialize (IH b) end.
  destruct (foldl _ _ l) as [b|].
  2:{ destruct IH as [E _]. destruct best as [b|]; [|done]. by destruct (snd b <=? snd x)%nat. }
  destruct IH as [Hin Hall]. destruct best as [b0|]; simpl in *; [|done].
  destruct (Nat.leb_spec (snd b0) (snd x)) as [Hle|Hle]; simpl in *.
  - split; [by right|]. apply Forall_cons in Hall as [Hx Hall].
    constructor; [lia|]. by constructor.
  - split; [set_solver|]. apply Forall_cons in Hall as [Hb Hall].
    constructor; [done|]. constructor; [lia|done].
Qed.

Lemma majority_spec `{HashOrder} round found :
  match majority round found with
  | Some v => v ∈ found /\ forall w, (occurrences w found <= occurrences v found)%nat
  | None => found = []
  end.
Proof.
  unfold majority, max_by_count.
  pose proof (max_by_count_spec (hash_iter round (map_to_list (count_values found))) None) as Hs.
  destruct (foldl _ None _) as [[v k]|]; simpl in *.
  - destruct Hs as [Hin Hall]. rewrite hash_iter_perm in Hin, Hall.
    apply elem_of_map_to_list in Hin. rewrite count_values_lookup in Hin.
    case_decide as Hv; [|done]. injection Hin as <-. split; [done|]. intros w.
    destruct (decide (w ∈ found)) as [Hw|Hw].
    + apply (proj1 (Forall_forall _ _) Hall (w, occurrences w found)).
      apply elem_of_map_to_list. rewrite count_values_lookup. by rewrite decide_True.
    + rewrite (occurrences_absent w) by done. lia.
  - destruct Hs as [_ Hs]. assert (map_to_list (count_values found) = []) as E.
    { apply Permutation_nil_r. rewrite <- Hs. symmetry. apply hash_iter_perm. }
    destruct found as [|v found]; [done|exfalso].
    apply map_to_list_empty_iff in E. pose proof (count_values_lookup (v :: found) v) as Hl.
    rewrite E, decide_True in Hl by left. done.
Qed.

(** ** What the crawls return *)

Section crawl_results.
Context `{UnstableSort} `{HashOrder} {P : Type} `{SpiderProtocol P}.

(** Nodes sorted by distance to the target, each once, at most [k], all of them
    contacted. *)
Definition contacted_result (c : SpiderCrawl) (ns : list Node) : Prop :=
  StronglySorted (fun x y => distance_to (cnode c) x <= distance_to (cnode c) y) ns /\
  NoDup (id <$> ns) /\ (length ns <= cksize c)%nat /\
  Forall (fun n => wf_node n /\ id n ∈ contacted (nearest c)) ns.

Lemma to_vec_result c :
  crawl_wf c -> have_contacted_all (nearest c) = true -> contacted_result c (to_vec (nearest c)).
Proof.
  intros [Hw En Em] Hc. unfold to_vec. split_and!.
  - rewrite <- En. by apply iter_sorted.
  - by apply iter_nodup.
  - rewrite iter_perm, length_fmap, <- Em by done. apply Hw.
  - rewrite iter_perm by done. apply Forall_fmap, Forall_forall. intros e He. simpl. split.
    + by apply (proj1 (Forall_forall _ _) (hw_nodes _ Hw)).
    + apply (proj1 (Forall_forall _ _) (proj1 (have_contacted_all_spec _ Hw) Hc) e He).
Qed.

Lemma node_find_result U fuel round p c p' c' ns :
  crawl_wf c -> known_in U c -> answers_in U call_find_node ->
  node_find fuel round p c = Some (p', c', ns) ->
  contacted_result c' ns /\ cnode c' = cnode c /\ cksize c' = cksize c.
Proof.
  intros Hw Hk Ha. revert round p c Hw Hk. induction fuel as [|fuel IH]; intros round p c Hw Hk; [done|].
  cbn [node_find]. pose proof (node_round_rel U round p c Hw Hk Ha) as [Hw1 Hk1 (_ & E1 & E2) _ _ _].
  destruct (node_round round p c) as [p1 c1]. cbn [snd] in *.
  destruct (have_contacted_all (nearest c1)) eqn:Hc.
  - intros [= <- <- <-]. split; [by apply to_vec_result|done].
  - intros Hf. destruct (IH _ _ _ Hw1 Hk1 Hf) as (? & -> & ->). done.
Qed.

(** *** The rounds of a value lookup *)

(** The answers to the calls of the round that starts in the state [p] and [v], and
    the values among them. *)
Definition round_answers (p : P) (v : ValueSpiderCrawl) : list (bytes * RawResponse) :=
  snd (call_all call_find_value (cnode (base v)) p (round_peers (base v))).

Definition answered_value (r : RawResponse) : option bytes := if happened r then get_value r else None.

Definition round_values (p : P) (v : ValueSpiderCrawl) : list bytes :=
  omap (fun ir => answered_value (snd ir)) (round_answers p v).

(** The state after [n] rounds in which nobody answered a value. *)
Fixpoint rounds_without_value (n round : nat) (p : P) (v : ValueSpiderCrawl) : option (P * ValueSpiderCrawl) :=
  match n with
  | O => Some (p, v)
  | S n =>
      match round_values p v with
      | [] => let '(p, v, _) := value_round round p v in rounds_without_value n (S round) p v
      | _ => None
      end
  end.

Lemma value_responses_found h nwv rem found rs :
  (value_responses h nwv rem found rs).2 = found ++ omap (fun ir => answered_value (snd ir)) rs.
Proof.
  revert h nwv rem found. induction rs as [|[i r] rs IH]; intros h nwv rem found; simpl; [by rewrite app_nil_r|].
  unfold answered_value at 1. cbn [snd].
  destruct (happened r); cbn [negb]; [unfold has_value, get_value; destruct (payload r)|]; rewrite IH; cbn [option_list]; try done.
  by rewrite <- app_assoc.
Qed.

Lemma call_all_ids (rpc : P -> Node -> Node -> P * RawResponse) target p peers :
  (snd (call_all rpc target p peers)).*1 = id <$> peers.
Proof.
  revert p. induction peers as [|peer peers IH]; intros p; simpl; [done|].
  destruct (rpc p peer target) as [p1 r1]. specialize (IH p1).
  destruct (call_all rpc target p1 peers) as [p2 rs]. cbn [snd fmap list_fmap fst] in *. by f_equal.
Qed.

Lemma round_peers_nodup c : crawl_wf c -> NoDup (id <$> round_peers c).
Proof.
  intros Hw. unfold round_peers, get_uncontacted. rewrite fmap_take.
  eapply sublist_NoDup; [apply iter_nodup, Hw|]. etrans; [apply sublist_take|].
  apply fmap_sublist, sublist_filter.
Qed.

(** What a round finds are the values answered in it. *)
Lemma value_round_found round p v : crawl_wf (base v) -> (value_round round p v).2 ≡ₚ round_values p v.
Proof.
  intros Hw. unfold value_round, find_round, round_values, round_answers.
  pose proof (call_all_ids call_find_value (cnode (base v)) p (round_peers (base v))) as Hi.
  pose proof (round_peers_nodup _ Hw) as Hnd.
  destruct (call_all _ _ p _) as [p' rs]. cbn [snd] in *.
  match goal with |- context [value_responses ?h ?n [] [] ?l] =>
    pose proof (value_responses_found h n [] [] l) as Hf; destruct (value_responses h n [] [] l) as [[[? ?] ?] found] end.
  cbn [snd app] in *. subst found. apply omap_Permutation. rewrite hash_iter_perm.
  apply map_to_list_to_map. by rewrite Hi.
Qed.

Lemma occurrences_perm w l l' : l ≡ₚ l' -> occurrences w l = occurrences w l'.
Proof. intros Hl. unfold occurrences. by rewrite Hl. Qed.

Lemma value_find_result U fuel round p v p' v' res ns :
  crawl_wf (base v) -> heap_wf (nearest_without_value v) -> known_in U (base v) ->
  answers_in U call_find_value ->
  value_find fuel round p v = Some (p', v', (res, ns)) ->
  match res with
  | Some w => ns = [] /\ exists n pl vl, rounds_without_value n round p v = Some (pl, vl) /\
                w ∈ round_values pl vl /\
                forall w', (occurrences w' (round_values pl vl) <= occurrences w (round_values pl vl))%nat
  | None => contacted_result (base v') ns /\ cnode (base v') = cnode (base v) /\
              exists n, rounds_without_value n round p v = Some (p', v')
  end.
Proof.
  intros Hw Hv Hk Ha. revert round p v Hw Hv Hk.
  induction fuel as [|fuel IH]; intros round p v Hw Hv Hk; [done|].
  cbn [value_find]. destruct (value_round_rel U round p v Hw Hv Hk Ha) as [Hr Hv'].
  pose proof (value_round_found round p v Hw) as Hfound.
  assert (forall n p1 v1 y, value_round round p v = (p1, v1, []) -> rounds_without_value n (S round) p1 v1 = Some y ->
    rounds_without_value (S n) round p v = Some y) as Hmore.
  { intros n p1 v1 y Er Hn. cbn [rounds_without_value]. rewrite Er in Hfound. cbn [snd] in Hfound.
    apply Permutation_nil_l in Hfound. rewrite <- Hfound, Er. exact Hn. }
  destruct (value_round round p v) as [[p1 v1] found] eqn:Er. cbn [snd fst] in *.
  destruct Hr as [Hw1 Hk1 (_ & _ & En) _ _ _].
  destruct found as [|w0 found].
  - destruct (have_contacted_all (nearest (base v1))) eqn:Hc.
    + intros [= <- <- <- <-]. split_and!; [by apply to_vec_result|done|]. exists 1%nat. by apply (Hmore 0%nat p1 v1).
    + intros Hf. specialize (IH _ _ _ Hw1 Hv' Hk1 Hf). destruct res.
      * destruct IH as (-> & n & pl & vl & Hn & Hmax). split; [done|]. exists (S n), pl, vl. split; [|done]. by apply (Hmore n p1 v1).
      * destruct IH as (? & -> & n & Hn). split_and!; [done..|]. exists (S n). by apply (Hmore n p1 v1).
  - pose proof (majority_spec (S round) (w0 :: found)) as Hm.
    destruct (majority (S round) (w0 :: found)) as [w|] eqn:Em; [|done].
    intros Hsome. assert (res = Some w /\ ns = []) as [-> ->].
    { destruct (popleft _) as [nwv [peer|]]; by injection Hsome as _ _ <- <-. }
    split; [done|]. exists 0%nat, p, v. destruct Hm as [Hin Hmax]. split_and!; [done|by rewrite <- Hfound|].
    intros w'. by rewrite <- !(occurrences_perm _ _ _ Hfound).
Qed.

End crawl_results.

(** ** Invariants of the protocol's state across a crawl *)

Section crawl_preserves.
Context `{UnstableSort} `{HashOrder} {P : Type} `{SpiderProtocol P}.
Variable J : P -> Prop.

Definition keeps (rpc : P -> Node -> Node -> P * RawResponse) : Prop :=
  forall p peer target, J p -> wf_node peer -> J (fst (rpc p peer target)).

Lemma call_all_keeps rpc target p peers :
  keeps rpc -> Forall wf_node peers -> J p -> J (fst (call_all rpc target p peers)).
Proof.
  intros Hk Hp. revert p. induction Hp as [|peer peers Hw _ IH]; intros p Hj; simpl; [done|].
  pose proof (Hk p peer target Hj Hw) as Hj'. destruct (rpc p peer target) as [p' r].
  specialize (IH p' Hj'). by destruct (call_all rpc target p' peers).
Qed.

Lemma round_peers_wf c : crawl_wf c -> Forall wf_node (round_peers c).
Proof.
  intros Hw. apply Forall_forall. intros n Hn. unfold round_peers in Hn.
  apply elem_of_take in Hn as (i & Hn%list_elem_of_lookup_2 & _).
  apply get_uncontacted_spec in Hn as [(e & -> & He)%list_elem_of_fmap _]; [|apply Hw].
  by apply (proj1 (Forall_forall _ _) (hw_nodes _ (cw_heap c Hw))).
Qed.

Lemma node_find_keeps U fuel round p c p' c' ns :
  keeps call_find_node -> crawl_wf c -> known_in U c -> answers_in U call_find_node -> J p ->
  node_find fuel round p c = Some (p', c', ns) -> J p'.
Proof.
  intros Hkeep Hw Hk Ha. revert round p c Hw Hk.
  induction fuel as [|fuel IH]; intros round p c Hw Hk Hj; [done|]. cbn [node_find].
  pose proof (node_round_rel U round p c Hw Hk Ha) as [Hw1 Hk1 _ _ _ _].
  assert (J (fst (node_round round p c))) as Hj1.
  { unfold node_round, find_round.
    pose proof (call_all_keeps call_find_node (cnode c) p (round_peers c) Hkeep (round_peers_wf c Hw) Hj) as Hc.
    destruct (call_all _ _ p _) as [p1 rs]. by destruct (node_responses _ _ _). }
  destruct (node_round round p c) as [p1 c1]. cbn [fst snd] in *.
  destruct (have_contacted_all _); [by intros [= <- _ _]|]. by apply IH.
Qed.

Lemma value_find_keeps U fuel round p v p' v' res :
  keeps call_find_value ->
  (forall p peer key w, J p -> wf_node peer -> J (fst (call_store p peer key w))) ->
  crawl_wf (base v) -> heap_wf (nearest_without_value v) -> known_in U (base v) ->
  answers_in U call_find_value -> J p ->
  value_find fuel round p v = Some (p', v', res) -> J p'.
Proof.
  intros Hkeep Hst Hw Hv Hk Ha. revert round p v Hw Hv Hk.
  induction fuel as [|fuel IH]; intros round p v Hw Hv Hk Hj; [done|]. cbn [value_find].
  destruct (value_round_rel U round p v Hw Hv Hk Ha) as [[Hw1 Hk1 _ _ _ _] Hv1].
  assert (J (value_round round p v).1.1) as Hj1.
  { unfold value_round, find_round.
    pose proof (call_all_keeps call_find_value (cnode (base v)) p (round_peers (base v)) Hkeep (round_peers_wf _ Hw) Hj) as Hc.
    destruct (call_all _ _ p _) as [p1 rs]. by destruct (value_responses _ _ _ _ _) as [[[? ?] ?] ?]. }
  destruct (value_round round p v) as [[p1 v1] found]. cbn [fst snd] in *.
  destruct found as [|w0 found].
  - destruct (have_contacted_all _); [by intros [= <- _ _]|]. by apply IH.
  - destruct (majority _ _) as [w|]; [|by intros [= <- _ _]].
    pose proof (popleft_spec _ Hv1) as Hpop. destruct (popleft _) as [nwv [peer|]]; [|by intros [= <- _ _]].
    intros [= <- _ _]. apply Hst; [done|]. destruct Hpop as (_ & Hperm & _).
    assert (peer ∈ node <$> heap (nearest_without_value v1)) as (e & -> & He)%list_elem_of_fmap
      by (rewrite Hperm; left).
    by apply (proj1 (Forall_forall _ _) (hw_nodes _ Hv1)).
Qed.

End crawl_preserves.

(** Every identifier: the universe of last resort. *)
Definition all_bytes : list byte := byte_of_Z <$> seqZ 0 256.

Fixpoint all_ids (n : nat) : list bytes :=
  match n with
  | O => [[]]
  | S n => all_bytes ≫= (fun b => cons b <$> all_ids n)
  end.

Lemma all_ids_spec l : l ∈ all_ids (length l).
Proof.
  induction l as [|b l IH]; [by left|]. cbn [all_ids length].
  apply list_elem_of_bind. exists b. split; [by apply list_elem_of_fmap_2|].
  apply list_elem_of_fmap. exists (byte_to_Z b). rewrite byte_of_to_Z. split; [done|].
  apply elem_of_seqZ. pose proof (byte_to_Z_range b). lia.
Qed.

Definition id_universe : gset bytes := list_to_set (all_ids ID_LEN).

Lemma wf_in_universe n : wf_node n -> id n ∈ id_universe.
Proof. intros [Hl _]. apply elem_of_list_to_set. rewrite <- Hl. apply all_ids_spec. Qed.

#[global] Opaque id_universe.

Lemma get_node_list_universe r : Forall (fun n => id n ∈ id_universe) (get_node_list r).
Proof. eapply Forall_impl; [apply get_node_list_wf|]. apply wf_in_universe. Qed.

Lemma all_answers_in {P : Type} rpc : answers_in (P := P) id_universe rpc.
Proof. intros ? ? ?. apply get_node_list_universe. Qed.

Lemma new_known_universe `{UnstableSort} n peers k a :
  Forall wf_node peers -> known_in id_universe (SpiderCrawl_new n peers k a).
Proof.
  intros Hw. apply push_in; [constructor|]. eapply Forall_impl; [exact Hw|]. apply wf_in_universe.
Qed.

(** ** Claims *)

Section crawl_claims.
Context `{UnstableSort} `{HashOrder} {P : Type} `{SpiderProtocol P}.

Lemma new_known_in (U : gset bytes) n peers k a :
  Forall (fun m => id m ∈ U) peers -> known_in U (SpiderCrawl_new n peers k a).
Proof. intros Hp. apply push_in; [constructor|done]. Qed.

(** A node lookup ends and returns what it promises.  If all identifiers
    named by the initial peers and by the answers are in [U], [2 |U| + 2] rounds
    are enough whatever the peers answer, and the result is sorted by distance
    to the target, has no duplicate, at most [k] nodes, and only nodes that were
    contacted. *)
Theorem node_lookup_terminates (U : gset bytes) (p : P) (n : Node) (peers : list Node) (k a : nat) :
  Forall wf_node peers -> Forall (fun m => id m ∈ U) peers -> answers_in U call_find_node ->
  exists p' c' ns, node_find (2 * size U + 2) 0 p (SpiderCrawl_new n peers k a) = Some (p', c', ns) /\
    cnode c' = n /\ cksize c' = k /\ contacted_result c' ns.
Proof.
  intros Hw Hp Ha.
  pose proof (SpiderCrawl_new_wf n peers k a Hw) as Hcw.
  pose proof (new_known_in U n peers k a Hp) as Hk.
  destruct (node_find_returns U (2 * size U + 2) 0 p _ Hcw Hk Ha (measure_bound U _)) as (p' & c' & Hf).
  destruct (node_find_result U _ _ _ _ _ _ _ Hcw Hk Ha Hf) as (Hr & En & Ek).
  exists p', c', (to_vec (nearest c')). by split_and!.
Qed.

(** A value lookup ends, for any behaviour of the peers.  On a hit it
    returns, after some rounds without a value, one of the most frequent values
    answered to the calls of its last round, and no node; on a miss no peer it
    asked answered a value, and it returns nodes as the node lookup does. *)
Theorem value_lookup_terminates (p : P) (n : Node) (peers : list Node) (k a : nat) :
  Forall wf_node peers ->
  exists fuel p' v' res ns,
    value_find fuel 0 p (ValueSpiderCrawl_new n peers k a) = Some (p', v', (res, ns)) /\
    match res with
    | Some w => ns = [] /\ exists i pl vl, rounds_without_value i 0 p (ValueSpiderCrawl_new n peers k a) = Some (pl, vl) /\
                  w ∈ round_values pl vl /\
                  forall w', (occurrences w' (round_values pl vl) <= occurrences w (round_values pl vl))%nat
    | None => contacted_result (base v') ns /\ cnode (base v') = n /\
                exists i, rounds_without_value i 0 p (ValueSpiderCrawl_new n peers k a) = Some (p', v')
    end.
Proof.
  intros Hw. exists (2 * size id_universe + 2)%nat.
  pose proof (SpiderCrawl_new_wf n peers k a Hw) as Hcw.
  assert (known_in id_universe (SpiderCrawl_new n peers k a)) as Hk.
  { apply new_known_in. eapply Forall_impl; [exact Hw|]. apply wf_in_universe. }
  assert (answers_in id_universe call_find_value) as Ha.
  { intros ? ? ?. apply get_node_list_universe. }
  assert (heap_wf (NodeHeap_new n 1)) as Hv by apply NodeHeap_new_wf.
  destruct (value_find_returns id_universe (2 * size id_universe + 2) 0 p
              (ValueSpiderCrawl_new n peers k a) Hcw Hv Hk Ha (measure_bound _ _)) as [[[p' v'] [res ns]] Hf].
  exists p', v', res, ns. split; [exact Hf|].
  pose proof (value_find_result id_universe _ _ _ (ValueSpiderCrawl_new n peers k a) _ _ _ _ Hcw Hv Hk Ha Hf). by destruct res.
Qed.

(** C7: lookups end, for any behaviour of the peers.  A value lookup returns.  On a
    hit there were some rounds in which no peer answered a value, and then a last
    one: the value returned is among the values answered to the calls of that round
    and none is answered more often; no node is returned.  On a miss no peer that was
    asked answered a value, and nodes are returned as by the node lookup.  A node
    lookup whose initial peers and answers name identifiers of [U] only returns
    within [2 |U| + 2] rounds, with nodes sorted by distance to the target, without
    duplicate, at most [k] of them, and only nodes that were contacted. *)
Theorem lookups_terminate (U : gset bytes) (p : P) (n : Node) (peers : list Node) (k a : nat) :
  Forall wf_node peers ->
  (exists fuel p' v' res ns,
    value_find fuel 0 p (ValueSpiderCrawl_new n peers k a) = Some (p', v', (res, ns)) /\
    match res with
    | Some w => ns = [] /\ exists i pl vl, rounds_without_value i 0 p (ValueSpiderCrawl_new n peers k a) = Some (pl, vl) /\
                  w ∈ round_values pl vl /\
                  forall w', (occurrences w' (round_values pl vl) <= occurrences w (round_values pl vl))%nat
    | None => contacted_result (base v') ns /\ cnode (base v') = n /\
                exists i, rounds_without_value i 0 p (ValueSpiderCrawl_new n peers k a) = Some (p', v')
    end) /\
  (Forall (fun m => id m ∈ U) peers -> answers_in U call_find_node ->
   exists p' c' ns, node_find (2 * size U + 2) 0 p (SpiderCrawl_new n peers k a) = Some (p', c', ns) /\
     cnode c' = n /\ cksize c' = k /\ contacted_result c' ns).
Proof. intros Hw. split; [by apply value_lookup_terminates|]. intros Hp Ha. by apply node_lookup_terminates. Qed.


End crawl_claims.

(** A network of fixed answers, without state: what each peer returns. *)
Record FixedNet := mkFixedNet { answer_of : bytes -> option (list NodeTuple) }.

#[global] Instance fixed_net : SpiderProtocol FixedNet := {
  call_find_node f peer _ :=
    (f, match answer_of f (id peer) with
        | Some l => mkRaw true (Nodes l)
        | None => mkRaw false Empty
        end);
  call_find_value f peer _ := (f, mkRaw true (Value (id peer)));
  call_store f _ _ _ := (f, true)
}.

Definition peer_at (x : Z) : Node := from_id (be_bytes 20 x).
Definition tuple_at (x : Z) : NodeTuple := (be_bytes 20 x, None, None).

(** Three peers: the first names the second, and two of the three answer the same value. *)
#[local] Instance voting_net : SpiderProtocol unit := {
  call_find_node u peer _ :=
    (u, if decide (id peer = be_bytes 20 1) then mkRaw true (Nodes [tuple_at 2]) else mkRaw true (Nodes []));
  call_find_value u peer _ :=
    (u, mkRaw true (Value (if decide (id peer = be_bytes 20 3) then [x42] else [x41])));
  call_store u _ _ _ := (u, false)
}.

Definition voters : list Node := [peer_at 1; peer_at 2; peer_at 3].

(** The lookup returns what two of the three answer; the theorem says of its last round
    that no value is answered more often. *)
Lemma lookups_terminate_witness :
  (snd <$> value_find 3 0 tt (ValueSpiderCrawl_new (peer_at 0) voters 4 3) = Some (Some [x41], [])) /\
  (exists fuel p' v' res ns,
     value_find fuel 0 tt (ValueSpiderCrawl_new (peer_at 0) voters 4 3) = Some (p', v', (res, ns)) /\
     match res with
     | Some w => exists i pl vl, rounds_without_value i 0 tt (ValueSpiderCrawl_new (peer_at 0) voters 4 3) = Some (pl, vl) /\
         w ∈ round_values pl vl /\
         forall w', (occurrences w' (round_values pl vl) <= occurrences w (round_values pl vl))%nat
     | None => True
     end) /\
  exists p' c' ns, node_find 8 0 tt (SpiderCrawl_new (peer_at 0) voters 4 3) = Some (p', c', ns) /\
    contacted_result c' ns.
Proof.
  split; [vm_compute; reflexivity|].
  assert (size ({[be_bytes 20 1; be_bytes 20 2; be_bytes 20 3]} : gset bytes) = 3%nat) as Es by (vm_compute; reflexivity).
  destruct (lookups_terminate (P := unit) {[be_bytes 20 1; be_bytes 20 2; be_bytes 20 3]} tt (peer_at 0) voters 4 3) as [Hv Hn].
  - repeat (apply Forall_cons; split; [by split|]). apply Forall_nil. exact I.
  - split.
    + destruct Hv as (fuel & p' & v' & res & ns & Hf & Hr). exists fuel, p', v', res, ns. split; [exact Hf|].
      destruct res as [w|]; [exact (proj2 Hr)|exact I].
    + destruct Hn as (p' & c' & ns & Hf & _ & _ & Hr).
      * repeat (apply Forall_cons; split; [apply (bool_decide_unpack _); vm_compute; exact I|]). apply Forall_nil. exact I.
      * intros u peer target. cbn [call_find_node voting_net]. destruct (decide (id peer = be_bytes 20 1)); simpl.
        -- apply Forall_cons. split; [apply (bool_decide_unpack _); vm_compute; exact I|]. apply Forall_nil. exact I.
        -- apply Forall_nil. exact I.
      * exists p', c', ns. split; [|exact Hr]. rewrite Es in Hf. exact Hf.
Defined.

Lemma value_lookup_terminates_witness :
  exists fuel p' v' res ns,
    value_find (P := FixedNet) fuel 0 (mkFixedNet (fun _ => None))
      (ValueSpiderCrawl_new (peer_at 0) [peer_at 1] 2 3) = Some (p', v', (res, ns)).
Proof.
  destruct (value_lookup_terminates (P := FixedNet) (mkFixedNet (fun _ => None)) (peer_at 0) [peer_at 1] 2 3)
    as (fuel & p' & v' & res & ns & Hf & _).
  - apply Forall_cons. split; [by split|]. apply Forall_nil. exact I.
  - exists fuel, p', v', res, ns. exact Hf.
Defined.

(** A lookup can return a peer that never answered.  With [alpha = 1], the
    silent peer closest to the target is contacted and removed; the second
    peer's answer names it again, it is pushed back, counts as contacted, and is
    returned as the closest node. *)
Theorem lookup_returns_silent_peer :
  exists (net : FixedNet) (target dead : Node) (peers : list Node) p' c' ns,
    answer_of net (id dead) = None /\ dead ∈ peers /\
    node_find 5 0 net (SpiderCrawl_new target peers 20 1) = Some (p', c', ns) /\
    head ns = Some dead.
Proof.
  exists (mkFixedNet (fun i => if decide (i = be_bytes 20 2) then Some [tuple_at 1] else None)).
  exists (peer_at 0), (peer_at 1), [peer_at 1; peer_at 2].
  do 3 eexists. split; [vm_compute; reflexivity|]. split; [left|].
  split; vm_compute; reflexivity.
Qed.
