(* ===== verification/Protocol.v ===== *)
(** * Protocol: messages, RPC handlers and outgoing calls

    Models the protocol logic of [src/src/protocol.rs] above the transport
    (framing, fragments and correlation are in [Transport.v]).  A handler is a
    function on the node's state; tasks started with [tokio::spawn] are added to
    the field [spawned] and run later by [run_task].  An outgoing call takes the
    function [call] that answers it (or [None] after a timeout).  [None] as the
    result of a whole handler means that inserting a contact did not return.
    Generic in the signature handler, the storage, the cache, the hashes, the
    sort and the socket addresses. *)
From S2P Require Import Prelude Node Routing RoutingTable RoutingTableSpec Storage Text Crypto AuthHandler SigCache Crawling.
From Stdlib Require Import Strings.Byte.
Local Open Scope Z_scope.

(** Socket addresses: their text, their port, and
    [format!("{}:{}", ip, port).parse()]. *)
Class NetAddr := {
  SocketAddr : Type;
  SocketAddr_eq :: EqDecision SocketAddr;
  SocketAddr_countable :: Countable SocketAddr;
  addr_ip : SocketAddr -> string;
  addr_port : SocketAddr -> Z;
  parse_addr : string -> Z -> option SocketAddr
}.

(** IPv4-like addresses that are their own text. *)
Definition plain_addr : NetAddr := {|
  SocketAddr := string * Z;
  addr_ip := fst;
  addr_port := snd;
  parse_addr i p := Some (i, p)
|}.

Definition STATUS_LIST_KEY : bytes := b! "did:iiot:status-list".
Definition INVALID_SIG_BAN_THRESHOLD : Z := 3.

(** ** Messages *)

Record WireNode := mkWire { wid : bytes; wip : option string; wport : option Z }.

Definition wire_of_node (n : Node) : WireNode := mkWire (id n) (ip n) (port n).
Definition node_of_wire (w : WireNode) : Node := Node_new (wid w) (wip w) (wport w).

Inductive RpcMessage :=
| Ping (sender_id : bytes)
| Pong (sender_id : bytes)
| Store (sender_id key value : bytes)
| StoreResult (ok : bool)
| Update (sender_id key value auth_signature : bytes)
| UpdateResult (ok : bool)
| UpdateStatusList (sender_id key value : bytes)
| UpdateStatusListResult (ok : bool)
| Delete (sender_id key auth_signature delete_msg : bytes)
| DeleteResult (ok : bool)
| FindNode (sender_id key : bytes)
| FindNodeResult (nodes : list WireNode)
| FindValue (sender_id key : bytes)
| FindValueNodes (nodes : list WireNode)
| FindValueHit (value : bytes)
| Leave (sender_id : bytes).

Inductive FindValueResult :=
| ResultNodes (ns : list Node)
| ResultValue (v : bytes).

(** Background tasks. *)
Inductive Task :=
| WelcomeIfNew (n : Node)
| PingNode (n : Node)
| StoreRpc (n : Node) (key value : bytes).

Section protocol.
Context `{UnstableSort} `{HA : Hashes} `{NA : NetAddr}.
Context {S : Type} `{IS : IStorage S}.
Context {Hd E : Type} `{SH : SignatureVerifierHandler Hd E}.
Context {C : Type} `{MC : Moka C}.

(** ** State *)

Record KademliaProtocol := mkProto {
  router : RoutingTable;
  storage : S;
  source_node : Node;
  signature_handler : Hd;
  sig_cache : option (SignatureCache C);
  invalid_sig_strikes : gmap bytes Z;
  spawned : list Task
}.

Definition KademliaProtocol_new (now : Z) (source : Node) (st : S) (ksize : nat) (h : Hd)
    (c : option (SignatureCache C)) : KademliaProtocol :=
  mkProto (RoutingTable_new now source ksize) st source h c ∅ [].

Definition set_router (s : KademliaProtocol) (r : RoutingTable) : KademliaProtocol :=
  mkProto r (storage s) (source_node s) (signature_handler s) (sig_cache s)
    (invalid_sig_strikes s) (spawned s).

Definition set_storage (s : KademliaProtocol) (st : S) : KademliaProtocol :=
  mkProto (router s) st (source_node s) (signature_handler s) (sig_cache s)
    (invalid_sig_strikes s) (spawned s).

Definition set_sig_cache (s : KademliaProtocol) (c : option (SignatureCache C)) : KademliaProtocol :=
  mkProto (router s) (storage s) (source_node s) (signature_handler s) c
    (invalid_sig_strikes s) (spawned s).

Definition set_strikes (s : KademliaProtocol) (m : gmap bytes Z) : KademliaProtocol :=
  mkProto (router s) (storage s) (source_node s) (signature_handler s) (sig_cache s) m (spawned s).

(** [tokio::spawn] *)
Definition spawn (s : KademliaProtocol) (t : Task) : KademliaProtocol :=
  mkProto (router s) (storage s) (source_node s) (signature_handler s) (sig_cache s)
    (invalid_sig_strikes s) (spawned s ++ [t]).

(** ** Verification with the cache *)

(** The verification that a key calls for. *)
Definition verify_record (h : Hd) (is_status : bool) (value : bytes) : bool :=
  if is_status then unwrap_or false (handle_issuer_node_signature_verification h value)
  else unwrap_or false (handle_signature_verification h value).

Definition verify_for_key (now : Z) (key value : bytes) (s : KademliaProtocol)
  : bool * KademliaProtocol :=
  let is_status := bool_decide (key = digest STATUS_LIST_KEY) in
  match (c ← sig_cache s; get_by_key now c (compute_key value)) with
  | Some cached => (cached, s)
  | None =>
      let result := verify_record (signature_handler s) is_status value in
      if result then
        (result, set_sig_cache s ((fun c => insert_by_key now c (compute_key value) result) <$> sig_cache s))
      else (result, s)
  end.

(** ** Welcoming a node *)

(** The [filter_map] over the entries; each [find_neighbors] touches a bucket. *)
Fixpoint keys_to_replicate (now : Z) (r : RoutingTable) (self_node node : Node)
    (entries : list (bytes * bytes)) : RoutingTable * list (bytes * bytes) :=
  match entries with
  | [] => (r, [])
  | (key, value) :: entries =>
      if negb (Nat.eqb (length key) ID_LEN) then keys_to_replicate now r self_node node entries
      else
        let key_node := from_id key in
        let '(r, neighbors) := find_neighbors now r key_node None in
        let new_node_close :=
          match last neighbors with
          | Some l => distance_to node key_node <? distance_to l key_node
          | None => true
          end in
        let this_closest :=
          match head neighbors with
          | Some f => distance_to self_node key_node <? distance_to f key_node
          | None => true
          end in
        let '(r, kvs) := keys_to_replicate now r self_node node entries in
        (r, if new_node_close && this_closest then (key, value) :: kvs else kvs)
  end.

Definition welcome_if_new (now : Z) (node : Node) (s : KademliaProtocol) : option KademliaProtocol :=
  if negb (is_new_node (router s) node) then Some s
  else
    let all_entries := iter_all now (storage s) in
    let '(r, kvs) := keys_to_replicate now (router s) (source_node s) node all_entries in
    '(r, lru) ← add_contact INSERT_FUEL now r node;
    let s := set_router s r in
    let s := match lru with Some l => spawn s (PingNode l) | None => s end in
    Some (foldl (fun s kv => spawn s (StoreRpc node (fst kv) (snd kv))) s kvs).

(** ** RPC handlers *)

Definition sender (sender_id : bytes) (sender_addr : string * Z) : Node :=
  Node_new sender_id (Some (fst sender_addr)) (Some (snd sender_addr)).

Definition rpc_ping (sender_id : bytes) (sender_addr : string * Z) (s : KademliaProtocol)
  : bytes * KademliaProtocol :=
  (id (source_node s), spawn s (WelcomeIfNew (sender sender_id sender_addr))).

Definition rpc_store (now : Z) (sender_id : bytes) (sender_addr : string * Z) (key value : bytes)
    (s : KademliaProtocol) : bool * KademliaProtocol :=
  let '(valid, s) := verify_for_key now key value s in
  if negb valid then
    let strikes := wrap 32 (default 0 (invalid_sig_strikes s !! sender_id) + 1) in
    let s := set_strikes s (<[sender_id := strikes]> (invalid_sig_strikes s)) in
    let source := sender sender_id sender_addr in
    if INVALID_SIG_BAN_THRESHOLD <=? strikes then
      (false, set_router s (remove_contact (router s) source))
    else (false, spawn s (WelcomeIfNew source))
  else
    let '(st, inserted) := insert_if_absent now (storage s) key value in
    let s := set_storage s st in
    if negb inserted then (false, s)
    else (true, spawn s (WelcomeIfNew (sender sender_id sender_addr))).

Definition rpc_update (now : Z) (sender_id : bytes) (sender_addr : string * Z)
    (key value auth_signature : bytes) (s : KademliaProtocol) : bool * KademliaProtocol :=
  match get now (storage s) key with
  | None => (false, s)
  | Some old_value =>
      let ok := unwrap_or false
                  (handle_update_verification (signature_handler s) value old_value auth_signature) in
      if negb ok then (false, s)
      else
        let s := spawn s (WelcomeIfNew (sender sender_id sender_addr)) in
        (true, set_storage s (set now (storage s) key value))
  end.

Definition rpc_update_status_list (now : Z) (sender_id : bytes) (sender_addr : string * Z)
    (key value : bytes) (s : KademliaProtocol) : bool * KademliaProtocol :=
  match get now (storage s) key with
  | None => (false, s)
  | Some _ =>
      let ok := unwrap_or false
                  (handle_issuer_node_signature_verification (signature_handler s) value) in
      if negb ok then (false, s)
      else
        let s := spawn s (WelcomeIfNew (sender sender_id sender_addr)) in
        (true, set_storage s (set now (storage s) key value))
  end.

Definition rpc_delete (now : Z) (sender_id : bytes) (sender_addr : string * Z)
    (key auth_signature delete_msg : bytes) (s : KademliaProtocol) : bool * KademliaProtocol :=
  match get now (storage s) key with
  | None => (false, s)
  | Some value =>
      let ok := unwrap_or false
                  (handle_signature_delete_operation (signature_handler s) value auth_signature delete_msg) in
      if negb ok then (false, s)
      else
        let s := spawn s (WelcomeIfNew (sender sender_id sender_addr)) in
        (true, set_storage s (delete_key now (storage s) key))
  end.

Definition rpc_find_node (now : Z) (sender_id : bytes) (sender_addr : string * Z) (key : bytes)
    (s : KademliaProtocol) : list Node * KademliaProtocol :=
  let source := sender sender_id sender_addr in
  let s := spawn s (WelcomeIfNew source) in
  let '(r, ns) := find_neighbors now (router s) (from_id key) (Some source) in
  (ns, set_router s r).

Definition rpc_find_value (now : Z) (sender_id : bytes) (sender_addr : string * Z) (key : bytes)
    (s : KademliaProtocol) : option (FindValueResult * KademliaProtocol) :=
  let source := sender sender_id sender_addr in
  s ← welcome_if_new now source s;
  match get now (storage s) key with
  | Some v => Some (ResultValue v, s)
  | None =>
      let '(r, ns) := find_neighbors now (router s) (from_id key) (Some source) in
      Some (ResultNodes ns, set_router s r)
  end.

Definition rpc_leave (sender_id : bytes) (sender_addr : string * Z) (s : KademliaProtocol)
  : KademliaProtocol :=
  set_router s (remove_contact (router s) (sender sender_id sender_addr)).

Definition dispatch_request (now : Z) (msg : RpcMessage) (peer : SocketAddr) (s : KademliaProtocol)
  : option (option RpcMessage * KademliaProtocol) :=
  let sender_addr := (addr_ip peer, addr_port peer) in
  match msg with
  | Ping sender_id =>
      let '(resp_id, s) := rpc_ping sender_id sender_addr s in Some (Some (Pong resp_id), s)
  | Store sender_id key value =>
      let '(ok, s) := rpc_store now sender_id sender_addr key value s in Some (Some (StoreResult ok), s)
  | Update sender_id key value auth_signature =>
      let '(ok, s) := rpc_update now sender_id sender_addr key value auth_signature s in
      Some (Some (UpdateResult ok), s)
  | UpdateStatusList sender_id key value =>
      let '(ok, s) := rpc_update_status_list now sender_id sender_addr key value s in
      Some (Some (UpdateStatusListResult ok), s)
  | Delete sender_id key auth_signature delete_msg =>
      let '(ok, s) := rpc_delete now sender_id sender_addr key auth_signature delete_msg s in
      Some (Some (DeleteResult ok), s)
  | FindNode sender_id key =>
      let '(nodes, s) := rpc_find_node now sender_id sender_addr key s in
      Some (Some (FindNodeResult (wire_of_node <$> nodes)), s)
  | FindValue sender_id key =>
      '(result, s) ← rpc_find_value now sender_id sender_addr key s;
      Some (Some (match result with
                  | ResultValue v => FindValueHit v
                  | ResultNodes ns => FindValueNodes (wire_of_node <$> ns)
                  end), s)
  | Leave sender_id => Some (None, rpc_leave sender_id sender_addr s)
  | _ => Some (None, s)
  end.

(** ** Responses *)

(** What [handle_datagram] does with a response before it gives it to the call that
    waits: the sender of a [Pong] is welcomed.  (The identifier is a [[u8; ID_LEN]];
    a list of another length is no message.) *)
Definition on_response (peer : SocketAddr) (m : RpcMessage) (s : KademliaProtocol) : KademliaProtocol :=
  match m with
  | Pong sender_id =>
      if Nat.eqb (length sender_id) ID_LEN
      then spawn s (WelcomeIfNew (sender sender_id (addr_ip peer, addr_port peer))) else s
  | _ => s
  end.

(** The answer, if any, to the request sent, if any. *)
Definition on_answer (request : option (SocketAddr * RpcMessage)) (answer : option RpcMessage) (s : KademliaProtocol)
  : KademliaProtocol :=
  match request, answer with
  | Some (peer, _), Some m => on_response peer m s
  | _, _ => s
  end.

(** ** Outgoing calls *)

(** [peer.address()] then [format!(..).parse()]. *)
Definition peer_sock_addr (peer : Node) : option SocketAddr :=
  '(i, p) ← address peer; parse_addr i p.

Definition drop_peer (s : KademliaProtocol) (peer : Node) : KademliaProtocol :=
  set_router s (remove_contact (router s) peer).

Section calls.
Variable call : SocketAddr -> RpcMessage -> option RpcMessage.

Definition call_ping_addr (addr : string * Z) (s : KademliaProtocol) : bool * bytes :=
  match parse_addr (fst addr) (snd addr) with
  | None => (false, [])
  | Some sock_addr =>
      match call sock_addr (Ping (id (source_node s))) with
      | Some (Pong sender_id) => (true, sender_id)
      | _ => (false, [])
      end
  end.

Definition call_store_rpc (peer : Node) (key value : bytes) (s : KademliaProtocol)
  : bool * KademliaProtocol :=
  match peer_sock_addr peer with
  | None => (false, s)
  | Some sock_addr =>
      match call sock_addr (Store (id (source_node s)) key value) with
      | Some (StoreResult ok) => (ok, s)
      | _ => (false, drop_peer s peer)
      end
  end.

Definition call_update_rpc (peer : Node) (key value auth_signature : bytes) (s : KademliaProtocol)
  : bool * KademliaProtocol :=
  match peer_sock_addr peer with
  | None => (false, s)
  | Some sock_addr =>
      match call sock_addr (Update (id (source_node s)) key value auth_signature) with
      | Some (UpdateResult ok) => (ok, s)
      | _ => (false, drop_peer s peer)
      end
  end.

Definition call_status_list_update_rpc (peer : Node) (key value : bytes) (s : KademliaProtocol)
  : bool * KademliaProtocol :=
  match peer_sock_addr peer with
  | None => (false, s)
  | Some sock_addr =>
      match call sock_addr (UpdateStatusList (id (source_node s)) key value) with
      | Some (UpdateStatusListResult ok) => (ok, s)
      | _ => (false, drop_peer s peer)
      end
  end.

Definition call_delete_rpc (peer : Node) (key auth_signature delete_msg : bytes) (s : KademliaProtocol)
  : bool * KademliaProtocol :=
  match peer_sock_addr peer with
  | None => (false, s)
  | Some sock_addr =>
      match call sock_addr (Delete (id (source_node s)) key auth_signature delete_msg) with
      | Some (DeleteResult ok) => (ok, s)
      | _ => (false, drop_peer s peer)
      end
  end.

(** The message that [call_leave_rpc] sends, if any; the answer is ignored. *)
Definition call_leave_rpc (peer : Node) (s : KademliaProtocol) : option (SocketAddr * RpcMessage) :=
  sock_addr ← peer_sock_addr peer; Some (sock_addr, Leave (id (source_node s))).

Definition call_ping_node (n : Node) (s : KademliaProtocol) : KademliaProtocol :=
  match address n with
  | None => s
  | Some addr =>
      let '(ok, _) := call_ping_addr addr s in
      if negb ok then drop_peer s n else s
  end.

Definition wire_tuple (w : WireNode) : NodeTuple := (wid w, wip w, wport w).

Definition kp_call_find_node (peer target : Node) (s : KademliaProtocol)
  : KademliaProtocol * RawResponse :=
  match peer_sock_addr peer with
  | None => (s, mkRaw false Empty)
  | Some sock_addr =>
      match call sock_addr (FindNode (id (source_node s)) (id target)) with
      | Some (FindNodeResult nodes) =>
          (spawn s (WelcomeIfNew peer), mkRaw true (Nodes (wire_tuple <$> nodes)))
      | _ => (drop_peer s peer, mkRaw false Empty)
      end
  end.

Definition kp_call_find_value (peer target : Node) (s : KademliaProtocol)
  : KademliaProtocol * RawResponse :=
  match peer_sock_addr peer with
  | None => (s, mkRaw false Empty)
  | Some sock_addr =>
      match call sock_addr (FindValue (id (source_node s)) (id target)) with
      | Some (FindValueHit value) => (spawn s (WelcomeIfNew peer), mkRaw true (Value value))
      | Some (FindValueNodes nodes) =>
          (spawn s (WelcomeIfNew peer), mkRaw true (Nodes (wire_tuple <$> nodes)))
      | _ => (drop_peer s peer, mkRaw false Empty)
      end
  end.

Definition run_task (now : Z) (t : Task) (s : KademliaProtocol) : option KademliaProtocol :=
  match t with
  | WelcomeIfNew n => welcome_if_new now n s
  | PingNode n => Some (call_ping_node n s)
  | StoreRpc n key value => Some (snd (call_store_rpc n key value s))
  end.

End calls.

(** [get_refresh_ids]; [gen_range i lo hi] is the [i]-th draw. *)
Definition refresh_id (r : Z) : bytes := be_bytes 16 r ++ replicate 4 x00.

Definition get_refresh_ids (gen_range : nat -> Z -> Z -> Z) (now : Z) (s : KademliaProtocol)
  : list bytes :=
  imap (fun i b => refresh_id (gen_range i (range_lo b) (range_hi b))) (lonely_buckets now (router s)).

End protocol.
Arguments KademliaProtocol S Hd C : clear implicits.
