(* ===== verification/ProtocolSpec.v ===== *)
(** * ProtocolSpec: invariants and authorisation of the RPC layer

    Theorems on [Protocol.v], proved against the interfaces: any storage with
    [StorageLaws], any handler with [HandlerLaws], any cache with [Moka]. *)
From S2P Require Import Prelude Node Routing RoutingTable RoutingTableSpec Storage Text Crypto AuthHandler SigCache Crawling Protocol.
From Stdlib Require Import Strings.Byte.
Local Open Scope Z_scope.

Section protocol_spec.
Context `{US : UnstableSort} `{HA : Hashes} `{NA : NetAddr}.
Context {S : Type} `{SL : StorageLaws S}.
Context {Hd E : Type} `{HL : HandlerLaws Hd E}.
Context {C : Type} `{MC : Moka C}.

Local Abbreviation proto := (KademliaProtocol S Hd C).

(** ** Well-formed states *)

Definition task_wf (t : Task) : Prop :=
  match t with WelcomeIfNew n | PingNode n | StoreRpc n _ _ => wf_node n end.

Record proto_wf (s : proto) : Prop := {
  pw_table : table_wf (router s);
  pw_local : local_node (router s) = source_node s;
  pw_ksize : (0 < tksize (router s))%nat;
  pw_tasks : Forall task_wf (spawned s)
}.

(** A request names its sender and key with 20 bytes, as its array types say. *)
Definition msg_wf (m : RpcMessage) : Prop :=
  match m with
  | Ping i | Pong i | Leave i => length i = ID_LEN
  | Store i k _ | UpdateStatusList i k _ | FindNode i k | FindValue i k
  | Update i k _ _ | Delete i k _ _ => length i = ID_LEN /\ length k = ID_LEN
  | _ => True
  end.

Lemma sender_wf i a : length i = ID_LEN -> wf_node (sender i a).
Proof. apply Node_new_wf. Qed.

Lemma proto_wf_new now source st k h c :
  wf_node source -> (0 < k)%nat -> proto_wf (KademliaProtocol_new now source st k h c).
Proof. intros Hs Hk. split; simpl; [by apply RoutingTable_new_wf|done|done|constructor]. Qed.

(** Only the router and the tasks matter. *)
Lemma proto_wf_router (s s' : proto) r ts :
  proto_wf s -> router s' = r -> spawned s' = ts -> source_node s' = source_node s ->
  table_wf r -> local_node r = local_node (router s) -> tksize r = tksize (router s) ->
  Forall task_wf ts -> proto_wf s'.
Proof. intros [Ht Hl Hk Hs] <- <- E1 Hw E2 E3 Hts. split; [done|congruence|lia|done]. Qed.

Lemma spawn_wf s t : proto_wf s -> task_wf t -> proto_wf (spawn s t).
Proof.
  intros Hw Ht. eapply proto_wf_router; try done; [by apply Hw|]. simpl.
  apply Forall_app. split; [apply Hw|by apply Forall_singleton].
Qed.

Lemma on_response_wf peer m s : proto_wf s -> proto_wf (on_response peer m s).
Proof.
  intros Hw. destruct m; try exact Hw. simpl. destruct (Nat.eqb_spec (length sender_id) ID_LEN); [|done].
  apply spawn_wf; [done|by apply sender_wf].
Qed.

Lemma on_answer_wf request answer s : proto_wf s -> proto_wf (on_answer request answer s).
Proof. destruct request as [[peer m]|], answer as [m'|]; try done. apply on_response_wf. Qed.

Lemma set_storage_wf s st : proto_wf s -> proto_wf (set_storage s st).
Proof. by intros []; split. Qed.

Lemma drop_peer_wf s n : proto_wf s -> wf_node n -> proto_wf (drop_peer s n).
Proof.
  intros Hw Hn. eapply proto_wf_router; try done; [|apply Hw].
  apply remove_contact_wf; [apply Hw|done].
Qed.

Lemma set_router_wf s r :
  proto_wf s -> table_wf r -> local_node r = local_node (router s) -> tksize r = tksize (router s) ->
  proto_wf (set_router s r).
Proof. intros Hw ???. eapply proto_wf_router; try done. apply Hw. Qed.

Lemma verify_for_key_fields now k v (s : proto) :
  let s' := snd (verify_for_key now k v s) in
  router s' = router s /\ storage s' = storage s /\ source_node s' = source_node s /\
  signature_handler s' = signature_handler s /\ invalid_sig_strikes s' = invalid_sig_strikes s /\
  spawned s' = spawned s.
Proof. unfold verify_for_key. repeat case_match; simpl; done. Qed.

Lemma verify_for_key_wf now k v s : proto_wf s -> proto_wf (snd (verify_for_key now k v s)).
Proof.
  intros Hw. destruct (verify_for_key_fields now k v s) as (E1 & _ & E2 & _ & _ & E3).
  eapply proto_wf_router; [exact Hw|exact E1|exact E3|done|apply Hw|done|done|apply Hw].
Qed.

(** ** Welcoming a node *)

(** The replication test of the code, on the answers of the table. *)
Definition belongs_to (now : Z) (r : RoutingTable) (self node : Node) (key : bytes) : bool :=
  let neighbors := snd (find_neighbors now r (from_id key) None) in
  match last neighbors with
  | Some l => distance_to node (from_id key) <? distance_to l (from_id key)
  | None => true
  end &&
  match head neighbors with
  | Some f => distance_to self (from_id key) <? distance_to f (from_id key)
  | None => true
  end.

Lemma keys_to_replicate_spec now r self node entries :
  table_wf r -> (0 < tksize r)%nat ->
  let '(r', kvs) := keys_to_replicate now r self node entries in
  table_wf r' /\ r' ≡ r /\ all_contacts r' = all_contacts r /\ all_nodes r' = all_nodes r /\
  kvs = filter (fun kv => length (fst kv) = ID_LEN /\ belongs_to now r self node (fst kv) = true) entries.
Proof.
  revert r. induction entries as [|[key value] entries IH]; intros r Hw Hk.
  { simpl. by split_and!. }
  cbn [keys_to_replicate]. rewrite filter_cons.
  destruct (Nat.eqb_spec (length key) ID_LEN) as [Hl|Hl]; cbn [negb].
  2:{ specialize (IH r Hw Hk). rewrite decide_False by (simpl; tauto). exact IH. }
  pose proof (from_id_wf key Hl) as Hf.
  pose proof (find_neighbors_table now r (from_id key) None Hw Hf Hk) as (W1 & _ & K1 & N1 & C1).
  pose proof (find_neighbors_touches now r (from_id key) None Hw Hf Hk) as T1.
  destruct (find_neighbors now r (from_id key) None) as [r1 neighbors] eqn:En. cbn [fst] in *.
  specialize (IH r1 W1 ltac:(lia)). destruct (keys_to_replicate now r1 self node entries) as [r2 kvs].
  destruct IH as (W2 & T2 & C2 & N2 & ->). split_and!; [done|by etrans|congruence|congruence|].
  assert (belongs_to now r self node key =
    match last neighbors with
    | Some l => distance_to node (from_id key) <? distance_to l (from_id key)
    | None => true
    end &&
    match head neighbors with
    | Some f => distance_to self (from_id key) <? distance_to f (from_id key)
    | None => true
    end) as Eb by (unfold belongs_to; by rewrite En).
  assert (filter (fun kv : bytes * bytes => length (fst kv) = ID_LEN /\ belongs_to now r1 self node (fst kv) = true) entries
        = filter (fun kv => length (fst kv) = ID_LEN /\ belongs_to now r self node (fst kv) = true) entries) as ->.
  { apply list_filter_iff. intros [k v]. simpl. split; (intros [Hlk Hb]; split; [done|]; rewrite <- Hb; unfold belongs_to);
      by rewrite (find_neighbors_equiv now r1 r (from_id k) None W1 Hw (from_id_wf k Hlk) ltac:(lia) T1). }
  rewrite <- Eb. cbn [fst]. destruct (belongs_to now r self node key) eqn:Ebt.
  - by rewrite decide_True.
  - by rewrite decide_False by (intros [_ ?]; congruence).
Qed.

Lemma spawn_all_fields (kvs : list (bytes * bytes)) n (s : proto) :
  let s' := foldl (fun s kv => spawn s (StoreRpc n (fst kv) (snd kv))) s kvs in
  router s' = router s /\ storage s' = storage s /\ source_node s' = source_node s /\
  signature_handler s' = signature_handler s /\ sig_cache s' = sig_cache s /\
  invalid_sig_strikes s' = invalid_sig_strikes s /\
  spawned s' = spawned s ++ ((fun kv => StoreRpc n (fst kv) (snd kv)) <$> kvs).
Proof.
  revert s. induction kvs as [|kv kvs IH]; intros s; simpl; [by rewrite app_nil_r|].
  destruct (IH (spawn s (StoreRpc n (fst kv) (snd kv)))) as (-> & -> & -> & -> & -> & -> & ->).
  simpl. by rewrite <- app_assoc.
Qed.

(** The state a handler leaves, apart from router and tasks. *)
Definition same_data (s s' : proto) : Prop :=
  storage s' = storage s /\ source_node s' = source_node s /\
  signature_handler s' = signature_handler s /\ sig_cache s' = sig_cache s /\
  invalid_sig_strikes s' = invalid_sig_strikes s.

Lemma on_answer_same request answer (s : proto) : same_data s (on_answer request answer s).
Proof.
  destruct request as [[peer m]|], answer as [[]|]; try done.
  unfold on_answer, on_response. by destruct (Nat.eqb _ _).
Qed.

(** The contact that is to be pinged is one of the table. *)
Lemma lru_wf now r n r' l :
  table_wf r -> wf_node n -> (0 < tksize r)%nat -> add_contact INSERT_FUEL now r n = Some (r', Some l) -> wf_node l.
Proof.
  intros Hw Hn Hk Ha. destruct (add_contact_spec _ _ _ _ _ _ Hw Hn Hk Ha) as (Hw' & _ & Hor).
  destruct Hor as [(_ & _ & ?)|(_ & l1 & b & l2 & (Eb & _) & Hi)]; [done|].
  simpl in Hi. destruct Hi as (Hh & _). apply (contact_wf r'); [done|].
  apply all_nodes_contacts, elem_of_all_nodes. exists b. split; [rewrite Eb; set_solver|].
  by apply head_Some_elem_of.
Qed.

Lemma welcome_spec now n s s' :
  proto_wf s -> wf_node n -> welcome_if_new now n s = Some s' ->
  proto_wf s' /\ same_data s s' /\
  (is_new_node (router s) n = false -> s' = s) /\
  (is_new_node (router s) n = true ->
     exists r lru, r ≡ router s /\ table_wf r /\ add_contact INSERT_FUEL now r n = Some (router s', lru) /\
     spawned s' = spawned s ++ option_list (PingNode <$> lru) ++
       ((fun kv => StoreRpc n (fst kv) (snd kv)) <$>
        filter (fun kv => length (fst kv) = ID_LEN /\
                  belongs_to now (router s) (source_node s) n (fst kv) = true)
          (iter_all now (storage s)))).
Proof.
  intros Hw Hn. unfold welcome_if_new. destruct (is_new_node (router s) n) eqn:En; simpl.
  2:{ intros [= <-]. by split_and!. }
  pose proof (keys_to_replicate_spec now (router s) (source_node s) n (iter_all now (storage s))
                (pw_table s Hw) (pw_ksize s Hw)) as Hk.
  destruct (keys_to_replicate _ _ _ _ _) as [r kvs]. destruct Hk as (W & T & _ & _ & ->).
  destruct (add_contact INSERT_FUEL now r n) as [[r' lru]|] eqn:Ea; [|done]. simpl.
  assert (tksize r = tksize (router s)) as Ek by exact (f_equal tksize T).
  assert (local_node r = local_node (router s)) as El by exact (f_equal local_node T).
  pose proof (pw_ksize s Hw) as Hpos.
  destruct (add_contact_spec _ _ _ _ _ _ W Hn ltac:(lia) Ea) as (W' & [L' K' _ _] & _).
  intros [= <-]. set (s1 := match lru with Some l => spawn (set_router s r') (PingNode l) | None => set_router s r' end).
  match goal with |- context [foldl _ s1 ?l] => destruct (spawn_all_fields l n s1) as (F1 & F2 & F3 & F4 & F5 & F6 & F7) end.
  assert (router s1 = r' /\ same_data s s1 /\ spawned s1 = spawned s ++ option_list (PingNode <$> lru)) as (G1 & (G2 & G3 & G4 & G5 & G6) & G7).
  { unfold s1. destruct lru; simpl; rewrite ?app_nil_r; done. }
  assert (forall l, lru = Some l -> wf_node l) as Hlru.
  { intros l ->. apply (lru_wf now r n r' l); [done|done|lia|done]. }
  split_and!; try (unfold same_data; split_and!; congruence); [|done|].
  - eapply (proto_wf_router s _ r' _ Hw); [congruence|exact F7|congruence|done|congruence|lia|].
    rewrite G7. apply Forall_app. split; [apply Forall_app; split; [apply Hw|]|].
    + destruct lru; simpl; [|constructor]. apply Forall_singleton. by apply Hlru.
    + by apply Forall_fmap, Forall_true.
  - intros _. exists r, lru. rewrite F1, G1, F7, G7, app_assoc. done.
Qed.

Lemma welcome_returns now n (s : proto) :
  proto_wf s -> wf_node n -> few_rivals (router s) n -> exists s', welcome_if_new now n s = Some s'.
Proof.
  intros Hw Hn Hfew. unfold welcome_if_new. destruct (is_new_node (router s) n); simpl; [|by eexists].
  pose proof (keys_to_replicate_spec now (router s) (source_node s) n (iter_all now (storage s))
                (pw_table s Hw) (pw_ksize s Hw)) as Hk.
  destruct (keys_to_replicate _ _ _ _ _) as [r kvs]. destruct Hk as (W & T & _ & _ & _).
  destruct (add_contact_returns now r n W Hn (proj2 (few_rivals_equiv _ _ n T) Hfew)) as [[r' lru] ->]. by eexists.
Qed.

Lemma find_neighbors_wf now (s : proto) key ex :
  proto_wf s -> length key = ID_LEN ->
  proto_wf (set_router s (fst (find_neighbors now (router s) (from_id key) ex))).
Proof.
  intros Hw Hk.
  destruct (find_neighbors_table now (router s) (from_id key) ex (pw_table s Hw) (from_id_wf key Hk) (pw_ksize s Hw))
    as (? & ? & ? & _). by apply set_router_wf.
Qed.

(** ** The invariant of the state *)

Lemma rpc_store_wf now i a k v s :
  proto_wf s -> length i = ID_LEN -> proto_wf (snd (rpc_store now i a k v s)).
Proof.
  intros Hw Hi. unfold rpc_store. pose proof (verify_for_key_wf now k v s Hw) as Hw1.
  destruct (verify_for_key now k v s) as [valid s1]. cbn [snd] in Hw1.
  pose proof (sender_wf i a Hi) as Hs. destruct valid; simpl.
  - destruct (insert_if_absent now (storage s1) k v) as [st [|]]; simpl.
    + apply spawn_wf; [by apply set_storage_wf|done].
    + by apply set_storage_wf.
  - destruct (_ <=? _); simpl.
    + apply (drop_peer_wf (set_strikes s1 _)); [|done]. by destruct Hw1; split.
    + apply spawn_wf; [|done]. by destruct Hw1; split.
Qed.

Lemma dispatch_request_wf now msg peer s resp s' :
  proto_wf s -> msg_wf msg -> dispatch_request now msg peer s = Some (resp, s') -> proto_wf s'.
Proof.
  intros Hw Hm. destruct msg; cbn [dispatch_request msg_wf] in *; try (intros [= _ <-]; done).
  - intros [= _ <-]. apply spawn_wf; [done|by apply sender_wf].
  - destruct Hm as [Hi _]. pose proof (rpc_store_wf now sender_id (addr_ip peer, addr_port peer) key value s Hw Hi).
    destruct (rpc_store _ _ _ _ _ _). intros [= _ <-]. done.
  - unfold rpc_update. repeat case_match; intros [= _ <-]; simplify_eq; try done.
    apply set_storage_wf, spawn_wf; [done|]. apply sender_wf, Hm.
  - unfold rpc_update_status_list. repeat case_match; intros [= _ <-]; simplify_eq; try done.
    apply set_storage_wf, spawn_wf; [done|]. apply sender_wf, Hm.
  - unfold rpc_delete. repeat case_match; intros [= _ <-]; simplify_eq; try done.
    apply set_storage_wf, spawn_wf; [done|]. apply sender_wf, Hm.
  - destruct Hm as [Hi Hk]. unfold rpc_find_node. cbn [router spawn].
    pose proof (find_neighbors_wf now (spawn s (WelcomeIfNew (sender sender_id (addr_ip peer, addr_port peer)))) key
      (Some (sender sender_id (addr_ip peer, addr_port peer)))
      (spawn_wf _ (WelcomeIfNew (sender sender_id (addr_ip peer, addr_port peer))) Hw (sender_wf _ _ Hi)) Hk) as Hf.
    cbn [router spawn] in Hf. destruct (find_neighbors now (router s) _ _) as [r ns]. intros [= _ <-]. done.
  - destruct Hm as [Hi Hk]. unfold rpc_find_value.
    destruct (welcome_if_new now _ s) as [s1|] eqn:Ew; [|done]. cbn [mbind option_bind].
    destruct (welcome_spec _ _ _ _ Hw (sender_wf _ _ Hi) Ew) as (Hw1 & _).
    pose proof (find_neighbors_wf now s1 key (Some (sender sender_id (addr_ip peer, addr_port peer))) Hw1 Hk) as Hf.
    destruct (find_neighbors now (router s1) _ _) as [r ns]. cbn [fst] in Hf.
    destruct (get now (storage s1) key); intros [= _ <-]; done.
  - intros [= _ <-]. by apply (drop_peer_wf s), sender_wf.
Qed.

Lemma run_task_wf call now t s s' :
  proto_wf s -> task_wf t -> run_task call now t s = Some s' -> proto_wf s'.
Proof.
  intros Hw Ht. destruct t; simpl in *.
  - intros Hr. by apply (welcome_spec _ _ _ _ Hw Ht Hr).
  - intros [= <-]. unfold call_ping_node. repeat case_match; simplify_eq; try done. by apply drop_peer_wf.
  - intros [= <-]. unfold call_store_rpc. repeat case_match; simplify_eq; try done; by apply drop_peer_wf.
Qed.

(** ** What a request may do to the stored records *)

(** The authorised changes of the content of a key by a request. *)
Inductive change (now : Z) (s : proto) : RpcMessage -> bytes -> option bytes -> Prop :=
| change_store i k v :
    fst (verify_for_key now k v s) = true -> get now (storage s) k = None ->
    change now s (Store i k v) k (Some v)
| change_update i k v a old :
    get now (storage s) k = Some old ->
    handle_update_verification (signature_handler s) v old a = Ok true ->
    change now s (Update i k v a) k (Some v)
| change_status_list i k v old :
    get now (storage s) k = Some old ->
    handle_issuer_node_signature_verification (signature_handler s) v = Ok true ->
    change now s (UpdateStatusList i k v) k (Some v)
| change_delete i k a m old :
    get now (storage s) k = Some old ->
    handle_signature_delete_operation (signature_handler s) old a m = Ok true ->
    change now s (Delete i k a m) k None.

Lemma rpc_store_storage now i a key v (s : proto) k :
  let s' := snd (rpc_store now i a key v s) in
  get now (storage s') k = get now (storage s) k \/
  change now s (Store i key v) k (get now (storage s') k).
Proof.
  unfold rpc_store. destruct (verify_for_key_fields now key v s) as (_ & Es & _).
  destruct (verify_for_key now key v s) as [valid s1] eqn:Ev. cbn [snd] in Es.
  destruct valid; simpl; [|by destruct (_ <=? _); left; simpl; rewrite Es].
  rewrite Es. pose proof (get_insert_if_absent now (storage s) key v k) as Hg.
  pose proof (insert_if_absent_result now (storage s) key v) as Hr.
  destruct (insert_if_absent now (storage s) key v) as [st b]. cbn [fst snd] in *.
  assert (get now st k = get now (storage s) k \/ change now s (Store i key v) k (get now st k)) as Hor.
  { rewrite Hg. case_decide as Hk; [|by left]. subst k.
    destruct (get now (storage s) key) eqn:E1; simpl; [by left|right].
    constructor; [by rewrite Ev|done]. }
  by destruct b.
Qed.

Lemma dispatch_storage now msg peer s resp s' k :
  dispatch_request now msg peer s = Some (resp, s') ->
  get now (storage s') k = get now (storage s) k \/ change now s msg k (get now (storage s') k).
Proof.
  destruct msg; cbn [dispatch_request]; try (intros [= _ <-]; by left).
  - pose proof (rpc_store_storage now sender_id (addr_ip peer, addr_port peer) key value s k) as Hs.
    destruct (rpc_store _ _ _ _ _ _) as [ok s1]. by intros [= _ <-].
  - unfold rpc_update. destruct (get now (storage s) key) as [old|] eqn:Eg; [|intros [= _ <-]; by left].
    destruct (unwrap_or false _) eqn:Ev; [|intros [= _ <-]; by left]. intros [= _ <-]. simpl.
    apply unwrap_or_true in Ev. rewrite get_set. case_decide as Hk; [subst k; right|by left].
    by eapply change_update.
  - unfold rpc_update_status_list. destruct (get now (storage s) key) as [old|] eqn:Eg; [|intros [= _ <-]; by left].
    destruct (unwrap_or false _) eqn:Ev; [|intros [= _ <-]; by left]. intros [= _ <-]. simpl.
    apply unwrap_or_true in Ev. rewrite get_set. case_decide as Hk; [subst k; right|by left].
    by eapply change_status_list.
  - unfold rpc_delete. destruct (get now (storage s) key) as [old|] eqn:Eg; [|intros [= _ <-]; by left].
    destruct (unwrap_or false _) eqn:Ev; [|intros [= _ <-]; by left]. intros [= _ <-]. simpl.
    apply unwrap_or_true in Ev. rewrite get_delete. case_decide as Hk; [subst k; right|by left].
    by eapply change_delete.
  - unfold rpc_find_value. cbv zeta. destruct (welcome_if_new now _ s) as [s1|] eqn:Ew; [|done]. cbn [mbind option_bind].
    assert (storage s1 = storage s) as Es.
    { revert Ew. unfold welcome_if_new. destruct (negb _); [by intros [= <-]|].
      destruct (keys_to_replicate _ _ _ _ _) as [r kvs].
      destruct (add_contact _ _ _ _) as [[r' lru]|]; [|done]. intros [= <-].
      match goal with |- context [foldl _ ?x ?l] => destruct (spawn_all_fields l (sender sender_id (addr_ip peer, addr_port peer)) x) as (_ & -> & _) end.
      by destruct lru. }
    destruct (get now (storage s1) key); [intros [= _ <-]; left; by rewrite Es|].
    destruct (find_neighbors _ _ _ _) as [r ns]. intros [= _ <-]. left. simpl. by rewrite Es.
Qed.

(** ** Reachable states *)

(** Take a task out of the queue. *)
Definition unspawn (i : nat) (s : proto) : proto :=
  mkProto (router s) (storage s) (source_node s) (signature_handler s) (sig_cache s)
    (invalid_sig_strikes s) (delete i (spawned s)).

(** What the API's [update] checks before it writes. *)
Definition authorised_update (h : Hd) (value : bytes) : Prop :=
  handle_issuer_node_signature_verification h value = Ok true \/
  exists old auth, handle_update_verification h value old auth = Ok true.

(** The node's transitions, with a clock that does not go back: a request is
    handled, a response arrives, a background task runs, a lookup of the node calls a peer, or the
    node's own user stores a verified value, an authorised update or a deletion
    locally. *)
Inductive step : Z * proto -> Z * proto -> Prop :=
| step_request t t' msg peer s resp s' :
    t <= t' -> msg_wf msg -> dispatch_request t' msg peer s = Some (resp, s') ->
    step (t, s) (t', s')
| step_response t t' peer m s : t <= t' -> step (t, s) (t', on_response peer m s)
| step_task t t' i task call s s' :
    t <= t' -> spawned s !! i = Some task -> run_task call t' task (unspawn i s) = Some s' ->
    step (t, s) (t', s')
| step_find_node t t' call peer target s :
    t <= t' -> wf_node peer -> step (t, s) (t', fst (kp_call_find_node call peer target s))
| step_find_value t t' call peer target s :
    t <= t' -> wf_node peer -> step (t, s) (t', fst (kp_call_find_value call peer target s))
| step_local_set t t' key value s :
    t <= t' -> fst (verify_for_key t' key value s) = true ->
    step (t, s) (t', let s1 := snd (verify_for_key t' key value s) in
                     set_storage s1 (set t' (storage s1) key value))
| step_local_update t t' key value s :
    t <= t' -> authorised_update (signature_handler s) value ->
    step (t, s) (t', set_storage s (set t' (storage s) key value))
| step_local_delete t t' key s :
    t <= t' -> step (t, s) (t', set_storage s (delete_key t' (storage s) key)).

(** ** Authenticity of the stored records *)

(** [v] carries a valid signature: its own key's, or the issuer's. *)
Definition verified (h : Hd) (v : bytes) : Prop :=
  handle_signature_verification h v = Ok true \/
  handle_issuer_node_signature_verification h v = Ok true.

(** ... or has the SHA-256 of a value that does. *)
Definition authentic (h : Hd) (v : bytes) : Prop :=
  exists v', sha256 v' = sha256 v /\ verified h v'.

Record proto_inv (h : Hd) (ts : Z * proto) : Prop := {
  pi_wf : proto_wf (snd ts);
  pi_handler : signature_handler (snd ts) = h;
  pi_cache : forall c, sig_cache (snd ts) = Some c -> cache_sound (verified h) c;
  pi_storage : forall now k v, fst ts <= now -> get now (storage (snd ts)) k = Some v -> authentic h v
}.

Lemma verify_record_true h b v : verify_record h b v = true -> verified h v.
Proof. unfold verify_record. destruct b; rewrite unwrap_or_true; [by right|by left]. Qed.

Lemma verify_for_key_sound now k v (s : proto) :
  (forall c, sig_cache s = Some c -> cache_sound (verified (signature_handler s)) c) ->
  (fst (verify_for_key now k v s) = true -> authentic (signature_handler s) v) /\
  (forall c, sig_cache (snd (verify_for_key now k v s)) = Some c -> cache_sound (verified (signature_handler s)) c).
Proof.
  intros Hc. unfold verify_for_key. destruct (sig_cache s) as [c|] eqn:Ec; simpl.
  - destruct (get_by_key now c (compute_key v)) as [b|] eqn:Eg; simpl.
    + split; [|by rewrite Ec]. intros ->.
      destruct (cache_sound_get _ _ _ _ _ (Hc c eq_refl) Eg) as (_ & v' & Hv' & Hgood). by exists v'.
    + destruct (verify_record _ _ v) eqn:Er; simpl; [|split; [done|by rewrite Ec]].
      apply verify_record_true in Er. split; [intros _; by exists v|].
      intros c' [= <-]. by apply cache_sound_insert; [apply Hc|].
  - destruct (verify_record _ _ v) eqn:Er; simpl; [|split; [done|by rewrite Ec]].
    apply verify_record_true in Er. split; [intros _; by exists v|done].
Qed.

(** Handlers never change the signature handler, and keep the cache sound. *)
Definition cache_ok (h : Hd) (s : proto) : Prop :=
  signature_handler s = h /\ forall c, sig_cache s = Some c -> cache_sound (verified h) c.

Lemma cache_ok_same h s s' : same_data s s' -> cache_ok h s -> cache_ok h s'.
Proof. intros (_ & _ & E1 & E2 & _) [Hh Hc]. split; [congruence|]. by rewrite E2. Qed.

Lemma rpc_store_cache_ok h now i a k v s : cache_ok h s -> cache_ok h (snd (rpc_store now i a k v s)).
Proof.
  intros [Hh Hc]. unfold rpc_store.
  destruct (verify_for_key_fields now k v s) as (_ & _ & _ & Eh & _).
  rewrite <- Hh in Hc. destruct (verify_for_key_sound now k v s Hc) as [_ Hc'].
  destruct (verify_for_key now k v s) as [valid s1]. cbn [snd fst] in *. rewrite Hh in Hc'.
  assert (signature_handler s1 = h) by congruence.
  destruct valid; simpl; repeat case_match; simplify_eq; split; done.
Qed.

Lemma dispatch_cache_ok h now msg peer s resp s' :
  proto_wf s -> msg_wf msg -> cache_ok h s -> dispatch_request now msg peer s = Some (resp, s') ->
  cache_ok h s'.
Proof.
  intros Hw Hm Hok. destruct msg; cbn [dispatch_request msg_wf] in *; try (intros [= _ <-]; exact Hok).
  - pose proof (rpc_store_cache_ok h now sender_id (addr_ip peer, addr_port peer) key value s Hok).
    destruct (rpc_store _ _ _ _ _ _). by intros [= _ <-].
  - unfold rpc_update. repeat case_match; intros [= _ <-]; simplify_eq; exact Hok.
  - unfold rpc_update_status_list. repeat case_match; intros [= _ <-]; simplify_eq; exact Hok.
  - unfold rpc_delete. repeat case_match; intros [= _ <-]; simplify_eq; exact Hok.
  - unfold rpc_find_value. cbv zeta. destruct (welcome_if_new now _ s) as [s1|] eqn:Ew; [|done].
    cbn [mbind option_bind].
    destruct (welcome_spec _ _ _ _ Hw (sender_wf _ _ (proj1 Hm)) Ew) as (_ & Hsame & _).
    apply (cache_ok_same _ _ _ Hsame) in Hok. destruct (get now (storage s1) key); [by intros [= _ <-]|].
    destruct (find_neighbors now (router s1) _ _) as [r ns]. intros [= _ <-]. exact Hok.
Qed.

Lemma run_task_same call now t s s' :
  proto_wf s -> task_wf t -> run_task call now t s = Some s' -> same_data s s'.
Proof.
  intros Hw Ht. destruct t; simpl.
  - intros Hr. by apply (welcome_spec _ _ _ _ Hw Ht Hr).
  - intros [= <-]. unfold call_ping_node. by repeat case_match; simplify_eq.
  - intros [= <-]. unfold call_store_rpc. by repeat case_match; simplify_eq.
Qed.

Lemma find_call_same call peer target s :
  proto_wf s -> wf_node peer ->
  (proto_wf (fst (kp_call_find_node call peer target s)) /\ same_data s (fst (kp_call_find_node call peer target s))) /\
  (proto_wf (fst (kp_call_find_value call peer target s)) /\ same_data s (fst (kp_call_find_value call peer target s))).
Proof.
  intros Hw Hp. unfold kp_call_find_node, kp_call_find_value. split.
  all: repeat case_match; simpl; (split; [|done]); auto using drop_peer_wf, spawn_wf.
Qed.

Lemma proto_inv_same h t t' s s' :
  t <= t' -> proto_wf s' -> same_data s s' -> proto_inv h (t, s) -> proto_inv h (t', s').
Proof.
  intros Hle Hw' Hsame [Hw Hh Hc Hs]. destruct (cache_ok_same h s s' Hsame (conj Hh Hc)) as [Hh' Hc'].
  destruct Hsame as (Est & _). split; simpl in *; try done.
  intros now k v Hn. rewrite Est. apply Hs. lia.
Qed.

Lemma unspawn_wf i s : proto_wf s -> proto_wf (unspawn i s).
Proof.
  intros Hw. eapply proto_wf_router; try done; [apply Hw|]. simpl. apply Forall_delete, Hw.
Qed.

(** Reading after a change of the storage at time [t]. *)
Lemma storage_authentic_set h t (st : S) :
  (forall k v, get t st k = Some v -> authentic h v) ->
  forall now k v, t <= now -> get now st k = Some v -> authentic h v.
Proof. intros Hall now k v Hle Hg. apply (Hall k). by eapply get_mono. Qed.

Lemma step_inv h ts ts' : proto_inv h ts -> step ts ts' -> proto_inv h ts'.
Proof.
  intros Hinv Hstep. destruct Hstep as [t t' msg peer s resp s' Hle Hm Hd'|t t' peer m s Hle|t t' i task call s s' Hle Hi Hr
    |t t' call peer target s Hle Hp|t t' call peer target s Hle Hp|t t' key value s Hle Hv
    |t t' key value s Hle Hv|t t' key s Hle].
  - destruct Hinv as [Hw Hh Hc Hs]. simpl in *.
    destruct (dispatch_cache_ok h _ _ _ _ _ _ Hw Hm (conj Hh Hc) Hd') as [Hh' Hc'].
    split; simpl; [by eapply dispatch_request_wf|done|done|].
    apply storage_authentic_set. intros k v Hg.
    destruct (dispatch_storage _ _ _ _ _ _ k Hd') as [E1|Hch]; [apply (Hs t' k); [lia|congruence]|].
    rewrite Hg in Hch. rewrite <- Hh in *.
    inversion Hch as [? ? ? Hv|? ? ? ? ? ? Hu|? ? ? ? ? Hi|]; subst.
    + by apply (verify_for_key_sound t' k v s Hc).
    + exists v. split; [done|]. left. by eapply update_self_signed.
    + exists v. split; [done|]. by right.
  - eapply proto_inv_same; [exact Hle|by apply on_response_wf, Hinv| |exact Hinv].
    apply (on_answer_same (Some (peer, m)) (Some m)).
  - pose proof (unspawn_wf i s (pi_wf _ _ Hinv)) as Hw.
    pose proof (proj1 (Forall_lookup _ _) (pw_tasks _ (pi_wf _ _ Hinv)) i task Hi) as Ht.
    eapply (proto_inv_same h t t' (unspawn i s)); [done|by eapply run_task_wf|by eapply run_task_same|].
    destruct Hinv. by split.
  - destruct (find_call_same call peer target s (pi_wf _ _ Hinv) Hp) as [[? ?] _]. by eapply proto_inv_same.
  - destruct (find_call_same call peer target s (pi_wf _ _ Hinv) Hp) as [_ [? ?]]. by eapply proto_inv_same.
  - destruct Hinv as [Hw Hh Hc Hs]. simpl in *. rewrite <- Hh in Hc.
    destruct (verify_for_key_sound t' key value s Hc) as [Hauth Hc'].
    destruct (verify_for_key_fields t' key value s) as (_ & Es & _ & Eh & _).
    pose proof (verify_for_key_wf t' key value s Hw) as Hw'.
    destruct (verify_for_key t' key value s) as [b s1]. simpl in *. rewrite Hh in *.
    split; simpl; [by apply set_storage_wf|done|done|].
    apply storage_authentic_set. intros k v. rewrite get_set, Es. case_decide; [intros [= <-]; by apply Hauth|].
    intros Hg. apply (Hs t' k); [lia|done].
  - destruct Hinv as [Hw Hh Hc Hs]. split; simpl in *; [by apply set_storage_wf|done|done|].
    apply storage_authentic_set. intros k v. rewrite get_set. case_decide.
    + intros [= <-]. exists value. split; [done|]. rewrite <- Hh.
      destruct Hv as [Hv|(old & a & Hv)]; [by right|left; by eapply update_self_signed].
    + intros Hg. apply (Hs t' k); [lia|done].
  - destruct Hinv as [Hw Hh Hc Hs]. split; simpl in *; [by apply set_storage_wf|done|done|].
    apply storage_authentic_set. intros k v. rewrite get_delete. case_decide; [done|].
    intros Hg. apply (Hs t' k); [lia|done].
Qed.

End protocol_spec.

(** ** Claims *)

Section protocol_claims.
Context `{US : UnstableSort} `{HA : Hashes} `{NA : NetAddr}.
Context {S : Type} `{SL : StorageLaws S}.
Context {Hd E : Type} `{HL : HandlerLaws Hd E}.
Context {C : Type} `{MC : Moka C}.

(** C6: authorisation.  Handling a request changes the content of a key only as
    follows: a [Store] of a verified value on an absent key, an [Update] accepted
    by the handler for the old and new records, an [UpdateStatusList] with an
    issuer signature on an existing key, or a [Delete] accepted for the old
    record.  All other keys, and all other requests, leave the store as it is. *)
Theorem record_changes_authorised (now : Z) (msg : RpcMessage) (peer : SocketAddr)
    (s s' : KademliaProtocol S Hd C) (resp : option RpcMessage) (key : bytes) :
  dispatch_request now msg peer s = Some (resp, s') ->
  get now (storage s') key = get now (storage s) key \/
  change now s msg key (get now (storage s') key).
Proof. apply dispatch_storage. Qed.

(** Every branch of [rpc_store]. *)
Lemma rpc_store_cases (now : Z) (i : bytes) (a : string * Z) (key v : bytes)
    (s : KademliaProtocol S Hd C) :
  let '(ok, s') := rpc_store now i a key v s in
  let valid := fst (verify_for_key now key v s) in
  let strikes := wrap 32 (default 0 (invalid_sig_strikes s !! i) + 1) in
  (ok = true <-> valid = true /\ get now (storage s) key = None) /\
  (ok = true -> get now (storage s') key = Some v /\
     spawned s' = spawned s ++ [WelcomeIfNew (sender i a)]) /\
  (ok = false -> forall key', get now (storage s') key' = get now (storage s) key') /\
  (valid = false ->
     invalid_sig_strikes s' !! i = Some strikes /\
     (3 <= strikes -> router s' = remove_contact (router s) (sender i a) /\ spawned s' = spawned s) /\
     (strikes < 3 -> router s' = router s /\ spawned s' = spawned s ++ [WelcomeIfNew (sender i a)])).
Proof.
  unfold rpc_store. destruct (verify_for_key_fields now key v s) as (Er & Es & _ & _ & Ei & Ep).
  destruct (verify_for_key now key v s) as [valid s1]. cbn [fst snd] in *.
  destruct valid; simpl.
  - pose proof (fun k => get_insert_if_absent now (storage s) key v k) as Hg.
    pose proof (insert_if_absent_result now (storage s) key v) as Hr.
    rewrite Es. destruct (insert_if_absent now (storage s) key v) as [st b]. cbn [fst snd] in *. subst b.
    case_bool_decide as Hn; simpl.
    + split; [naive_solver|]. split; [|done]. intros _. by rewrite Hg, decide_True, Hn, Ep by done.
    + split; [naive_solver|]. split; [done|]. split; [|done]. intros _ k'. rewrite Hg.
      case_decide as Hk; [|done]. subst k'. by destruct (get now (storage s) key).
  - rewrite Ei. unfold INVALID_SIG_BAN_THRESHOLD.
    destruct (Z.leb_spec 3 (wrap 32 (default 0 (invalid_sig_strikes s !! i) + 1))); simpl;
      rewrite ?Es, ?Er, ?Ep, ?lookup_insert_eq.
    + split; [naive_solver|]. split; [done|]. split; [done|]. intros _. split_and!; [done|done|lia].
    + split; [naive_solver|]. split; [done|]. split; [done|]. intros _. split_and!; [done|lia|done].
Qed.

(** The outcomes of [rpc_store].  It answers [true] exactly when the value
    verifies and the key is absent; then the value is stored and the sender is to
    be welcomed.  An invalid value stores nothing and adds a strike for the
    sender, which at three strikes is removed from the routing table and below
    that is still welcomed; a valid value for a present key changes nothing. *)
Theorem rpc_store_outcomes (now : Z) (i : bytes) (a : string * Z) (key v : bytes)
    (s : KademliaProtocol S Hd C) :
  let '(ok, s') := rpc_store now i a key v s in
  let valid := fst (verify_for_key now key v s) in
  let strikes := wrap 32 (default 0 (invalid_sig_strikes s !! i) + 1) in
  (ok = true <-> valid = true /\ get now (storage s) key = None) /\
  (ok = true -> get now (storage s') key = Some v /\
     spawned s' = spawned s ++ [WelcomeIfNew (sender i a)]) /\
  (ok = false -> forall key', get now (storage s') key' = get now (storage s) key') /\
  (valid = false ->
     invalid_sig_strikes s' !! i = Some strikes /\
     (3 <= strikes -> router s' = remove_contact (router s) (sender i a) /\ spawned s' = spawned s) /\
     (strikes < 3 -> router s' = router s /\ spawned s' = spawned s ++ [WelcomeIfNew (sender i a)])).
Proof. apply rpc_store_cases. Qed.

(** C28: welcoming.  A node already known changes nothing.  A new node that is not
    this one and whose [long_id] fewer than [k] contacts of its bucket share is
    welcomed: [welcome_if_new] returns, the node is in the table, what is stored does
    not change, and the pairs replicated to the node are exactly the stored ones for
    which it is closer than the farthest of the known neighbours of the key and this
    node is closer than the nearest. *)
Theorem welcome_replicates (now : Z) (n : Node) (s : KademliaProtocol S Hd C) :
  proto_wf s -> wf_node n ->
  (is_new_node (router s) n = false -> welcome_if_new now n s = Some s) /\
  (is_new_node (router s) n = true -> id n <> id (source_node s) -> few_rivals (router s) n ->
   exists s', welcome_if_new now n s = Some s' /\
     n ∈ all_contacts (router s') /\ storage s' = storage s /\
     forall key v, StoreRpc n key v ∈ spawned s' <->
       StoreRpc n key v ∈ spawned s \/
       (get now (storage s) key = Some v /\ length key = ID_LEN /\
        belongs_to now (router s) (source_node s) n key = true)).
Proof.
  intros Hw Hn. split; [intros Hold; unfold welcome_if_new; by rewrite Hold|]. intros Hisnew Hne Hfew.
  destruct (welcome_returns now n s Hw Hn Hfew) as [s' Hwel]. exists s'. split; [done|].
  destruct (welcome_spec _ _ _ _ Hw Hn Hwel) as (Hw' & Hsame & _ & Hnew).
  destruct (Hnew Hisnew) as (r & lru & Heq & Hwr & Ha & Esp).
  assert (local_node r = local_node (router s)) as El by exact (f_equal local_node Heq).
  assert (tksize r = tksize (router s)) as Ek by exact (f_equal tksize Heq).
  pose proof (pw_ksize s Hw). pose proof (pw_local s Hw).
  destruct (add_contact_spec _ _ _ _ _ _ Hwr Hn ltac:(lia) Ha) as (_ & _ & Hor). split; [|split; [apply Hsame|]].
  - destruct Hor as [(? & _)|(_ & l1 & b & l2 & Hloc & Hi)]; [congruence|].
    by eapply inserted_present.
  - intros key v. rewrite Esp, !elem_of_app, list_elem_of_fmap. split.
    + intros [?|[Hp|([k w] & [= -> ->] & [[Hl Hb] Hin]%list_elem_of_filter)]]; [by left| |].
      * destruct lru; simpl in Hp; [by apply list_elem_of_singleton in Hp|by apply elem_of_nil in Hp].
      * right. split_and!; [by apply iter_all_get|done|done].
    + intros [?|(Hg & Hl & Hb)]; [by left|]. right. right. exists (key, v). split; [done|].
      apply list_elem_of_filter. split; [done|]. by apply iter_all_get.
Qed.

(** C39: the cache of verdicts ignores which key a value was verified for.  Once a
    self-signed record has been accepted for an ordinary key, and while the cache
    holds the verdict, the same record is accepted for the status-list key,
    whatever the issuer's verification says. *)
Theorem cache_confuses_status_list (now : Z) (key v : bytes) (c : SignatureCache C)
    (s : KademliaProtocol S Hd C) :
  key <> digest STATUS_LIST_KEY -> sig_cache s = Some c ->
  get_by_key now c (compute_key v) = None ->
  get_by_key now (insert_by_key now c (compute_key v) true) (compute_key v) = Some true ->
  handle_signature_verification (signature_handler s) v = Ok true ->
  let s' := snd (verify_for_key now key v s) in
  fst (verify_for_key now key v s) = true /\
  fst (verify_for_key now (digest STATUS_LIST_KEY) v s') = true.
Proof.
  intros Hk Hc Hmiss Hhit Hv. unfold verify_for_key. rewrite Hc. simpl. rewrite Hmiss.
  rewrite bool_decide_false by done. unfold verify_record. rewrite Hv. simpl.
  split; [done|]. by rewrite Hhit.
Qed.

(** A write request on [key] with the answer and the new content of the key. *)
Definition write_outcome (now : Z) (n : Node) (key : bytes) (accepted : bytes -> bool) (new : option bytes)
    (s : KademliaProtocol S Hd C) (r : bool * KademliaProtocol S Hd C) : Prop :=
  let '(ok, s') := r in
  (ok = true <-> exists old, get now (storage s) key = Some old /\ accepted old = true) /\
  (ok = true -> get now (storage s') key = new /\ spawned s' = spawned s ++ [WelcomeIfNew n] /\
     forall key', key' <> key -> get now (storage s') key' = get now (storage s) key') /\
  (ok = false -> s' = s).

(** The outcomes of [rpc_update], [rpc_update_status_list] and [rpc_delete].
    Each answers [true] exactly when the key holds a record and the handler
    accepts the request for it, and then it changes that key only and welcomes
    the sender; otherwise nothing changes at all.  For [rpc_update_status_list]
    the condition does not mention the key: an issuer-signed value replaces the
    record of any existing key. *)
Theorem rpc_write_outcomes (now : Z) (i : bytes) (a : string * Z) (key v auth msg : bytes)
    (s : KademliaProtocol S Hd C) :
  let h := signature_handler s in
  write_outcome now (sender i a) key (fun old => unwrap_or false (handle_update_verification h v old auth))
    (Some v) s (rpc_update now i a key v auth s) /\
  write_outcome now (sender i a) key (fun _ => unwrap_or false (handle_issuer_node_signature_verification h v))
    (Some v) s (rpc_update_status_list now i a key v s) /\
  write_outcome now (sender i a) key (fun old => unwrap_or false (handle_signature_delete_operation h old auth msg))
    None s (rpc_delete now i a key auth msg s).
Proof.
  unfold write_outcome, rpc_update, rpc_update_status_list, rpc_delete.
  destruct (get now (storage s) key) as [old|]; [|split_and!; naive_solver].
  split_and!; match goal with |- context [negb ?x] => destruct x eqn:Eok end; cbn [negb];
    (split; [naive_solver|]); (split; [|naive_solver]); [|done| |done| |done]; intros _;
    (split; [|split; [reflexivity|]]); simpl.
  all: first [rewrite get_set | rewrite get_delete | intros key' Hne; rewrite get_set | intros key' Hne; rewrite get_delete].
  all: first [by rewrite decide_True | by rewrite decide_False].
Qed.

(** C18: the outcomes of the four writing handlers.  [rpc_store] answers [true]
    exactly when the value verifies and the key is absent; then the value is stored
    and the sender is to be welcomed.  An invalid value stores nothing and adds a
    strike for the sender, which at three strikes is removed from the routing table
    and below that is still welcomed.  [rpc_update], [rpc_update_status_list] and
    [rpc_delete] answer [true] exactly when the key holds a record and the handler
    accepts the request for it, and then change that key only; otherwise nothing
    changes at all.  For [rpc_update_status_list] the condition does not mention the
    key: an issuer-signed value replaces the record of any existing key. *)
Theorem rpc_handlers_outcomes (now : Z) (i : bytes) (a : string * Z) (key v auth msg : bytes)
    (s : KademliaProtocol S Hd C) :
  let h := signature_handler s in
  (let '(ok, s') := rpc_store now i a key v s in
   let valid := fst (verify_for_key now key v s) in
   let strikes := wrap 32 (default 0 (invalid_sig_strikes s !! i) + 1) in
   (ok = true <-> valid = true /\ get now (storage s) key = None) /\
   (ok = true -> get now (storage s') key = Some v /\
      spawned s' = spawned s ++ [WelcomeIfNew (sender i a)]) /\
   (ok = false -> forall key', get now (storage s') key' = get now (storage s) key') /\
   (valid = false ->
      invalid_sig_strikes s' !! i = Some strikes /\
      (3 <= strikes -> router s' = remove_contact (router s) (sender i a) /\ spawned s' = spawned s) /\
      (strikes < 3 -> router s' = router s /\ spawned s' = spawned s ++ [WelcomeIfNew (sender i a)]))) /\
  write_outcome now (sender i a) key (fun old => unwrap_or false (handle_update_verification h v old auth))
    (Some v) s (rpc_update now i a key v auth s) /\
  write_outcome now (sender i a) key (fun _ => unwrap_or false (handle_issuer_node_signature_verification h v))
    (Some v) s (rpc_update_status_list now i a key v s) /\
  write_outcome now (sender i a) key (fun old => unwrap_or false (handle_signature_delete_operation h old auth msg))
    None s (rpc_delete now i a key auth msg s).
Proof. intros h. split; [apply rpc_store_cases|apply rpc_write_outcomes]. Qed.


(** Refreshing.  Each identifier drawn for a lonely bucket has its folded
    128-bit form in that bucket's range, so the lookup it starts touches that
    bucket. *)
Theorem refresh_ids_in_buckets (gen_range : nat -> Z -> Z -> Z) (now : Z)
    (s : KademliaProtocol S Hd C) (i : nat) (x : bytes) :
  proto_wf s -> (forall j lo hi, lo <= hi -> lo <= gen_range j lo hi <= hi) ->
  get_refresh_ids gen_range now s !! i = Some x ->
  exists b, lonely_buckets now (router s) !! i = Some b /\ b ∈ buckets (router s) /\
    length x = ID_LEN /\ covers b (long_id (from_id x)) = true /\
    bucket_at (router s) (bucket_index_for (router s) (long_id (from_id x))) = b.
Proof.
  intros Hw Hg Hx. unfold get_refresh_ids in Hx. apply list_lookup_imap_Some in Hx as (b & Hb & ->).
  pose proof (list_elem_of_lookup_2 _ _ _ Hb) as Hin. apply list_elem_of_filter in Hin as [_ Hin].
  destruct (tiles_bounds _ _ _ _ (tw_tiles _ (pw_table s Hw)) Hin) as [Hlo Hhi]. unfold U128_MAX in Hhi.
  specialize (Hg i (range_lo b) (range_hi b) ltac:(lia)).
  set (r := gen_range i (range_lo b) (range_hi b)) in *.
  assert (long_id (from_id (refresh_id r)) = r) as El.
  { change (long_id (from_id (refresh_id r))) with (id_to_u128 (refresh_id r)).
    unfold id_to_u128, refresh_id. cbv zeta.
    rewrite take_app_length', drop_app_length' by (by rewrite be_bytes_length).
    rewrite be_value_bytes_small by (change (256 ^ Z.of_nat 16) with (2 ^ 128); lia).
    change (wrap 128 (Z.shiftl (be_value (take 4 (replicate 4 x00))) 96)) with 0. apply Z.lxor_0_r. }
  assert (covers b r = true) as Hc by (apply covers_spec; lia).
  exists b. rewrite El. split_and!; [done|done| |done|].
  - unfold refresh_id. rewrite length_app, be_bytes_length. done.
  - destruct (table_locate (router s) r (pw_table s Hw) ltac:(lia)) as (l1 & b' & l2 & Hloc).
    rewrite (located_index _ _ _ _ _ Hloc), (located_at _ _ _ _ _ Hloc).
    symmetry. by eapply (covering_unique (router s)); [apply Hw|..].
Qed.

End protocol_claims.

(** ** A concrete node

    Hashes that pad or cut their input, and a handler whose signatures are the
    first byte of a value. *)
Definition pad_hash (n : nat) (l : bytes) : bytes := take n (l ++ replicate n x00).

Definition demo_hashes : Hashes := {| sha1 := pad_hash 20; sha256 := pad_hash 32 |}.

Lemma demo_hash_laws : @HashLaws demo_hashes.
Proof. split; intros l; simpl; unfold pad_hash; rewrite length_take, length_app, length_replicate; lia. Qed.

Definition demo_handler : SignatureVerifierHandler unit unit := {|
  handle_signature_verification _ v := Ok (bool_decide (head v = Some x01));
  handle_update_verification _ v _ a := Ok (bool_decide (head v = Some x01 /\ a = [x02]));
  handle_signature_delete_operation _ _ a _ := Ok (bool_decide (a = [x04]));
  handle_issuer_node_signature_verification _ v := Ok (bool_decide (head v = Some x03))
|}.

#[local] Existing Instances demo_hashes demo_handler plain_addr.

#[local] Instance demo_laws : HandlerLaws unit unit.
Proof. constructor. intros h v old a. simpl. do 2 case_bool_decide; naive_solver. Qed.

Definition demo_key (x : Z) : bytes := be_bytes 20 x.
Definition demo_peer : SocketAddr := ("10.0.0.1"%string, 9000).

Definition demo_proto : KademliaProtocol ForgetfulStorage unit SimpleCache :=
  KademliaProtocol_new 0 (from_id (demo_key 1)) (ForgetfulStorage_new 604800) 2 tt
    (SignatureCache_new <$> Some 10).

(** ... after a peer has stored a record. *)
Definition demo_stored : KademliaProtocol ForgetfulStorage unit SimpleCache :=
  match dispatch_request 0 (Store (demo_key 2) (demo_key 5) [x01; x41]) demo_peer demo_proto with
  | Some (_, s) => s
  | None => demo_proto
  end.

Lemma demo_proto_wf : proto_wf demo_proto.
Proof. apply proto_wf_new; [by split|lia]. Qed.

Lemma demo_stored_wf : proto_wf demo_stored.
Proof.
  apply (dispatch_request_wf 0 (Store (demo_key 2) (demo_key 5) [x01; x41]) demo_peer demo_proto
           (Some (StoreResult true))); [apply demo_proto_wf|by split|reflexivity].
Qed.

Lemma record_changes_authorised_witness :
  exists resp s', dispatch_request 7 (Update (demo_key 2) (demo_key 5) [x01; x42] [x02]) demo_peer demo_stored
                  = Some (resp, s') /\
    (get 7 (storage s') (demo_key 5) = get 7 (storage demo_stored) (demo_key 5) \/
     change 7 demo_stored (Update (demo_key 2) (demo_key 5) [x01; x42] [x02]) (demo_key 5)
       (get 7 (storage s') (demo_key 5))).
Proof.
  eexists _, _. split; [reflexivity|].
  apply (record_changes_authorised 7 (Update (demo_key 2) (demo_key 5) [x01; x42] [x02]) demo_peer
           demo_stored _ (Some (UpdateResult true))). reflexivity.
Defined.

Lemma welcome_replicates_witness :
  exists s', welcome_if_new 7 (from_id (demo_key 5)) demo_stored = Some s' /\
    from_id (demo_key 5) ∈ all_contacts (router s').
Proof.
  destruct (welcome_replicates 7 (from_id (demo_key 5)) demo_stored demo_stored_wf ltac:(by split)) as [_ Hnew].
  destruct Hnew as (s' & Hs' & Hn & _).
  - vm_compute. reflexivity.
  - vm_compute. discriminate.
  - apply (bool_decide_unpack _). vm_compute. exact I.
  - exists s'. split; [exact Hs'|exact Hn].
Defined.

Lemma cache_confuses_status_list_witness :
  handle_issuer_node_signature_verification tt [x01; x41] = Ok false /\
  fst (verify_for_key 0 (digest STATUS_LIST_KEY) [x01; x41]
         (snd (verify_for_key 0 (demo_key 5) [x01; x41] demo_proto))) = true.
Proof.
  split; [vm_compute; reflexivity|].
  apply (cache_confuses_status_list 0 (demo_key 5) [x01; x41] (SignatureCache_new 10) demo_proto).
  - vm_compute. discriminate.
  - reflexivity.
  - reflexivity.
  - vm_compute. reflexivity.
  - vm_compute. reflexivity.
Defined.

Lemma refresh_ids_in_buckets_witness :
  exists x b, get_refresh_ids (fun _ lo _ => lo) 4000000000000 demo_proto !! 0%nat = Some x /\
    lonely_buckets 4000000000000 (router demo_proto) !! 0%nat = Some b /\ covers b (long_id (from_id x)) = true.
Proof.
  destruct (refresh_ids_in_buckets (fun _ lo _ => lo) 4000000000000 demo_proto 0
              (refresh_id 0)) as (b & Hb & _ & _ & Hc & _).
  - apply demo_proto_wf.
  - intros. lia.
  - vm_compute. reflexivity.
  - exists (refresh_id 0), b. split; [vm_compute; reflexivity|]. split; [exact Hb|exact Hc].
Defined.
