(* ===== verification/Interleaving.v ===== *)
(** * Interleaving: handlers suspended while a signature is verified

    The handlers of [src/src/protocol.rs] that write ([rpc_store], [rpc_update],
    [rpc_update_status_list], [rpc_delete]) give the verification to
    [spawn_blocking] and await it, while other workers handle other requests.
    [suspend_at] is a handler up to that point, with what it has read;
    [resume] is the rest, run on the state of that later moment.  [istep] extends
    the transitions of a node ([ProtocolSpec.step]) with both halves, in any
    interleaving. *)
From S2P Require Import Prelude Node Routing RoutingTable RoutingTableSpec Storage Text Crypto AuthHandler SigCache Crawling Protocol ProtocolSpec.
From Stdlib Require Import Strings.Byte.
Local Open Scope Z_scope.

(** A handler waiting for its verification, with the values it holds. *)
Inductive Suspended :=
| StoreChecking (sender_id : bytes) (sender_addr : string * Z) (key value : bytes)
| UpdateChecking (sender_id : bytes) (sender_addr : string * Z) (key value auth_signature old_value : bytes)
| StatusListChecking (sender_id : bytes) (sender_addr : string * Z) (key value : bytes)
| DeleteChecking (sender_id : bytes) (sender_addr : string * Z) (key auth_signature delete_msg value : bytes).

Section interleaving.
Context `{US : UnstableSort} `{HA : Hashes} `{NA : NetAddr}.
Context {S : Type} `{IS : IStorage S}.
Context {Hd E : Type} `{SH : SignatureVerifierHandler Hd E}.
Context {C : Type} `{MC : Moka C}.

Local Abbreviation proto := (KademliaProtocol S Hd C).

(** The part of a request before the first verification; [None] when there is
    none: the cache has the verdict, the key is absent, or another request. *)
Definition suspend_at (now : Z) (msg : RpcMessage) (peer : SocketAddr) (s : proto) : option Suspended :=
  let sender_addr := (addr_ip peer, addr_port peer) in
  match msg with
  | Store sender_id key value =>
      match (c ← sig_cache s; get_by_key now c (compute_key value)) with
      | Some _ => None
      | None => Some (StoreChecking sender_id sender_addr key value)
      end
  | Update sender_id key value auth_signature =>
      old_value ← get now (storage s) key;
      Some (UpdateChecking sender_id sender_addr key value auth_signature old_value)
  | UpdateStatusList sender_id key value =>
      _ ← get now (storage s) key;
      Some (StatusListChecking sender_id sender_addr key value)
  | Delete sender_id key auth_signature delete_msg =>
      value ← get now (storage s) key;
      Some (DeleteChecking sender_id sender_addr key auth_signature delete_msg value)
  | _ => None
  end.

(** The end of [verify_for_key] after a cache miss. *)
Definition verdict (now : Z) (key value : bytes) (s : proto) : bool * proto :=
  let result := verify_record (signature_handler s) (bool_decide (key = digest STATUS_LIST_KEY)) value in
  if result then
    (result, set_sig_cache s ((fun c => insert_by_key now c (compute_key value) result) <$> sig_cache s))
  else (result, s).

(** The rest of [rpc_store] once the verdict is known. *)
Definition store_checked (now : Z) (sender_id : bytes) (sender_addr : string * Z) (key value : bytes)
    (valid : bool) (s : proto) : bool * proto :=
  if negb valid then
    let strikes := wrap 32 (default 0 (invalid_sig_strikes s !! sender_id) + 1) in
    let s := set_strikes s (<[sender_id := strikes]> (invalid_sig_strikes s)) in
    let source := sender sender_id sender_addr in
    if INVALID_SIG_BAN_THRESHOLD <=? strikes then
      (false, set_router s (remove_contact (router s) source))
    else (false, spawn s (WelcomeIfNew source))
  else
    let '(st, inserted) := insert_if_absent now (storage s) key value in
    let s := set_storage s st in
    if negb inserted then (false, s)
    else (true, spawn s (WelcomeIfNew (sender sender_id sender_addr))).

(** The rest of the handler, with its answer. *)
Definition resume (now : Z) (p : Suspended) (s : proto) : bool * proto :=
  match p with
  | StoreChecking sender_id sender_addr key value =>
      let '(valid, s) := verdict now key value s in
      store_checked now sender_id sender_addr key value valid s
  | UpdateChecking sender_id sender_addr key value auth_signature old_value =>
      let ok := unwrap_or false
                  (handle_update_verification (signature_handler s) value old_value auth_signature) in
      if negb ok then (false, s)
      else
        let s := spawn s (WelcomeIfNew (sender sender_id sender_addr)) in
        (true, set_storage s (set now (storage s) key value))
  | StatusListChecking sender_id sender_addr key value =>
      let ok := unwrap_or false
                  (handle_issuer_node_signature_verification (signature_handler s) value) in
      if negb ok then (false, s)
      else
        let s := spawn s (WelcomeIfNew (sender sender_id sender_addr)) in
        (true, set_storage s (set now (storage s) key value))
  | DeleteChecking sender_id sender_addr key auth_signature delete_msg value =>
      let ok := unwrap_or false
                  (handle_signature_delete_operation (signature_handler s) value auth_signature delete_msg) in
      if negb ok then (false, s)
      else
        let s := spawn s (WelcomeIfNew (sender sender_id sender_addr)) in
        (true, set_storage s (delete_key now (storage s) key))
  end.

(** The response that carries the answer. *)
Definition answer (p : Suspended) (ok : bool) : RpcMessage :=
  match p with
  | StoreChecking _ _ _ _ => StoreResult ok
  | UpdateChecking _ _ _ _ _ _ => UpdateResult ok
  | StatusListChecking _ _ _ _ => UpdateStatusListResult ok
  | DeleteChecking _ _ _ _ _ _ => DeleteResult ok
  end.

(** Clock, node, suspended handlers. *)
Inductive istep : Z * proto * list Suspended -> Z * proto * list Suspended -> Prop :=
| istep_whole t t' s s' q : step (t, s) (t', s') -> istep (t, s, q) (t', s', q)
| istep_suspend t t' msg peer s p q :
    t <= t' -> msg_wf msg -> suspend_at t' msg peer s = Some p ->
    istep (t, s, q) (t', s, q ++ [p])
| istep_resume t t' i p s q ok s' :
    t <= t' -> q !! i = Some p -> resume t' p s = (ok, s') ->
    istep (t, s, q) (t', s', delete i q).

(** ** The halves and the whole *)

Lemma verify_for_key_verdict now key value (s : proto) :
  (c ← sig_cache s; get_by_key now c (compute_key value)) = None ->
  verify_for_key now key value s = verdict now key value s.
Proof. unfold verify_for_key. by intros ->. Qed.

Lemma rpc_store_checked now i a key value (s : proto) :
  rpc_store now i a key value s =
  let '(valid, s) := verify_for_key now key value s in store_checked now i a key value valid s.
Proof. unfold rpc_store. by destruct (verify_for_key _ _ _ _). Qed.

End interleaving.

(** ** Invariant *)

Section interleaving_spec.
Context `{US : UnstableSort} `{HA : Hashes} `{NA : NetAddr}.
Context {S : Type} `{SL : StorageLaws S}.
Context {Hd E : Type} `{HL : HandlerLaws Hd E}.
Context {C : Type} `{MC : Moka C}.

Local Abbreviation proto := (KademliaProtocol S Hd C).

Definition suspended_wf (p : Suspended) : Prop :=
  match p with
  | StoreChecking i _ _ _ | StatusListChecking i _ _ _
  | UpdateChecking i _ _ _ _ _ | DeleteChecking i _ _ _ _ _ => length i = ID_LEN
  end.

Lemma suspend_at_wf now msg peer (s : proto) p :
  msg_wf msg -> suspend_at now msg peer s = Some p -> suspended_wf p.
Proof.
  destruct msg; simpl; try done; intros [Hi _].
  - destruct (sig_cache s ≫= _); [done|]. by intros [= <-].
  - destruct (get now (storage s) key); simpl; [|done]. by intros [= <-].
  - destruct (get now (storage s) key); simpl; [|done]. by intros [= <-].
  - destruct (get now (storage s) key); simpl; [|done]. by intros [= <-].
Qed.

(** A write at [now] of an authentic value, with the sender welcomed. *)
Lemma write_inv h t now key v (s : proto) n :
  t <= now -> wf_node n -> proto_inv h (t, s) -> authentic h v ->
  proto_inv h (now, set_storage (spawn s (WelcomeIfNew n)) (set now (storage s) key v)).
Proof.
  intros Hle Hn [Hw Hh Hc Hs] Ha. split; simpl in *; try done.
  - by apply set_storage_wf, spawn_wf.
  - apply storage_authentic_set. intros k w. rewrite get_set. case_decide; [by intros [= <-]|].
    intros Hg. apply (Hs now k); [lia|done].
Qed.

Lemma later_inv h t now (s : proto) : t <= now -> proto_inv h (t, s) -> proto_inv h (now, s).
Proof. intros Hle Hi. eapply (proto_inv_same h t now s); [done|apply Hi|done|done]. Qed.

Lemma verdict_inv h t now key v (s : proto) :
  t <= now -> proto_inv h (t, s) ->
  proto_inv h (now, snd (verdict now key v s)) /\ (fst (verdict now key v s) = true -> authentic h v).
Proof.
  intros Hle Hi. pose proof (later_inv h t now s Hle Hi) as [Hw Hh Hc Hs]. simpl in *. unfold verdict.
  rewrite Hh. destruct (verify_record h _ v) eqn:Er; simpl; [|by split].
  apply verify_record_true in Er. split; [|intros _; by exists v].
  split; simpl; try done; [by destruct Hw; split|].
  intros c. destruct (sig_cache s) as [c0|]; simpl; [|done]. intros [= <-]. by apply cache_sound_insert; [apply Hc|].
Qed.

Lemma store_checked_inv h now i a key v valid (s : proto) :
  length i = ID_LEN -> proto_inv h (now, s) -> (valid = true -> authentic h v) ->
  proto_inv h (now, snd (store_checked now i a key v valid s)).
Proof.
  intros Hi Hinv Ha. pose proof (sender_wf i a Hi) as Hn. destruct Hinv as [Hw Hh Hc Hs]. simpl in *.
  unfold store_checked. destruct valid; simpl.
  - pose proof (fun k => get_insert_if_absent now (storage s) key v k) as Hg.
    destruct (insert_if_absent now (storage s) key v) as [st ins]. cbn [fst] in Hg.
    assert (forall t k w, now <= t -> get t st k = Some w -> authentic h w) as Hst.
    { apply storage_authentic_set. intros k w. rewrite Hg. case_decide; [|apply (Hs now k); lia].
      intros [= <-]. destruct (get now (storage s) key) as [u|] eqn:Eu; simpl; [|by apply Ha].
      by apply (Hs now key u); [lia|]. }
    destruct ins; simpl; split; simpl; try done; [apply spawn_wf; [by apply set_storage_wf|done]|by apply set_storage_wf].
  - destruct (INVALID_SIG_BAN_THRESHOLD <=? _); simpl; split; simpl; try done.
    + apply (drop_peer_wf (set_strikes s _)); [by destruct Hw; split|done].
    + apply spawn_wf; [by destruct Hw; split|done].
Qed.

Lemma resume_inv h t now p (s : proto) :
  t <= now -> suspended_wf p -> proto_inv h (t, s) -> proto_inv h (now, snd (resume now p s)).
Proof.
  intros Hle Hp Hi. pose proof (pi_handler _ _ Hi) as Hh. cbn [snd] in Hh. destruct p; simpl in *.
  - destruct (verdict_inv h t now key value s Hle Hi) as [Hi1 Ha].
    destruct (verdict now key value s) as [valid s1]. by apply store_checked_inv.
  - destruct (unwrap_or false _) eqn:Eok; simpl; [|by eapply later_inv].
    apply unwrap_or_true in Eok. rewrite Hh in Eok. apply (write_inv h t); [done|by apply sender_wf|done|].
    exists value. split; [done|]. left. by eapply update_self_signed.
  - destruct (unwrap_or false _) eqn:Eok; simpl; [|by eapply later_inv].
    apply unwrap_or_true in Eok. rewrite Hh in Eok. apply (write_inv h t); [done|by apply sender_wf|done|].
    exists value. split; [done|]. by right.
  - destruct (unwrap_or false _); simpl; [|by eapply later_inv].
    destruct (later_inv h t now s Hle Hi) as [Hw Hh' Hc Hs]. split; simpl in *; try done.
    + by apply set_storage_wf, spawn_wf, sender_wf.
    + apply storage_authentic_set. intros k w. rewrite get_delete. case_decide; [done|].
      intros Hg. apply (Hs now k); [lia|done].
Qed.

Definition iinv (h : Hd) (x : Z * proto * list Suspended) : Prop :=
  proto_inv h (fst x) /\ Forall suspended_wf (snd x).

Lemma istep_inv h x x' : iinv h x -> istep x x' -> iinv h x'.
Proof.
  intros [Hi Hq] Hs. destruct Hs as [t t' s s' q Hs|t t' msg peer s p q Hle Hm Hp|t t' i p s q ok s' Hle Hp Hr];
    split; simpl in *.
  - by eapply step_inv.
  - done.
  - by eapply later_inv.
  - apply Forall_app. split; [done|]. apply Forall_singleton. by eapply suspend_at_wf.
  - pose proof (proj1 (Forall_lookup _ _) Hq i p Hp) as Hpw.
    pose proof (resume_inv h t t' p s Hle Hpw Hi) as Hr'. by rewrite Hr in Hr'.
  - by apply Forall_delete.
Qed.

End interleaving_spec.

(** ** Claims *)

Section interleaving_claims.
Context `{US : UnstableSort} `{HA : Hashes} `{NA : NetAddr}.
Context {S : Type} `{SL : StorageLaws S}.
Context {Hd E : Type} `{HL : HandlerLaws Hd E}.
Context {C : Type} `{MC : Moka C}.

Local Abbreviation proto := (KademliaProtocol S Hd C).

(** Authenticity, under every interleaving.  In every state that a node can
    reach from its creation with an empty store, by handling requests (whole, or
    suspended at their verification and resumed later, in any interleaving),
    running its background tasks in any order, making lookups and serving its own
    user, every record it holds (and would serve) is authentic: it, or a value
    with the same SHA-256, was verified against its own key or the issuer's; and
    the routing table is well-formed. *)
Theorem stored_records_authentic (t0 t : Z) (source : Node) (st : S) (k : nat) (h : Hd)
    (cap : option Z) (s : proto) (q : list Suspended) :
  wf_node source -> (0 < k)%nat -> (forall now key, get now st key = None) ->
  rtc istep (t0, KademliaProtocol_new t0 source st k h (SignatureCache_new <$> cap), []) (t, s, q) ->
  table_wf (router s) /\
  forall now key v, t <= now -> get now (storage s) key = Some v -> authentic h v.
Proof.
  intros Hs Hk He Hsteps.
  assert (iinv h (t, s, q)) as [[Hw _ _ Hst] _]; [|split; [apply Hw|exact Hst]].
  refine (rtc_ind_r (iinv h) _ _ (fun _ _ _ Hstep IH => istep_inv h _ _ IH Hstep) _ Hsteps).
  split; [|constructor]. split; simpl; [by apply proto_wf_new|done| |].
  - intros c. destruct cap; simpl; [|done]. intros [= <-]. apply cache_sound_new.
  - intros now key v _ Hg. by rewrite He in Hg.
Qed.

(** A suspended handler that nothing overtakes is the whole handler: when a
    request suspends, resuming it on the same state at the same time gives the
    answer and the state of [dispatch_request]. *)
Theorem resume_refines_dispatch (now : Z) (msg : RpcMessage) (peer : SocketAddr) (s : proto) (p : Suspended) :
  suspend_at now msg peer s = Some p ->
  dispatch_request now msg peer s =
    Some (Some (answer p (fst (resume now p s))), snd (resume now p s)).
Proof.
  destruct msg; simpl; try done.
  - destruct (sig_cache s ≫= _) eqn:Ec; [done|]. intros [= <-]. simpl.
    rewrite rpc_store_checked, (verify_for_key_verdict _ _ _ _ Ec).
    destruct (verdict now key value s) as [valid s1]. by destruct (store_checked _ _ _ _ _ _ _).
  - unfold rpc_update. destruct (get now (storage s) key) as [old|]; simpl; [|done]. intros [= <-]. simpl.
    by destruct (negb _).
  - unfold rpc_update_status_list. destruct (get now (storage s) key) as [old|]; simpl; [|done]. intros [= <-]. simpl.
    by destruct (negb _).
  - unfold rpc_delete. destruct (get now (storage s) key) as [old|]; simpl; [|done]. intros [= <-]. simpl.
    by destruct (negb _).
Qed.

(** Updates race.  Two updates of a key, both authorised by the record
    stored when they arrive, are both accepted when they overlap: the second
    replaces the first one's record although that record's key did not authorise
    it; handled one after the other, the second is refused. *)
Theorem overlapping_updates_both_win (now : Z) (peer : SocketAddr) (i1 i2 key v1 v2 a1 a2 old : bytes) (s : proto) :
  length i1 = ID_LEN -> length i2 = ID_LEN -> length key = ID_LEN ->
  get now (storage s) key = Some old ->
  handle_update_verification (signature_handler s) v1 old a1 = Ok true ->
  handle_update_verification (signature_handler s) v2 old a2 = Ok true ->
  handle_update_verification (signature_handler s) v2 v1 a2 <> Ok true ->
  let p1 := UpdateChecking i1 (addr_ip peer, addr_port peer) key v1 a1 old in
  let p2 := UpdateChecking i2 (addr_ip peer, addr_port peer) key v2 a2 old in
  exists s1 s2,
    rtc istep (now, s, []) (now, s, [p1; p2]) /\
    resume now p1 s = (true, s1) /\ resume now p2 s1 = (true, s2) /\
    rtc istep (now, s, [p1; p2]) (now, s2, []) /\
    get now (storage s1) key = Some v1 /\ get now (storage s2) key = Some v2 /\
    exists s1', dispatch_request now (Update i2 key v2 a2) peer s1 = Some (Some (UpdateResult false), s1').
Proof.
  intros Hi1 Hi2 Hkey Hg H1 H2 Hrefused p1 p2.
  assert (suspend_at now (Update i1 key v1 a1) peer s = Some p1) as E1 by (simpl; by rewrite Hg).
  assert (suspend_at now (Update i2 key v2 a2) peer s = Some p2) as E2 by (simpl; by rewrite Hg).
  assert (exists s1, resume now p1 s = (true, s1) /\ signature_handler s1 = signature_handler s /\
            get now (storage s1) key = Some v1) as (s1 & R1 & Eh & G1).
  { simpl. rewrite H1. simpl. eexists. split; [reflexivity|]. split; [done|]. simpl. by rewrite get_set, decide_True. }
  assert (exists s2, resume now p2 s1 = (true, s2) /\ get now (storage s2) key = Some v2) as (s2 & R2 & G2).
  { simpl. rewrite Eh, H2. simpl. eexists. split; [reflexivity|]. simpl. by rewrite get_set, decide_True. }
  exists s1, s2. split_and!.
  - eapply (rtc_l _ _ (now, s, [p1])); [|apply rtc_once].
    + by apply (istep_suspend now now (Update i1 key v1 a1) peer s p1 []); [lia| |].
    + by apply (istep_suspend now now (Update i2 key v2 a2) peer s p2 [p1]); [lia| |].
  - exact R1.
  - exact R2.
  - eapply (rtc_l _ _ (now, s1, [p2])); [|apply rtc_once].
    + by apply (istep_resume now now 0 p1 s [p1; p2] true s1); [lia| |].
    + by apply (istep_resume now now 0 p2 s1 [p2] true s2); [lia| |].
  - exact G1.
  - exact G2.
  - exists s1. simpl. unfold rpc_update. rewrite G1, Eh.
    destruct (handle_update_verification (signature_handler s) v2 v1 a2) as [[]|]; done.
Qed.

End interleaving_claims.

(** ** Concrete runs *)

#[local] Existing Instances demo_hashes demo_handler demo_laws plain_addr.

(** A peer's [Store] is suspended and resumed. *)
Lemma stored_records_authentic_witness :
  get 7 (storage demo_stored) (demo_key 5) = Some [x01; x41] /\ authentic tt [x01; x41].
Proof.
  assert (get 7 (storage demo_stored) (demo_key 5) = Some [x01; x41]) as Hg by (vm_compute; reflexivity).
  split; [exact Hg|].
  apply (stored_records_authentic (C := SimpleCache) 0 0 (from_id (demo_key 1)) (ForgetfulStorage_new 604800)
           2 tt (Some 10) demo_stored []) with (now := 7) (key := demo_key 5).
  - by split.
  - lia.
  - intros now key. reflexivity.
  - eapply rtc_l.
    + apply (istep_suspend 0 0 (Store (demo_key 2) (demo_key 5) [x01; x41]) demo_peer demo_proto
               (StoreChecking (demo_key 2) demo_peer (demo_key 5) [x01; x41]) []); [lia|by split|reflexivity].
    + apply rtc_once. exact (istep_resume 0 0 0 (StoreChecking (demo_key 2) demo_peer (demo_key 5) [x01; x41])
               demo_proto [StoreChecking (demo_key 2) demo_peer (demo_key 5) [x01; x41]] true demo_stored
               ltac:(lia) eq_refl eq_refl).
  - lia.
  - exact Hg.
Defined.

Lemma resume_refines_dispatch_witness :
  exists p, suspend_at 7 (Update (demo_key 2) (demo_key 5) [x01; x42] [x02]) demo_peer demo_stored = Some p /\
    dispatch_request 7 (Update (demo_key 2) (demo_key 5) [x01; x42] [x02]) demo_peer demo_stored =
      Some (Some (answer p (fst (resume 7 p demo_stored))), snd (resume 7 p demo_stored)).
Proof.
  eexists. split; [reflexivity|].
  apply (resume_refines_dispatch 7 (Update (demo_key 2) (demo_key 5) [x01; x42] [x02]) demo_peer demo_stored).
  reflexivity.
Defined.

(** A handler for which the bytes after the first are a record's key, and an
    update is authorised by naming the old record's key. *)
Definition rotating_handler : SignatureVerifierHandler unit unit := {|
  handle_signature_verification _ v := Ok (bool_decide (head v = Some x01));
  handle_update_verification _ v old a := Ok (bool_decide (head v = Some x01 /\ a = drop 1 old));
  handle_signature_delete_operation _ _ a _ := Ok (bool_decide (a = [x04]));
  handle_issuer_node_signature_verification _ v := Ok (bool_decide (head v = Some x03))
|}.

Lemma overlapping_updates_both_win_witness :
  exists s1 s2 : KademliaProtocol ForgetfulStorage unit SimpleCache,
    get 7 (storage s1) (demo_key 5) = Some [x01; x42] /\ get 7 (storage s2) (demo_key 5) = Some [x01; x43].
Proof.
  destruct (overlapping_updates_both_win (H0 := rotating_handler) 7 demo_peer (demo_key 2) (demo_key 3) (demo_key 5)
    [x01; x42] [x01; x43] [x41] [x41] [x01; x41] demo_stored) as (s1 & s2 & _ & _ & _ & _ & G1 & G2 & _).
  - reflexivity.
  - reflexivity.
  - reflexivity.
  - vm_compute. reflexivity.
  - vm_compute. reflexivity.
  - vm_compute. reflexivity.
  - vm_compute. discriminate.
  - exists s1, s2. split; [exact G1|exact G2].
Defined.
