(* ===== verification/Transport.v ===== *)
(** * Transport: frames, fragments, reassembly and call correlation

    Models the transport half of [src/src/protocol.rs]: [send_frame], [call],
    [handle_datagram], the reassembly map and the pending map.  bincode is the
    class [Bincode].  A [oneshot] channel is a call handle; [delivered] holds the
    messages sent on them.  [send_to] either sends a datagram or fails, as the
    function [send_ok] says. *)
From S2P Require Import Prelude Node Routing RoutingTable RoutingTableSpec Storage Text Crypto AuthHandler SigCache Crawling Fragmentation Protocol.
From Stdlib Require Import Strings.Byte.
Local Open Scope Z_scope.

Record Frame := mkFrame {
  msg_id : Z;
  is_request : bool;
  message : RpcMessage
}.

Class Bincode := {
  serialize : Frame -> option bytes;
  deserialize : bytes -> option Frame
}.

(** What bincode documents: decoding inverts encoding. *)
Class BincodeLaws `{Bincode} := {
  bincode_roundtrip f b : serialize f = Some b -> deserialize b = Some f
}.

Section transport.
Context `{US : UnstableSort} `{HA : Hashes} `{NA : NetAddr} `{BC : Bincode}.
Context {S : Type} `{IS : IStorage S}.
Context {Hd E : Type} `{SH : SignatureVerifierHandler Hd E}.
Context {C : Type} `{MC : Moka C}.

Local Abbreviation ReassemblyMap := (gmap (SocketAddr * Z) ReassemblyEntry).

Record Transport := mkTransport {
  proto : KademliaProtocol S Hd C;
  pending : gmap Z nat;
  delivered : gmap nat RpcMessage;
  next_call : nat;
  next_msg_id : Z;
  next_frag_id : Z;
  reassembly : ReassemblyMap
}.

Definition Transport_new (p : KademliaProtocol S Hd C) : Transport :=
  mkTransport p ∅ ∅ 0 0 0 ∅.

Definition set_proto (t : Transport) (p : KademliaProtocol S Hd C) : Transport :=
  mkTransport p (pending t) (delivered t) (next_call t) (next_msg_id t) (next_frag_id t) (reassembly t).

Definition set_reassembly (t : Transport) (m : ReassemblyMap) : Transport :=
  mkTransport (proto t) (pending t) (delivered t) (next_call t) (next_msg_id t) (next_frag_id t) m.

Definition set_pending (t : Transport) (m : gmap Z nat) : Transport :=
  mkTransport (proto t) m (delivered t) (next_call t) (next_msg_id t) (next_frag_id t) (reassembly t).

(** [fetch_add(1)] on the two counters. *)
Definition next_id (t : Transport) : Z * Transport :=
  (next_msg_id t,
   mkTransport (proto t) (pending t) (delivered t) (next_call t) (wrap 32 (next_msg_id t + 1))
     (next_frag_id t) (reassembly t)).

Definition next_frag_id_val (t : Transport) : Z * Transport :=
  (next_frag_id t,
   mkTransport (proto t) (pending t) (delivered t) (next_call t) (next_msg_id t)
     (wrap 32 (next_frag_id t + 1)) (reassembly t)).

Definition gc_reassembly (now : Z) (m : ReassemblyMap) : ReassemblyMap :=
  filter (fun e => saturating_sub now (created_at (snd e)) < REASSEMBLY_TTL) m.

(** The loop over the datagrams: those sent, and whether all were. *)
Fixpoint send_all (send_ok : bytes -> bool) (ds : list bytes) : list bytes * bool :=
  match ds with
  | [] => ([], true)
  | d :: ds =>
      if send_ok d then let '(sent, ok) := send_all send_ok ds in (d :: sent, ok)
      else ([], false)
  end.

Definition send_frame (send_ok : SocketAddr -> bytes -> bool) (addr : SocketAddr) (frame : Frame)
    (t : Transport) : bool * list bytes * Transport :=
  match serialize frame with
  | None => (false, [], t)
  | Some b =>
      if MAX_MESSAGE_SIZE <? len b then (false, [], t)
      else
        let '(fid, t) := next_frag_id_val t in
        let '(sent, ok) := send_all (send_ok addr) (encode_fragments fid b) in
        (ok, sent, t)
  end.

(** [call], up to the wait: the handle and identifier of the call, or nothing
    when the frame could not be sent. *)
Definition call_start (send_ok : SocketAddr -> bytes -> bool) (addr : SocketAddr) (m : RpcMessage)
    (t : Transport) : option (nat * Z) * list bytes * Transport :=
  let '(mid, t) := next_id t in
  let frame := mkFrame mid true m in
  let c := next_call t in
  let t := mkTransport (proto t) (<[mid := c]> (pending t)) (delivered t) (Datatypes.S c)
             (next_msg_id t) (next_frag_id t) (reassembly t) in
  let '(ok, sent, t) := send_frame send_ok addr frame t in
  if negb ok then (None, sent, set_pending t (delete mid (pending t)))
  else (Some (c, mid), sent, t).

(** The wait of [call] ends: with the response, or after the timeout (or the
    closing of the channel), which removes the pending entry. *)
Definition call_finish (c : nat) (mid : Z) (t : Transport) : option RpcMessage * Transport :=
  match delivered t !! c with
  | Some r => (Some r, t)
  | None => (None, set_pending t (delete mid (pending t)))
  end.

(** The first half of [handle_datagram]: a complete payload, if this datagram
    completes one. *)
Definition reassemble (now : Z) (data : bytes) (peer : SocketAddr) (m : ReassemblyMap)
  : ReassemblyMap * option bytes :=
  match parse_fragment data with
  | None => (m, None)
  | Some (header, chunk) =>
      if frag_total header =? 1 then (m, Some chunk)
      else if MAX_MESSAGE_SIZE <? frag_total header * Z.of_nat FRAG_CHUNK_SIZE then (m, None)
      else
        let key := (peer, frag_id header) in
        let entry := default (ReassemblyEntry_new now (frag_total header)) (m !! key) in
        if negb (total entry =? frag_total header) then (<[key := entry]> m, None)
        else
          let '(entry, complete) := entry_insert entry (index header) chunk in
          if negb complete then (gc_reassembly now (<[key := entry]> m), None)
          else (delete key m, assemble entry)
  end.

(** The second half: the frame is a response or a request. *)
Definition handle_payload (send_ok : SocketAddr -> bytes -> bool) (now : Z) (payload : bytes)
    (peer : SocketAddr) (t : Transport) : option (list bytes * Transport) :=
  match deserialize payload with
  | None => Some ([], t)
  | Some frame =>
      if negb (is_request frame) then
        let t := set_proto t (on_response peer (message frame) (proto t)) in
        match pending t !! msg_id frame with
        | Some c =>
            Some ([], mkTransport (proto t) (delete (msg_id frame) (pending t))
                        (<[c := message frame]> (delivered t)) (next_call t) (next_msg_id t)
                        (next_frag_id t) (reassembly t))
        | None => Some ([], t)
        end
      else
        '(response, p) ← dispatch_request now (message frame) peer (proto t);
        let t := set_proto t p in
        match response with
        | Some resp =>
            let '(_, sent, t) := send_frame send_ok peer (mkFrame (msg_id frame) false resp) t in
            Some (sent, t)
        | None => Some ([], t)
        end
  end.

Definition handle_datagram (send_ok : SocketAddr -> bytes -> bool) (now : Z) (data : bytes)
    (peer : SocketAddr) (t : Transport) : option (list bytes * Transport) :=
  let '(m, payload) := reassemble now data peer (reassembly t) in
  let t := set_reassembly t m in
  match payload with
  | None => Some ([], t)
  | Some p => handle_payload send_ok now p peer t
  end.

(** ** Delivery of a fragmented message *)

(** The arrivals [(time, datagram)], all from [peer]; the payloads completed. *)
Fixpoint receive (peer : SocketAddr) (arrivals : list (Z * bytes)) (m : ReassemblyMap)
  : ReassemblyMap * list bytes :=
  match arrivals with
  | [] => (m, [])
  | (now, d) :: arrivals =>
      let '(m, p) := reassemble now d peer m in
      let '(m, ps) := receive peer arrivals m in
      (m, option_list p ++ ps)
  end.

Lemma receive_app peer l1 l2 m :
  receive peer (l1 ++ l2) m =
  let '(m1, p1) := receive peer l1 m in
  let '(m2, p2) := receive peer l2 m1 in (m2, p1 ++ p2).
Proof.
  revert m. induction l1 as [|[now d] l1 IH]; intros m; simpl; [by destruct (receive peer l2 m)|].
  destruct (reassemble now d peer m) as [m1 p]. rewrite IH.
  destruct (receive peer l1 m1) as [m2 p1]. destruct (receive peer l2 m2) as [m3 p2].
  by rewrite app_assoc.
Qed.

(** Messages that every fragment of which passes the receiver's size test. *)
Definition deliverable (b : bytes) : Prop :=
  Z.of_nat (length (fragments b)) * 1400 <= MAX_MESSAGE_SIZE.

Lemma deliverable_fits b : deliverable b -> fits_u16 b.
Proof. unfold deliverable, fits_u16, MAX_MESSAGE_SIZE, U16_MAX. lia. Qed.

Section one_message.
Context (peer : SocketAddr) (fid t0 : Z) (b : bytes).
Hypothesis (Hfid : 0 <= fid < 2 ^ 32) (Hdel : deliverable b).
Hypothesis (Hmulti : (1 < length (fragments b))%nat).

Local Abbreviation tot := (Z.of_nat (length (fragments b))).
Local Abbreviation key := (peer, fid).

Definition timely (ad : Z * bytes) : Prop :=
  t0 <= fst ad < t0 + REASSEMBLY_TTL /\ snd ad ∈ encode_fragments fid b.

(** One datagram of the message, on a map that holds the buffer [e]. *)
Lemma reassemble_step now d m e :
  timely (now, d) -> entry_wf e -> total e = tot ->
  default (ReassemblyEntry_new now tot) (m !! key) = e ->
  reassemble now d peer m =
  let '(e', complete) := feed_datagram (e, false) d in
  if negb complete then (gc_reassembly now (<[key := e']> m), None)
  else (delete key m, assemble e').
Proof.
  intros [_ Hin] Hw Et Hm. simpl in Hin.
  apply (encoded_datagram fid b Hfid (deliverable_fits b Hdel)) in Hin as (i & c & Hi & ->).
  unfold reassemble, feed_datagram.
  rewrite (datagram_parses fid b Hfid (deliverable_fits b Hdel) i c Hi). cbn [frag_total frag_id index fst].
  destruct (Z.eqb_spec tot 1); [lia|].
  destruct (Z.ltb_spec MAX_MESSAGE_SIZE (tot * Z.of_nat FRAG_CHUNK_SIZE)) as [Hlt|_].
  { unfold deliverable in Hdel. change (Z.of_nat FRAG_CHUNK_SIZE) with 1400 in Hlt. lia. }
  rewrite Hm, Et, Z.eqb_refl. simpl. by destruct (entry_insert e (Z.of_nat i) c).
Qed.

(** The datagrams seen do not yet make the message. *)
Definition incomplete (ds : list bytes) : Prop :=
  ~ (forall d, d ∈ encode_fragments fid b -> d ∈ ds).

Lemma timely_datagrams ads :
  Forall timely ads -> Forall (fun d => d ∈ encode_fragments fid b) (snd <$> ads).
Proof. intros Ha. apply Forall_fmap. eapply Forall_impl; [exact Ha|]. by intros ad [_ ?]. Qed.

Lemma feed_snoc e ds d :
  d ∈ encode_fragments fid b ->
  feed e (ds ++ [d]) = feed_datagram (fst (feed e ds), false) d.
Proof.
  intros Hin. apply (encoded_datagram fid b Hfid (deliverable_fits b Hdel)) in Hin as (i & c & Hi & ->).
  unfold feed. rewrite foldl_snoc. unfold feed_datagram.
  by rewrite (datagram_parses fid b Hfid (deliverable_fits b Hdel) i c Hi).
Qed.

(** The buffer after some arrivals. *)
Definition buffer (ads : list (Z * bytes)) : option ReassemblyEntry :=
  match ads with
  | [] => None
  | ad :: _ => Some (fst (feed (ReassemblyEntry_new (fst ad) tot) (snd <$> ads)))
  end.

Lemma buffer_default now ads :
  exists t1, default (ReassemblyEntry_new now tot) (buffer ads) =
             fst (feed (ReassemblyEntry_new t1 tot) (snd <$> ads)) /\
    (buffer ads = None -> t1 = now) /\ (forall ad, head ads = Some ad -> t1 = fst ad) /\
    (forall d, buffer (ads ++ [(now, d)]) = Some (fst (feed (ReassemblyEntry_new t1 tot) ((snd <$> ads) ++ [d])))).
Proof.
  destruct ads as [|ad ads]; simpl; [exists now; naive_solver|].
  exists (fst ad). split_and!; [done|done|by intros ? [= <-]|].
  intros d. by rewrite fmap_app.
Qed.

Lemma receive_prefix ads m :
  Forall timely ads -> m !! key = None -> incomplete (snd <$> ads) ->
  exists m', receive peer ads m = (m', []) /\ m' !! key = buffer ads.
Proof.
  intros Ha Hm. induction ads as [|[now d] ads IH] using rev_ind; intros Hinc; [by exists m|].
  apply Forall_app in Ha as [Ha [Hd1 _]%Forall_cons]. pose proof Hd1 as [Htime Hin]. simpl in Htime, Hin.
  rewrite fmap_app in Hinc. destruct IH as (m1 & Er & Hb); [done| |].
  { intros Hall. apply Hinc. intros x Hx. apply elem_of_app. left. by apply Hall. }
  rewrite receive_app, Er. cbn [receive].
  destruct (buffer_default now ads) as (t1 & E1 & Hnone & Hhead & Hsnoc).
  pose proof (feed_arrived fid b Hfid (deliverable_fits b Hdel) t1 _ (timely_datagrams ads Ha)) as Hf0.
  pose proof (feed_assembles t1 fid b ((snd <$> ads) ++ [d]) Hfid (deliverable_fits b Hdel)) as Hf1.
  rewrite feed_snoc in Hf1 by done.
  rewrite (reassemble_step now d m1 (fst (feed (ReassemblyEntry_new t1 tot) (snd <$> ads))) Hd1).
  2,3: destruct (feed _ (snd <$> ads)) as [e0 c0]; apply Hf0.
  2:{ by rewrite Hb. }
  rewrite Hsnoc, feed_snoc by done.
  pose proof (feed_created (ReassemblyEntry_new t1 tot) ((snd <$> ads) ++ [d])) as Hcr.
  rewrite feed_snoc in Hcr by done.
  destruct (feed_datagram _ d) as [e' complete]. cbn [fst] in *.
  destruct Hf1 as [Hc _]; [apply Forall_app; split; [by apply timely_datagrams|by apply Forall_singleton]|].
  destruct complete; [exfalso; by apply Hinc, Hc|]. cbn [negb]. simpl.
  eexists. split; [reflexivity|]. unfold gc_reassembly. apply map_lookup_filter_Some.
  rewrite lookup_insert_eq. split; [done|]. simpl. rewrite Hcr. simpl.
  unfold saturating_sub, REASSEMBLY_TTL in *.
  assert (t0 <= t1); [|lia].
  destruct ads as [|ad ads]; [rewrite Hnone by done; lia|].
  rewrite (Hhead ad eq_refl). apply Forall_cons in Ha as [[? _] _]. lia.
Qed.

(** All the datagrams, in any order: the message comes out once. *)
Lemma receive_message ads m :
  Forall timely ads -> m !! key = None -> snd <$> ads ≡ₚ encode_fragments fid b ->
  exists m', receive peer ads m = (m', [b]) /\ m' !! key = None.
Proof.
  intros Ha Hm Hp. destruct ads as [|[now d] ads _] using rev_ind.
  { apply Permutation_nil_l in Hp. exfalso. pose proof (encode_fragments_eq fid b (deliverable_fits b Hdel)) as E1.
    rewrite <- Hp in E1. apply (f_equal length) in E1. rewrite length_imap in E1. simpl in E1. lia. }
  pose proof (encode_NoDup fid b Hfid (deliverable_fits b Hdel)) as Hnd.
  rewrite <- Hp, fmap_app in Hnd. apply NoDup_app in Hnd as (_ & Hdis & _).
  apply Forall_app in Ha as [Ha [Hd1 _]%Forall_cons]. pose proof Hd1 as [Htime Hin]. simpl in Htime, Hin.
  destruct (receive_prefix ads m Ha Hm) as (m1 & Er & Hb).
  { intros Hall. apply (Hdis d (Hall d Hin)). simpl. set_solver. }
  rewrite receive_app, Er. cbn [receive].
  destruct (buffer_default now ads) as (t1 & E1 & _ & _ & _).
  pose proof (feed_arrived fid b Hfid (deliverable_fits b Hdel) t1 _ (timely_datagrams ads Ha)) as Hf0.
  pose proof (feed_assembles t1 fid b ((snd <$> ads) ++ [d]) Hfid (deliverable_fits b Hdel)) as Hf1.
  rewrite feed_snoc in Hf1 by done.
  rewrite (reassemble_step now d m1 (fst (feed (ReassemblyEntry_new t1 tot) (snd <$> ads))) Hd1).
  2,3: destruct (feed _ (snd <$> ads)) as [e0 c0]; apply Hf0.
  2:{ by rewrite Hb. }
  destruct (feed_datagram _ d) as [e' complete].
  destruct Hf1 as [Hc Has]; [apply Forall_app; split; [by apply timely_datagrams|by apply Forall_singleton]|].
  assert (complete = true) as ->.
  { apply Hc. intros x Hx. rewrite fmap_app in Hp. simpl in Hp. by rewrite Hp. }
  cbn [negb]. rewrite Has. simpl. eexists. split; [reflexivity|]. apply lookup_delete_eq.
Qed.

End one_message.

End transport.
Arguments Transport {_} S Hd C.

(** ** Claims *)

Section transport_claims.
Context `{US : UnstableSort} `{HA : Hashes} `{NA : NetAddr} `{BC : Bincode}.
Context {S : Type} `{IS : IStorage S}.
Context {Hd E : Type} `{SH : SignatureVerifierHandler Hd E}.
Context {C : Type} `{MC : Moka C}.

Lemma send_all_ok f ds : Forall (fun d => f d = true) ds -> send_all f ds = (ds, true).
Proof. induction 1 as [|d ds Hd1 _ IH]; simpl; [done|]. by rewrite Hd1, IH. Qed.

Lemma send_frame_ok send_ok addr frame b (t : Transport S Hd C) :
  serialize frame = Some b -> len b <= MAX_MESSAGE_SIZE ->
  (forall d, send_ok addr d = true) ->
  fst (send_frame send_ok addr frame t) = (true, encode_fragments (next_frag_id t) b).
Proof.
  intros Hs Hl Hok. unfold send_frame. rewrite Hs.
  destruct (Z.ltb_spec MAX_MESSAGE_SIZE (len b)); [lia|]. simpl.
  by rewrite send_all_ok by (by apply Forall_true).
Qed.

Lemma fragments_size b : len b <= Z.of_nat (length (fragments b)) * 1400.
Proof.
  pose proof (fragments_lengths b) as Hall. unfold len. rewrite <- (fragments_concat b) at 1.
  revert Hall. generalize (fragments b) as l. induction 1 as [|c l Hc _ IH]; [simpl; lia|].
  cbn [concat length]. rewrite length_app. unfold FRAG_CHUNK_SIZE in Hc. lia.
Qed.

Lemma single_fragment b : length (fragments b) = 1%nat -> fragments b = [b].
Proof.
  intros Hl. pose proof (fragments_concat b) as Hc. destruct (fragments b) as [|c [|]]; try done.
  simpl in Hc. by rewrite app_nil_r in Hc; subst.
Qed.

(** C9: end-to-end delivery.  A frame whose encoding needs at most 187 fragments
    and whose datagrams are all sent arrives: whatever the order in which they
    reach the receiver, within the reassembly time and while no other message of
    that peer uses the fragment id, the receiver gets exactly one payload, which
    decodes to the frame, and no buffer is left behind. *)
Theorem frame_delivered `{!BincodeLaws} (send_ok : SocketAddr -> bytes -> bool) (addr peer : SocketAddr)
    (frame : Frame) (b : bytes) (t : Transport S Hd C) (t0 : Z) (ads : list (Z * bytes))
    (m : gmap (SocketAddr * Z) ReassemblyEntry) :
  serialize frame = Some b -> deliverable b -> 0 <= next_frag_id t < 2 ^ 32 ->
  (forall d, send_ok addr d = true) ->
  let '(ok, sent, _) := send_frame send_ok addr frame t in
  snd <$> ads ≡ₚ sent -> Forall (fun ad => t0 <= fst ad < t0 + REASSEMBLY_TTL) ads ->
  m !! (peer, next_frag_id t) = None ->
  ok = true /\
  exists m', receive peer ads m = (m', [b]) /\ m' !! (peer, next_frag_id t) = None /\
    deserialize b = Some frame.
Proof.
  intros Hs Hdel Hfid Hok.
  pose proof (fragments_size b) as Hsz.
  pose proof (send_frame_ok send_ok addr frame b t Hs ltac:(unfold deliverable in Hdel; lia) Hok) as Hsend.
  destruct (send_frame send_ok addr frame t) as [[ok sent] t']. simpl in Hsend. injection Hsend as -> ->.
  intros Hp Htime Hm. split; [done|].
  assert (Forall (timely (next_frag_id t) t0 b) ads) as Ha.
  { apply Forall_forall. intros ad Hin. split; [by apply (proj1 (Forall_forall _ _) Htime)|].
    rewrite <- Hp. by apply list_elem_of_fmap_2. }
  destruct (decide (length (fragments b) = 1)%nat) as [H1|Hn1].
  - assert (encode_fragments (next_frag_id t) b = [datagram (next_frag_id t) 0 1 b]) as E1.
    { rewrite encode_fragments_eq by (by apply deliverable_fits). by rewrite H1, (single_fragment b H1). }
    rewrite E1 in Hp. apply Permutation_singleton_r in Hp. destruct ads as [|[now d] [|]]; try done.
    injection Hp as ->. cbn [receive]. unfold reassemble.
    rewrite parse_datagram by lia. simpl. exists m. split_and!; [done|done|]. by apply bincode_roundtrip.
  - pose proof (fragments_nonempty b).
    destruct (receive_message peer (next_frag_id t) t0 b Hfid Hdel ltac:(lia) ads m Ha Hm Hp) as (m' & Hr & Hm').
    exists m'. split_and!; [done|done|]. by apply bincode_roundtrip.
Qed.

(** C38: the two size limits disagree.  For an encoding of 261,801 to 262,144
    bytes [send_frame] succeeds, but the receiver drops every datagram of the
    message, whatever arrives. *)
Theorem large_messages_always_dropped (send_ok : SocketAddr -> bytes -> bool) (addr peer : SocketAddr)
    (frame : Frame) (b : bytes) (t : Transport S Hd C) (ads : list (Z * bytes))
    (m : gmap (SocketAddr * Z) ReassemblyEntry) :
  serialize frame = Some b -> 261801 <= len b <= MAX_MESSAGE_SIZE -> 0 <= next_frag_id t < 2 ^ 32 ->
  (forall d, send_ok addr d = true) ->
  let '(ok, sent, _) := send_frame send_ok addr frame t in
  ok = true /\ (Forall (fun ad => snd ad ∈ sent) ads -> receive peer ads m = (m, [])).
Proof.
  intros Hs Hl Hfid Hok. pose proof (send_frame_ok send_ok addr frame b t Hs ltac:(lia) Hok) as Hsend.
  destruct (send_frame send_ok addr frame t) as [[ok sent] t']. simpl in Hsend. injection Hsend as -> ->.
  split; [done|]. pose proof (fragments_size b) as Hsz.
  assert (Z.of_nat (length (fragments b)) <= 188) as Hcount.
  { unfold fragments, slice_chunks. destruct b as [|x l] eqn:Eb; [simpl; lia|]. rewrite <- Eb in *.
    rewrite slice_chunks_count by auto with kad. unfold div_ceil, len, MAX_MESSAGE_SIZE, FRAG_CHUNK_SIZE in *.
    rewrite Nat2Z.inj_div. apply Z.lt_succ_r, Z.div_lt_upper_bound; lia. }
  assert (fits_u16 b) as Hfit by (unfold fits_u16, U16_MAX; lia).
  induction 1 as [|[now d] ads Hd1 _ IH]; [done|]. cbn [receive].
  apply (encoded_datagram (next_frag_id t) b Hfid Hfit) in Hd1 as (i & c & Hi & E1). simpl in E1. subst d.
  unfold reassemble. rewrite (datagram_parses (next_frag_id t) b Hfid Hfit i c Hi). cbn [frag_total].
  destruct (Z.eqb_spec (Z.of_nat (length (fragments b))) 1); [lia|].
  destruct (Z.ltb_spec MAX_MESSAGE_SIZE (Z.of_nat (length (fragments b)) * Z.of_nat FRAG_CHUNK_SIZE)) as [_|Hge].
  - by rewrite IH.
  - change (Z.of_nat FRAG_CHUNK_SIZE) with 1400 in Hge. unfold MAX_MESSAGE_SIZE in Hge. lia.
Qed.

(** ** Calls that wait *)

(** What happens to the transport: a call is started, its wait ends, a datagram
    arrives; and the protocol's own tasks change its state. *)
Inductive tstep : Transport S Hd C -> Transport S Hd C -> Prop :=
| tstep_start send_ok addr m t : tstep t (snd (call_start send_ok addr m t))
| tstep_finish c mid t : tstep t (snd (call_finish c mid t))
| tstep_datagram send_ok now data peer t sent t' :
    handle_datagram send_ok now data peer t = Some (sent, t') -> tstep t t'
| tstep_proto p t : tstep t (set_proto t p).

(** A waiting call has a handle of its own on which nothing has been sent yet. *)
Record calls_ok (t : Transport S Hd C) : Prop := {
  co_fresh : forall c, is_Some (delivered t !! c) -> (c < next_call t)%nat;
  co_waiting : forall mid c, pending t !! mid = Some c -> (c < next_call t)%nat /\ delivered t !! c = None;
  co_own : forall mid mid' c, pending t !! mid = Some c -> pending t !! mid' = Some c -> mid = mid'
}.

(** Only these three fields matter. *)
Lemma calls_ok_fields t t' :
  pending t' = pending t -> delivered t' = delivered t -> next_call t' = next_call t -> calls_ok t -> calls_ok t'.
Proof. intros E1 E2 E3 [H1 H2 H3]. split; rewrite ?E1, ?E2, ?E3; done. Qed.

Lemma send_frame_fields send_ok addr frame (t : Transport S Hd C) :
  let t' := snd (send_frame send_ok addr frame t) in
  pending t' = pending t /\ delivered t' = delivered t /\ next_call t' = next_call t.
Proof. unfold send_frame. destruct (serialize frame); [|done]. destruct (_ <? _); [done|]. simpl. by destruct (send_all _ _). Qed.

Lemma calls_ok_drop t mid : calls_ok t -> calls_ok (set_pending t (delete mid (pending t))).
Proof.
  intros [H1 H2 H3]. split; cbn [pending delivered next_call set_pending]; [done|..].
  - intros m c [_ Hm]%lookup_delete_Some. by apply (H2 m).
  - intros m m' c [_ Hm]%lookup_delete_Some [_ Hm']%lookup_delete_Some. by eapply H3.
Qed.

Lemma call_start_ok send_ok addr m t : calls_ok t -> calls_ok (snd (call_start send_ok addr m t)).
Proof.
  intros [H1 H2 H3]. unfold call_start, next_id. cbn [next_call pending delivered].
  set (t1 := mkTransport _ _ _ _ _ _ _). assert (calls_ok t1) as Hok.
  { split; unfold t1; cbn [pending delivered next_call].
    - intros c Hc. specialize (H1 c Hc). lia.
    - intros i c [[_ <-]|[_ Hi]]%lookup_insert_Some.
      + split; [lia|]. apply eq_None_not_Some. intros Hc%H1. lia.
      + destruct (H2 i c Hi). split; [lia|done].
    - intros i j c [[Ei Ec]|[_ Hi]]%lookup_insert_Some [[Ej Ec']|[_ Hj]]%lookup_insert_Some; [congruence|..].
      + destruct (H2 j c Hj). lia.
      + destruct (H2 i c Hi). lia.
      + by eapply H3. }
  pose proof (send_frame_fields send_ok addr (mkFrame (next_msg_id t) true m) t1) as (E1 & E2 & E3).
  destruct (send_frame _ _ _ t1) as [[ok sent] t2]. cbn [snd] in *.
  apply (calls_ok_fields t1 t2 E1 E2 E3) in Hok. destruct ok; [done|]. by apply calls_ok_drop.
Qed.

Lemma handle_payload_ok send_ok now payload peer t sent t' :
  calls_ok t -> handle_payload send_ok now payload peer t = Some (sent, t') -> calls_ok t'.
Proof.
  intros Hok. unfold handle_payload. destruct (deserialize payload) as [frame|]; [|by intros [= _ <-]].
  destruct (is_request frame); cbn [negb].
  - destruct (dispatch_request _ _ _ _) as [[resp p]|]; [|done]. cbn [mbind option_bind].
    destruct resp as [m|]; [|intros [= _ <-]; by apply (calls_ok_fields t)].
    pose proof (send_frame_fields send_ok peer (mkFrame (msg_id frame) false m) (set_proto t p)) as (E1 & E2 & E3).
    destruct (send_frame _ _ _ _) as [[ok ds] t2]. intros [= _ <-]. by apply (calls_ok_fields t).
  - cbv zeta. cbn [pending set_proto]. destruct (pending t !! msg_id frame) as [c|] eqn:Hc; intros [= _ <-];
      [|by apply (calls_ok_fields t)].
    destruct Hok as [H1 H2 H3]. split; cbn [pending delivered next_call set_proto].
    + intros d. destruct (decide (d = c)) as [->|Hne]; [intros _; by apply (H2 (msg_id frame))|].
      rewrite lookup_insert_ne by done. apply H1.
    + intros i d [Hne Hi]%lookup_delete_Some. destruct (H2 i d Hi) as [Hlt Hd']. split; [done|].
      rewrite lookup_insert_ne; [done|]. intros ->. by apply Hne, (H3 _ _ d).
    + intros i j d [_ Hi]%lookup_delete_Some [_ Hj]%lookup_delete_Some. by eapply H3.
Qed.

Lemma tstep_ok t t' : calls_ok t -> tstep t t' -> calls_ok t'.
Proof.
  intros Hok Hs. destruct Hs as [send_ok addr m t|c mid t|send_ok now data peer t sent t' Hd1|p t].
  - by apply call_start_ok.
  - unfold call_finish. destruct (delivered t !! c); [done|]. by apply calls_ok_drop.
  - unfold handle_datagram in Hd1. destruct (reassemble _ _ _ _) as [m [p|]]; [|injection Hd1 as _ <-; by apply (calls_ok_fields t)].
    eapply handle_payload_ok; [|exact Hd1]. by apply (calls_ok_fields t).
  - by apply (calls_ok_fields t).
Qed.

Lemma reachable_calls_ok p t : rtc tstep (Transport_new p) t -> calls_ok t.
Proof.
  intros Hr. refine (rtc_ind_r calls_ok _ _ (fun _ _ _ Hs IH => tstep_ok _ _ IH Hs) _ Hr).
  split; cbn [pending delivered Transport_new]; [intros c [m Hm]|intros mid c Hc|intros mid mid' c Hc]; by rewrite lookup_empty in *.
Qed.

(** C29: correlation.  In every state of the transport that calls, timeouts and
    datagrams lead to, a started call waits under its message id, and a payload that
    decodes to a response with the id of a waiting call, whichever peer it comes from,
    answers exactly that call: nothing had been sent to it before, it returns the
    message and is no longer waiting, and every other call that waits goes on
    waiting.  A response with an id nobody waits for is given to no call. *)
Theorem response_answers_call (q : KademliaProtocol S Hd C) (send_ok : SocketAddr -> bytes -> bool) (now : Z)
    (peer : SocketAddr) (r : RpcMessage) (t : Transport S Hd C) (mid : Z) (p : bytes) :
  rtc tstep (Transport_new q) t -> deserialize p = Some (mkFrame mid false r) ->
  (forall addr req c mid' sent t', call_start send_ok addr req t = (Some (c, mid'), sent, t') ->
     pending t' !! mid' = Some c /\ delivered t' !! c = None) /\
  exists t', handle_payload send_ok now p peer t = Some ([], t') /\
    pending t' = delete mid (pending t) /\
    match pending t !! mid with
    | Some c =>
        delivered t !! c = None /\ delivered t' = <[c := r]> (delivered t) /\ fst (call_finish c mid t') = Some r /\
        forall mid' c', mid' <> mid -> pending t !! mid' = Some c' ->
          c' <> c /\ pending t' !! mid' = Some c' /\ fst (call_finish c' mid' t') = None
    | None => delivered t' = delivered t
    end.
Proof.
  intros Hr Hdes. pose proof (reachable_calls_ok q t Hr) as Hok. split.
  - intros addr req c mid' sent t' Hcall. pose proof (call_start_ok send_ok addr req t Hok) as Hok'. rewrite Hcall in Hok'.
    assert (pending t' !! mid' = Some c) as Hpend; [|split; [done|by apply (co_waiting _ Hok' mid')]].
    revert Hcall. unfold call_start, next_id. cbn [next_call pending delivered].
    set (t1 := mkTransport _ _ _ _ _ _ _).
    pose proof (send_frame_fields send_ok addr (mkFrame (next_msg_id t) true req) t1) as (E1 & _).
    destruct (send_frame _ _ _ t1) as [[[] ds] t2]; cbn [negb snd] in *; [|done]. intros [= <- <- _ <-].
    rewrite E1. apply lookup_insert_eq.
  - destruct Hok as [H1 H2 H3]. unfold handle_payload. rewrite Hdes. cbn [is_request negb message msg_id]. cbv zeta.
    cbn [pending set_proto]. destruct (pending t !! mid) as [c|] eqn:Hc; eexists; (split; [reflexivity|]); cbn [pending delivered set_proto].
    + split; [done|]. destruct (H2 mid c Hc) as [_ Hd1]. split_and!; [done|done| |].
      * unfold call_finish. cbn [delivered]. by rewrite lookup_insert_eq.
      * intros mid' c' Hne Hc'. assert (c' <> c) as Hcc by (intros ->; by apply Hne, (H3 _ _ c)).
        destruct (H2 mid' c' Hc') as [_ Hd2]. split_and!; [done|by rewrite lookup_delete_ne|].
        unfold call_finish. cbn [delivered]. by rewrite lookup_insert_ne, Hd2.
    + split; [|done]. by rewrite delete_id.
Qed.

End transport_claims.

(** ** A concrete encoding: only [StoreResult] frames, padded to two fragments *)

Definition flag (x : bool) : byte := if x then x01 else x00.

Definition demo_bincode : Bincode := {|
  serialize f :=
    match message f with
    | StoreResult ok =>
        if decide (0 <= msg_id f < 2 ^ 32)
        then Some (be_bytes 4 (msg_id f) ++ [flag (is_request f); flag ok] ++ replicate 2000 x00)
        else None
    | _ => None
    end;
  deserialize b :=
    match drop 4 b with
    | r :: ok :: _ => Some (mkFrame (be_value (take 4 b)) (bool_decide (r = x01)) (StoreResult (bool_decide (ok = x01))))
    | _ => None
    end
|}.

Definition demo_bincode_laws : @BincodeLaws demo_bincode.
Proof.
  constructor. intros [mid r m] b.
  cbn [serialize deserialize demo_bincode message msg_id is_request]. destruct m; try done. case_decide as Hm; [|done]. intros Hb. apply (inj Some) in Hb as <-.
  rewrite drop_app_length', take_app_length' by (by rewrite be_bytes_length).
  rewrite be_value_bytes_small by (rewrite pow256; exact Hm). by destruct r, ok.
Qed.

(** An encoding of 262,000 bytes, whatever the frame. *)
Definition large_payload : bytes := replicate (Z.to_nat 262000) x00.

Lemma large_payload_len : len large_payload = 262000.
Proof. unfold len, large_payload. rewrite length_replicate. lia. Qed.
#[local] Opaque large_payload.

Definition large_bincode : Bincode := {|
  serialize _ := Some large_payload;
  deserialize _ := None
|}.

#[local] Instance idle_handler : SignatureVerifierHandler unit unit := {
  handle_signature_verification _ _ := Ok true;
  handle_update_verification _ _ _ _ := Ok true;
  handle_signature_delete_operation _ _ _ _ := Ok true;
  handle_issuer_node_signature_verification _ _ := Ok true
}.

#[local] Instance plain_hashes : Hashes := {| sha1 := fun x => x; sha256 := fun x => x |}.

#[local] Existing Instance plain_addr.

Definition demo_transport : Transport ForgetfulStorage unit SimpleCache :=
  Transport_new (KademliaProtocol_new 0 (from_id (be_bytes 20 1)) (ForgetfulStorage_new (-1)) 2 tt None).

Definition demo_addr : SocketAddr := ("10.0.0.1"%string, 9000).
Definition demo_frame : Frame := mkFrame 7 false (StoreResult true).

Lemma frame_delivered_witness :
  exists b m', @serialize demo_bincode demo_frame = Some b /\
    receive demo_addr ((fun d => (0, d)) <$> rev (encode_fragments 0 b)) ∅ = (m', [b]) /\
    @deserialize demo_bincode b = Some demo_frame.
Proof.
  destruct (@serialize demo_bincode demo_frame) as [b|] eqn:Eb; [|discriminate].
  assert (length (fragments b) = 2%nat) as El by (injection Eb as <-; vm_compute; reflexivity).
  pose proof (@frame_delivered plain_addr demo_bincode ForgetfulStorage unit SimpleCache demo_bincode_laws
    (fun _ _ => true) demo_addr demo_addr demo_frame b demo_transport 0
    ((fun d => (0, d)) <$> rev (encode_fragments 0 b)) ∅ Eb) as H.
  assert (send_frame (BC := demo_bincode) (fun _ _ => true) demo_addr demo_frame demo_transport =
    (true, encode_fragments 0 b, snd (next_frag_id_val demo_transport))) as Es.
  { unfold send_frame. rewrite Eb. injection Eb as <-. vm_compute. reflexivity. }
  rewrite Es in H. destruct H as (_ & m' & Hr & _ & Hd).
  - unfold deliverable. rewrite El. vm_compute. discriminate.
  - split; vm_compute; [discriminate|reflexivity].
  - reflexivity.
  - rewrite <- list_fmap_compose. rewrite (list_fmap_ext _ (fun d => d)) by reflexivity.
    rewrite list_fmap_id. symmetry. apply Permutation_rev.
  - apply Forall_fmap, Forall_true. intros d. split; vm_compute; [discriminate|reflexivity].
  - reflexivity.
  - exists b, m'. split; [reflexivity|]. split; [exact Hr|exact Hd].
Defined.

Lemma large_messages_always_dropped_witness :
  exists d, receive demo_addr [(0, d)] ∅ = (∅, []) /\
    d ∈ encode_fragments 0 large_payload.
Proof.
  pose proof large_payload_len as El.
  pose proof (@large_messages_always_dropped plain_addr large_bincode ForgetfulStorage unit SimpleCache
    (fun _ _ => true) demo_addr demo_addr demo_frame large_payload demo_transport) as H.
  assert (exists d, d ∈ encode_fragments 0 large_payload) as [d Hd].
  { rewrite encode_fragments_eq.
    - pose proof (fragments_nonempty large_payload) as Hp.
      destruct (fragments large_payload) as [|c l]; [simpl in Hp; lia|].
      eexists. left.
    - pose proof (fragments_size large_payload) as Hs. unfold fits_u16, U16_MAX.
      unfold fragments, slice_chunks. destruct large_payload as [|x l] eqn:Er; [simpl; lia|].
      rewrite slice_chunks_count by auto with kad. unfold div_ceil, len, FRAG_CHUNK_SIZE in *.
      rewrite Nat2Z.inj_div. apply Z.lt_succ_r, Z.div_lt_upper_bound; lia. }
  exists d. split; [|exact Hd].
  specialize (H [(0, d)] ∅ eq_refl).
  assert (fst (send_frame (BC := large_bincode) (fun _ _ => true) demo_addr demo_frame demo_transport) =
    (true, encode_fragments 0 large_payload)) as Es.
  { apply (@send_frame_ok plain_addr large_bincode ForgetfulStorage unit SimpleCache); [reflexivity| |reflexivity].
    rewrite El. vm_compute. discriminate. }
  destruct (send_frame _ _ _ _) as [[ok sent] t']. cbn [fst] in Es. apply pair_equal_spec in Es as [-> ->].
  apply H.
  - rewrite El. unfold MAX_MESSAGE_SIZE. lia.
  - split; vm_compute; [discriminate|reflexivity].
  - reflexivity.
  - apply Forall_cons. split; [exact Hd|]. apply Forall_nil. exact I.
Defined.

(** Two calls wait; the response to the first leaves the second waiting. *)
Definition two_calls : Transport ForgetfulStorage unit SimpleCache :=
  snd (call_start (BC := demo_bincode) (fun _ _ => true) demo_addr (StoreResult false)
    (snd (call_start (BC := demo_bincode) (fun _ _ => true) demo_addr (StoreResult false) demo_transport))).

Lemma response_answers_call_witness :
  exists t', handle_payload (BC := demo_bincode) (fun _ _ => true) 0 [x00; x00; x00; x00; x00; x01] demo_addr two_calls
      = Some ([], t') /\
    fst (call_finish 0 0 t') = Some (StoreResult true) /\ fst (call_finish 1 1 t') = None.
Proof.
  destruct (@response_answers_call merge_sort_unstable plain_hashes plain_addr demo_bincode
    ForgetfulStorage forgetful_istorage unit unit idle_handler SimpleCache simple_cache
    (proto demo_transport) (fun _ _ => true) 0 demo_addr (StoreResult true) two_calls 0
    [x00; x00; x00; x00; x00; x01]) as [_ (t' & Hh & _ & Hc)].
  - eapply rtc_l; [apply (tstep_start (fun _ _ => true) demo_addr (StoreResult false))|].
    eapply rtc_l; [apply (tstep_start (fun _ _ => true) demo_addr (StoreResult false))|]. apply rtc_refl.
  - reflexivity.
  - exists t'. split; [exact Hh|].
    assert (pending two_calls !! 0 = Some 0%nat) as E0 by (vm_compute; reflexivity). rewrite E0 in Hc.
    destruct Hc as (_ & _ & Hf & Ho). split; [exact Hf|]. apply (Ho 1 1%nat); [discriminate|vm_compute; reflexivity].
Defined.
