(* ===== verification/Network.v ===== *)
(** * Network: the [Server] API

    Models [src/src/network.rs].  The storage, the signature handler and the
    cache are shared ([Arc]) between the server and its protocol, so they are
    kept once, in the protocol's state; [listening] says whether [protocol] is
    [Some].  What carries the calls is the interface [Net]: the server's protocol
    runs in a network that answers a message, or not, and that may change the
    protocol's state meanwhile (by requests it serves).  [Running] is the network
    about which nothing is known: the [n]-th call is answered by [net n];
    [Cluster.v] has the network of a set of nodes.  Concurrent calls run in list
    order.  Lookups take a fuel; the result of an operation is [None] only when
    it runs out, and the theorems show that some fuel is always enough. *)
From S2P Require Import Prelude Node Routing RoutingTable RoutingTableSpec Storage Text Crypto AuthHandler SigCache Crawling Protocol.
From Stdlib Require Import Strings.Byte.
Local Open Scope Z_scope.

(** ** The network *)

(** The protocol of the node in its network, and sending a request. *)
Class Net `{NetAddr} (R S Hd C : Type) := {
  rproto : R -> KademliaProtocol S Hd C;
  set_rproto : R -> KademliaProtocol S Hd C -> R;
  send : Z -> R -> SocketAddr -> RpcMessage -> R * option RpcMessage;
  rproto_set r p : rproto (set_rproto r p) = p
}.

(** Arbitrary peers. *)
Record Running `{NetAddr} (S Hd C : Type) := mkRunning {
  own_proto : KademliaProtocol S Hd C;
  net : nat -> SocketAddr -> RpcMessage -> option RpcMessage;
  calls : nat
}.
Arguments mkRunning {_ S Hd C} own_proto net calls.
Arguments own_proto {_ S Hd C} _.
Arguments net {_ S Hd C} _.
Arguments calls {_ S Hd C} _.

#[global] Program Instance any_net `{NetAddr} (S Hd C : Type) : Net (Running S Hd C) S Hd C := {
  rproto := own_proto;
  set_rproto r p := mkRunning p (net r) (calls r);
  send _ r a m := (mkRunning (own_proto r) (net r) (Datatypes.S (calls r)), net r (calls r) a m)
}.
Next Obligation. done. Qed.

Section network.
Context `{US : UnstableSort} `{HO : HashOrder} `{HA : Hashes} `{NA : NetAddr}.
Context {S : Type} `{IS : IStorage S}.
Context {Hd E : Type} `{SH : SignatureVerifierHandler Hd E}.
Context {C : Type} `{MC : Moka C}.
Context {R : Type} `{NW : !Net R S Hd C}.

(** ** Outgoing calls: the request sent, if any, and what is done with the
    answer *)
Record Call (A : Type) := mkCall {
  request : KademliaProtocol S Hd C -> option (SocketAddr * RpcMessage);
  finish : option RpcMessage -> KademliaProtocol S Hd C -> A * KademliaProtocol S Hd C
}.
Arguments mkCall {A} request finish.
Arguments request {A} _.
Arguments finish {A} _.

(** A request to [peer] with this node's identifier. *)
Definition to_peer (peer : Node) (m : bytes -> RpcMessage) (p : KademliaProtocol S Hd C)
  : option (SocketAddr * RpcMessage) :=
  a ← peer_sock_addr peer; Some (a, m (id (source_node p))).

Definition store_call (peer : Node) (key value : bytes) : Call bool :=
  mkCall (to_peer peer (fun i => Store i key value))
         (fun answer => call_store_rpc (fun _ _ => answer) peer key value).

Definition update_call (peer : Node) (key value auth_signature : bytes) : Call bool :=
  mkCall (to_peer peer (fun i => Update i key value auth_signature))
         (fun answer => call_update_rpc (fun _ _ => answer) peer key value auth_signature).

Definition status_list_update_call (peer : Node) (key value : bytes) : Call bool :=
  mkCall (to_peer peer (fun i => UpdateStatusList i key value))
         (fun answer => call_status_list_update_rpc (fun _ _ => answer) peer key value).

Definition delete_call (peer : Node) (key auth_signature delete_msg : bytes) : Call bool :=
  mkCall (to_peer peer (fun i => Delete i key auth_signature delete_msg))
         (fun answer => call_delete_rpc (fun _ _ => answer) peer key auth_signature delete_msg).

Definition find_node_call (peer target : Node) : Call RawResponse :=
  mkCall (to_peer peer (fun i => FindNode i (id target)))
         (fun answer p => let '(p, a) := kp_call_find_node (fun _ _ => answer) peer target p in (a, p)).

Definition find_value_call (peer target : Node) : Call RawResponse :=
  mkCall (to_peer peer (fun i => FindValue i (id target)))
         (fun answer p => let '(p, a) := kp_call_find_value (fun _ _ => answer) peer target p in (a, p)).

Definition ping_call (addr : string * Z) : Call (bool * bytes) :=
  mkCall (fun p => a ← parse_addr (fst addr) (snd addr); Some (a, Ping (id (source_node p))))
         (fun answer p => (call_ping_addr (fun _ _ => answer) addr p, p)).

(** The request is sent, the response is received and given to the call. *)
Definition one_call {A} (now : Z) (c : Call A) (r : R) : A * R :=
  let req := request c (rproto r) in
  let '(r, answer) :=
    match req with
    | Some (a, m) => send now r a m
    | None => (r, None)
    end in
  let '(a, p) := finish c answer (on_answer req answer (rproto r)) in
  (a, set_rproto r p).

Definition kademlia_spider (now : Z) : SpiderProtocol R := {|
  call_find_node r peer target :=
    let '(a, r) := one_call now (find_node_call peer target) r in (r, a);
  call_find_value r peer target :=
    let '(a, r) := one_call now (find_value_call peer target) r in (r, a);
  call_store r peer key value :=
    let '(a, r) := one_call now (store_call peer key value) r in (r, a)
|}.

(** [join_all] of one call per node; the answers in order. *)
Fixpoint call_each (now : Z) (f : Node -> Call bool) (ns : list Node) (r : R) : list bool * R :=
  match ns with
  | [] => ([], r)
  | n :: ns =>
      let '(ok, r) := one_call now (f n) r in
      let '(oks, r) := call_each now f ns r in
      (ok :: oks, r)
  end.

Record Server := mkServer {
  sksize : nat;
  salpha : nat;
  snode : Node;
  listening : bool;
  running : R
}.

Definition set_running (s : Server) (r : R) : Server :=
  mkServer (sksize s) (salpha s) (snode s) (listening s) r.

(** [Server::new]; [random] is the random bytes drawn and [st] the storage, for
    which [server_storage] is the code's choice. *)
Definition server_storage (storage : option ForgetfulStorage) : ForgetfulStorage :=
  default (ForgetfulStorage_new (-1)) storage.

(** [place] puts the protocol's state into the network. *)
Definition Server_new (now : Z) (h : Hd) (ksize alpha : nat) (node_id : option bytes) (random : bytes)
    (st : S) (use_cache : bool) (place : KademliaProtocol S Hd C -> R) : Server :=
  let node := match node_id with Some i => from_id i | None => from_id (digest_bytes random) end in
  let sig_cache := if use_cache then Some (SignatureCache_new 4096) else None in
  mkServer ksize alpha node false (place (KademliaProtocol_new now node st ksize h sig_cache)).

(** [listen]: a fresh protocol over the shared storage, handler and cache. *)
Definition listen (now : Z) (s : Server) : Server :=
  let p := rproto (running s) in
  let p := mkProto (RoutingTable_new now (snode s) (sksize s)) (storage p) (snode s)
             (signature_handler p) (sig_cache p) ∅ [] in
  mkServer (sksize s) (salpha s) (snode s) true (set_rproto (running s) p).

(** ** Verification *)

Definition verify_value (now : Z) (key value : bytes) (s : Server) : bool * Server :=
  let p := rproto (running s) in
  let is_status := bool_decide (key = STATUS_LIST_KEY) in
  match (c ← sig_cache p; get_by_key now c (compute_key value)) with
  | Some cached => (cached, s)
  | None =>
      let result := verify_record (signature_handler p) is_status value in
      if result then
        (result, set_running s (set_rproto (running s)
                   (set_sig_cache p ((fun c => insert_by_key now c (compute_key value) result) <$> sig_cache p))))
      else (result, s)
  end.

(** ** Lookups *)

(** [router.find_neighbors(target, None)] on the protocol of the server. *)
Definition neighbors_of (now : Z) (target : Node) (s : Server) : list Node * Server :=
  let p := rproto (running s) in
  let '(r, ns) := find_neighbors now (router p) target None in
  (ns, set_running s (set_rproto (running s) (set_router p r))).

Definition crawl_value (fuel : nat) (now : Z) (target : Node) (peers : list Node) (s : Server)
  : option (option bytes * list Node * Server) :=
  '(r, _, res) ← @value_find _ _ R (kademlia_spider now) fuel 0 (running s) (ValueSpiderCrawl_new target peers (sksize s) (salpha s));
  Some (res, set_running s r).

Definition crawl_nodes (fuel : nat) (now : Z) (target : Node) (peers : list Node) (s : Server)
  : option (list Node * Server) :=
  '(r, _, ns) ← @node_find _ _ R (kademlia_spider now) fuel 0 (running s) (SpiderCrawl_new target peers (sksize s) (salpha s));
  Some (ns, set_running s r).

Definition server_get (fuel : nat) (now : Z) (key : bytes) (s : Server)
  : option (option bytes * Server) :=
  let dkey := digest key in
  match get now (storage (rproto (running s))) dkey with
  | Some result =>
      let '(ok, s) := verify_value now key result s in
      Some (if ok then Some result else None, s)
  | None =>
      if negb (listening s) then Some (None, s)
      else
        let '(nearest, s) := neighbors_of now (from_id dkey) s in
        match nearest with
        | [] => Some (None, s)
        | _ =>
            '(result, _, s) ← crawl_value fuel now (from_id dkey) nearest s;
            match result with
            | Some v =>
                let '(ok, s) := verify_value now key v s in
                Some (if ok then Some v else None, s)
            | None => Some (None, s)
            end
        end
  end.

Definition check_exists_and_get_nodes (fuel : nat) (now : Z) (key : bytes) (s : Server)
  : option (bool * list Node * Server) :=
  let dkey := digest key in
  match get now (storage (rproto (running s))) dkey with
  | Some _ => Some (true, [], s)
  | None =>
      if negb (listening s) then Some (false, [], s)
      else
        let '(nearest, s) := neighbors_of now (from_id dkey) s in
        match nearest with
        | [] => Some (false, [], s)
        | _ =>
            '(result, nodes, s) ← crawl_value fuel now (from_id dkey) nearest s;
            match result with
            | Some v =>
                let '(ok, s) := verify_value now key v s in
                if ok then Some (true, [], s) else Some (false, nodes, s)
            | None => Some (false, nodes, s)
            end
        end
  end.

(** ** Writes *)

(** Keep the value locally when this node is closer than the farthest target:
    [nodes.iter().map(distance_to).max()]. *)
Definition farthest (node : Node) (nodes : list Node) : option Z :=
  match nodes with
  | [] => None
  | n :: ns => Some (foldl Z.max (distance_to n node) ((fun m => distance_to m node) <$> ns))
  end.

Definition store_locally (now : Z) (dkey value : bytes) (nodes : list Node) (s : Server) : Server :=
  match farthest (from_id dkey) nodes with
  | Some far =>
      if distance_to (snode s) (from_id dkey) <? far then
        let p := rproto (running s) in
        set_running s (set_rproto (running s) (set_storage p (set now (storage p) dkey value)))
      else s
  | None => s
  end.

Definition call_nodes (now : Z) (f : Node -> Call bool) (nodes : list Node) (s : Server) : list bool * Server :=
  let '(oks, r) := call_each now f nodes (running s) in (oks, set_running s r).

Definition set_digest (now : Z) (dkey value : bytes) (nodes : list Node) (s : Server) : bool * Server :=
  if negb (listening s) then (false, s)
  else match nodes with
  | [] => (false, s)
  | _ =>
      let s := store_locally now dkey value nodes s in
      let '(results, s) := call_nodes now (fun n => store_call n dkey value) nodes s in
      let ok_count := length (filter (fun r => r = true) results) in
      ((0 <? ok_count)%nat, s)
  end.

Definition server_set (fuel : nat) (now : Z) (key value : bytes) (s : Server)
  : option (option bool * Server) :=
  '(exists_, nodes, s) ← check_exists_and_get_nodes fuel now key s;
  if (exists_ : bool) then Some (None, s)
  else
    let '(ok, s) := verify_value now key value s in
    if negb ok then Some (None, s)
    else
      let '(r, s) := set_digest now (digest key) value nodes s in
      Some (Some r, s).

Definition update_digest (fuel : nat) (now : Z) (key dkey value : bytes) (auth_signature : option bytes)
    (s : Server) : option (bool * Server) :=
  if negb (listening s) then Some (false, s)
  else
    let node := from_id dkey in
    let '(nearest, s) := neighbors_of now node s in
    match nearest with
    | [] => Some (false, s)
    | _ =>
        '(nodes, s) ← crawl_nodes fuel now node nearest s;
        let s := store_locally now dkey value nodes s in
        let is_status_list := bool_decide (key = STATUS_LIST_KEY) in
        let '(results, s) :=
          call_nodes now (fun n =>
            if is_status_list then status_list_update_call n dkey value
            else update_call n dkey value (default [] auth_signature)) nodes s in
        Some (existsb (fun r => r) results, s)
    end.

Definition server_update (fuel : nat) (now : Z) (key value : bytes) (auth_signature : option bytes)
    (s : Server) : option (option bool * Server) :=
  '(old, s) ← server_get fuel now key s;
  match old with
  | None => Some (None, s)
  | Some old_value =>
      let h := signature_handler (rproto (running s)) in
      let is_status := bool_decide (key = STATUS_LIST_KEY) && negb (bool_decide (is_Some auth_signature)) in
      let ok :=
        if is_status then unwrap_or false (handle_issuer_node_signature_verification h value)
        else unwrap_or false (handle_update_verification h value old_value (default [] auth_signature)) in
      if negb ok then Some (None, s)
      else
        '(r, s) ← update_digest fuel now key (digest key) value auth_signature s;
        Some (Some r, s)
  end.

Definition delete_digest (fuel : nat) (now : Z) (dkey auth_signature delete_msg : bytes) (s : Server)
  : option (bool * Server) :=
  if negb (listening s) then Some (false, s)
  else
    let p := rproto (running s) in
    let s := set_running s (set_rproto (running s) (set_storage p (delete_key now (storage p) dkey))) in
    let '(nearest, s) := neighbors_of now (from_id dkey) s in
    match nearest with
    | [] => Some (true, s)
    | _ =>
        '(nodes, s) ← crawl_nodes fuel now (from_id dkey) nearest s;
        let '(_, s) := call_nodes now (fun n => delete_call n dkey auth_signature delete_msg) nodes s in
        Some (true, s)
    end.

Definition server_delete (fuel : nat) (now : Z) (key auth_signature delete_msg : bytes) (s : Server)
  : option (option bool * Server) :=
  '(value, s) ← server_get fuel now key s;
  match value with
  | None => Some (None, s)
  | Some v =>
      let ok := unwrap_or false
        (handle_signature_delete_operation (signature_handler (rproto (running s))) v auth_signature delete_msg) in
      if negb ok then Some (None, s)
      else
        '(r, s) ← delete_digest fuel now (digest key) auth_signature delete_msg s;
        Some (Some r, s)
  end.

(** ** Joining, leaving, refreshing *)

Definition bootstrap_node (now : Z) (addr : string * Z) (s : Server) : option Node * Server :=
  if negb (listening s) then (None, s)
  else
    let '(res, r) := one_call now (ping_call addr) (running s) in
    let s := set_running s r in
    let '(ok, id_bytes) := res in
    if negb ok || negb (Nat.eqb (length id_bytes) ID_LEN) then (None, s)
    else (Some (Node_new id_bytes (Some (fst addr)) (Some (snd addr))), s).

Fixpoint bootstrap_nodes (now : Z) (addrs : list (string * Z)) (s : Server) : list Node * Server :=
  match addrs with
  | [] => ([], s)
  | addr :: addrs =>
      let '(n, s) := bootstrap_node now addr s in
      let '(ns, s) := bootstrap_nodes now addrs s in
      (option_list n ++ ns, s)
  end.

Definition bootstrap (fuel : nat) (now : Z) (addrs : list (string * Z)) (s : Server) : option (list Node * Server) :=
  let '(nodes, s) := bootstrap_nodes now addrs s in
  if negb (listening s) then Some ([], s)
  else crawl_nodes fuel now (snode s) nodes s.

Definition bootstrappable_neighbors (now : Z) (s : Server) : list (string * Z) * Server :=
  if negb (listening s) then ([], s)
  else let '(ns, s) := neighbors_of now (snode s) s in (omap address ns, s).

(** [stop]: the [Leave] messages sent; background loops end with the process. *)
Definition stop (now : Z) (s : Server) : list (SocketAddr * RpcMessage) * Server :=
  if negb (listening s) then ([], s)
  else
    let '(ns, s) := neighbors_of now (snode s) s in
    (omap (fun n => call_leave_rpc n (rproto (running s))) ns, s).

(** One pass of the refresh loop: the peers to ask are read for all the lonely
    buckets, the lookups run, then the old entries are stored again on the
    closest nodes. *)
Fixpoint refresh_targets (now : Z) (ids : list bytes) (s : Server) : list (Node * list Node) * Server :=
  match ids with
  | [] => ([], s)
  | rid :: ids =>
      let '(ns, s) := neighbors_of now (from_id rid) s in
      let '(ts, s) := refresh_targets now ids s in
      ((from_id rid, ns) :: ts, s)
  end.

Fixpoint refresh_lookups (fuel : nat) (now : Z) (targets : list (Node * list Node)) (s : Server) : option Server :=
  match targets with
  | [] => Some s
  | (target, ns) :: targets =>
      '(_, s) ← crawl_nodes fuel now target ns s;
      refresh_lookups fuel now targets s
  end.

Fixpoint republish (fuel : nat) (now : Z) (entries : list (bytes * bytes)) (s : Server) : option Server :=
  match entries with
  | [] => Some s
  | (dkey, value) :: entries =>
      if negb (Nat.eqb (length dkey) ID_LEN) then republish fuel now entries s
      else
        let '(ns, s) := neighbors_of now (from_id dkey) s in
        match ns with
        | [] => republish fuel now entries s
        | _ =>
            '(nodes, s) ← crawl_nodes fuel now (from_id dkey) ns s;
            let '(_, s) := call_nodes now (fun n => store_call n dkey value) nodes s in
            republish fuel now entries s
        end
  end.

Definition refresh (gen_range : nat -> Z -> Z -> Z) (fuel : nat) (now : Z) (s : Server) : option Server :=
  let ids := get_refresh_ids gen_range now (rproto (running s)) in
  let '(targets, s) := refresh_targets now ids s in
  s ← refresh_lookups fuel now targets s;
  let old_entries := iter_older_than now (storage (rproto (running s))) 3600 in
  republish fuel now old_entries s.

End network.
Arguments Server R : clear implicits.
Arguments mkCall {_ S Hd C A} request finish.
Arguments request {_ S Hd C A} _.
Arguments finish {_ S Hd C A} _.
