(* ===== verification/NetworkSpec.v ===== *)
(** * NetworkSpec: what the [Server] API promises

    Theorems on [Network.v]: the operations keep the node's invariant (of
    [ProtocolSpec.v]), [get] only returns authentic values, every operation
    terminates, and the cases in which [set] cannot succeed. *)
From S2P Require Import Prelude Node Routing RoutingTable RoutingTableSpec Storage Text Crypto AuthHandler SigCache Crawling Protocol ProtocolSpec Network.
From Stdlib Require Import Strings.Byte.
Local Open Scope Z_scope.

(** What the theorems need of the network: an invariant of its own which
    sending keeps, together with the node's. *)
Section net_safe.
Context `{US : UnstableSort} `{HA : Hashes} `{NA : NetAddr}.
Context {S : Type} `{IS : IStorage S}.
Context {Hd E : Type} `{SH : SignatureVerifierHandler Hd E}.
Context {C : Type} `{MC : Moka C}.

Class NetSafe (R : Type) `{!Net R S Hd C} := {
  net_ok : Hd -> Z -> R -> Prop;
  net_later h t t' r : t <= t' -> net_ok h t r -> net_ok h t' r;
  net_set h t r p : net_ok h t r -> net_ok h t (set_rproto r p);
  net_send h t r a m :
    proto_inv h (t, rproto r) -> net_ok h t r ->
    proto_inv h (t, rproto (fst (send t r a m))) /\ net_ok h t (fst (send t r a m))
}.

(** Nothing is needed of peers about which nothing is known. *)
#[global] Program Instance any_net_safe : NetSafe (Running S Hd C) := {
  net_ok _ _ _ := True
}.
Solve All Obligations with done.

End net_safe.

Section network_spec.
Context `{US : UnstableSort} `{HO : HashOrder} `{HA : Hashes} `{NA : NetAddr}.
Context {S : Type} `{SL : StorageLaws S}.
Context {Hd E : Type} `{HL : HandlerLaws Hd E}.
Context {C : Type} `{MC : Moka C}.
Context {R : Type} `{NW : !Net R S Hd C} `{NS : !NetSafe R}.

Local Abbreviation server := (Server R).

Definition run_inv (h : Hd) (t : Z) (r : R) : Prop := proto_inv h (t, rproto r) /\ net_ok h t r.
Definition server_inv (h : Hd) (t : Z) (s : server) : Prop := run_inv h t (running s).

Lemma run_inv_later h t t' r : t <= t' -> run_inv h t r -> run_inv h t' r.
Proof.
  intros Hle [Hi Hn]. split; [|by eapply net_later].
  eapply (proto_inv_same h t t'); [done|apply Hi|done|done].
Qed.

(** Replacing the protocol's state. *)
Lemma run_inv_set h t t' r p :
  t <= t' -> run_inv h t r -> proto_inv h (t', p) -> run_inv h t' (set_rproto r p).
Proof. intros Hle [_ Hn] Hp. split; [by rewrite rproto_set|]. by eapply net_set, net_later. Qed.

(** ** Outgoing calls *)

Lemma drop_peer_inv h t p n :
  proto_inv h (t, p) -> wf_node n -> proto_inv h (t, drop_peer p n).
Proof.
  intros Hi Hn. eapply (proto_inv_same h t t p); [lia| |done|done].
  apply drop_peer_wf; [apply Hi|done].
Qed.

Lemma on_answer_inv h t p req answer : proto_inv h (t, p) -> proto_inv h (t, on_answer req answer p).
Proof.
  intros Hi. eapply (proto_inv_same h t t p); [lia| |apply on_answer_same|done]. apply on_answer_wf, Hi.
Qed.

(** A call whose treatment of the answer keeps the invariant. *)
Definition call_ok {A} (h : Hd) (t : Z) (c : Call A) : Prop :=
  forall answer p, proto_inv h (t, p) -> proto_inv h (t, snd (finish c answer p)).

Lemma calls_ok h t n key v a m :
  wf_node n ->
  call_ok h t (store_call n key v) /\ call_ok h t (update_call n key v a) /\
  call_ok h t (status_list_update_call n key v) /\ call_ok h t (delete_call n key a m).
Proof.
  intros Hn. unfold call_ok. simpl.
  unfold call_store_rpc, call_update_rpc, call_status_list_update_rpc, call_delete_rpc.
  split_and!; intros answer p Hi; repeat case_match; simpl; auto using drop_peer_inv.
Qed.

Lemma find_calls_ok h t n target :
  wf_node n -> call_ok h t (find_node_call n target) /\ call_ok h t (find_value_call n target).
Proof.
  intros Hn. split; intros answer p Hi; simpl;
    destruct (find_call_same (fun _ _ => answer) n target p (pi_wf _ _ Hi) Hn) as [[? ?] [? ?]].
  - destruct (kp_call_find_node _ _ _ _). simpl in *. eapply proto_inv_same; [|done|done|exact Hi]. lia.
  - destruct (kp_call_find_value _ _ _ _). simpl in *. eapply proto_inv_same; [|done|done|exact Hi]. lia.
Qed.

Lemma one_call_inv {A} h t r (c : Call A) :
  call_ok h t c -> run_inv h t r -> run_inv h t (snd (one_call t c r)).
Proof.
  intros Hc Hr. unfold one_call.
  assert (run_inv h t (fst (match request c (rproto r) with Some (a, m) => send t r a m | None => (r, None) end))) as Hs.
  { destruct (request c (rproto r)) as [[a m]|]; [|done]. destruct Hr. by apply net_send. }
  destruct (match request c (rproto r) with Some (a, m) => send t r a m | None => (r, None) end) as [r1 answer].
  cbn [fst] in Hs.
  specialize (Hc answer _ (on_answer_inv h t (rproto r1) (request c (rproto r)) answer (proj1 Hs))).
  destruct (finish c answer _) as [x p]. cbn [snd] in *. eapply run_inv_set; [|exact Hs|done]. lia.
Qed.

Lemma call_each_inv h t f ns r :
  (forall n, wf_node n -> call_ok h t (f n)) ->
  Forall wf_node ns -> run_inv h t r -> run_inv h t (snd (call_each t f ns r)).
Proof.
  intros Hf Hns. revert r. induction Hns as [|n ns Hn _ IH]; intros r Hr; simpl; [done|].
  pose proof (one_call_inv h t r (f n) (Hf n Hn) Hr) as H1.
  destruct (one_call t (f n) r) as [ok r1]. specialize (IH r1 H1). by destruct (call_each t f ns r1).
Qed.

Lemma spider_keeps h t :
  let SP := kademlia_spider t in
  keeps (run_inv h t) (@call_find_node R SP) /\ keeps (run_inv h t) (@call_find_value R SP) /\
  (forall r peer key w, run_inv h t r -> wf_node peer -> run_inv h t (fst (@call_store R SP r peer key w))).
Proof.
  split_and!.
  - intros r peer target Hr Hp. pose proof (one_call_inv h t r _ (proj1 (find_calls_ok h t peer target Hp)) Hr).
    simpl. by destruct (one_call _ _ _).
  - intros r peer target Hr Hp. pose proof (one_call_inv h t r _ (proj2 (find_calls_ok h t peer target Hp)) Hr).
    simpl. by destruct (one_call _ _ _).
  - intros r peer key w Hr Hp. pose proof (one_call_inv h t r _ (proj1 (calls_ok h t peer key w [] [] Hp)) Hr).
    simpl. by destruct (one_call _ _ _).
Qed.

(** ** Lookups *)

Lemma neighbors_of_spec h t now target (s : server) :
  server_inv h t s -> wf_node target ->
  server_inv h t (snd (neighbors_of now target s)) /\ Forall wf_node (fst (neighbors_of now target s)).
Proof.
  intros Hi Ht. unfold neighbors_of. pose proof (pi_wf _ _ (proj1 Hi)) as Hw. simpl in Hw.
  pose proof (find_neighbors_table now (router (rproto (running s))) target None (pw_table _ Hw) Ht (pw_ksize _ Hw)) as (W & L & K & _).
  destruct (table_locate _ (long_id target) (pw_table _ Hw) (wf_node_range target Ht)) as (l1 & b & l2 & Hloc).
  pose proof (find_neighbors_candidates now _ target None _ _ _ Hloc (pw_ksize _ Hw)) as Hc.
  destruct (find_neighbors now (router (rproto (running s))) target None) as [r ns]. cbn [fst snd] in *. split.
  - apply run_inv_set with t; [lia|exact Hi|].
    apply (proto_inv_same h t t (rproto (running s))); [lia| |done|apply Hi].
    by apply set_router_wf.
  - injection Hc as _ ->. rewrite neighbors_perm. apply Forall_forall. intros m Hm.
    apply (candidates_elem _ _ _ _ (pw_table _ Hw) Ht) in Hm as [Hm _].
    apply (contact_wf _ _ (pw_table _ Hw)). by apply all_nodes_contacts.
Qed.

Lemma crawl_value_spec h t fuel target peers (s : server) :
  server_inv h t s -> Forall wf_node peers ->
  match crawl_value fuel t target peers s with
  | Some (res, nodes, s') => server_inv h t s' /\ listening s' = listening s /\ Forall wf_node nodes /\
                             (forall v, res = Some v -> nodes = [])
  | None => True
  end.
Proof.
  intros Hi Hp. unfold crawl_value.
  destruct (value_find fuel 0 (running s) _) as [[[r v] [res nodes]]|] eqn:Ef; simpl; [|done].
  destruct (spider_keeps h t) as (_ & Hk & Hst).
  pose proof (SpiderCrawl_new_wf target peers (sksize s) (salpha s) Hp) as Hcw.
  pose proof (value_find_keeps (run_inv h t) id_universe fuel 0 (running s) (ValueSpiderCrawl_new target peers (sksize s) (salpha s))
    r v (res, nodes) Hk Hst Hcw (NodeHeap_new_wf target 1)
    (new_known_universe target peers _ _ Hp) (all_answers_in _) Hi Ef) as Hr.
  pose proof (value_find_result id_universe fuel 0 (running s) (ValueSpiderCrawl_new target peers (sksize s) (salpha s))
    r v res nodes Hcw (NodeHeap_new_wf target 1)
    (new_known_universe target peers _ _ Hp) (all_answers_in _) Ef) as Hres.
  split_and!; [done|done| |].
  - destruct res; [destruct Hres as [-> _]; constructor|].
    destruct Hres as ((_ & _ & _ & Hall) & _). eapply Forall_impl; [exact Hall|]. by intros n [? _].
  - intros w ->. apply Hres.
Qed.

Lemma crawl_nodes_spec h t fuel target peers (s : server) :
  server_inv h t s -> Forall wf_node peers ->
  match crawl_nodes fuel t target peers s with
  | Some (nodes, s') => server_inv h t s' /\ listening s' = listening s /\ Forall wf_node nodes
  | None => True
  end.
Proof.
  intros Hi Hp. unfold crawl_nodes.
  destruct (node_find fuel 0 (running s) _) as [[[r c] nodes]|] eqn:Ef; simpl; [|done].
  destruct (spider_keeps h t) as (Hk & _ & _).
  pose proof (SpiderCrawl_new_wf target peers (sksize s) (salpha s) Hp) as Hcw.
  pose proof (node_find_keeps (run_inv h t) id_universe _ _ _ _ _ _ _ Hk Hcw
    (new_known_universe target peers _ _ Hp) (all_answers_in _) Hi Ef) as Hr.
  destruct (node_find_result id_universe _ _ _ _ _ _ _ Hcw
    (new_known_universe target peers _ _ Hp) (all_answers_in _) Ef) as ((_ & _ & _ & Hall) & _).
  split_and!; [done|done|]. eapply Forall_impl; [exact Hall|]. by intros n [? _].
Qed.

(** ** Verification *)

Lemma verify_value_spec h t now key v (s : server) :
  server_inv h t s ->
  server_inv h t (snd (verify_value now key v s)) /\
  listening (snd (verify_value now key v s)) = listening s /\
  storage (rproto (running (snd (verify_value now key v s)))) = storage (rproto (running s)) /\
  signature_handler (rproto (running (snd (verify_value now key v s)))) = h /\
  (fst (verify_value now key v s) = true -> authentic h v).
Proof.
  intros Hi. pose proof Hi as [[Hw Hh Hc Hs] _]. cbn [fst snd] in *.
  unfold verify_value. set (p := rproto (running s)) in *.
  assert (forall b, verify_record (signature_handler p) b v = true -> verified h v) as Hver.
  { intros b. rewrite Hh. apply verify_record_true. }
  destruct (sig_cache p) as [c|] eqn:Ec; simpl.
  - destruct (get_by_key now c (compute_key v)) as [b|] eqn:Eg; simpl.
    + split_and!; try done. intros ->.
      destruct (cache_sound_get _ _ _ _ _ (Hc c eq_refl) Eg) as (_ & v' & Hv' & Hgood). by exists v'.
    + destruct (verify_record _ _ v) eqn:Er; simpl; [|by split_and!].
      pose proof (Hver _ Er) as Hv. rewrite rproto_set. split_and!; try done; [|intros _; by exists v].
      apply run_inv_set with t; [lia|exact Hi|]. split; simpl; try done; [by destruct Hw; split|].
      intros c' [= <-]. by apply cache_sound_insert; [apply Hc|].
  - destruct (verify_record _ _ v) eqn:Er; simpl; [|by split_and!].
    pose proof (Hver _ Er) as Hv. rewrite rproto_set. split_and!; try done; [|intros _; by exists v].
    apply run_inv_set with t; [lia|exact Hi|]. split; simpl; try done; by destruct Hw; split.
Qed.

(** A value that verifies is accepted, also through the cache. *)
Lemma verify_value_true h now key value (s : server) :
  proto_inv h (now, rproto (running s)) ->
  verify_record h (bool_decide (key = STATUS_LIST_KEY)) value = true ->
  fst (verify_value now key value s) = true.
Proof.
  intros [_ Hh Hc _] Hv. cbn [snd] in *. unfold verify_value. rewrite Hh, Hv.
  destruct (sig_cache (rproto (running s))) as [c|] eqn:Ec; cbn [mbind option_bind]; [|done].
  destruct (get_by_key now c (compute_key value)) as [b|] eqn:Eg; [|done]. simpl.
  by destruct (cache_sound_get _ _ _ _ _ (Hc c eq_refl) Eg) as [-> _].
Qed.

(** A node that holds a value that verifies answers with it, and keeps its store. *)
Lemma local_get h fuel now key value (s : server) :
  server_inv h now s -> get now (storage (rproto (running s))) (digest key) = Some value ->
  verify_record h (bool_decide (key = STATUS_LIST_KEY)) value = true ->
  exists s', server_get fuel now key s = Some (Some value, s') /\ server_inv h now s' /\
    storage (rproto (running s')) = storage (rproto (running s)).
Proof.
  intros Hi Hg Hv. unfold server_get. cbv zeta. rewrite Hg.
  pose proof (verify_value_true h now key value s (proj1 Hi) Hv) as Ht.
  destruct (verify_value_spec h now now key value s Hi) as (Hi' & _ & Hs' & _).
  destruct (verify_value now key value s) as [b s']. cbn [fst snd] in *. subst b. by exists s'.
Qed.

(** ** The operations *)

Lemma digest_length `{!HashLaws} key : length (digest key) = ID_LEN.
Proof. apply sha1_length. Qed.

Lemma server_get_spec `{!HashLaws} h fuel now key (s : server) :
  server_inv h now s ->
  match server_get fuel now key s with
  | Some (res, s') => server_inv h now s' /\ listening s' = listening s /\
                      (forall v, res = Some v -> authentic h v)
  | None => True
  end.
Proof.
  intros Hi. unfold server_get. cbv zeta.
  destruct (get now (storage (rproto (running s))) (digest key)) as [v|].
  { destruct (verify_value_spec h now now key v s Hi) as (Hi1 & Hl1 & _ & _ & Ha).
    destruct (verify_value now key v s) as [[] s1]; simpl in *; split_and!; try done; naive_solver. }
  destruct (listening s) eqn:El; cbn [negb]; [|by split_and!].
  destruct (neighbors_of_spec h now now (from_id (digest key)) s Hi (from_id_wf _ (digest_length key))) as [Hi1 Hw1].
  assert (listening (snd (neighbors_of now (from_id (digest key)) s)) = listening s) as Hl1
    by (unfold neighbors_of; by destruct (find_neighbors _ _ _ _)).
  destruct (neighbors_of now (from_id (digest key)) s) as [ns s1]. cbn [fst snd] in *.
  destruct ns as [|n ns]; [split; [done|split; [congruence|done]]|].
  pose proof (crawl_value_spec h now fuel (from_id (digest key)) (n :: ns) s1 Hi1 Hw1) as Hcr.
  destruct (crawl_value fuel now _ (n :: ns) s1) as [[[res nodes] s2]|]; [|done]. cbn [mbind option_bind].
  destruct Hcr as (Hi2 & Hl2 & _ & _).
  destruct res as [v|]; [|split; [done|split; [congruence|done]]].
  destruct (verify_value_spec h now now key v s2 Hi2) as (Hi3 & Hl3 & _ & _ & Ha).
  destruct (verify_value now key v s2) as [[] s3]; simpl in *; split_and!; try done; try congruence; naive_solver.
Qed.

Lemma check_exists_spec `{!HashLaws} h fuel now key (s : server) :
  server_inv h now s ->
  match check_exists_and_get_nodes fuel now key s with
  | Some (ex, nodes, s') => server_inv h now s' /\ Forall wf_node nodes
  | None => True
  end.
Proof.
  intros Hi. unfold check_exists_and_get_nodes. cbv zeta.
  destruct (get now (storage (rproto (running s))) (digest key)) as [v|]; [by split; [|constructor]|].
  destruct (listening s) eqn:El; cbn [negb]; [|by split; [|constructor]].
  destruct (neighbors_of_spec h now now (from_id (digest key)) s Hi (from_id_wf _ (digest_length key))) as [Hi1 Hw1].
  destruct (neighbors_of now (from_id (digest key)) s) as [ns s1]. cbn [fst snd] in *.
  destruct ns as [|n ns]; [by split; [|constructor]|].
  pose proof (crawl_value_spec h now fuel (from_id (digest key)) (n :: ns) s1 Hi1 Hw1) as Hcr.
  destruct (crawl_value fuel now _ (n :: ns) s1) as [[[res nodes] s2]|]; [|done]. cbn [mbind option_bind].
  destruct Hcr as (Hi2 & _ & Hw2 & _). destruct res as [v|]; [|done].
  destruct (verify_value_spec h now now key v s2 Hi2) as (Hi3 & _).
  destruct (verify_value now key v s2) as [[] s3]; simpl in *; [by split; [|constructor]|done].
Qed.

Lemma store_locally_inv h now dkey v nodes (s : server) :
  server_inv h now s -> authentic h v -> server_inv h now (store_locally now dkey v nodes s).
Proof.
  intros Hi Ha. unfold store_locally. repeat case_match; try done.
  apply run_inv_set with now; [lia|exact Hi|]. destruct Hi as [[Hw Hh Hc Hs] _]. split; simpl in *; try done.
  - by apply set_storage_wf.
  - apply storage_authentic_set. intros k w. rewrite get_set. case_decide; [by intros [= <-]|].
    intros Hg. apply (Hs now k); [lia|done].
Qed.

Lemma call_nodes_inv h now f ns (s : server) :
  (forall n, wf_node n -> call_ok h now (f n)) ->
  Forall wf_node ns -> server_inv h now s -> server_inv h now (snd (call_nodes now f ns s)).
Proof.
  intros Hf Hns Hi. unfold call_nodes. pose proof (call_each_inv h now f ns (running s) Hf Hns Hi) as Hr.
  by destruct (call_each now f ns (running s)).
Qed.

Lemma set_digest_inv h now dkey v nodes (s : server) :
  server_inv h now s -> authentic h v -> Forall wf_node nodes ->
  server_inv h now (snd (set_digest now dkey v nodes s)).
Proof.
  intros Hi Ha Hw. unfold set_digest. destruct (negb (listening s)); [done|].
  destruct nodes as [|n nodes]; [done|].
  pose proof (call_nodes_inv h now (fun n => store_call n dkey v) (n :: nodes) _
    (fun m Hm => proj1 (calls_ok h now m dkey v [] [] Hm)) Hw
    (store_locally_inv h now dkey v (n :: nodes) s Hi Ha)) as Hc.
  by destruct (call_nodes _ _ _ _).
Qed.

Lemma server_set_spec `{!HashLaws} h fuel now key v (s : server) :
  server_inv h now s ->
  match server_set fuel now key v s with
  | Some (res, s') => server_inv h now s' /\ (res <> None -> authentic h v)
  | None => True
  end.
Proof.
  intros Hi. unfold server_set. pose proof (check_exists_spec h fuel now key s Hi) as Hck.
  destruct (check_exists_and_get_nodes fuel now key s) as [[[ex nodes] s1]|]; [|done]. cbn [mbind option_bind].
  destruct Hck as [Hi1 Hw1]. destruct ex; [done|].
  destruct (verify_value_spec h now now key v s1 Hi1) as (Hi2 & _ & _ & _ & Ha).
  destruct (verify_value now key v s1) as [[] s2]; simpl in *; [|done].
  specialize (Ha eq_refl). pose proof (set_digest_inv h now (digest key) v nodes s2 Hi2 Ha Hw1) as Hd1.
  by destruct (set_digest now (digest key) v nodes s2).
Qed.

(** A value that verifies is refused only where the key is taken. *)
Lemma set_refused h fuel now key v (s s' : server) :
  HashLaws -> server_inv h now s ->
  verify_record h (bool_decide (key = STATUS_LIST_KEY)) v = true ->
  server_set fuel now key v s = Some (None, s') ->
  check_exists_and_get_nodes fuel now key s = Some (true, [], s').
Proof.
  intros HLS Hi Hv. unfold server_set. pose proof (check_exists_spec h fuel now key s Hi) as Hck.
  intros ([[ex nodes] s1] & Ec & Hs)%bind_Some. rewrite Ec in Hck. destruct Hck as [Hi1 _].
  destruct ex.
  - injection Hs as <-. revert Ec. unfold check_exists_and_get_nodes. cbv zeta.
    destruct (get now _ _); [by intros [= <- <-]|]. destruct (negb _); [done|].
    destruct (neighbors_of _ _ _) as [[|n ns] s2]; [done|].
    intros ([[res ns'] s3] & Ecr & Hr)%bind_Some. rewrite Ecr. simpl. destruct res as [w|]; [|done].
    destruct (verify_value now key w s3) as [[] s4]; [|done]. by injection Hr as <- <-.
  - pose proof (verify_value_true h now key v s1 (proj1 Hi1) Hv) as Ht.
    destruct (verify_value now key v s1) as [b s2]. cbn [fst] in Ht. subst b. cbn [negb] in Hs.
    by destruct (set_digest _ _ _ _ _).
Qed.

Lemma update_digest_inv `{!HashLaws} h fuel now key v auth (s : server) :
  server_inv h now s -> authentic h v ->
  match update_digest fuel now key (digest key) v auth s with
  | Some (_, s') => server_inv h now s'
  | None => True
  end.
Proof.
  intros Hi Ha. unfold update_digest. cbv zeta. destruct (negb (listening s)); [done|].
  destruct (neighbors_of_spec h now now (from_id (digest key)) s Hi (from_id_wf _ (digest_length key))) as [Hi1 Hw1].
  destruct (neighbors_of now (from_id (digest key)) s) as [ns s1]. cbn [fst snd] in *.
  destruct ns as [|n ns]; [done|].
  pose proof (crawl_nodes_spec h now fuel (from_id (digest key)) (n :: ns) s1 Hi1 Hw1) as Hcr.
  destruct (crawl_nodes fuel now _ (n :: ns) s1) as [[nodes s2]|]; [|done]. cbn [mbind option_bind].
  destruct Hcr as (Hi2 & _ & Hw2).
  match goal with |- context [call_nodes now ?f nodes ?x] =>
    pose proof (call_nodes_inv h now f nodes x) as Hc; destruct (call_nodes now f nodes x) as [oks s3] end.
  apply Hc; [|done|by eapply store_locally_inv].
  intros m Hm. destruct (calls_ok h now m (digest key) v (default [] auth) [] Hm) as (_ & ? & ? & _).
  by case_bool_decide.
Qed.

Lemma server_update_spec `{!HashLaws} h fuel now key v auth (s : server) :
  server_inv h now s ->
  match server_update fuel now key v auth s with
  | Some (_, s') => server_inv h now s'
  | None => True
  end.
Proof.
  intros Hi. unfold server_update. pose proof (server_get_spec h fuel now key s Hi) as Hg.
  destruct (server_get fuel now key s) as [[res s1]|]; [|done]. cbn [mbind option_bind].
  destruct Hg as (Hi1 & _ & _). destruct res as [old|]; [|done]. cbv zeta.
  pose proof (pi_handler _ _ (proj1 Hi1)) as Hh. cbn [snd] in Hh. rewrite Hh.
  match goal with |- context [negb ?x] => destruct x eqn:Eok end; cbn [negb]; [|done].
  assert (authentic h v) as Ha.
  { exists v. split; [done|].
    destruct (bool_decide (key = STATUS_LIST_KEY) && negb (bool_decide (is_Some auth)));
      apply unwrap_or_true in Eok; [by right|left; by eapply update_self_signed]. }
  pose proof (update_digest_inv h fuel now key v auth s1 Hi1 Ha) as Hu.
  destruct (update_digest _ _ _ _ _ _ _) as [[r s2]|]; done.
Qed.

Lemma delete_local_inv h now dkey (s : server) :
  server_inv h now s ->
  server_inv h now (set_running s (set_rproto (running s)
    (set_storage (rproto (running s)) (delete_key now (storage (rproto (running s))) dkey)))).
Proof.
  intros Hi. apply run_inv_set with now; [lia|exact Hi|]. destruct Hi as [[Hw Hh Hc Hs] _].
  split; simpl in *; try done; [by apply set_storage_wf|].
  apply storage_authentic_set. intros k w. rewrite get_delete. case_decide; [done|].
  intros Hg. apply (Hs now k); [lia|done].
Qed.

Lemma server_delete_spec `{!HashLaws} h fuel now key auth msg (s : server) :
  server_inv h now s ->
  match server_delete fuel now key auth msg s with
  | Some (_, s') => server_inv h now s'
  | None => True
  end.
Proof.
  intros Hi. unfold server_delete. pose proof (server_get_spec h fuel now key s Hi) as Hg.
  destruct (server_get fuel now key s) as [[res s1]|]; [|done]. cbn [mbind option_bind].
  destruct Hg as (Hi1 & _ & _). destruct res as [old|]; [|done]. cbv zeta.
  destruct (unwrap_or false _); cbn [negb]; [|done].
  unfold delete_digest. cbv zeta. destruct (negb (listening s1)); cbn [mbind option_bind]; [done|].
  set (s2 := set_running s1 _).
  assert (server_inv h now s2) as Hi2 by (by eapply delete_local_inv).
  destruct (neighbors_of_spec h now now (from_id (digest key)) s2 Hi2 (from_id_wf _ (digest_length key))) as [Hi3 Hw3].
  destruct (neighbors_of now (from_id (digest key)) s2) as [ns s3]. cbn [fst snd] in *.
  destruct ns as [|n ns]; [done|].
  pose proof (crawl_nodes_spec h now fuel (from_id (digest key)) (n :: ns) s3 Hi3 Hw3) as Hcr.
  destruct (crawl_nodes fuel now _ (n :: ns) s3) as [[nodes s4]|]; [|done]. cbn [mbind option_bind].
  destruct Hcr as (Hi4 & _ & Hw4).
  pose proof (call_nodes_inv h now (fun n => delete_call n (digest key) auth msg) nodes s4
    (fun m Hm => proj2 (proj2 (proj2 (calls_ok h now m (digest key) [] auth msg Hm)))) Hw4 Hi4) as Hc.
  by destruct (call_nodes _ _ _ _).
Qed.

(** ** Joining and refreshing *)

Lemma bootstrap_node_spec h now addr (s : server) :
  server_inv h now s ->
  server_inv h now (snd (bootstrap_node now addr s)) /\ Forall wf_node (option_list (fst (bootstrap_node now addr s))) /\
  listening (snd (bootstrap_node now addr s)) = listening s.
Proof.
  intros Hi. unfold bootstrap_node. destruct (listening s) eqn:El; simpl; [|by split_and!].
  pose proof (one_call_inv h now (running s) (ping_call addr) (fun _ _ Hp => Hp) Hi) as Hc.
  destruct (one_call now (ping_call addr) (running s)) as [[ok id_bytes] r]. simpl in *.
  destruct (Nat.eqb_spec (length id_bytes) ID_LEN) as [Hl|]; destruct ok; simpl; split_and!; try done.
  by apply Forall_singleton.
Qed.

Lemma bootstrap_nodes_spec h now addrs (s : server) :
  server_inv h now s ->
  server_inv h now (snd (bootstrap_nodes now addrs s)) /\ Forall wf_node (fst (bootstrap_nodes now addrs s)) /\
  listening (snd (bootstrap_nodes now addrs s)) = listening s.
Proof.
  revert s. induction addrs as [|addr addrs IH]; intros s Hi; simpl; [by split_and!|].
  destruct (bootstrap_node_spec h now addr s Hi) as (Hi1 & Hw1 & Hl1).
  destruct (bootstrap_node now addr s) as [n s1]. cbn [fst snd] in *.
  destruct (IH s1 Hi1) as (Hi2 & Hw2 & Hl2). destruct (bootstrap_nodes now addrs s1) as [ns s2]. cbn [fst snd] in *.
  split_and!; [done| |congruence]. apply Forall_app. by split.
Qed.

Lemma bootstrap_spec h fuel now addrs (s : server) :
  server_inv h now s ->
  match bootstrap fuel now addrs s with
  | Some (ns, s') => server_inv h now s' /\ Forall wf_node ns
  | None => True
  end.
Proof.
  intros Hi. unfold bootstrap. destruct (bootstrap_nodes_spec h now addrs s Hi) as (Hi1 & Hw1 & _).
  destruct (bootstrap_nodes now addrs s) as [nodes s1]. cbn [fst snd] in *.
  destruct (negb (listening s1)); [by split; [|constructor]|].
  pose proof (crawl_nodes_spec h now fuel (snode s1) nodes s1 Hi1 Hw1) as Hc.
  destruct (crawl_nodes fuel now _ nodes s1) as [[ns s2]|]; [|done]. by destruct Hc as (? & _ & ?).
Qed.

Lemma refresh_targets_spec h now ids (s : server) :
  server_inv h now s -> Forall (fun i => length i = ID_LEN) ids ->
  server_inv h now (snd (refresh_targets now ids s)) /\
  Forall (fun x => Forall wf_node (snd x)) (fst (refresh_targets now ids s)).
Proof.
  intros Hi Hids. revert s Hi. induction Hids as [|i ids Hl _ IH]; intros s Hi; cbn [refresh_targets]; [by split|].
  destruct (neighbors_of_spec h now now (from_id i) s Hi (from_id_wf _ Hl)) as [Hi1 Hw1].
  destruct (neighbors_of now (from_id i) s) as [ns s1]. cbn [fst snd] in *.
  destruct (IH s1 Hi1) as [Hi2 Hw2]. destruct (refresh_targets now ids s1) as [ts s2]. cbn [fst snd] in *.
  split; [exact Hi2|]. constructor; [exact Hw1|exact Hw2].
Qed.

Lemma refresh_lookups_spec h fuel now ts (s : server) :
  server_inv h now s -> Forall (fun x => Forall wf_node (snd x)) ts ->
  match refresh_lookups fuel now ts s with Some s' => server_inv h now s' | None => True end.
Proof.
  intros Hi Hts. revert s Hi. induction Hts as [|[n ns] ts Hns _ IH]; intros s Hi; simpl; [done|].
  pose proof (crawl_nodes_spec h now fuel n ns s Hi Hns) as Hc.
  destruct (crawl_nodes fuel now n ns s) as [[nodes s1]|]; [|done]. cbn [mbind option_bind]. by apply IH, Hc.
Qed.

Lemma republish_spec h fuel now entries (s : server) :
  server_inv h now s ->
  match republish fuel now entries s with Some s' => server_inv h now s' | None => True end.
Proof.
  revert s. induction entries as [|[dkey v] entries IH]; intros s Hi; cbn [republish]; [done|].
  destruct (Nat.eqb_spec (length dkey) ID_LEN) as [Hl|]; cbn [negb]; [|by apply IH].
  destruct (neighbors_of_spec h now now (from_id dkey) s Hi (from_id_wf _ Hl)) as [Hi1 Hw1].
  destruct (neighbors_of now (from_id dkey) s) as [ns s1]. cbn [fst snd] in *.
  destruct ns as [|n ns]; [by apply IH|].
  pose proof (crawl_nodes_spec h now fuel (from_id dkey) (n :: ns) s1 Hi1 Hw1) as Hc.
  destruct (crawl_nodes fuel now _ (n :: ns) s1) as [[nodes s2]|]; [|done]. cbn [mbind option_bind].
  destruct Hc as (Hi2 & _ & Hw2).
  pose proof (call_nodes_inv h now (fun n => store_call n dkey v) nodes s2
    (fun m Hm => proj1 (calls_ok h now m dkey v [] [] Hm)) Hw2 Hi2) as Hn.
  destruct (call_nodes now _ nodes s2) as [oks s3]. by apply IH.
Qed.

Lemma refresh_ids_length gen_range now (p : KademliaProtocol S Hd C) :
  Forall (fun i => length i = ID_LEN) (get_refresh_ids gen_range now p).
Proof.
  apply Forall_lookup. intros i x. unfold get_refresh_ids. intros (b & _ & ->)%list_lookup_imap_Some.
  unfold refresh_id. by rewrite length_app, be_bytes_length.
Qed.

Lemma refresh_spec h gen_range fuel now (s : server) :
  server_inv h now s ->
  match refresh gen_range fuel now s with Some s' => server_inv h now s' | None => True end.
Proof.
  intros Hi. unfold refresh. cbv zeta.
  destruct (refresh_targets_spec h now _ s Hi (refresh_ids_length gen_range now (rproto (running s)))) as [Hi1 Hw1].
  destruct (refresh_targets now _ s) as [ts s1]. cbn [fst snd] in *.
  pose proof (refresh_lookups_spec h fuel now ts s1 Hi1 Hw1) as Hr.
  destruct (refresh_lookups fuel now ts s1) as [s2|]; [|done]. cbn [mbind option_bind]. by apply republish_spec.
Qed.

End network_spec.

(** ** Claims *)

(** Rounds that suffice for any lookup: twice the number of identifiers. *)
Definition CRAWL_FUEL : nat := 2 * size id_universe + 2.

Section network_claims.
Context `{US : UnstableSort} `{HO : HashOrder} `{HA : Hashes} `{NA : NetAddr}.
Context {S : Type} `{SL : StorageLaws S}.
Context {Hd E : Type} `{HL : HandlerLaws Hd E}.
Context {C : Type} `{MC : Moka C}.
Context {R : Type} `{NW : !Net R S Hd C} `{NS : !NetSafe R}.

Lemma crawl_value_returns now target peers (s : Server R) :
  Forall wf_node peers -> is_Some (crawl_value CRAWL_FUEL now target peers s).
Proof.
  intros Hp. unfold crawl_value.
  pose proof (SpiderCrawl_new_wf target peers (sksize s) (salpha s) Hp) as Hcw.
  destruct (@value_find_returns _ _ R (kademlia_spider now) id_universe CRAWL_FUEL 0 (running s)
    (ValueSpiderCrawl_new target peers (sksize s) (salpha s)) Hcw (NodeHeap_new_wf target 1)
    (new_known_universe target peers _ _ Hp) (all_answers_in _) (measure_bound _ _)) as [[[r v] [res nodes]] ->].
  by eexists.
Qed.

Lemma crawl_nodes_returns now target peers (s : Server R) :
  Forall wf_node peers -> is_Some (crawl_nodes CRAWL_FUEL now target peers s).
Proof.
  intros Hp. unfold crawl_nodes.
  pose proof (SpiderCrawl_new_wf target peers (sksize s) (salpha s) Hp) as Hcw.
  destruct (@node_find_returns _ _ R (kademlia_spider now) id_universe CRAWL_FUEL 0 (running s) _ Hcw
    (new_known_universe target peers _ _ Hp) (all_answers_in _) (measure_bound _ _)) as (r & c & ->).
  by eexists.
Qed.

Lemma server_get_returns `{!HashLaws} h now key (s : Server R) :
  server_inv h now s -> is_Some (server_get CRAWL_FUEL now key s).
Proof.
  intros Hi. unfold server_get. cbv zeta.
  destruct (get now (storage (rproto (running s))) (digest key)) as [v|]; [by destruct (verify_value _ _ _ _)|].
  destruct (negb (listening s)); [done|].
  destruct (neighbors_of_spec h now now (from_id (digest key)) s Hi (from_id_wf _ (digest_length key))) as [_ Hw1].
  destruct (neighbors_of now (from_id (digest key)) s) as [[|n ns] s1]; [done|]. cbn [fst] in Hw1.
  destruct (crawl_value_returns now (from_id (digest key)) (n :: ns) s1 Hw1) as [[[[v|] nodes] s2] ->]; [|done].
  cbn [mbind option_bind]. by destruct (verify_value _ _ _ _).
Qed.

Lemma server_set_returns `{!HashLaws} h now key v (s : Server R) :
  server_inv h now s -> is_Some (server_set CRAWL_FUEL now key v s).
Proof.
  intros Hi. unfold server_set.
  assert (is_Some (check_exists_and_get_nodes CRAWL_FUEL now key s)) as [[[ex nodes] s1] ->].
  { unfold check_exists_and_get_nodes. cbv zeta.
    destruct (get now (storage (rproto (running s))) (digest key)) as [w|]; [done|].
    destruct (negb (listening s)); [done|].
    destruct (neighbors_of_spec h now now (from_id (digest key)) s Hi (from_id_wf _ (digest_length key))) as [_ Hw1].
    destruct (neighbors_of now (from_id (digest key)) s) as [[|n ns] s1]; [done|]. cbn [fst] in Hw1.
    destruct (crawl_value_returns now (from_id (digest key)) (n :: ns) s1 Hw1) as [[[[w|] nodes] s2] ->]; [|done].
    cbn [mbind option_bind]. by destruct (verify_value _ _ _ _) as [[] ?]. }
  cbn [mbind option_bind]. destruct ex; [done|].
  destruct (verify_value _ _ _ s1) as [[] s2]; [|done]. cbn [negb].
  by destruct (set_digest _ _ _ _ _).
Qed.

Lemma server_update_returns `{!HashLaws} h now key v auth (s : Server R) :
  server_inv h now s -> is_Some (server_update CRAWL_FUEL now key v auth s).
Proof.
  intros Hi. unfold server_update.
  destruct (server_get_returns h now key s Hi) as [[res s1] Eg].
  pose proof (server_get_spec h CRAWL_FUEL now key s Hi) as Hg. rewrite Eg in *. cbn [mbind option_bind].
  destruct Hg as (Hi1 & _ & _). destruct res as [old|]; [|done]. cbv zeta.
  destruct (negb _); [done|]. unfold update_digest. cbv zeta. destruct (negb (listening s1)); [done|].
  destruct (neighbors_of_spec h now now (from_id (digest key)) s1 Hi1 (from_id_wf _ (digest_length key))) as [_ Hw1].
  destruct (neighbors_of now (from_id (digest key)) s1) as [[|n ns] s2]; [done|]. cbn [fst] in Hw1.
  destruct (crawl_nodes_returns now (from_id (digest key)) (n :: ns) s2 Hw1) as [[nodes s3] ->].
  cbn [mbind option_bind]. by destruct (call_nodes _ _ _ _).
Qed.

Lemma server_delete_returns `{!HashLaws} h now key auth msg (s : Server R) :
  server_inv h now s -> is_Some (server_delete CRAWL_FUEL now key auth msg s).
Proof.
  intros Hi. unfold server_delete.
  destruct (server_get_returns h now key s Hi) as [[res s1] Eg].
  pose proof (server_get_spec h CRAWL_FUEL now key s Hi) as Hg. rewrite Eg in *. cbn [mbind option_bind].
  destruct Hg as (Hi1 & _ & _). destruct res as [old|]; [|done]. cbv zeta.
  destruct (negb _); [done|]. unfold delete_digest. cbv zeta. destruct (negb (listening s1)); [done|].
  set (s2 := set_running s1 _).
  assert (server_inv h now s2) as Hi2 by (by eapply delete_local_inv).
  destruct (neighbors_of_spec h now now (from_id (digest key)) s2 Hi2 (from_id_wf _ (digest_length key))) as [_ Hw1].
  destruct (neighbors_of now (from_id (digest key)) s2) as [[|n ns] s3]; [done|]. cbn [fst] in Hw1.
  destruct (crawl_nodes_returns now (from_id (digest key)) (n :: ns) s3 Hw1) as [[nodes s4] ->].
  cbn [mbind option_bind]. by destruct (call_nodes _ _ _ _).
Qed.

Lemma bootstrap_returns h now addrs (s : Server R) :
  server_inv h now s -> is_Some (bootstrap CRAWL_FUEL now addrs s).
Proof.
  intros Hi. unfold bootstrap. destruct (bootstrap_nodes_spec h now addrs s Hi) as (_ & Hw1 & _).
  destruct (bootstrap_nodes now addrs s) as [nodes s1]. cbn [fst snd] in *.
  destruct (negb (listening s1)); [done|]. by apply crawl_nodes_returns.
Qed.

Lemma refresh_lookups_returns now ts (s : Server R) :
  Forall (fun x => Forall wf_node (snd x)) ts -> is_Some (refresh_lookups CRAWL_FUEL now ts s).
Proof.
  intros Hts. revert s. induction Hts as [|[n ns] ts Hns _ IH]; intros s; simpl; [done|].
  destruct (crawl_nodes_returns now n ns s Hns) as [[nodes s1] ->]. apply IH.
Qed.

Lemma republish_returns h now entries (s : Server R) :
  server_inv h now s -> is_Some (republish CRAWL_FUEL now entries s).
Proof.
  revert s. induction entries as [|[dkey v] entries IH]; intros s Hi; cbn [republish]; [done|].
  destruct (Nat.eqb_spec (length dkey) ID_LEN) as [Hl|]; cbn [negb]; [|by apply IH].
  destruct (neighbors_of_spec h now now (from_id dkey) s Hi (from_id_wf _ Hl)) as [Hi1 Hw1].
  destruct (neighbors_of now (from_id dkey) s) as [ns s1]. cbn [fst snd] in *.
  destruct ns as [|n ns]; [by apply IH|].
  destruct (crawl_nodes_returns now (from_id dkey) (n :: ns) s1 Hw1) as [[nodes s2] Ec].
  pose proof (crawl_nodes_spec h now CRAWL_FUEL (from_id dkey) (n :: ns) s1 Hi1 Hw1) as Hc. rewrite Ec in *.
  cbn [mbind option_bind]. destruct Hc as (Hi2 & _ & Hw2).
  pose proof (call_nodes_inv h now (fun n => store_call n dkey v) nodes s2
    (fun m Hm => proj1 (calls_ok h now m dkey v [] [] Hm)) Hw2 Hi2) as Hn.
  destruct (call_nodes now _ nodes s2) as [oks s3]. by apply IH.
Qed.

Lemma refresh_returns h gen_range now (s : Server R) :
  server_inv h now s -> is_Some (refresh gen_range CRAWL_FUEL now s).
Proof.
  intros Hi. unfold refresh. cbv zeta.
  destruct (refresh_targets_spec h now _ s Hi (refresh_ids_length gen_range now (rproto (running s)))) as [Hi1 Hw1].
  destruct (refresh_targets now _ s) as [ts s1]. cbn [fst snd] in *.
  destruct (refresh_lookups_returns now ts s1 Hw1) as [s2 Er].
  pose proof (refresh_lookups_spec h CRAWL_FUEL now ts s1 Hi1 Hw1) as Hr. rewrite Er in *.
  cbn [mbind option_bind]. by apply (republish_returns h).
Qed.

(** C2: the API is total and safe.  On a node that satisfies the invariant,
    whatever the peers answer, [get], [set], [update], [delete], [bootstrap] and
    a pass of the refresh loop return, and keep the invariant (well-formed table,
    sound cache, authentic store); [get] returns only authentic values, and [set]
    publishes only an authentic one. *)
Theorem server_api_safe `{!HashLaws} (h : Hd) (t now : Z) (key value msg : bytes) (auth : option bytes)
    (addrs : list (string * Z)) (gen_range : nat -> Z -> Z -> Z) (s : Server R) :
  t <= now -> server_inv h t s ->
  (exists res s', server_get CRAWL_FUEL now key s = Some (res, s') /\ server_inv h now s' /\
     forall v, res = Some v -> authentic h v) /\
  (exists res s', server_set CRAWL_FUEL now key value s = Some (res, s') /\ server_inv h now s' /\
     (res <> None -> authentic h value)) /\
  (exists res s', server_update CRAWL_FUEL now key value auth s = Some (res, s') /\ server_inv h now s') /\
  (exists res s', server_delete CRAWL_FUEL now key (default [] auth) msg s = Some (res, s') /\ server_inv h now s') /\
  (exists ns s', bootstrap CRAWL_FUEL now addrs s = Some (ns, s') /\ server_inv h now s') /\
  (exists s', refresh gen_range CRAWL_FUEL now s = Some s' /\ server_inv h now s').
Proof.
  intros Hle Hi0. pose proof (run_inv_later h t now _ Hle Hi0) as Hi. change (server_inv h now s) in Hi.
  clear Hi0 Hle. split_and!.
  - destruct (server_get_returns h now key s Hi) as [[res s'] Eg].
    pose proof (server_get_spec h CRAWL_FUEL now key s Hi) as Hs. rewrite Eg in Hs. naive_solver.
  - destruct (server_set_returns h now key value s Hi) as [[res s'] Eg].
    pose proof (server_set_spec h CRAWL_FUEL now key value s Hi) as Hs. rewrite Eg in Hs. eauto.
  - destruct (server_update_returns h now key value auth s Hi) as [[res s'] Eg].
    pose proof (server_update_spec h CRAWL_FUEL now key value auth s Hi) as Hs. rewrite Eg in Hs. eauto.
  - destruct (server_delete_returns h now key (default [] auth) msg s Hi) as [[res s'] Eg].
    pose proof (server_delete_spec h CRAWL_FUEL now key (default [] auth) msg s Hi) as Hs.
    rewrite Eg in Hs. eauto.
  - destruct (bootstrap_returns h now addrs s Hi) as [[ns s'] Eb].
    pose proof (bootstrap_spec h CRAWL_FUEL now addrs s Hi) as Hs. rewrite Eb in Hs. naive_solver.
  - destruct (refresh_returns h gen_range now s Hi) as [s' Er].
    pose proof (refresh_spec h gen_range CRAWL_FUEL now s Hi) as Hs. rewrite Er in Hs. eauto.
Qed.

(** C40: an invalid value blocks publication.  When the lookup of [set] meets a
    value that does not verify, no node is left to store on, and [set] answers
    [Some false] in the state the verification leaves, without contacting anyone,
    although the record to publish is valid and no legitimate record exists. *)
Theorem set_blocked_by_invalid_value `{!HashLaws} (h : Hd) (now : Z) (fuel : nat) (key value v : bytes)
    (nodes : list Node) (s s1 s2 : Server R) (ns : list Node) :
  server_inv h now s -> listening s = true ->
  get now (storage (rproto (running s))) (digest key) = None ->
  neighbors_of now (from_id (digest key)) s = (ns, s1) -> ns <> [] ->
  crawl_value fuel now (from_id (digest key)) ns s1 = Some (Some v, nodes, s2) ->
  fst (verify_value now key v s2) = false ->
  fst (verify_value now key value s2) = true ->
  server_set fuel now key value s = Some (Some false, snd (verify_value now key value s2)).
Proof.
  intros Hi Hl Hg Hn Hne Hcr Hbad Hgood.
  destruct (neighbors_of_spec h now now (from_id (digest key)) s Hi (from_id_wf _ (digest_length key))) as [Hi1 Hw1].
  rewrite Hn in Hi1, Hw1. cbn [fst snd] in *.
  pose proof (crawl_value_spec h now fuel (from_id (digest key)) ns s1 Hi1 Hw1) as Hspec. rewrite Hcr in Hspec.
  destruct Hspec as (_ & _ & _ & Hnil). rewrite (Hnil v eq_refl) in Hcr.
  assert (snd (verify_value now key v s2) = s2) as Hsame.
  { revert Hbad. unfold verify_value. repeat case_match; simpl; congruence. }
  unfold server_set, check_exists_and_get_nodes. cbv zeta. rewrite Hg, Hl, Hn. cbn [negb].
  destruct ns as [|n ns]; [done|]. rewrite Hcr. cbn [mbind option_bind].
  destruct (verify_value now key v s2) as [b s3]. simpl in Hbad, Hsame. subst b s3. cbn [mbind option_bind].
  destruct (verify_value now key value s2) as [b s3]. simpl in Hgood. subst b. cbn [negb].
  unfold set_digest. by destruct (negb (listening s3)).
Qed.

End network_claims.

(** ** The parameters of a server do not change *)

Section server_frame.
Context `{US : UnstableSort} `{HO : HashOrder} `{HA : Hashes} `{NA : NetAddr}.
Context {S : Type} `{IS : IStorage S}.
Context {Hd E : Type} `{SH : SignatureVerifierHandler Hd E}.
Context {C : Type} `{MC : Moka C}.
Context {R : Type} `{NW : !Net R S Hd C}.

(** The two states differ in what runs only. *)
Definition same_params (s s' : Server R) : Prop := s' = set_running s (running s').

#[global] Instance same_params_preorder : PreOrder same_params.
Proof.
  split; [by intros []|]. intros s1 s2 s3 H12 H23. unfold same_params in *. rewrite H23, H12. done.
Qed.

Lemma same_params_fields s s' :
  same_params s s' -> snode s' = snode s /\ listening s' = listening s /\ sksize s' = sksize s /\ salpha s' = salpha s.
Proof. intros ->. done. Qed.

Lemma neighbors_of_params now target s : same_params s (snd (neighbors_of now target s)).
Proof. unfold neighbors_of. by destruct (find_neighbors _ _ _ _). Qed.

Lemma verify_value_params now key v s : same_params s (snd (verify_value now key v s)).
Proof. unfold verify_value. repeat case_match; by destruct s. Qed.

Lemma crawl_value_params fuel now target peers s res ns s' :
  crawl_value fuel now target peers s = Some (res, ns, s') -> same_params s s'.
Proof. unfold crawl_value. by intros ([[r v] [x y]] & _ & [= _ _ <-])%bind_Some. Qed.

Lemma crawl_nodes_params fuel now target peers s ns s' :
  crawl_nodes fuel now target peers s = Some (ns, s') -> same_params s s'.
Proof. unfold crawl_nodes. by intros ([[r v] x] & _ & [= _ <-])%bind_Some. Qed.

Lemma call_nodes_params now f ns s : same_params s (snd (call_nodes now f ns s)).
Proof. unfold call_nodes. by destruct (call_each _ _ _ _). Qed.

Lemma store_locally_params now k v ns s : same_params s (store_locally now k v ns s).
Proof. unfold store_locally. repeat case_match; by destruct s. Qed.

Lemma bootstrap_nodes_params now addrs s : same_params s (snd (bootstrap_nodes now addrs s)).
Proof.
  revert s. induction addrs as [|a addrs IH]; intros s; cbn [bootstrap_nodes]; [done|].
  assert (same_params s (snd (bootstrap_node now a s))) as Hb.
  { unfold bootstrap_node. destruct (negb (listening s)); [done|]. destruct (one_call _ _ _) as [[ok i] r].
    by destruct (_ || _). }
  destruct (bootstrap_node now a s) as [n s1]. specialize (IH s1).
  destruct (bootstrap_nodes now addrs s1) as [ns s2]. cbn [snd] in *. by etrans.
Qed.

(** Follow an operation: after each call the parameters are those before it. *)
Ltac params_step :=
  match goal with
  | H : Some _ = Some _ |- _ => injection H as ?; subst
  | H : (_ ≫= _) = Some _ |- _ => apply bind_Some in H as ([? ?] & ? & ?)
  | x : _ * _ |- _ => destruct x
  | H : crawl_value _ _ _ _ _ = Some (_, _, _) |- _ => apply crawl_value_params in H
  | H : crawl_nodes _ _ _ _ _ = Some (_, _) |- _ => apply crawl_nodes_params in H
  | H : context [neighbors_of ?n ?t ?s] |- _ =>
      pose proof (neighbors_of_params n t s); destruct (neighbors_of n t s); cbn [snd] in *
  | H : context [verify_value ?n ?k ?v ?s] |- _ =>
      pose proof (verify_value_params n k v s); destruct (verify_value n k v s); cbn [snd] in *
  | H : context [call_nodes ?n ?f ?l ?s] |- _ =>
      pose proof (call_nodes_params n f l s); destruct (call_nodes n f l s); cbn [snd] in *
  | H : context [match ?l with [] => _ | _ :: _ => _ end] |- _ => destruct l
  | H : context [match ?o with Some _ => _ | None => _ end] |- _ => destruct o
  | H : context [if ?b then _ else _] |- _ => destruct b
  end.

Ltac params_done := solve [reflexivity | eassumption | etrans; [eassumption|params_done]].
Ltac params := cbn [negb snd] in *; repeat params_step; params_done.

Lemma server_get_params fuel now key s r s' : server_get fuel now key s = Some (r, s') -> same_params s s'.
Proof. unfold server_get. cbv zeta. intros H. params. Qed.

Lemma check_exists_params fuel now key s ex ns s' :
  check_exists_and_get_nodes fuel now key s = Some (ex, ns, s') -> same_params s s'.
Proof. unfold check_exists_and_get_nodes. cbv zeta. intros H. params. Qed.

Lemma set_digest_params now k v ns s : same_params s (snd (set_digest now k v ns s)).
Proof.
  unfold set_digest. destruct (negb (listening s)); [done|]. destruct ns as [|n ns]; [done|].
  pose proof (call_nodes_params now (fun n => store_call n k v) (n :: ns) (store_locally now k v (n :: ns) s)) as Hc.
  destruct (call_nodes _ _ _ _) as [oks s1]. etrans; [apply store_locally_params|exact Hc].
Qed.

Lemma server_set_params fuel now key v s r s' : server_set fuel now key v s = Some (r, s') -> same_params s s'.
Proof.
  unfold server_set. intros ([[ex ns] s1] & Hc%check_exists_params & H)%bind_Some. destruct ex; [params|].
  pose proof (verify_value_params now key v s1) as Hv. destruct (verify_value now key v s1) as [[] s2]; [|params].
  pose proof (set_digest_params now (digest key) v ns s2) as Hd'. cbn [negb snd] in *.
  destruct (set_digest now (digest key) v ns s2). cbn [snd] in *. params.
Qed.

Lemma update_digest_params fuel now key dkey v auth s r s' :
  update_digest fuel now key dkey v auth s = Some (r, s') -> same_params s s'.
Proof.
  unfold update_digest. cbv zeta. destruct (negb (listening s)); [intros; params|].
  pose proof (neighbors_of_params now (from_id dkey) s) as Hn. destruct (neighbors_of _ _ s) as [[|n ns] s1]; [intros; params|].
  intros ([nodes s2] & Hc%crawl_nodes_params & H)%bind_Some.
  pose proof (store_locally_params now dkey v nodes s2) as Hl. cbn [snd] in *. params.
Qed.

Lemma server_update_params fuel now key v auth s r s' :
  server_update fuel now key v auth s = Some (r, s') -> same_params s s'.
Proof.
  unfold server_update. intros ([old s1] & Hg%server_get_params & H)%bind_Some. destruct old; [|params].
  cbv zeta in H. destruct (negb _); [params|]. apply bind_Some in H as ([b s2] & Hu%update_digest_params & H). params.
Qed.

Lemma delete_digest_params fuel now dkey auth msg s r s' :
  delete_digest fuel now dkey auth msg s = Some (r, s') -> same_params s s'.
Proof.
  unfold delete_digest. cbv zeta. destruct (negb (listening s)); [intros; params|].
  set (s0 := set_running s _). assert (same_params s s0) as H0 by done. intros H. clearbody s0. params.
Qed.

Lemma server_delete_params fuel now key auth msg s r s' :
  server_delete fuel now key auth msg s = Some (r, s') -> same_params s s'.
Proof.
  unfold server_delete. intros ([old s1] & Hg%server_get_params & H)%bind_Some. destruct old; [|params].
  cbv zeta in H. destruct (negb _); [params|]. apply bind_Some in H as ([b s2] & Hu%delete_digest_params & H). params.
Qed.

Lemma bootstrap_params fuel now addrs s r s' : bootstrap fuel now addrs s = Some (r, s') -> same_params s s'.
Proof.
  unfold bootstrap. pose proof (bootstrap_nodes_params now addrs s) as Hb.
  destruct (bootstrap_nodes now addrs s) as [ns s1]. cbn [snd] in *. intros H. params.
Qed.

Lemma bootstrappable_params now s : same_params s (snd (bootstrappable_neighbors now s)).
Proof.
  unfold bootstrappable_neighbors. destruct (negb (listening s)); [done|].
  pose proof (neighbors_of_params now (snode s) s) as Hn. by destruct (neighbors_of _ _ _).
Qed.

Lemma stop_params now s : same_params s (snd (stop now s)).
Proof.
  unfold stop. destruct (negb (listening s)); [done|].
  pose proof (neighbors_of_params now (snode s) s) as Hn. by destruct (neighbors_of _ _ _).
Qed.

End server_frame.

(** ** A server that has just started listening *)

Section fresh_server.
Context `{US : UnstableSort} `{HO : HashOrder} `{HA : Hashes} `{NA : NetAddr}.
Context {Hd E : Type} `{HL : HandlerLaws Hd E}.
Context {C : Type} `{MC : Moka C}.
Context {R : Type} `{NW : !Net R ForgetfulStorage Hd C} `{NS : !NetSafe R}.

(** A given identifier has the length the code's array type gives it; [place]
    puts the protocol where the network finds it. *)
Lemma Server_new_inv `{!HashLaws} h now k alpha node_id random use_cache (place : _ -> R) :
  (0 < k)%nat -> (forall i, node_id = Some i -> length i = ID_LEN) ->
  (forall p, rproto (place p) = p /\ net_ok h now (place p)) ->
  server_inv h now (Server_new now h k alpha node_id random (server_storage None) use_cache place) /\
  wf_node (snode (Server_new now h k alpha node_id random (server_storage None) use_cache place)).
Proof.
  intros Hk Hid Hp. unfold Server_new, server_inv. cbn [running snode].
  set (node := match node_id with Some i => from_id i | None => _ end).
  set (p0 := KademliaProtocol_new _ _ _ _ _ _). destruct (Hp p0) as [Hr Hn].
  assert (wf_node node) as Hwf by (destruct node_id; apply from_id_wf; [by apply Hid|apply sha1_length]).
  split; [|done]. split; [rewrite Hr|done]. split; simpl; try done.
  - apply proto_wf_new; [done|lia].
  - intros c. destruct use_cache; [|done]. intros [= <-]. apply (cache_sound_new (C := C)).
Qed.

Lemma listen_inv h now (s : Server R) :
  (0 < sksize s)%nat -> wf_node (snode s) -> server_inv h now s -> server_inv h now (listen now s).
Proof.
  intros Hk Hwf Hi. unfold listen, server_inv. cbn [running]. apply run_inv_set with now; [lia|done|].
  destruct (proj1 Hi) as [Hw Hh Hc Hs]. split; try done. simpl in *.
  pose proof (proto_wf_new now (snode s) (storage (rproto (running s))) (sksize s)
    (signature_handler (rproto (running s))) (sig_cache (rproto (running s))) Hwf ltac:(lia)) as Hn.
  destruct Hn, Hw. by split.
Qed.

Lemma listen_new_inv `{!HashLaws} h now k alpha node_id random use_cache (place : _ -> R) :
  (0 < k)%nat -> (forall i, node_id = Some i -> length i = ID_LEN) ->
  (forall p, rproto (place p) = p /\ net_ok h now (place p)) ->
  server_inv h now (listen now (Server_new now h k alpha node_id random (server_storage None) use_cache place)).
Proof.
  intros Hk Hid Hp. destruct (Server_new_inv h now k alpha node_id random use_cache place Hk Hid Hp).
  by apply listen_inv.
Qed.

End fresh_server.

(** ** A concrete server *)

#[local] Existing Instances demo_hashes demo_hash_laws demo_handler demo_laws plain_addr.

(** Peers that answer every [FindValue] with the same bytes. *)
Definition answering (v : bytes) (_ : nat) (_ : SocketAddr) (m : RpcMessage) : option RpcMessage :=
  match m with FindValue _ _ => Some (FindValueHit v) | _ => None end.

Abbreviation demo_net := (Running ForgetfulStorage unit SimpleCache).

Definition demo_server (v : bytes) : Server demo_net :=
  listen 0 (Server_new 0 tt 2 3 (Some (demo_key 1)) [] (server_storage None) true
    (fun p => mkRunning p (answering v) 0)).

Lemma demo_server_inv v : server_inv tt 0 (demo_server v).
Proof. apply listen_new_inv; [lia|by intros i [= <-]|done]. Qed.

Lemma server_api_safe_witness :
  exists res s', server_get CRAWL_FUEL 5 (demo_key 9) (demo_server [x09]) = Some (res, s') /\
    server_inv tt 5 s' /\ (forall v, res = Some v -> authentic tt v).
Proof.
  apply (server_api_safe tt 0 5 (demo_key 9) [x01] [] None [] (fun _ lo _ => lo) (demo_server [x09])).
  - lia.
  - apply demo_server_inv.
Defined.

(** ... which knows one peer. *)
Definition demo_server_peer (v : bytes) : Server demo_net :=
  let s := demo_server v in
  let p := rproto (running s) in
  set_running s (set_rproto (running s)
    (set_router p (one_bucket 0 (snode s) 2 [Node_new (demo_key 2) (Some "10.0.0.2"%string) (Some 9000)]))).

Lemma demo_server_peer_inv v : server_inv tt 0 (demo_server_peer v).
Proof.
  destruct (demo_server_inv v) as [[Hw Hh Hc Hs] _]. split; [split|]; simpl in *; try done.
  apply set_router_wf; [done| |done|done]. apply one_bucket_wf.
  - by split.
  - apply Forall_singleton. by split.
  - apply (bool_decide_unpack _). vm_compute. exact I.
  - simpl. lia.
Qed.

(** The name it looks up, the peers it asks and its state after the lookup. *)
Definition demo_did : bytes := b! "did:iiot:a".

Definition demo_asked : list Node * Server demo_net :=
  neighbors_of 0 (from_id (digest demo_did)) (demo_server_peer [x09]).

Definition demo_looked_up : Server demo_net :=
  match crawl_value 3 0 (from_id (digest demo_did)) (fst demo_asked) (snd demo_asked) with
  | Some (_, s) => s
  | None => snd demo_asked
  end.

Lemma set_blocked_by_invalid_value_witness :
  server_set 3 0 demo_did [x01; x41] (demo_server_peer [x09]) =
    Some (Some false, snd (verify_value 0 demo_did [x01; x41] demo_looked_up)).
Proof.
  apply (set_blocked_by_invalid_value tt 0 3 demo_did [x01; x41] [x09] []
    (demo_server_peer [x09]) (snd demo_asked) demo_looked_up (fst demo_asked)).
  - apply demo_server_peer_inv.
  - reflexivity.
  - reflexivity.
  - apply surjective_pairing.
  - vm_compute. discriminate.
  - vm_compute. reflexivity.
  - vm_compute. reflexivity.
  - vm_compute. reflexivity.
Defined.
