(* ===== verification/Overlap.v ===== *)
(** * Overlap: server operations that run at the same time

    The operations of [src/src/network.rs] are [async]: while one waits for a
    lock, for a verification given to [spawn_blocking] or for its calls, the others
    and the request handlers go on.  [Network.v] runs each operation as one
    function; here an operation is a tree ([Op]) of its accesses to the shared
    state, each a step of its own, and of its groups of concurrent calls
    ([join_all]), whose answers come in any order.  [op_step] is one step of one
    operation, [cstep] one step of a node on which any number of operations run
    beside the handlers of [Interleaving.v].  [run_op] runs an operation alone, and
    theorems show that it is then the function of [Network.v]. *)
From S2P Require Import Prelude Node Routing RoutingTable RoutingTableSpec Storage Text Crypto AuthHandler SigCache Crawling Protocol ProtocolSpec Interleaving Network NetworkSpec.
From Stdlib Require Import Strings.Byte.
Local Open Scope Z_scope.

(** ** Operations as trees *)

Section op.
Context `{NA : NetAddr} {S Hd C : Type}.
Local Abbreviation proto := (KademliaProtocol S Hd C).

(** [Look] reads the shared state at some time, [Change] writes it, [Calls] waits
    for all the calls of a list. *)
Inductive Op (A : Type) :=
| Done (a : A)
| Look {B : Type} (f : Z -> proto -> B) (k : B -> Op A)
| Change {B : Type} (f : Z -> proto -> B * proto) (k : B -> Op A)
| Calls {B : Type} (cs : list (Call (S := S) (Hd := Hd) (C := C) B)) (k : list B -> Op A).
#[global] Arguments Done {A} a.
#[global] Arguments Look {A B} f k.
#[global] Arguments Change {A B} f k.
#[global] Arguments Calls {A B} cs k.

Fixpoint op_bind {A B} (f : A -> Op B) (o : Op A) : Op B :=
  match o with
  | Done a => f a
  | Look g k => Look g (fun b => op_bind f (k b))
  | Change g k => Change g (fun b => op_bind f (k b))
  | Calls cs k => Calls cs (fun bs => op_bind f (k bs))
  end.

Definition look {B} (f : Z -> proto -> B) : Op B := Look f Done.
Definition modify {B} (f : Z -> proto -> B * proto) : Op B := Change f Done.
Definition join_all {B} (cs : list (Call B)) : Op (list B) := Calls cs Done.

(** Sequencing of operations that may run out of fuel. *)
Definition op_try {A B} (f : A -> Op (option B)) (o : Op (option A)) : Op (option B) :=
  op_bind (fun r => match r with Some a => f a | None => Done None end) o.

(** The answer [b] of call [i], put where the others have left room. *)
Definition put {B} (i : nat) (b : B) (bs : list B) : list B := take i bs ++ b :: drop i bs.

(** A response arrives, or none, and ends the call. *)
Definition settle {A} (c : Call A) (answer : option RpcMessage) (p : proto) : A * proto :=
  finish c answer (on_answer (request c p) answer p).

(** One step of an operation at time [t].  A call without an address to send to
    has no answer. *)
Inductive op_step {A} (t : Z) : Op A * proto -> Op A * proto -> Prop :=
| op_step_look B (f : Z -> proto -> B) k p :
    op_step t (Look f k, p) (k (f t p), p)
| op_step_change B (f : Z -> proto -> B * proto) k p :
    op_step t (Change f k, p) (k (fst (f t p)), snd (f t p))
| op_step_answer B (cs : list (Call B)) k i c answer p :
    cs !! i = Some c -> (request c p = None -> answer = None) ->
    op_step t (Calls cs k, p)
      (Calls (delete i cs) (fun bs => k (put i (fst (settle c answer p)) bs)), snd (settle c answer p))
| op_step_join B (k : list B -> Op A) p :
    op_step t (Calls [] k, p) (k [], p).

(** Alone, without interruption, on a network. *)
Context {R : Type} `{NW : !Net R S Hd C}.

Fixpoint call_list {B} (now : Z) (cs : list (Call B)) (r : R) : list B * R :=
  match cs with
  | [] => ([], r)
  | c :: cs =>
      let '(b, r) := one_call now c r in
      let '(bs, r) := call_list now cs r in
      (b :: bs, r)
  end.

Fixpoint run_op {A} (now : Z) (o : Op A) (r : R) : A * R :=
  match o with
  | Done a => (a, r)
  | Look f k => run_op now (k (f now (rproto r))) r
  | Change f k => let '(b, p) := f now (rproto r) in run_op now (k b) (set_rproto r p)
  | Calls cs k => let '(bs, r) := call_list now cs r in run_op now (k bs) r
  end.

Lemma run_op_bind {A B} now (f : A -> Op B) o r :
  run_op now (op_bind f o) r = let '(a, r) := run_op now o r in run_op now (f a) r.
Proof.
  revert r. induction o as [a|B' g k IH|B' g k IH|B' cs k IH]; intros r; simpl; [done|apply IH| |].
  - destruct (g now (rproto r)) as [b p]. apply IH.
  - destruct (call_list now cs r) as [bs r']. apply IH.
Qed.

Lemma run_op_try {A B} now (f : A -> Op (option B)) o r :
  run_op now (op_try f o) r =
    let '(a, r) := run_op now o r in match a with Some a => run_op now (f a) r | None => (None, r) end.
Proof. unfold op_try. rewrite run_op_bind. destruct (run_op now o r) as [[a|] r']; done. Qed.

End op.
Arguments Op {_} S Hd C A.

Notation "x ←+ o ; k" := (op_bind (fun x => k) o)
  (at level 20, o at level 100, k at level 200, only parsing) : kad_scope.
Notation "' x ←+ o ; k" := (op_bind (fun x => k) o)
  (at level 20, x pattern, o at level 100, k at level 200, only parsing) : kad_scope.
Notation "x ←? o ; k" := (op_try (fun x => k) o)
  (at level 20, o at level 100, k at level 200, only parsing) : kad_scope.
Notation "' x ←? o ; k" := (op_try (fun x => k) o)
  (at level 20, x pattern, o at level 100, k at level 200, only parsing) : kad_scope.

(** ** The operations of the server *)

(** A lookup round is a function of the answers: the answers are given one by
    one. *)
Definition scripted : SpiderProtocol (list RawResponse) := {|
  call_find_node rs _ _ := (tail rs, default (mkRaw false Empty) (head rs));
  call_find_value rs _ _ := (tail rs, default (mkRaw false Empty) (head rs));
  call_store rs _ _ _ := (rs, false)
|}.

Section operations.
Context `{US : UnstableSort} `{HO : HashOrder} `{HA : Hashes} `{NA : NetAddr}.
Context {S : Type} `{IS : IStorage S}.
Context {Hd E : Type} `{SH : SignatureVerifierHandler Hd E}.
Context {C : Type} `{MC : Moka C}.
Local Abbreviation proto := (KademliaProtocol S Hd C).
Local Abbreviation Op := (Op S Hd C).

(** The fields of the [Server] that do not change, and the fuel of lookups. *)
Variable fuel : nat.
Variable ksize alpha : nat.
Variable node : Node.
Variable up : bool.

(** *** Lookups *)

Fixpoint op_node_find (fuel round : nat) (c : SpiderCrawl) : Op (option (list Node)) :=
  match fuel with
  | O => Done None
  | Datatypes.S fuel =>
      rs ←+ join_all ((fun peer => find_node_call peer (cnode c)) <$> round_peers c);
      let '(_, c) := @node_round _ _ _ scripted round rs c in
      if have_contacted_all (nearest c) then Done (Some (to_vec (nearest c)))
      else op_node_find fuel (Datatypes.S round) c
  end.

Fixpoint op_value_find (fuel round : nat) (v : ValueSpiderCrawl) : Op (option (option bytes * list Node)) :=
  match fuel with
  | O => Done None
  | Datatypes.S fuel =>
      rs ←+ join_all ((fun peer => find_value_call peer (cnode (base v))) <$> round_peers (base v));
      let '(_, v, found) := @value_round _ _ _ scripted round rs v in
      match found with
      | _ :: _ =>
          let value := majority (Datatypes.S round) found in
          match value with
          | Some w =>
              match popleft (nearest_without_value v) with
              | (_, Some peer) =>
                  _ ←+ join_all [store_call peer (id (cnode (base v))) w];
                  Done (Some (value, []))
              | (_, None) => Done (Some (value, []))
              end
          | None => Done (Some (value, []))
          end
      | [] =>
          if have_contacted_all (nearest (base v)) then Done (Some (None, to_vec (nearest (base v))))
          else op_value_find fuel (Datatypes.S round) v
      end
  end.

Definition op_neighbors (target : Node) : Op (list Node) :=
  modify (fun now p => let '(r, ns) := find_neighbors now (router p) target None in (ns, set_router p r)).

(** [verify_value]: the verification, with a handler that never changes, runs
    between the two accesses to the cache. *)
Definition op_verify (key value : bytes) : Op bool :=
  let is_status := bool_decide (key = STATUS_LIST_KEY) in
  '(cached, result) ←+ look (B := option bool * bool) (fun now p =>
     (c ← sig_cache p; get_by_key now c (compute_key value), verify_record (signature_handler p) is_status value));
  match cached with
  | Some b => Done b
  | None =>
      if (result : bool) then
        _ ←+ modify (fun now p =>
               (tt, set_sig_cache p ((fun c => insert_by_key now c (compute_key value) result) <$> sig_cache p)));
        Done result
      else Done result
  end.

Definition op_value_crawl (target : Node) (peers : list Node) : Op (option (option bytes * list Node)) :=
  op_value_find fuel 0 (ValueSpiderCrawl_new target peers ksize alpha).

Definition op_node_crawl (target : Node) (peers : list Node) : Op (option (list Node)) :=
  op_node_find fuel 0 (SpiderCrawl_new target peers ksize alpha).

Definition op_get (key : bytes) : Op (option (option bytes)) :=
  let dkey := digest key in
  local ←+ look (fun now p => get now (storage p) dkey);
  match local with
  | Some result =>
      ok ←+ op_verify key result;
      Done (Some (if (ok : bool) then Some result else None))
  | None =>
      if negb up then Done (Some None)
      else
        nearest ←+ op_neighbors (from_id dkey);
        match nearest with
        | [] => Done (Some None)
        | _ =>
            '(result, _) ←? op_value_crawl (from_id dkey) nearest;
            match result with
            | Some v =>
                ok ←+ op_verify key v;
                Done (Some (if (ok : bool) then Some v else None))
            | None => Done (Some None)
            end
        end
  end.

Definition op_check_exists (key : bytes) : Op (option (bool * list Node)) :=
  let dkey := digest key in
  local ←+ look (fun now p => get now (storage p) dkey);
  match local with
  | Some _ => Done (Some (true, []))
  | None =>
      if negb up then Done (Some (false, []))
      else
        nearest ←+ op_neighbors (from_id dkey);
        match nearest with
        | [] => Done (Some (false, []))
        | _ =>
            '(result, nodes) ←? op_value_crawl (from_id dkey) nearest;
            match result with
            | Some v =>
                ok ←+ op_verify key v;
                Done (Some (if (ok : bool) then (true, []) else (false, nodes)))
            | None => Done (Some (false, nodes))
            end
        end
  end.

(** *** Writes *)

Definition op_store_locally (dkey value : bytes) (nodes : list Node) : Op unit :=
  match farthest (from_id dkey) nodes with
  | Some far =>
      if distance_to node (from_id dkey) <? far
      then modify (fun now p => (tt, set_storage p (set now (storage p) dkey value)))
      else Done tt
  | None => Done tt
  end.

Definition op_set_digest (dkey value : bytes) (nodes : list Node) : Op bool :=
  if negb up then Done false
  else match nodes with
  | [] => Done false
  | _ =>
      _ ←+ op_store_locally dkey value nodes;
      results ←+ join_all ((fun n => store_call n dkey value) <$> nodes);
      Done (0 <? length (filter (fun r => r = true) results))%nat
  end.

Definition op_set (key value : bytes) : Op (option (option bool)) :=
  '(exists_, nodes) ←? op_check_exists key;
  if (exists_ : bool) then Done (Some None)
  else
    ok ←+ op_verify key value;
    if negb ok then Done (Some None)
    else
      r ←+ op_set_digest (digest key) value nodes;
      Done (Some (Some r)).

Definition op_update_digest (key dkey value : bytes) (auth_signature : option bytes) : Op (option bool) :=
  if negb up then Done (Some false)
  else
    nearest ←+ op_neighbors (from_id dkey);
    match nearest with
    | [] => Done (Some false)
    | _ =>
        nodes ←? op_node_crawl (from_id dkey) nearest;
        _ ←+ op_store_locally dkey value nodes;
        let is_status_list := bool_decide (key = STATUS_LIST_KEY) in
        results ←+ join_all ((fun n =>
          if is_status_list then status_list_update_call n dkey value
          else update_call n dkey value (default [] auth_signature)) <$> nodes);
        Done (Some (existsb (fun r => r) results))
    end.

Definition op_update (key value : bytes) (auth_signature : option bytes) : Op (option (option bool)) :=
  old ←? op_get key;
  match old with
  | None => Done (Some None)
  | Some old_value =>
      let is_status := bool_decide (key = STATUS_LIST_KEY) && negb (bool_decide (is_Some auth_signature)) in
      ok ←+ look (fun _ p =>
        if is_status then unwrap_or false (handle_issuer_node_signature_verification (signature_handler p) value)
        else unwrap_or false
               (handle_update_verification (signature_handler p) value old_value (default [] auth_signature)));
      if negb ok then Done (Some None)
      else r ←? op_update_digest key (digest key) value auth_signature; Done (Some (Some r))
  end.

Definition op_delete_digest (dkey auth_signature delete_msg : bytes) : Op (option bool) :=
  if negb up then Done (Some false)
  else
    _ ←+ modify (fun now p => (tt, set_storage p (delete_key now (storage p) dkey)));
    nearest ←+ op_neighbors (from_id dkey);
    match nearest with
    | [] => Done (Some true)
    | _ =>
        nodes ←? op_node_crawl (from_id dkey) nearest;
        _ ←+ join_all ((fun n => delete_call n dkey auth_signature delete_msg) <$> nodes);
        Done (Some true)
    end.

Definition op_delete (key auth_signature delete_msg : bytes) : Op (option (option bool)) :=
  value ←? op_get key;
  match value with
  | None => Done (Some None)
  | Some v =>
      ok ←+ look (fun _ p =>
        unwrap_or false (handle_signature_delete_operation (signature_handler p) v auth_signature delete_msg));
      if negb ok then Done (Some None)
      else r ←? op_delete_digest (digest key) auth_signature delete_msg; Done (Some (Some r))
  end.

(** *** Joining *)

(** What [bootstrap_node] makes of the answer to its ping. *)
Definition pinged (addr : string * Z) (res : bool * bytes) : option Node :=
  let '(ok, id_bytes) := res in
  if negb ok || negb (Nat.eqb (length id_bytes) ID_LEN) then None
  else Some (Node_new id_bytes (Some (fst addr)) (Some (snd addr))).

Definition op_bootstrap (addrs : list (string * Z)) : Op (option (list Node)) :=
  if negb up then Done (Some [])
  else
    results ←+ join_all (ping_call <$> addrs);
    op_node_crawl node (concat (zip_with (fun a r => option_list (pinged a r)) addrs results)).

(** *** Parts of the refresh loop

    The lookups of a pass run together and their results are dropped; the entries
    are then republished one by one. *)

Definition op_refresh_lookup (rid : bytes) : Op (option unit) :=
  ns ←+ op_neighbors (from_id rid);
  _ ←? op_node_crawl (from_id rid) ns; Done (Some tt).

Fixpoint op_republish_entries (entries : list (bytes * bytes)) : Op (option unit) :=
  match entries with
  | [] => Done (Some tt)
  | (dkey, value) :: entries =>
      if negb (Nat.eqb (length dkey) ID_LEN) then op_republish_entries entries
      else
        ns ←+ op_neighbors (from_id dkey);
        match ns with
        | [] => op_republish_entries entries
        | _ =>
            nodes ←? op_node_crawl (from_id dkey) ns;
            _ ←+ join_all ((fun n => store_call n dkey value) <$> nodes);
            op_republish_entries entries
        end
  end.

Definition op_republish : Op (option unit) :=
  old_entries ←+ look (fun now p => iter_older_than now (storage p) 3600);
  op_republish_entries old_entries.

(** *** Welcoming, and the tasks the node spawns

    [welcome_if_new] takes the lock of the router three times, and between the
    second and the third another task may add the same node.  The result is the
    routing table met when the insertion into it does not return. *)

Definition op_spawn (t : Task) : Op unit := modify (fun _ p => (tt, spawn p t)).

Fixpoint op_spawn_all (ts : list Task) : Op unit :=
  match ts with
  | [] => Done tt
  | t :: ts => _ ←+ op_spawn t; op_spawn_all ts
  end.

Definition op_welcome (n : Node) : Op (option RoutingTable) :=
  new ←+ look (fun _ p => is_new_node (router p) n);
  if negb new then Done None
  else
    all_entries ←+ look (fun now p => iter_all now (storage p));
    kvs ←+ modify (fun now p =>
      let '(r, kvs) := keys_to_replicate now (router p) (source_node p) n all_entries in (kvs, set_router p r));
    added ←+ modify (fun now p =>
      match add_contact INSERT_FUEL now (router p) n with
      | Some (r, lru) => (inl lru, set_router p r)
      | None => (inr (router p), p)
      end);
    match added with
    | inr table => Done (Some table)
    | inl lru =>
        _ ←+ match lru with Some l => op_spawn (PingNode l) | None => Done tt end;
        _ ←+ op_spawn_all ((fun kv => StoreRpc n (fst kv) (snd kv)) <$> kvs);
        Done None
    end.

Definition op_ping_node (n : Node) : Op unit :=
  match address n with
  | None => Done tt
  | Some addr =>
      results ←+ join_all [ping_call addr];
      if negb (existsb fst results) then modify (fun _ p => (tt, drop_peer p n)) else Done tt
  end.

Definition op_task (t : Task) : Op (option RoutingTable) :=
  match t with
  | WelcomeIfNew n => op_welcome n
  | PingNode n => _ ←+ op_ping_node n; Done None
  | StoreRpc n key value => _ ←+ join_all [store_call n key value]; Done None
  end.

(** The one handler that awaits the welcome of its sender before it answers. *)
Definition op_find_value (sender_id : bytes) (sender_addr : string * Z) (key : bytes) : Op (FindValueResult + RoutingTable) :=
  let source := sender sender_id sender_addr in
  stuck ←+ op_welcome source;
  match stuck with
  | Some table => Done (inr table)
  | None =>
      value ←+ look (fun now p => get now (storage p) key);
      match value with
      | Some v => Done (inl (ResultValue v))
      | None =>
          ns ←+ modify (fun now p =>
            let '(r, ns) := find_neighbors now (router p) (from_id key) (Some source) in (ns, set_router p r));
          Done (inl (ResultNodes ns))
      end
  end.

End operations.

(** ** An operation that runs alone is the function of [Network.v] *)

Section alone.
Context `{US : UnstableSort} `{HO : HashOrder} `{HA : Hashes} `{NA : NetAddr}.
Context {S : Type} `{IS : IStorage S}.
Context {Hd E : Type} `{SH : SignatureVerifierHandler Hd E}.
Context {C : Type} `{MC : Moka C}.
Context {R : Type} `{NW : !Net R S Hd C}.
Implicit Types s : Server R.

(** The result [y] of an operation is the result [x] of the function on [s]. *)
Definition agree {A} (s : Server R) (x : option (A * Server R)) (y : option A * R) : Prop :=
  match x with
  | Some (a, s') => y = (Some a, running s') /\ same_params s s'
  | None => fst y = None
  end.

Lemma call_each_list now f ns (r : R) : call_each now f ns r = call_list now (f <$> ns) r.
Proof.
  revert r. induction ns as [|n ns IH]; intros r; simpl; [done|].
  destruct (one_call now (f n) r) as [b r1]. by rewrite IH.
Qed.

Lemma call_list_length {B} now (cs : list (Call B)) (r : R) : length (fst (call_list now cs r)) = length cs.
Proof.
  revert r. induction cs as [|c cs IH]; intros r; simpl; [done|].
  destruct (one_call now c r) as [b r1]. specialize (IH r1). destruct (call_list now cs r1). simpl in *. by f_equal.
Qed.

Lemma call_all_node now target peers (r : R) :
  call_all (@call_find_node R (kademlia_spider now)) target r peers =
  let '(rs, r) := call_list now ((fun peer => find_node_call peer target) <$> peers) r in (r, zip (id <$> peers) rs).
Proof.
  revert r. induction peers as [|n ns IH]; intros r; simpl; [done|].
  destruct (one_call now (find_node_call n target) r) as [b r1]. rewrite IH. by destruct (call_list _ _ r1).
Qed.

Lemma call_all_value now target peers (r : R) :
  call_all (@call_find_value R (kademlia_spider now)) target r peers =
  let '(rs, r) := call_list now ((fun peer => find_value_call peer target) <$> peers) r in (r, zip (id <$> peers) rs).
Proof.
  revert r. induction peers as [|n ns IH]; intros r; simpl; [done|].
  destruct (one_call now (find_value_call n target) r) as [b r1]. rewrite IH. by destruct (call_list _ _ r1).
Qed.

Lemma call_all_scripted target peers rs :
  length rs = length peers ->
  call_all (@call_find_node _ scripted) target rs peers = ([], zip (id <$> peers) rs) /\
  call_all (@call_find_value _ scripted) target rs peers = ([], zip (id <$> peers) rs).
Proof.
  revert rs. induction peers as [|n ns IH]; intros [|r rs] Hl; [done..|].
  injection Hl as Hl. destruct (IH rs Hl) as [E1 E2]. cbn [call_all].
  split; [change (call_find_node (r :: rs) n target) with (rs, r)|change (call_find_value (r :: rs) n target) with (rs, r)];
    cbv iota beta; [rewrite E1|rewrite E2]; done.
Qed.

(** A round depends on the network only through the answers. *)
Lemma node_round_scripted now round c (r : R) :
  @node_round _ _ R (kademlia_spider now) round r c =
  let '(rs, r) := call_list now ((fun peer => find_node_call peer (cnode c)) <$> round_peers c) r in
  (r, snd (@node_round _ _ _ scripted round rs c)).
Proof.
  unfold node_round, find_round. rewrite call_all_node.
  pose proof (call_list_length now ((fun peer => find_node_call peer (cnode c)) <$> round_peers c) r) as Hl.
  destruct (call_list now _ r) as [rs r1]. cbn [fst] in Hl. rewrite length_fmap in Hl.
  rewrite (proj1 (call_all_scripted (cnode c) (round_peers c) rs Hl)). by destruct (node_responses _ _ _).
Qed.

Lemma value_round_scripted now round v (r : R) :
  @value_round _ _ R (kademlia_spider now) round r v =
  let '(rs, r) := call_list now ((fun peer => find_value_call peer (cnode (base v))) <$> round_peers (base v)) r in
  let '(_, v, found) := @value_round _ _ _ scripted round rs v in (r, v, found).
Proof.
  unfold value_round, find_round. rewrite call_all_value.
  pose proof (call_list_length now ((fun peer => find_value_call peer (cnode (base v))) <$> round_peers (base v)) r) as Hl.
  destruct (call_list now _ r) as [rs r1]. cbn [fst] in Hl. rewrite length_fmap in Hl.
  rewrite (proj2 (call_all_scripted (cnode (base v)) (round_peers (base v)) rs Hl)).
  by destruct (value_responses _ _ _ _ _) as [[[? ?] ?] ?].
Qed.

Lemma op_node_find_alone now fuel round c (r : R) :
  match @node_find _ _ R (kademlia_spider now) fuel round r c with
  | Some (r', _, ns) => run_op now (op_node_find fuel round c) r = (Some ns, r')
  | None => fst (run_op now (op_node_find fuel round c) r) = None
  end.
Proof.
  revert round c r. induction fuel as [|fuel IH]; intros round c r; cbn [node_find op_node_find]; [done|].
  rewrite node_round_scripted, run_op_bind. unfold join_all. cbn [run_op].
  destruct (call_list now _ r) as [rs r1]. destruct (node_round round rs c) as [x c'].
  cbn [snd]. destruct (have_contacted_all (nearest c')); [done|]. apply IH.
Qed.

Lemma op_value_find_alone now fuel round v (r : R) :
  match @value_find _ _ R (kademlia_spider now) fuel round r v with
  | Some (r', _, res) => run_op now (op_value_find fuel round v) r = (Some res, r')
  | None => fst (run_op now (op_value_find fuel round v) r) = None
  end.
Proof.
  revert round v r. induction fuel as [|fuel IH]; intros round v r; cbn [value_find op_value_find]; [done|].
  rewrite value_round_scripted, run_op_bind. unfold join_all. cbn [run_op].
  destruct (call_list now _ r) as [rs r1]. destruct (value_round round rs v) as [[x v'] found].
  destruct found as [|w found]; [destruct (have_contacted_all _); [done|apply IH]|].
  destruct (majority _ _) as [w'|]; [|done]. destruct (popleft _) as [nwv [peer|]]; [|done].
  rewrite run_op_bind. cbn [run_op call_list call_store kademlia_spider].
  by destruct (one_call now (store_call peer _ w') r1).
Qed.

Lemma op_neighbors_alone now target s :
  run_op now (op_neighbors target) (running s) =
  (fst (neighbors_of now target s), running (snd (neighbors_of now target s))).
Proof. unfold op_neighbors, neighbors_of, modify. cbn [run_op]. cbv zeta. by destruct (find_neighbors now _ target None). Qed.

Lemma op_verify_alone now key v s :
  run_op now (op_verify key v) (running s) =
  (fst (verify_value now key v s), running (snd (verify_value now key v s))).
Proof.
  unfold op_verify, verify_value. cbv zeta. rewrite run_op_bind. unfold look. cbn [run_op].
  destruct (sig_cache (rproto (running s)) ≫= _); [done|]. by destruct (verify_record _ _ v).
Qed.

Lemma op_value_crawl_alone fuel now target peers s :
  agree s ('(res, ns, s') ← crawl_value fuel now target peers s; Some (res, ns, s'))
    (run_op now (op_value_crawl fuel (sksize s) (salpha s) target peers) (running s)).
Proof.
  unfold op_value_crawl, crawl_value.
  pose proof (op_value_find_alone now fuel 0 (ValueSpiderCrawl_new target peers (sksize s) (salpha s)) (running s)) as H.
  by destruct (value_find fuel 0 (running s) _) as [[[r v] [res ns]]|].
Qed.

Lemma op_node_crawl_alone fuel now target peers s :
  agree s (crawl_nodes fuel now target peers s)
    (run_op now (op_node_crawl fuel (sksize s) (salpha s) target peers) (running s)).
Proof.
  unfold op_node_crawl, crawl_nodes.
  pose proof (op_node_find_alone now fuel 0 (SpiderCrawl_new target peers (sksize s) (salpha s)) (running s)) as H.
  by destruct (node_find fuel 0 (running s) _) as [[[r c] ns]|].
Qed.

(** Sequencing keeps the agreement. *)
Lemma agree_done {A} now (s : Server R) (a : A) : agree s (Some (a, s)) (run_op now (Done (Some a)) (running s)).
Proof. split; reflexivity. Qed.

Lemma agree_params {A} (s s' : Server R) (x : option (A * Server R)) y : same_params s s' -> agree s' x y -> agree s x y.
Proof. intros Hp. unfold agree. destruct x as [[a s2]|]; [|done]. intros [-> Hp2]. split; [done|]. by transitivity s'. Qed.

Lemma agree_bind {A B} now s (y : A * Server R) (o : Op S Hd C A) (f : A -> Op S Hd C (option B)) (x : option (B * Server R)) :
  run_op now o (running s) = (fst y, running (snd y)) -> same_params s (snd y) ->
  agree (snd y) x (run_op now (f (fst y)) (running (snd y))) ->
  agree s x (run_op now (op_bind f o) (running s)).
Proof. intros Ho Hp Hx. rewrite run_op_bind, Ho. by eapply agree_params. Qed.

Lemma agree_try {A B} now s (y : option (A * Server R)) (o : Op S Hd C (option A)) (f : A -> Op S Hd C (option B))
    (x : option (B * Server R)) :
  agree s y (run_op now o (running s)) ->
  match y with
  | Some (a, s') => same_params s s' -> agree s' x (run_op now (f a) (running s'))
  | None => x = None
  end ->
  agree s x (run_op now (a ←? o; f a) (running s)).
Proof.
  intros Hy Hx. rewrite run_op_try. destruct y as [[a s']|].
  - destruct Hy as [-> Hp]. eapply agree_params; [exact Hp|]. by apply Hx.
  - unfold agree in Hy. destruct (run_op now o (running s)) as [a r]. cbn [fst] in Hy. by subst a x.
Qed.

Lemma agree_verify {B} now key v s (f : bool -> Op S Hd C (option B)) x :
  (let '(b, s') := verify_value now key v s in same_params s s' -> agree s' x (run_op now (f b) (running s'))) ->
  agree s x (run_op now (op_bind f (op_verify key v)) (running s)).
Proof.
  intros Hx. eapply agree_bind; [apply op_verify_alone|apply verify_value_params|].
  pose proof (verify_value_params now key v s). destruct (verify_value now key v s). by apply Hx.
Qed.

Lemma agree_neighbors {B} now target s (f : list Node -> Op S Hd C (option B)) x :
  (let '(ns, s') := neighbors_of now target s in same_params s s' -> agree s' x (run_op now (f ns) (running s'))) ->
  agree s x (run_op now (op_bind f (op_neighbors target)) (running s)).
Proof.
  intros Hx. eapply agree_bind; [apply op_neighbors_alone|apply neighbors_of_params|].
  pose proof (neighbors_of_params now target s). destruct (neighbors_of now target s). by apply Hx.
Qed.

Lemma agree_calls {B X} now (cs : list (Call X)) s (f : list X -> Op S Hd C (option B)) x :
  (let '(bs, r) := call_list now cs (running s) in agree (set_running s r) x (run_op now (f bs) r)) ->
  agree s x (run_op now (op_bind f (join_all cs)) (running s)).
Proof.
  intros Hx. rewrite run_op_bind. unfold join_all. cbn [run_op]. destruct (call_list now cs (running s)) as [bs r].
  eapply agree_params; [|exact Hx]. done.
Qed.

(** The lookups, of which the function's result is a triple in one case. *)
Lemma agree_value_crawl {B} fuel now target peers s (f : option bytes * list Node -> Op S Hd C (option B)) x :
  match crawl_value fuel now target peers s with
  | Some (res, ns, s') => same_params s s' -> agree s' x (run_op now (f (res, ns)) (running s'))
  | None => x = None
  end ->
  agree s x (run_op now (op_try f (op_value_crawl fuel (sksize s) (salpha s) target peers)) (running s)).
Proof.
  intros Hx. eapply agree_try; [apply op_value_crawl_alone|].
  by destruct (crawl_value fuel now target peers s) as [[[res ns] s']|].
Qed.

Lemma agree_node_crawl {B} fuel now target peers s (f : list Node -> Op S Hd C (option B)) x :
  match crawl_nodes fuel now target peers s with
  | Some (ns, s') => same_params s s' -> agree s' x (run_op now (f ns) (running s'))
  | None => x = None
  end ->
  agree s x (run_op now (op_try f (op_node_crawl fuel (sksize s) (salpha s) target peers)) (running s)).
Proof. intros Hx. eapply agree_try; [apply op_node_crawl_alone|done]. Qed.

Ltac look_step := rewrite run_op_bind; unfold look; cbn [run_op].
Ltac same_fields Hp :=
  let H1 := fresh in let H2 := fresh in let H3 := fresh in let H4 := fresh in
  destruct (same_params_fields _ _ Hp) as (H1 & H2 & H3 & H4);
  rewrite <- ?H1, <- ?H2, <- ?H3, <- ?H4; clear H1 H2 H3 H4.

Lemma op_get_alone fuel now key s :
  agree s (server_get fuel now key s)
    (run_op now (op_get fuel (sksize s) (salpha s) (listening s) key) (running s)).
Proof.
  unfold op_get, server_get. cbv zeta. look_step. destruct (get now _ (digest key)) as [v|].
  { apply agree_verify. destruct (verify_value now key v s) as [b s']. intros _. apply agree_done. }
  destruct (negb (listening s)); [apply agree_done|]. apply agree_neighbors.
  destruct (neighbors_of now (from_id (digest key)) s) as [[|n ns] s1]; intros Hp; [apply agree_done|].
  destruct (same_params_fields _ _ Hp) as (_ & _ & <- & <-). apply agree_value_crawl.
  destruct (crawl_value fuel now _ (n :: ns) s1) as [[[[v|] ns'] s2]|]; [|intros _; apply agree_done|done].
  intros _. cbn [mbind option_bind]. apply agree_verify. destruct (verify_value now key v s2) as [b s']. intros _. apply agree_done.
Qed.

Lemma op_check_exists_alone fuel now key s :
  agree s ('(ex, ns, s') ← check_exists_and_get_nodes fuel now key s; Some ((ex, ns), s'))
    (run_op now (op_check_exists fuel (sksize s) (salpha s) (listening s) key) (running s)).
Proof.
  unfold op_check_exists, check_exists_and_get_nodes. cbv zeta. look_step.
  destruct (get now _ (digest key)) as [v|]; [apply agree_done|].
  destruct (negb (listening s)); [apply agree_done|]. apply agree_neighbors.
  destruct (neighbors_of now (from_id (digest key)) s) as [[|n ns] s1]; intros Hp; [apply agree_done|].
  destruct (same_params_fields _ _ Hp) as (_ & _ & <- & <-). apply agree_value_crawl.
  destruct (crawl_value fuel now _ (n :: ns) s1) as [[[[v|] ns'] s2]|]; [|intros _; apply agree_done|done].
  intros _. cbn [mbind option_bind]. apply agree_verify. destruct (verify_value now key v s2) as [[] s']; intros _; apply agree_done.
Qed.

Lemma op_store_locally_alone now dkey v nodes s :
  run_op now (op_store_locally (snode s) dkey v nodes) (running s) = (tt, running (store_locally now dkey v nodes s)).
Proof. unfold op_store_locally, store_locally. destruct (farthest _ nodes); [|done]. by destruct (_ <? _). Qed.

Lemma agree_store_locally {B} now dkey v nodes s (f : unit -> Op S Hd C (option B)) x :
  agree (store_locally now dkey v nodes s) x (run_op now (f tt) (running (store_locally now dkey v nodes s))) ->
  agree s x (run_op now (op_bind f (op_store_locally (snode s) dkey v nodes)) (running s)).
Proof. apply (agree_bind now s (tt, _)); [apply op_store_locally_alone|apply store_locally_params]. Qed.

Lemma agree_call_nodes {B} now f nodes s (k : list bool -> Op S Hd C (option B)) x :
  (let '(bs, s') := call_nodes now f nodes s in agree s' x (run_op now (k bs) (running s'))) ->
  agree s x (run_op now (op_bind k (join_all (f <$> nodes))) (running s)).
Proof.
  intros Hx. apply agree_calls. unfold call_nodes in Hx. rewrite call_each_list in Hx.
  by destruct (call_list now (f <$> nodes) (running s)).
Qed.

Lemma op_set_digest_alone now dkey v nodes s :
  run_op now (op_set_digest (snode s) (listening s) dkey v nodes) (running s) =
  (fst (set_digest now dkey v nodes s), running (snd (set_digest now dkey v nodes s))) /\
  same_params s (snd (set_digest now dkey v nodes s)).
Proof.
  unfold op_set_digest, set_digest. destruct (negb (listening s)); [done|]. destruct nodes as [|n ns]; [done|].
  rewrite run_op_bind, op_store_locally_alone, run_op_bind. unfold join_all. cbn [run_op]. cbv zeta.
  pose proof (store_locally_params now dkey v (n :: ns) s) as Hp.
  unfold call_nodes. rewrite call_each_list.
  destruct (call_list now _ (running (store_locally now dkey v (n :: ns) s))) as [bs r]. split; [done|].
  cbn [snd]. etransitivity; [exact Hp|]. done.
Qed.

Lemma agree_set_digest {B} now dkey v nodes s (f : bool -> Op S Hd C (option B)) x :
  (let '(b, s') := set_digest now dkey v nodes s in agree s' x (run_op now (f b) (running s'))) ->
  agree s x (run_op now (op_bind f (op_set_digest (snode s) (listening s) dkey v nodes)) (running s)).
Proof.
  intros Hx. destruct (op_set_digest_alone now dkey v nodes s). eapply agree_bind; [done|done|].
  by destruct (set_digest now dkey v nodes s).
Qed.

Lemma op_set_alone fuel now key v s :
  agree s (server_set fuel now key v s)
    (run_op now (op_set fuel (sksize s) (salpha s) (snode s) (listening s) key v) (running s)).
Proof.
  unfold op_set, server_set. eapply agree_try; [apply op_check_exists_alone|].
  destruct (check_exists_and_get_nodes fuel now key s) as [[[[] ns] s1]|]; [intros _; apply agree_done| |done].
  cbn [mbind option_bind]. intros Hp. same_fields Hp. apply agree_verify.
  destruct (verify_value now key v s1) as [[] s2]; intros Hp2; [|apply agree_done]. cbn [negb]. same_fields Hp2.
  apply agree_set_digest. destruct (set_digest now (digest key) v ns s2). apply agree_done.
Qed.

Lemma op_update_digest_alone fuel now key dkey v sig s :
  agree s (update_digest fuel now key dkey v sig s)
    (run_op now (op_update_digest fuel (sksize s) (salpha s) (snode s) (listening s) key dkey v sig) (running s)).
Proof.
  unfold op_update_digest, update_digest. destruct (negb (listening s)); [apply agree_done|].
  cbv zeta. apply agree_neighbors.
  destruct (neighbors_of now (from_id dkey) s) as [[|n ns] s1]; intros Hp; [apply agree_done|].
  same_fields Hp. apply agree_node_crawl.
  destruct (crawl_nodes fuel now _ (n :: ns) s1) as [[nodes s2]|]; [|done].
  cbn [mbind option_bind]. intros Hp2. same_fields Hp2. apply agree_store_locally.
  apply agree_call_nodes. destruct (call_nodes now _ nodes _). apply agree_done.
Qed.

Lemma op_update_alone fuel now key v sig s :
  agree s (server_update fuel now key v sig s)
    (run_op now (op_update fuel (sksize s) (salpha s) (snode s) (listening s) key v sig) (running s)).
Proof.
  unfold op_update, server_update. eapply agree_try; [apply op_get_alone|].
  destruct (server_get fuel now key s) as [[[old|] s1]|]; [|intros _; apply agree_done|done].
  cbn [mbind option_bind]. intros Hp. same_fields Hp. look_step. cbv zeta.
  destruct (negb _); [apply agree_done|]. eapply agree_try; [apply op_update_digest_alone|].
  destruct (update_digest fuel now key (digest key) v sig s1) as [[b s2]|]; [intros _; apply agree_done|done].
Qed.

Lemma op_delete_digest_alone fuel now dkey sig msg s :
  agree s (delete_digest fuel now dkey sig msg s)
    (run_op now (op_delete_digest fuel (sksize s) (salpha s) (listening s) dkey sig msg) (running s)).
Proof.
  unfold op_delete_digest, delete_digest. destruct (negb (listening s)); [apply agree_done|]. cbv zeta.
  set (s0 := set_running s _).
  eapply (agree_bind now s (tt, s0)); [done|done|cbn [fst snd]].
  change (sksize s) with (sksize s0). change (salpha s) with (salpha s0). apply agree_neighbors.
  destruct (neighbors_of now (from_id dkey) s0) as [[|n ns] s1]; intros Hp; [apply agree_done|].
  same_fields Hp. apply agree_node_crawl.
  destruct (crawl_nodes fuel now _ (n :: ns) s1) as [[nodes s2]|]; [|done].
  intros _. cbn [mbind option_bind]. apply agree_call_nodes. destruct (call_nodes now _ nodes _). apply agree_done.
Qed.

Lemma op_delete_alone fuel now key sig msg s :
  agree s (server_delete fuel now key sig msg s)
    (run_op now (op_delete fuel (sksize s) (salpha s) (listening s) key sig msg) (running s)).
Proof.
  unfold op_delete, server_delete. eapply agree_try; [apply op_get_alone|].
  destruct (server_get fuel now key s) as [[[old|] s1]|]; [|intros _; apply agree_done|done].
  cbn [mbind option_bind]. intros Hp. same_fields Hp. look_step. cbv zeta.
  destruct (negb _); [apply agree_done|]. eapply agree_try; [apply op_delete_digest_alone|].
  destruct (delete_digest fuel now (digest key) sig msg s1) as [[b s2]|]; [intros _; apply agree_done|done].
Qed.

Lemma bootstrap_nodes_calls now addrs s :
  listening s = true ->
  bootstrap_nodes now addrs s =
  let '(rs, r) := call_list now (ping_call <$> addrs) (running s) in
  (concat (zip_with (fun a x => option_list (pinged a x)) addrs rs), set_running s r).
Proof.
  revert s. induction addrs as [|a addrs IH]; intros s Hl; cbn [bootstrap_nodes fmap list_fmap call_list].
  { by destruct s. }
  unfold bootstrap_node. rewrite Hl. cbn [negb].
  destruct (one_call now (ping_call a) (running s)) as [[ok i] r1]. unfold pinged.
  destruct (negb ok || negb (Nat.eqb (length i) ID_LEN)) eqn:Hb;
    (rewrite (IH (set_running s r1)) by done); cbn [running set_running];
    destruct (call_list now (ping_call <$> addrs) r1); cbn [zip_with concat]; by rewrite Hb.
Qed.

Lemma op_bootstrap_alone fuel now addrs s :
  agree s (bootstrap fuel now addrs s)
    (run_op now (op_bootstrap fuel (sksize s) (salpha s) (snode s) (listening s) addrs) (running s)).
Proof.
  unfold op_bootstrap, bootstrap. destruct (listening s) eqn:Hl; cbn [negb].
  - rewrite (bootstrap_nodes_calls now addrs s Hl). apply agree_calls.
    destruct (call_list now (ping_call <$> addrs) (running s)) as [rs r]. cbn [listening set_running]. rewrite Hl.
    apply (op_node_crawl_alone fuel now (snode s) _ (set_running s r)).
  - assert (Hs : bootstrap_nodes now addrs s = ([], s)).
    { induction addrs as [|a addrs IH]; simpl; [done|]. unfold bootstrap_node. rewrite Hl. cbn [negb]. by rewrite IH. }
    rewrite Hs, Hl. apply agree_done.
Qed.

Lemma op_republish_entries_alone fuel now entries s :
  agree s (s' ← republish fuel now entries s; Some (tt, s'))
    (run_op now (op_republish_entries fuel (sksize s) (salpha s) entries) (running s)).
Proof.
  revert s. induction entries as [|[dkey v] entries IH]; intros s; cbn [republish op_republish_entries]; [apply agree_done|].
  destruct (negb _); [apply IH|]. apply agree_neighbors.
  destruct (neighbors_of now (from_id dkey) s) as [[|n ns] s1]; intros Hp; same_fields Hp; [apply IH|].
  apply agree_node_crawl. destruct (crawl_nodes fuel now _ (n :: ns) s1) as [[nodes s2]|]; [|done].
  intros Hp2. same_fields Hp2. cbn [mbind option_bind]. apply agree_call_nodes.
  pose proof (call_nodes_params now (fun n => store_call n dkey v) nodes s2) as Hp3.
  destruct (call_nodes now _ nodes s2) as [bs s3]. cbn [snd] in Hp3. same_fields Hp3. apply IH.
Qed.

Lemma op_spawned_alone {A} now ts (a : A) (r : R) p :
  rproto r = p ->
  let x := run_op now (_ ←+ op_spawn_all ts; Done a) r in fst x = a /\ rproto (snd x) = foldl spawn p ts.
Proof.
  intros <-. revert r. induction ts as [|t ts IH]; intros r; cbn [op_spawn_all foldl]; [done|].
  destruct (IH (set_rproto r (spawn (rproto r) t))) as [H1 H2]. rewrite rproto_set in H2. by split.
Qed.

Lemma op_welcome_alone now n (r : R) :
  match welcome_if_new now n (rproto r) with
  | Some p => fst (run_op now (op_welcome n) r) = None /\ rproto (snd (run_op now (op_welcome n) r)) = p
  | None => is_Some (fst (run_op now (op_welcome n) r))
  end.
Proof.
  unfold op_welcome, welcome_if_new. look_step. destruct (is_new_node (rproto r).(router) n); cbn [negb]; [|done].
  look_step. rewrite run_op_bind. unfold modify. cbn [run_op].
  destruct (keys_to_replicate now _ _ n _) as [r1 kvs]. cbn [run_op]. rewrite run_op_bind. cbn [run_op].
  rewrite rproto_set. cbn [router set_router].
  destruct (add_contact INSERT_FUEL now r1 n) as [[r2 lru]|]; cbn [mbind option_bind]; [|done].
  cbn [run_op]. rewrite <- (foldl_fmap spawn _ kvs (fun kv => StoreRpc n (fst kv) (snd kv))).
  destruct lru as [l|]; rewrite run_op_bind; unfold op_spawn, modify; cbn [run_op];
    apply op_spawned_alone; by rewrite !rproto_set.
Qed.

Lemma op_find_value_alone now i a key (r : R) :
  match rpc_find_value now i a key (rproto r) with
  | Some (res, p) => fst (run_op now (op_find_value i a key) r) = inl res /\
      rproto (snd (run_op now (op_find_value i a key) r)) = p
  | None => exists table, fst (run_op now (op_find_value i a key) r) = inr table
  end.
Proof.
  unfold op_find_value, rpc_find_value. cbv zeta. rewrite run_op_bind.
  pose proof (op_welcome_alone now (sender i a) r) as Hw.
  destruct (run_op now (op_welcome (sender i a)) r) as [b r1]. cbn [fst snd] in Hw.
  destruct (welcome_if_new now (sender i a) (rproto r)) as [p|]; cbn [mbind option_bind]; [|destruct Hw as [table ->]; by eexists].
  destruct Hw as [-> <-]. look_step. destruct (get now (storage (rproto r1)) key); [done|].
  rewrite run_op_bind. unfold modify. cbn [run_op].
  destruct (find_neighbors now (router (rproto r1)) (from_id key) (Some (sender i a))) as [r2 ns].
  cbn [run_op fst snd]. by rewrite rproto_set.
Qed.

End alone.

(** ** Every operation keeps the node's invariant, step by step *)

Section safe.
Context `{US : UnstableSort} `{HO : HashOrder} `{HA : Hashes} `{NA : NetAddr}.
Context {S : Type} `{SL : StorageLaws S}.
Context {Hd E : Type} `{HL : HandlerLaws Hd E}.
Context {C : Type} `{MC : Moka C}.
Local Abbreviation proto := (KademliaProtocol S Hd C).
Local Abbreviation Op := (Op S Hd C).

(** [o] keeps the invariant at each of its accesses, whatever happened to the state
    in between, and its result satisfies [Q]. *)
Fixpoint op_ok (h : Hd) {A} (Q : A -> Prop) (o : Op A) : Prop :=
  match o with
  | Done a => Q a
  | Look f k => forall t p, proto_inv h (t, p) -> op_ok h Q (k (f t p))
  | Change f k => forall t p, proto_inv h (t, p) -> proto_inv h (t, snd (f t p)) /\ op_ok h Q (k (fst (f t p)))
  | Calls cs k => Forall (fun c => forall t, call_ok h t c) cs /\ forall bs, length bs = length cs -> op_ok h Q (k bs)
  end.

(** A result of an operation that did not run out of fuel. *)
Definition returns {A} (Q : A -> Prop) (r : option A) : Prop :=
  match r with Some a => Q a | None => False end.

Lemma put_length {B} i (b : B) bs : length (put i b bs) = Datatypes.S (length bs).
Proof. unfold put. rewrite length_app. cbn [length]. rewrite length_take, length_drop. lia. Qed.

Lemma op_step_ok {A} h (Q : A -> Prop) t o p o' p' :
  op_step t (o, p) (o', p') -> proto_inv h (t, p) -> op_ok h Q o -> proto_inv h (t, p') /\ op_ok h Q o'.
Proof.
  intros Hs. change p with (snd (o, p)). change o with (fst (o, p)) at 2. change p' with (snd (o', p')).
  change o' with (fst (o', p')) at 2. revert Hs. generalize (o, p) (o', p'). intros x y Hs Hi Hok.
  destruct Hs as [B f k s|B f k s|B cs k i c answer s Hc _|B k s]; cbn [fst snd op_ok] in *.
  - split; [done|]. by apply Hok.
  - by apply Hok.
  - destruct Hok as [Hcs Hk]. split.
    + by apply (proj1 (Forall_lookup _ _) Hcs i c Hc t), on_answer_inv.
    + split; [by apply Forall_delete|]. intros bs Hl. apply Hk. rewrite put_length, Hl.
      pose proof (lookup_lt_Some _ _ _ Hc). rewrite length_delete by done. lia.
  - split; [done|]. by apply Hok.
Qed.

Lemma op_ok_bind {A B} h (P : A -> Prop) (Q : B -> Prop) (o : Op A) (f : A -> Op B) :
  op_ok h P o -> (forall a, P a -> op_ok h Q (f a)) -> op_ok h Q (op_bind f o).
Proof.
  intros Ho Hf. induction o as [a|B' g k IH|B' g k IH|B' cs k IH]; cbn [op_ok op_bind] in *.
  - by apply Hf.
  - intros t p Hi. by apply IH, Ho.
  - intros t p Hi. destruct (Ho t p Hi). split; [done|]. by apply IH.
  - destruct Ho as [Hc Hk]. split; [done|]. intros bs Hl. by apply IH, Hk.
Qed.

Lemma op_ok_impl {A} h (P Q : A -> Prop) (o : Op A) : op_ok h P o -> (forall a, P a -> Q a) -> op_ok h Q o.
Proof.
  intros Ho Hq. induction o as [a|B g k IH|B g k IH|B cs k IH]; cbn [op_ok] in *.
  - by apply Hq.
  - intros t p Hi. by apply IH, Ho.
  - intros t p Hi. destruct (Ho t p Hi). split; [done|]. by apply IH.
  - destruct Ho as [Hc Hk]. split; [done|]. intros bs Hl. by apply IH, Hk.
Qed.

Lemma op_ok_try {A B} h (P : A -> Prop) (Q : B -> Prop) (o : Op (option A)) (f : A -> Op (option B)) :
  op_ok h (returns P) o -> (forall a, P a -> op_ok h (returns Q) (f a)) -> op_ok h (returns Q) (op_try f o).
Proof. intros Ho Hf. eapply op_ok_bind; [exact Ho|]. intros [a|]; [apply Hf|done]. Qed.

(** *** Accesses *)

Lemma find_neighbors_access h t (p : proto) target ex :
  wf_node target -> proto_inv h (t, p) ->
  proto_inv h (t, set_router p (fst (find_neighbors t (router p) target ex))) /\
  Forall wf_node (snd (find_neighbors t (router p) target ex)).
Proof.
  intros Ht Hi. pose proof (pi_wf _ _ Hi) as Hw. cbn [snd] in Hw.
  pose proof (find_neighbors_table t (router p) target ex (pw_table _ Hw) Ht (pw_ksize _ Hw)) as (W & L & K & _).
  destruct (table_locate _ (long_id target) (pw_table _ Hw) (wf_node_range target Ht)) as (l1 & b & l2 & Hloc).
  pose proof (find_neighbors_candidates t _ target ex _ _ _ Hloc (pw_ksize _ Hw)) as Hc.
  destruct (find_neighbors t (router p) target ex) as [r ns]. cbn [fst snd] in *. split.
  - apply (proto_inv_same h t t p); [lia| |done|apply Hi]. by apply set_router_wf.
  - injection Hc as _ ->. rewrite neighbors_perm. apply Forall_forall. intros m Hm.
    apply (candidates_elem _ _ _ _ (pw_table _ Hw) Ht) in Hm as [Hm _].
    apply (contact_wf _ _ (pw_table _ Hw)). by apply all_nodes_contacts.
Qed.

Lemma op_neighbors_ok h target :
  wf_node target -> op_ok h (Forall wf_node) (op_neighbors target).
Proof.
  intros Ht t p Hi. destruct (find_neighbors_access h t p target None Ht Hi).
  by destruct (find_neighbors t (router p) target None).
Qed.

Lemma op_verify_ok h key v : op_ok h (fun b => b = true -> authentic h v) (op_verify key v).
Proof.
  unfold op_verify. cbv zeta.
  apply (op_ok_bind h (fun x => (fst x = Some true -> authentic h v) /\ (snd x = true -> verified h v))).
  - intros t p Hi. cbn [op_ok fst snd]. rewrite (pi_handler _ _ Hi : signature_handler p = h). split; [|apply verify_record_true].
    destruct (sig_cache p) as [c|] eqn:Ec; cbn [mbind option_bind]; [|done]. intros Hg.
    destruct (cache_sound_get _ _ _ _ _ (pi_cache _ _ Hi c Ec) Hg) as (_ & v' & Hv' & Hgood). by exists v'.
  - intros [[b|] []] [Hb Hv]; cbn [fst snd] in *; try (intros ->; by apply Hb); [|done].
    specialize (Hv eq_refl). intros t p Hi. split; [|intros _; by exists v]. destruct Hi as [Hw Hh Hc Hs]. cbn [snd] in *.
    split; simpl; try done; [by destruct Hw; split|].
    intros c. destruct (sig_cache p) as [c0|]; simpl; [|done]. intros [= <-]. by apply cache_sound_insert; [apply Hc|].
Qed.

(** Writes of the user: an authentic value, or none. *)
Lemma local_write_inv h t p st :
  proto_inv h (t, p) -> (forall k w, get t st k = Some w -> authentic h w \/ get t (storage p) k = Some w) ->
  proto_inv h (t, set_storage p st).
Proof.
  intros [Hw Hh Hc Hs] Hst. split; simpl in *; try done; [by apply set_storage_wf|].
  apply storage_authentic_set. intros k w Hg. destruct (Hst k w Hg) as [?|Hg']; [done|]. by apply (Hs t k); [lia|].
Qed.

Lemma op_store_locally_ok h node dkey v nodes :
  authentic h v -> op_ok h (fun _ => True) (op_store_locally node dkey v nodes).
Proof.
  intros Ha. unfold op_store_locally. destruct (farthest _ nodes); [|done]. destruct (_ <? _); [|done].
  intros t p Hi. split; [|done]. apply local_write_inv; [done|]. intros k w. rewrite get_set.
  case_decide; [|by right]. intros [= <-]. by left.
Qed.

(** Calls to well-formed peers. *)
Lemma op_ok_calls {B X} h (f : Node -> Call X) ns (Q : B -> Prop) (k : list X -> Op B) :
  (forall n t, wf_node n -> call_ok h t (f n)) -> Forall wf_node ns ->
  (forall bs, length bs = length ns -> op_ok h Q (k bs)) -> op_ok h Q (op_bind k (join_all (f <$> ns))).
Proof.
  intros Hf Hns Hk. apply (op_ok_bind h (fun bs => length bs = length ns)); [|done].
  split; [|intros bs Hl; cbn [op_ok]; by rewrite Hl, length_fmap].
  apply Forall_fmap. eapply Forall_impl; [exact Hns|]. intros n Hn t. by apply Hf.
Qed.

(** *** Welcoming a node *)

Lemma same_data_inv h t p p' : proto_inv h (t, p) -> proto_wf p' -> same_data p p' -> proto_inv h (t, p').
Proof. intros Hi Hw Hsame. by apply (proto_inv_same h t t p). Qed.

Lemma op_spawn_ok h ts : Forall task_wf ts -> op_ok h (fun _ => True) (op_spawn_all ts).
Proof.
  induction 1 as [|t ts Ht _ IH]; [done|]. intros now p Hi. split; [|exact IH].
  apply (same_data_inv h now p); [done|apply spawn_wf; [apply Hi|done]|done].
Qed.

(** The bucket of [n] has at least [k] contacts with its [long_id]. *)
Definition crowded (r : RoutingTable) (n : Node) : Prop :=
  table_wf r /\ exists b, b ∈ buckets r /\ covers b (long_id n) = true /\ (tksize r <= length (rivals b n))%nat.

Lemma stuck_crowded now r n : table_wf r -> wf_node n -> add_contact INSERT_FUEL now r n = None -> crowded r n.
Proof.
  intros Hw Hn Ha. split; [done|]. destruct (decide (few_rivals r n)) as [Hf|Hf].
  - destruct (add_contact_returns now r n Hw Hn Hf) as [x Hx]. congruence.
  - unfold few_rivals in Hf. apply not_Forall_Exists in Hf; [|apply _].
    apply Exists_exists in Hf as (b & Hb & Hlen). exists b. split; [done|].
    destruct (covers b (long_id n)) eqn:Ec.
    + split; [done|]. apply Nat.nlt_ge. intros Hlt. by apply Hlen.
    + exfalso. apply Hlen. intros Hc. congruence.
Qed.

Lemma op_welcome_ok h n :
  wf_node n -> op_ok h (fun stuck => forall table, stuck = Some table -> crowded table n) (op_welcome n).
Proof.
  intros Hn t0 p0 _. cbn [op_bind]. destruct (is_new_node (router p0) n); cbn [negb]; [|done].
  intros t1 p1 _. cbn [op_bind]. intros t p Hi. pose proof (pi_wf _ _ Hi) as Hw. cbn [snd] in Hw.
  pose proof (keys_to_replicate_spec t (router p) (source_node p) n (iter_all t1 (storage p1)) (pw_table _ Hw) (pw_ksize _ Hw)) as Hk.
  destruct (keys_to_replicate t _ _ n _) as [r kvs]. destruct Hk as (W & T & _). cbn [fst snd op_bind]. split.
  { apply (same_data_inv h t p); [done| |done].
    apply set_router_wf; [done|done|exact (f_equal local_node T)|exact (f_equal tksize T)]. }
  clear t0 p0 t1 p1 t p Hi Hw r W T. intros t p Hi. pose proof (pi_wf _ _ Hi) as Hw. cbn [snd] in Hw.
  destruct (add_contact INSERT_FUEL t (router p) n) as [[r lru]|] eqn:Ea; cbn [fst snd].
  2:{ split; [done|]. intros table [= <-]. by apply (stuck_crowded t); [apply Hw|..]. }
  destruct (add_contact_spec _ _ _ _ _ _ (pw_table _ Hw) Hn (pw_ksize _ Hw) Ea) as (W & [L K _ _] & _).
  split; [apply (same_data_inv h t p); [done|by apply set_router_wf|done]|].
  cbn [op_bind]. eapply (op_ok_bind h (fun _ => True)).
  { destruct lru as [l|]; [|done]. apply (op_spawn_ok h [PingNode l]), Forall_singleton.
    apply (lru_wf t (router p) n r); [apply Hw|done|apply Hw|done]. }
  intros _ _. eapply op_ok_bind; [apply op_spawn_ok; by apply Forall_fmap, Forall_true|]. done.
Qed.

Lemma op_task_ok h task :
  task_wf task ->
  op_ok h (fun stuck => forall table, stuck = Some table -> exists n, task = WelcomeIfNew n /\ crowded table n) (op_task task).
Proof.
  destruct task as [n|n|n key v]; intros Hn; cbn [op_task task_wf] in *.
  - eapply op_ok_impl; [by apply op_welcome_ok|]. intros stuck Hb table Eb. eauto.
  - apply (op_ok_bind h (fun _ => True)); [|done]. unfold op_ping_node. destruct (address n) as [addr|]; [|done].
    split; [apply Forall_singleton; intros t answer p Hi; exact Hi|]. intros bs _. cbn [op_ok op_bind].
    destruct (negb _); [|done]. intros t p Hi. split; [|done].
    apply (same_data_inv h t p); [done|apply drop_peer_wf; [apply Hi|done]|done].
  - apply (op_ok_calls h (fun n => store_call n key v) [n]); [|by apply Forall_singleton|done].
    intros m t Hm. by apply (calls_ok h t m key v [] []).
Qed.

Lemma op_find_value_ok h i a key :
  length i = ID_LEN -> length key = ID_LEN ->
  op_ok h (fun r => match r with
                    | inl (ResultValue v) => authentic h v
                    | inl (ResultNodes ns) => Forall wf_node ns
                    | inr table => crowded table (sender i a)
                    end) (op_find_value i a key).
Proof.
  intros Hi Hk. unfold op_find_value. cbv zeta.
  eapply op_ok_bind; [by apply op_welcome_ok, sender_wf|]. intros [table|] Hb; [by apply Hb|].
  intros t p Hp. cbn [op_bind]. destruct (get t (storage p) key) as [v|] eqn:Hg; [by apply (pi_storage _ _ Hp t key v)|].
  clear t p Hp Hg. intros t p Hp.
  destruct (find_neighbors_access h t p (from_id key) (Some (sender i a)) (from_id_wf key Hk) Hp).
  by destruct (find_neighbors t (router p) (from_id key) (Some (sender i a))).
Qed.

(** *** Lookups *)

Lemma to_vec_wf (c : SpiderCrawl) :
  crawl_wf c -> have_contacted_all (nearest c) = true -> Forall wf_node (to_vec (nearest c)).
Proof.
  intros Hw Hc. destruct (to_vec_result c Hw Hc) as (_ & _ & _ & Hall).
  eapply Forall_impl; [exact Hall|]. by intros n [? _].
Qed.

Lemma op_node_find_ok h fuel round c :
  crawl_wf c -> known_in id_universe c -> (measure id_universe c < fuel)%nat ->
  op_ok h (returns (Forall wf_node)) (op_node_find fuel round c).
Proof.
  revert round c. induction fuel as [|fuel IH]; intros round c Hw Hk Hf; [lia|]. cbn [op_node_find].
  apply op_ok_calls; [intros n t Hn; by apply find_calls_ok|by apply round_peers_wf|]. intros rs _.
  pose proof (@node_round_rel _ _ _ scripted id_universe round rs c Hw Hk (all_answers_in _)) as Hr.
  destruct (node_round round rs c) as [x c']. cbn [snd] in Hr.
  destruct (have_contacted_all (nearest c')) eqn:Hc; [by apply to_vec_wf; [apply Hr|]|].
  destruct (round_measure id_universe c c' Hw Hk Hr) as [?|Hlt]; [congruence|].
  apply IH; [apply Hr|apply Hr|lia].
Qed.

Lemma popped_wf (v : ValueSpiderCrawl) nwv peer :
  heap_wf (nearest_without_value v) -> popleft (nearest_without_value v) = (nwv, Some peer) -> wf_node peer.
Proof.
  intros Hv Hp. pose proof (popleft_spec _ Hv) as Hpop. rewrite Hp in Hpop. destruct Hpop as (_ & Hperm & _).
  assert (peer ∈ Node.node <$> heap (nearest_without_value v)) as (e & -> & He)%list_elem_of_fmap
    by (rewrite Hperm; left).
  by apply (proj1 (Forall_forall _ _) (hw_nodes _ Hv)).
Qed.

Lemma op_value_find_ok h fuel round v :
  crawl_wf (base v) -> heap_wf (nearest_without_value v) -> known_in id_universe (base v) ->
  (measure id_universe (base v) < fuel)%nat ->
  op_ok h (returns (fun x => Forall wf_node (snd x))) (op_value_find fuel round v).
Proof.
  revert round v. induction fuel as [|fuel IH]; intros round v Hw Hv Hk Hf; [lia|]. cbn [op_value_find].
  apply op_ok_calls; [intros n t Hn; by apply find_calls_ok|by apply round_peers_wf|]. intros rs _.
  destruct (@value_round_rel _ _ _ scripted id_universe round rs v Hw Hv Hk (all_answers_in _)) as [Hr Hv'].
  destruct (value_round round rs v) as [[x v'] found]. cbn [fst snd] in Hr, Hv'.
  destruct found as [|w found].
  - destruct (have_contacted_all (nearest (base v'))) eqn:Hc; [by apply to_vec_wf; [apply Hr|]|].
    destruct (round_measure id_universe (base v) (base v') Hw Hk Hr) as [?|Hlt]; [congruence|].
    apply IH; [apply Hr|done|apply Hr|lia].
  - destruct (majority _ _) as [w'|]; [|constructor].
    destruct (popleft (nearest_without_value v')) as [nwv [peer|]] eqn:Ep; [|constructor].
    apply (op_ok_calls h (fun n => store_call n (id (cnode (base v'))) w') [peer]).
    + intros n t Hn. by apply (calls_ok h t n _ w' [] []).
    + apply Forall_singleton. by eapply popped_wf.
    + constructor.
Qed.

Section user.
Context `{!HashLaws}.
Variable h : Hd.
Variable ksize alpha : nat.
Variable node : Node.
Variable up : bool.

Lemma op_value_crawl_ok target peers :
  Forall wf_node peers ->
  op_ok h (returns (fun x => Forall wf_node (snd x))) (op_value_crawl CRAWL_FUEL ksize alpha target peers).
Proof.
  intros Hp. apply op_value_find_ok; [by apply SpiderCrawl_new_wf|apply NodeHeap_new_wf|by apply new_known_universe|].
  apply measure_bound.
Qed.

Lemma op_node_crawl_ok target peers :
  Forall wf_node peers ->
  op_ok h (returns (Forall wf_node)) (op_node_crawl CRAWL_FUEL ksize alpha target peers).
Proof.
  intros Hp. apply op_node_find_ok; [by apply SpiderCrawl_new_wf|by apply new_known_universe|]. apply measure_bound.
Qed.

(** The neighbours of a key. *)
Lemma op_ok_neighbors {B} (Q : B -> Prop) dkey (k : list Node -> Op B) :
  length dkey = ID_LEN -> (forall ns, Forall wf_node ns -> op_ok h Q (k ns)) ->
  op_ok h Q (op_bind k (op_neighbors (from_id dkey))).
Proof. intros Hl. apply op_ok_bind, op_neighbors_ok. by apply from_id_wf. Qed.

(** *** Operations *)

Lemma op_get_ok key :
  op_ok h (returns (fun r => forall v, r = Some v -> authentic h v)) (op_get CRAWL_FUEL ksize alpha up key).
Proof.
  unfold op_get. cbv zeta. intros t p Hi. cbn [op_bind].
  destruct (get t (storage p) (digest key)) as [v|].
  { eapply op_ok_bind; [apply op_verify_ok|]. intros [] Ha; [|done]. intros w [= <-]. by apply Ha. }
  destruct (negb up); [done|]. apply op_ok_neighbors; [apply digest_length|]. intros [|n ns] Hns; [done|].
  eapply op_ok_try; [by apply op_value_crawl_ok|]. intros [[v|] nodes] _; [|done].
  eapply op_ok_bind; [apply op_verify_ok|]. intros [] Ha; [|done]. intros w [= <-]. by apply Ha.
Qed.

Lemma op_check_exists_ok key :
  op_ok h (returns (fun x => Forall wf_node (snd x))) (op_check_exists CRAWL_FUEL ksize alpha up key).
Proof.
  unfold op_check_exists. cbv zeta. intros t p Hi. cbn [op_bind].
  destruct (get t (storage p) (digest key)) as [v|]; [constructor|].
  destruct (negb up); [constructor|]. apply op_ok_neighbors; [apply digest_length|]. intros [|n ns] Hns; [constructor|].
  eapply op_ok_try; [by apply op_value_crawl_ok|]. intros [[v|] nodes] Hw; [|exact Hw].
  eapply op_ok_bind; [apply op_verify_ok|]. intros [] Ha; [constructor|exact Hw].
Qed.

Lemma op_set_digest_ok dkey v nodes :
  authentic h v -> Forall wf_node nodes -> op_ok h (fun _ => True) (op_set_digest node up dkey v nodes).
Proof.
  intros Ha Hw. unfold op_set_digest. destruct (negb up); [done|]. destruct nodes as [|n ns]; [done|].
  eapply op_ok_bind; [by apply op_store_locally_ok|]. intros _ _. apply op_ok_calls; [|done|done].
  intros m t Hm. by apply (calls_ok h t m dkey v [] []).
Qed.

Lemma op_set_ok key v :
  op_ok h (returns (fun r => r <> None -> authentic h v)) (op_set CRAWL_FUEL ksize alpha node up key v).
Proof.
  unfold op_set. eapply op_ok_try; [apply op_check_exists_ok|]. intros [[] nodes] Hw; [by intros []|].
  eapply op_ok_bind; [apply op_verify_ok|]. intros [] Ha; [|by intros []]. cbn [negb].
  eapply op_ok_bind; [apply op_set_digest_ok; [by apply Ha|exact Hw]|]. intros b _ _. by apply Ha.
Qed.

Lemma op_update_digest_ok key v sig :
  authentic h v ->
  op_ok h (returns (fun _ => True)) (op_update_digest CRAWL_FUEL ksize alpha node up key (digest key) v sig).
Proof.
  intros Ha. unfold op_update_digest. destruct (negb up); [done|].
  apply op_ok_neighbors; [apply digest_length|]. intros [|n ns] Hns; [done|].
  eapply op_ok_try; [by apply op_node_crawl_ok|]. intros nodes Hw.
  eapply op_ok_bind; [by apply op_store_locally_ok|]. intros _ _. cbv zeta. apply op_ok_calls; [|done|done].
  intros m t Hm. destruct (calls_ok h t m (digest key) v (default [] sig) [] Hm) as (_ & ? & ? & _). by case_bool_decide.
Qed.

Lemma op_update_ok key v sig :
  op_ok h (returns (fun _ => True)) (op_update CRAWL_FUEL ksize alpha node up key v sig).
Proof.
  unfold op_update. eapply op_ok_try; [apply op_get_ok|]. intros [old|] _; [|done].
  cbv zeta. apply (op_ok_bind h (fun ok => ok = true -> verified h v)).
  - intros t p Hi. cbn [op_ok]. rewrite (pi_handler _ _ Hi : signature_handler p = h).
    destruct (bool_decide (key = STATUS_LIST_KEY) && negb (bool_decide (is_Some sig)));
      intros Eok%unwrap_or_true; [by right|left; by eapply update_self_signed].
  - intros [] Hv; cbn [negb]; [|done]. eapply op_ok_try; [apply op_update_digest_ok|done]. exists v. auto.
Qed.

Lemma op_delete_digest_ok key sig msg :
  op_ok h (returns (fun _ => True)) (op_delete_digest CRAWL_FUEL ksize alpha up (digest key) sig msg).
Proof.
  unfold op_delete_digest. destruct (negb up); [done|]. intros t p Hi. split.
  { apply local_write_inv; [done|]. intros k w. rewrite get_delete. case_decide; [done|]. by right. }
  cbn [fst]. apply op_ok_neighbors; [apply digest_length|]. intros [|n ns] Hns; [done|].
  eapply op_ok_try; [by apply op_node_crawl_ok|]. intros nodes Hw. apply op_ok_calls; [|done|done].
  intros m t' Hm. apply (calls_ok h t' m (digest key) [] sig msg Hm).
Qed.

Lemma op_delete_ok key sig msg :
  op_ok h (returns (fun _ => True)) (op_delete CRAWL_FUEL ksize alpha up key sig msg).
Proof.
  unfold op_delete. eapply op_ok_try; [apply op_get_ok|]. intros [old|] _; [|done].
  eapply (op_ok_bind h (fun _ => True)); [done|]. intros h' _. cbv zeta. destruct (negb _); [done|].
  eapply op_ok_try; [apply op_delete_digest_ok|done].
Qed.

Lemma pinged_all_wf addrs results :
  Forall wf_node (concat (zip_with (fun a r => option_list (pinged a r)) addrs results)).
Proof.
  revert results. induction addrs as [|a addrs IH]; intros [|[ok i] results]; [constructor..|].
  cbn [zip_with concat]. apply Forall_app. split; [|apply IH]. unfold pinged.
  destruct (Nat.eqb_spec (length i) ID_LEN), ok; simpl; try constructor; [done|constructor].
Qed.

Lemma op_bootstrap_ok addrs :
  op_ok h (returns (Forall wf_node)) (op_bootstrap CRAWL_FUEL ksize alpha node up addrs).
Proof.
  unfold op_bootstrap. destruct (negb up); [constructor|].
  split; [apply Forall_fmap, Forall_true; intros a t answer p Hi; exact Hi|]. intros bs _. apply op_node_crawl_ok, pinged_all_wf.
Qed.

Lemma op_refresh_lookup_ok rid :
  length rid = ID_LEN -> op_ok h (returns (fun _ => True)) (op_refresh_lookup CRAWL_FUEL ksize alpha rid).
Proof.
  intros Hl. apply op_ok_neighbors; [done|]. intros ns Hns. eapply op_ok_try; [by apply op_node_crawl_ok|done].
Qed.

Lemma op_republish_entries_ok entries :
  op_ok h (returns (fun _ => True)) (op_republish_entries CRAWL_FUEL ksize alpha entries).
Proof.
  induction entries as [|[dkey v] entries IH]; cbn [op_republish_entries]; [done|].
  destruct (Nat.eqb_spec (length dkey) ID_LEN) as [Hl|]; cbn [negb]; [|done].
  apply op_ok_neighbors; [done|]. intros [|n ns] Hns; [done|].
  eapply op_ok_try; [by apply op_node_crawl_ok|]. intros nodes Hw. apply op_ok_calls; [|done|done].
  intros m t Hm. by apply (calls_ok h t m dkey v [] []).
Qed.

Lemma op_republish_ok : op_ok h (returns (fun _ => True)) (op_republish CRAWL_FUEL ksize alpha).
Proof. intros t p Hi. apply op_republish_entries_ok. Qed.

End user.

End safe.

(** ** Operations beside each other and beside the handlers *)

(** What a user, the refresh loop, a [FindValue] request or a spawned task starts.
    The refresh loop's lookups and its republishing are separate: more orders are
    allowed than the loop has. *)
Inductive UserOp :=
| UserGet (key : bytes)
| UserSet (key value : bytes)
| UserUpdate (key value : bytes) (auth_signature : option bytes)
| UserDelete (key auth_signature delete_msg : bytes)
| UserBootstrap (addrs : list (string * Z))
| RefreshLookup (rid : bytes)
| Republish
| ServeFindValue (sender_id : bytes) (sender_addr : string * Z) (key : bytes)
| RunTask (task : Task).

Inductive Outcome :=
| Got (r : option bytes)
| Wrote (r : option bool)
| Joined (ns : list Node)
| Refreshed
| Answered (r : FindValueResult)
| Ran
| Hung (table : RoutingTable).

(** The identifiers the refresh loop draws, and those of a request, have the right
    length; a task is started only from those the node has spawned. *)
Definition user_wf (u : UserOp) : Prop :=
  match u with
  | RefreshLookup rid => length rid = ID_LEN
  | ServeFindValue i _ key => length i = ID_LEN /\ length key = ID_LEN
  | RunTask _ => False
  | _ => True
  end.

Section overlap.
Context `{US : UnstableSort} `{HO : HashOrder} `{HA : Hashes} `{NA : NetAddr}.
Context {S : Type} `{IS : IStorage S}.
Context {Hd E : Type} `{SH : SignatureVerifierHandler Hd E}.
Context {C : Type} `{MC : Moka C}.
Local Abbreviation proto := (KademliaProtocol S Hd C).
Local Abbreviation Op := (Op S Hd C).
Variable fuel ksize alpha : nat.
Variable node : Node.
Variable up : bool.

Definition op_of (u : UserOp) : Op (option Outcome) :=
  match u with
  | UserGet key => r ←? op_get fuel ksize alpha up key; Done (Some (Got r))
  | UserSet key value => r ←? op_set fuel ksize alpha node up key value; Done (Some (Wrote r))
  | UserUpdate key value sig => r ←? op_update fuel ksize alpha node up key value sig; Done (Some (Wrote r))
  | UserDelete key sig msg => r ←? op_delete fuel ksize alpha up key sig msg; Done (Some (Wrote r))
  | UserBootstrap addrs => ns ←? op_bootstrap fuel ksize alpha node up addrs; Done (Some (Joined ns))
  | RefreshLookup rid => _ ←? op_refresh_lookup fuel ksize alpha rid; Done (Some Refreshed)
  | Republish => _ ←? op_republish fuel ksize alpha; Done (Some Refreshed)
  | ServeFindValue i addr key =>
      r ←+ op_find_value i addr key;
      Done (Some (match r with inl r => Answered r | inr table => Hung table end))
  | RunTask task => stuck ←+ op_task task; Done (Some (match stuck with None => Ran | Some table => Hung table end))
  end.

(** An operation and what is left of it. *)
Local Abbreviation Thread := (UserOp * Op (option Outcome))%type.
Local Abbreviation cstate := (Z * proto * list Suspended * list Thread)%type.

(** Clock, node, suspended handlers, operations.  An insertion that does not return
    keeps the lock of the router in the code; here the others may still go on. *)
Inductive cstep : cstate -> cstate -> Prop :=
| cstep_node t t' p p' q q' ths :
    istep (t, p, q) (t', p', q') -> cstep (t, p, q, ths) (t', p', q', ths)
| cstep_start t p q ths u :
    user_wf u -> cstep (t, p, q, ths) (t, p, q, ths ++ [(u, op_of u)])
| cstep_task t p q ths i task :
    spawned p !! i = Some task ->
    cstep (t, p, q, ths) (t, unspawn i p, q, ths ++ [(RunTask task, op_of (RunTask task))])
| cstep_run t t' p p' q ths i u o o' :
    t <= t' -> ths !! i = Some (u, o) -> op_step t' (o, p) (o', p') ->
    cstep (t, p, q, ths) (t', p', q, <[i := (u, o')]> ths).

(** *** Progress and termination of an operation *)

(** One step of an operation on some state. *)
Definition op_next {A} (o' o : Op A) : Prop := exists t p p', op_step t (o, p) (o', p').

Definition next_shape {A} (o o' : Op A) : Prop :=
  match o with
  | Done _ => False
  | Look _ k => exists b, o' = k b
  | Change _ k => exists b, o' = k b
  | Calls cs k => o' = k [] \/ exists i c b, cs !! i = Some c /\ o' = Calls (delete i cs) (fun bs => k (put i b bs))
  end.

Lemma op_next_shape {A} (o o' : Op A) : op_next o' o -> next_shape o o'.
Proof.
  intros (t & p & p' & Hs). change o with (fst (o, p)). change o' with (fst (o', p')).
  revert Hs. generalize (o, p) (o', p'). intros x y Hs.
  destruct Hs as [B f k s|B f k s|B cs k i c answer s Hc _|B k s]; simpl; eauto 6.
Qed.

Lemma calls_acc {A B} (cs : list (Call B)) (k : list B -> Op A) :
  (forall bs, Acc op_next (k bs)) -> Acc op_next (Calls cs k).
Proof.
  remember (length cs) as n eqn:Hn. revert cs k Hn.
  induction n as [|n IH]; intros cs k Hn Hk; constructor; intros o' [->|(i & c & b & Hc & ->)]%op_next_shape; auto.
  - by destruct cs.
  - apply IH; [|auto]. pose proof (lookup_lt_Some _ _ _ Hc). rewrite length_delete by done. lia.
Qed.

Lemma op_acc {A} (o : Op A) : Acc op_next o.
Proof.
  induction o as [a|B f k IH|B f k IH|B cs k IH]; [..|by apply calls_acc];
    constructor; intros o' Hs%op_next_shape; simpl in Hs; [done|destruct Hs as [b ->]; auto..].
Qed.

Lemma op_progress {A} (o : Op A) t p : (exists a, o = Done a) \/ exists y, op_step t (o, p) y.
Proof.
  destruct o as [a|B f k|B f k|B [|c cs] k]; [left; eauto|right; eexists..].
  - apply op_step_look.
  - apply op_step_change.
  - apply op_step_join.
  - by apply (op_step_answer t B (c :: cs) k 0 c None p).
Qed.

(** *** Schedules

    One step of an operation whose calls are answered in list order by [peers]. *)
Definition op_exec {A} (t : Z) (peers : RpcMessage -> option RpcMessage) (x : Op A * proto) : option (Op A * proto) :=
  let '(o, p) := x in
  match o with
  | Done _ => None
  | Look f k => Some (k (f t p), p)
  | Change f k => Some (k (fst (f t p)), snd (f t p))
  | Calls [] k => Some (k [], p)
  | Calls (c :: cs) k =>
      let answer := '(_, m) ← request c p; peers m in
      Some (Calls cs (fun bs => k (fst (settle c answer p) :: bs)), snd (settle c answer p))
  end.

(** The operations named in turn each take a step. *)
Fixpoint run_schedule (t : Z) (peers : RpcMessage -> option RpcMessage) (turns : list nat)
    (x : proto * list Thread) : option (proto * list Thread) :=
  match turns with
  | [] => Some x
  | i :: turns =>
      '(u, o) ← snd x !! i;
      '(o, p) ← op_exec t peers (o, fst x);
      run_schedule t peers turns (p, <[i := (u, o)]> (snd x))
  end.

Lemma op_exec_step {A} t peers (x y : Op A * proto) : op_exec t peers x = Some y -> op_step t x y.
Proof.
  destruct x as [[a|B f k|B f k|B [|c cs] k] p]; simpl; [done|intros [= <-]..].
  - apply op_step_look.
  - apply op_step_change.
  - apply op_step_join.
  - apply (op_step_answer t B (c :: cs) k 0 c); [done|]. by intros ->.
Qed.

Lemma run_schedule_steps t peers turns x y q :
  run_schedule t peers turns x = Some y -> rtc cstep (t, fst x, q, snd x) (t, fst y, q, snd y).
Proof.
  revert x. induction turns as [|i turns IH]; intros [p ths]; cbn [run_schedule fst snd]; [by intros [= <-]|].
  intros ([u o] & Ho & ([o' p'] & Hs%op_exec_step & Hr)%bind_Some)%bind_Some.
  eapply rtc_l; [by eapply cstep_run; [reflexivity|..]|]. exact (IH _ Hr).
Qed.

End overlap.

(** *** Safety *)

Section overlap_spec.
Context `{US : UnstableSort} `{HO : HashOrder} `{HA : Hashes} `{NA : NetAddr}.
Context {S : Type} `{SL : StorageLaws S}.
Context {Hd E : Type} `{HL : HandlerLaws Hd E}.
Context {C : Type} `{MC : Moka C}.
Context `{!HashLaws}.
Local Abbreviation proto := (KademliaProtocol S Hd C).
Local Abbreviation Op := (Op S Hd C).
Variable ksize alpha : nat.
Variable node : Node.
Variable up : bool.

(** What an operation promises of its outcome. *)
Definition promise (h : Hd) (u : UserOp) (out : Outcome) : Prop :=
  match u, out with
  | UserGet _, Got r => forall v, r = Some v -> authentic h v
  | UserSet _ value, Wrote r => r <> None -> authentic h value
  | UserUpdate _ _ _, Wrote _ | UserDelete _ _ _, Wrote _ => True
  | UserBootstrap _, Joined ns => Forall wf_node ns
  | RefreshLookup _, Refreshed | Republish, Refreshed => True
  | ServeFindValue _ _ _, Answered (ResultValue v) => authentic h v
  | ServeFindValue _ _ _, Answered (ResultNodes ns) => Forall wf_node ns
  | ServeFindValue i addr _, Hung table => crowded table (sender i addr)
  | RunTask _, Ran => True
  | RunTask task, Hung table => exists n, task = WelcomeIfNew n /\ crowded table n
  | _, _ => False
  end.

Lemma op_of_task_ok h task :
  task_wf task -> op_ok h (returns (promise h (RunTask task))) (op_of CRAWL_FUEL ksize alpha node up (RunTask task)).
Proof. intros Ht. eapply op_ok_bind; [by apply op_task_ok|]. intros [table|] Hb; [by apply Hb|done]. Qed.

Lemma op_of_ok h u : user_wf u -> op_ok h (returns (promise h u)) (op_of CRAWL_FUEL ksize alpha node up u).
Proof.
  destruct u; intros Hu; simpl in Hu; unfold op_of.
  - eapply op_ok_try; [apply op_get_ok|done].
  - eapply op_ok_try; [apply op_set_ok|done].
  - eapply op_ok_try; [apply op_update_ok|done].
  - eapply op_ok_try; [apply op_delete_ok|done].
  - eapply op_ok_try; [apply op_bootstrap_ok|done].
  - eapply op_ok_try; [by apply op_refresh_lookup_ok|done].
  - eapply op_ok_try; [apply op_republish_ok|done].
  - destruct Hu. eapply op_ok_bind; [by apply op_find_value_ok|]. by intros [[ns|v]|table].
  - done.
Qed.

Definition thread_ok (h : Hd) (th : UserOp * Op (option Outcome)) : Prop :=
  op_ok h (returns (promise h (fst th))) (snd th).

Definition cinv (h : Hd) (x : Z * proto * list Suspended * list (UserOp * Op (option Outcome))) : Prop :=
  iinv h (fst x) /\ Forall (thread_ok h) (snd x).

Lemma cstep_inv h x x' : cinv h x -> cstep CRAWL_FUEL ksize alpha node up x x' -> cinv h x'.
Proof.
  intros [[Hi Hq] Hth] Hs.
  destruct Hs as [t t' p p' q q' ths Hs|t p q ths u Hu|t p q ths i task Ht|t t' p p' q ths i u o o' Hle Ho Hs]; cbn [fst snd] in *.
  - split; [|done]. eapply istep_inv; [|exact Hs]. by split.
  - split; [done|]. cbn [snd]. apply Forall_app. split; [done|]. apply Forall_singleton. by apply op_of_ok.
  - pose proof (pi_wf _ _ Hi) as Hw. cbn [snd] in Hw. split.
    + split; [|done]. apply (same_data_inv h t p); [done|by apply unspawn_wf|done].
    + cbn [snd]. apply Forall_app. split; [done|]. apply Forall_singleton, op_of_task_ok.
      exact (proj1 (Forall_lookup _ _) (pw_tasks _ Hw) i task Ht).
  - pose proof (proj1 (Forall_lookup _ _) Hth i _ Ho) as Hok.
    destruct (op_step_ok h _ t' o p o' p' Hs (later_inv h t t' p Hle Hi) Hok) as [Hi' Hok'].
    split; [by split|]. by apply Forall_insert.
Qed.

Lemma reachable_cinv h t0 source (st : S) k cap x :
  wf_node source -> (0 < k)%nat -> (forall now key, get now st key = None) ->
  rtc (cstep CRAWL_FUEL ksize alpha node up) (t0, KademliaProtocol_new t0 source st k h (SignatureCache_new <$> cap), [], []) x ->
  cinv h x.
Proof.
  intros Hs Hk He Hr.
  refine (rtc_ind_r (cinv h) _ _ (fun _ _ _ Hstep IH => cstep_inv h _ _ IH Hstep) _ Hr).
  split; [|constructor]. split; [|constructor]. split; simpl; [by apply proto_wf_new|done| |].
  - intros c. destruct cap; simpl; [|done]. intros [= <-]. apply cache_sound_new.
  - intros now key v _ Hg. by rewrite He in Hg.
Qed.

End overlap_spec.

(** ** Claims *)

Section overlap_claims.
Context `{US : UnstableSort} `{HO : HashOrder} `{HA : Hashes} `{NA : NetAddr}.
Context {S : Type} `{SL : StorageLaws S}.
Context {Hd E : Type} `{HL : HandlerLaws Hd E}.
Context {C : Type} `{MC : Moka C}.
Context `{!HashLaws}.
Local Abbreviation proto := (KademliaProtocol S Hd C).
Local Abbreviation Op := (Op S Hd C).

(** C1: operations of the server may overlap.  A node starts with an empty store;
    its user and its refresh loop start any number of operations, peers ask it for
    values, and it starts the tasks it has spawned; all these run at the same time
    as each other and as the handlers, one access to the shared state or one answer
    of a peer after the other, in any order, whatever the peers answer.
    In every state then reached the routing table is well-formed, every record held
    is authentic, and each operation either has finished with an outcome that keeps
    its promise ([get] and the handler of [FindValue] returned an authentic value or
    none, [set] published an authentic value or none, none ran out of fuel, and a
    node's welcome hung only when at least [k] contacts of the node's bucket, in the
    table met, share its [long_id]), or can take a step, of which only finitely many follow each other. *)
Theorem overlapping_operations_safe (ksize alpha : nat) (node : Node) (up : bool)
    (t0 t : Z) (source : Node) (st : S) (k : nat) (h : Hd) (cap : option Z)
    (p : proto) (q : list Suspended) (ths : list (UserOp * Op (option Outcome))) :
  wf_node source -> (0 < k)%nat -> (forall now key, get now st key = None) ->
  rtc (cstep CRAWL_FUEL ksize alpha node up)
    (t0, KademliaProtocol_new t0 source st k h (SignatureCache_new <$> cap), [], []) (t, p, q, ths) ->
  table_wf (router p) /\
  (forall now key v, t <= now -> get now (storage p) key = Some v -> authentic h v) /\
  (forall i u o, ths !! i = Some (u, o) ->
     Acc op_next o /\
     ((exists out, o = Done (Some out) /\ promise h u out) \/
      exists o' p', cstep CRAWL_FUEL ksize alpha node up (t, p, q, ths) (t, p', q, <[i := (u, o')]> ths))).
Proof.
  intros Hs Hk He Hr.
  destruct (reachable_cinv ksize alpha node up h t0 source st k cap _ Hs Hk He Hr) as [[[Hw _ _ Hst] _] Hth].
  split_and!; [apply Hw|exact Hst|]. intros i u o Ho. split; [apply op_acc|].
  pose proof (proj1 (Forall_lookup _ _) Hth i _ Ho) as Hok. unfold thread_ok in Hok. cbn [fst snd] in Hok.
  destruct (op_progress o t p) as [[[out|] ->]|[[o' p'] Hstep]]; [left; eauto|done|right].
  exists o', p'. eapply cstep_run; [|exact Ho|exact Hstep]. lia.
Qed.

End overlap_claims.

Section alone_claim.
Context `{US : UnstableSort} `{HO : HashOrder} `{HA : Hashes} `{NA : NetAddr}.
Context {S : Type} `{IS : IStorage S}.
Context {Hd E : Type} `{SH : SignatureVerifierHandler Hd E}.
Context {C : Type} `{MC : Moka C}.
Context {R : Type} `{NW : !Net R S Hd C}.

(** An operation that nothing overlaps is the function of the server's API:
    run to the end in one go on any network, [get], [set], [update], [delete] and
    [bootstrap] give the result and the state of [server_get], [server_set],
    [server_update], [server_delete] and [bootstrap], with any fuel, out of fuel
    when they are; and the handler of [FindValue] gives the answer and the state of
    [rpc_find_value], and no answer when that does not return. *)
Theorem operation_alone (fuel : nat) (now : Z) (key value sig msg sender_id : bytes) (auth : option bytes)
    (addr : string * Z) (addrs : list (string * Z)) (s : Server R) :
  let run {A} (o : Op S Hd C (option A)) := run_op now o (running s) in
  agree s (server_get fuel now key s) (run (op_get fuel (sksize s) (salpha s) (listening s) key)) /\
  agree s (server_set fuel now key value s)
    (run (op_set fuel (sksize s) (salpha s) (snode s) (listening s) key value)) /\
  agree s (server_update fuel now key value auth s)
    (run (op_update fuel (sksize s) (salpha s) (snode s) (listening s) key value auth)) /\
  agree s (server_delete fuel now key sig msg s)
    (run (op_delete fuel (sksize s) (salpha s) (listening s) key sig msg)) /\
  agree s (bootstrap fuel now addrs s)
    (run (op_bootstrap fuel (sksize s) (salpha s) (snode s) (listening s) addrs)) /\
  match rpc_find_value now sender_id addr key (rproto (running s)) with
  | Some (res, p) =>
      fst (run_op now (op_find_value sender_id addr key) (running s)) = inl res /\ rproto (snd (run_op now (op_find_value sender_id addr key) (running s))) = p
  | None => exists table, fst (run_op now (op_find_value sender_id addr key) (running s)) = inr table
  end.
Proof.
  intros run. split_and!; [apply op_get_alone|apply op_set_alone|apply op_update_alone|apply op_delete_alone|
    apply op_bootstrap_alone|apply op_find_value_alone].
Qed.

End alone_claim.

(** ** Concrete runs *)

#[local] Existing Instances demo_hashes demo_hash_laws demo_handler demo_laws plain_addr.

(** A peer that holds nothing and stores what it is sent. *)
Definition willing_peer (m : RpcMessage) : option RpcMessage :=
  match m with
  | FindValue _ _ => Some (FindValueNodes [])
  | FindNode _ _ => Some (FindNodeResult [])
  | Store _ _ _ => Some (StoreResult true)
  | _ => None
  end.

Definition race_server : Server demo_net :=
  let s := demo_server_peer [] in set_running s (mkRunning (rproto (running s)) (fun _ _ => willing_peer) 0).

Abbreviation demo_op := (Op ForgetfulStorage unit SimpleCache (option Outcome)).

(** The outcome of an operation that has finished. *)
Definition op_outcome (th : UserOp * demo_op) : option Outcome :=
  match snd th with Done r => r | _ => None end.

(** What is seen of a state: the record under a key and the outcomes. *)
Definition seen (key : bytes) (x : KademliaProtocol ForgetfulStorage unit SimpleCache * list (UserOp * demo_op)) :
  option bytes * list (option Outcome) := (get 0 (storage (fst x)) (digest key), op_outcome <$> snd x).

(** Two [set] of a key start; both look the key up, then each verifies and stores. *)
Definition race_start : list (UserOp * demo_op) :=
  (fun u => (u, op_of 5 2 3 (snode race_server) true u)) <$> [UserSet [x61] [x01; x41]; UserSet [x61] [x01; x42]].
Definition race_first : list nat := [0; 0; 0; 0; 1; 1; 1; 1; 0; 0; 0; 0; 0]%nat.
Definition race_second : list nat := [1; 1; 1; 1; 1]%nat.

Lemma race_steps x turns y :
  run_schedule 0 willing_peer turns x = Some y ->
  rtc (cstep 5 2 3 (snode race_server) true) (0, fst x, [], snd x) (0, fst y, [], snd y).
Proof. apply run_schedule_steps. Qed.

(** Publications race.  [set] promises to refuse a key that exists, and the
    second of two [set] of a key, one after the other, is refused.  When the two
    overlap both are accepted, and the second record replaces the first, without
    any authorisation by the first one's key. *)
Theorem overlapping_sets_overwrite :
  (exists s1 s2, server_set 5 0 [x61] [x01; x41] race_server = Some (Some true, s1) /\
     server_set 5 0 [x61] [x01; x42] s1 = Some (None, s2)) /\
  exists x y,
    rtc (cstep 5 2 3 (snode race_server) true) (0, rproto (running race_server), [], []) (0, fst x, [], snd x) /\
    seen [x61] x = (Some [x01; x41], [Some (Wrote (Some true)); None]) /\
    rtc (cstep 5 2 3 (snode race_server) true) (0, fst x, [], snd x) (0, fst y, [], snd y) /\
    seen [x61] y = (Some [x01; x42], [Some (Wrote (Some true)); Some (Wrote (Some true))]).
Proof.
  split.
  - assert (('(r1, s1) ← server_set 5 0 [x61] [x01; x41] race_server;
             '(r2, _) ← server_set 5 0 [x61] [x01; x42] s1; Some (r1, r2)) = Some (Some true, None)) as H
      by (vm_compute; reflexivity).
    apply bind_Some in H as ([r1 s1] & H1 & ([r2 s2] & H2 & [= -> ->])%bind_Some). eauto.
  - set (x0 := (rproto (running race_server), race_start)).
    assert ((x ← run_schedule 0 willing_peer race_first x0; y ← run_schedule 0 willing_peer race_second x;
             Some (seen [x61] x, seen [x61] y)) =
            Some ((Some [x01; x41], [Some (Wrote (Some true)); None]),
                  (Some [x01; x42], [Some (Wrote (Some true)); Some (Wrote (Some true))]))) as H
      by (vm_compute; reflexivity).
    apply bind_Some in H as (x & Hx & (y & Hy & Hxy)%bind_Some). apply (inj Some) in Hxy.
    exists x, y. split_and!; [|congruence|by apply (race_steps x race_second)|congruence].
    eapply rtc_l; [apply (cstep_start _ _ _ _ _ _ _ _ _ (UserSet [x61] [x01; x41])); done|].
    eapply rtc_l; [apply (cstep_start _ _ _ _ _ _ _ _ _ (UserSet [x61] [x01; x42])); done|].
    exact (race_steps x0 race_first x Hx).
Qed.

(** Two requests of a new node, as its user's lookups make them, arrive together. *)
Definition newcomer : string * Z := ("10.0.0.5"%string, 9000).
Definition newcomer_asks : UserOp := ServeFindValue (demo_key 5) newcomer (demo_key 5).
Definition welcomes_start : list (UserOp * demo_op) :=
  (fun u => (u, op_of 5 2 3 (snode race_server) true u)) <$> [newcomer_asks; newcomer_asks].
Definition welcomes_turns : list nat := [0; 1; 0; 1; 0; 1; 0; 1; 0; 1; 0; 1]%nat.

(** How many copies of records are under way to the node. *)
Definition copies (p : KademliaProtocol ForgetfulStorage unit SimpleCache) : nat :=
  length (omap (fun t => match t with StoreRpc n _ _ => if decide (id n = demo_key 5) then Some tt else None | _ => None end)
            (spawned p)).
Definition welcomed (x : KademliaProtocol ForgetfulStorage unit SimpleCache * list (UserOp * demo_op)) :
  nat * list (option Outcome) := (copies (fst x), op_outcome <$> snd x).

(** Welcomes race.  Of two requests of a new node that are handled one after the
    other only the first replicates the records to it; when they overlap, both find
    the node new and both replicate. *)
Theorem overlapping_welcomes_replicate_twice :
  ('(_, s1) ← rpc_find_value 0 (demo_key 5) newcomer (demo_key 5) demo_stored;
   '(_, s2) ← rpc_find_value 0 (demo_key 5) newcomer (demo_key 5) s1; Some (copies s1, copies s2)) = Some (1, 1)%nat /\
  exists x, rtc (cstep 5 2 3 (snode race_server) true) (0, demo_stored, [], []) (0, fst x, [], snd x) /\
    welcomed x = (2%nat, [Some (Answered (ResultValue [x01; x41])); Some (Answered (ResultValue [x01; x41]))]).
Proof.
  split; [vm_compute; reflexivity|].
  set (x0 := (demo_stored, welcomes_start)).
  assert ((x ← run_schedule 0 willing_peer welcomes_turns x0; Some (welcomed x)) =
          Some (2%nat, [Some (Answered (ResultValue [x01; x41])); Some (Answered (ResultValue [x01; x41]))])) as H
    by (vm_compute; reflexivity).
  apply bind_Some in H as (x & Hx & Hseen). apply (inj Some) in Hseen.
  exists x. split; [|exact Hseen].
  do 2 (eapply rtc_l; [apply (cstep_start _ _ _ _ _ _ _ _ _ newcomer_asks); by split|]).
  exact (race_steps x0 welcomes_turns x Hx).
Qed.

(** A [get] starts; before its first access a peer stores the record. *)
Definition demo_storing : Suspended := StoreChecking (demo_key 2) demo_peer (digest [x61]) [x01; x41].
Definition demo_overtaken : KademliaProtocol ForgetfulStorage unit SimpleCache :=
  snd (resume 0 demo_storing demo_proto).
Definition demo_got : list (UserOp * demo_op) := [(UserGet [x61], Done (Some (Got (Some [x01; x41]))))].

Lemma demo_overtaken_run fuel :
  rtc (cstep fuel 2 3 (from_id (demo_key 1)) true) (0, demo_proto, [], []) (0, demo_overtaken, [], demo_got).
Proof.
  eapply rtc_l; [exact (cstep_start fuel 2 3 (from_id (demo_key 1)) true 0 demo_proto [] [] (UserGet [x61]) I)|].
  eapply rtc_l; [apply cstep_node;
    exact (istep_suspend 0 0 (Store (demo_key 2) (digest [x61]) [x01; x41]) demo_peer demo_proto demo_storing []
             ltac:(lia) ltac:(by split) eq_refl)|].
  eapply rtc_l; [apply cstep_node;
    exact (istep_resume 0 0 0 demo_storing demo_proto [demo_storing] true demo_overtaken ltac:(lia) eq_refl eq_refl)|].
  apply (run_schedule_steps fuel 2 3 (from_id (demo_key 1)) true 0 willing_peer [0; 0]%nat
    (demo_overtaken, [(UserGet [x61], op_of fuel 2 3 (from_id (demo_key 1)) true (UserGet [x61]))])
    (demo_overtaken, demo_got)).
  vm_compute. reflexivity.
Qed.

Lemma overlapping_operations_safe_witness :
  get 0 (storage demo_overtaken) (digest [x61]) = Some [x01; x41] /\ authentic tt [x01; x41].
Proof.
  assert (get 0 (storage demo_overtaken) (digest [x61]) = Some [x01; x41]) as Hg by (vm_compute; reflexivity).
  split; [exact Hg|].
  apply (overlapping_operations_safe (C := SimpleCache) 2 3 (from_id (demo_key 1)) true 0 0 (from_id (demo_key 1))
           (ForgetfulStorage_new 604800) 2 tt (Some 10) demo_overtaken [] demo_got)
    with (now := 0) (key := digest [x61]).
  - by split.
  - lia.
  - intros now key. reflexivity.
  - apply demo_overtaken_run.
  - lia.
  - exact Hg.
Defined.
