(* ===== verification/Workers.v ===== *)
(** * Workers: the queues between the socket and [handle_datagram]

    Models the receive loop and the worker tasks that [Server::listen]
    ([src/src/network.rs]) spawns.  A worker's channel is the list of datagrams
    in it; [pending] is the datagram on whose [send().await] the loop is
    suspended.  Tasks interleave freely, so the pool is a step relation; the
    state also records what was received, given to a worker, and handled. *)
From S2P Require Import Prelude.

Definition WORKER_QUEUE_DEPTH : nat := 256.

Section workers.
Context {D : Type}.

Record Pool := mkPool {
  queues : list (list D);
  idx : nat;
  pending : option (nat * D);
  received : list D;
  assigned : list (nat * D);
  handled : list (nat * D)
}.

(** [num_workers]: [available_parallelism], at least one, or 4. *)
Definition Pool_new (num_workers : nat) : Pool :=
  mkPool (replicate num_workers []) 0 None [] [] [].

(** [senders[w].try_send(d)] *)
Definition try_send (p : Pool) (w : nat) (d : D) : option Pool :=
  q ← queues p !! w;
  if decide (length q < WORKER_QUEUE_DEPTH) then
    Some (mkPool (<[w := q ++ [d]]> (queues p)) ((w + 1) mod length (queues p)) (pending p)
            (received p) (assigned p ++ [(w, d)]) (handled p))
  else None.

(** [for i in 0..num_workers]: the workers from [base + i] on. *)
Fixpoint try_workers (p : Pool) (d : D) (base : nat) (turns : list nat) : option Pool :=
  match turns with
  | [] => None
  | i :: turns =>
      match try_send p ((base + i) mod length (queues p)) d with
      | Some p' => Some p'
      | None => try_workers p d base turns
      end
  end.

(** One turn of the receive loop. *)
Definition on_datagram (p : Pool) (d : D) : Pool :=
  let p := mkPool (queues p) (idx p) (pending p) (received p ++ [d]) (assigned p) (handled p) in
  let base := idx p in
  match try_workers p d base (seq 0 (length (queues p))) with
  | Some p' => p'
  | None => mkPool (queues p) (idx p) (Some (base mod length (queues p), d)) (received p) (assigned p) (handled p)
  end.

(** The awaited [send] completes once the worker's queue has room. *)
Definition complete_send (p : Pool) : option Pool :=
  '(w, d) ← pending p;
  p' ← try_send p w d;
  Some (mkPool (queues p') (idx p') None (received p') (assigned p') (handled p')).

(** Worker [w] takes the next datagram of its queue and handles it. *)
Definition work (p : Pool) (w : nat) : option Pool :=
  match queues p !! w with
  | Some (d :: q) =>
      Some (mkPool (<[w := q]> (queues p)) (idx p) (pending p) (received p) (assigned p) (handled p ++ [(w, d)]))
  | _ => None
  end.

Inductive pool_step : Pool -> Pool -> Prop :=
| step_recv p d : pending p = None -> pool_step p (on_datagram p d)
| step_send p p' : complete_send p = Some p' -> pool_step p p'
| step_work p p' w : work p w = Some p' -> pool_step p p'.

(** The steps that do not receive. *)
Definition drain_step (p p' : Pool) : Prop :=
  complete_send p = Some p' \/ exists w, work p w = Some p'.

(** ** Invariant *)

(** What worker [w] was given, or has handled, in order. *)
Definition of_worker (w : nat) (l : list (nat * D)) : list D := snd <$> filter (fun x => x.1 = w) l.

Record pool_core (n : nat) (p : Pool) : Prop := {
  pc_len : length (queues p) = n;
  pc_idx : idx p < n;
  pc_depth : Forall (fun q => length q <= WORKER_QUEUE_DEPTH) (queues p);
  pc_fifo w q : queues p !! w = Some q -> of_worker w (assigned p) = of_worker w (handled p) ++ q;
  pc_workers : Forall (fun x => x.1 < n) (assigned p ++ handled p)
}.

Record pool_ok (n : nat) (p : Pool) : Prop := {
  po_core : pool_core n p;
  po_pending w d : pending p = Some (w, d) -> w < n;
  po_received : received p = (snd <$> assigned p) ++ (snd <$> option_list (pending p))
}.

Lemma of_worker_snoc w l v d :
  of_worker w (l ++ [(v, d)]) = of_worker w l ++ if decide (v = w) then [d] else [].
Proof.
  unfold of_worker. rewrite filter_app, fmap_app. f_equal. rewrite filter_cons, filter_nil. simpl.
  by case_decide.
Qed.

Lemma Pool_new_ok n : 0 < n -> pool_ok n (Pool_new n).
Proof.
  intros Hn. split; [split|done..]; simpl.
  - by rewrite length_replicate.
  - done.
  - apply Forall_replicate. simpl. unfold WORKER_QUEUE_DEPTH. lia.
  - intros w q [-> _]%lookup_replicate. done.
  - constructor.
Qed.

Lemma try_send_core n p w d p' :
  pool_core n p -> try_send p w d = Some p' ->
  pool_core n p' /\ assigned p' = assigned p ++ [(w, d)] /\ received p' = received p /\ pending p' = pending p.
Proof.
  intros [Hl Hi Hd Hf Hw]. unfold try_send. destruct (queues p !! w) as [q|] eqn:Eq; simpl; [|done].
  case_decide as Hq; [|done]. intros [= <-]. split; [|done]. pose proof (lookup_lt_Some _ _ _ Eq) as Hlt.
  split; simpl.
  - by rewrite length_insert.
  - rewrite Hl. apply Nat.mod_upper_bound. lia.
  - apply Forall_insert; [done|]. rewrite length_app. simpl. lia.
  - intros v r Hv. rewrite of_worker_snoc. apply list_lookup_insert_Some in Hv as [(-> & <- & _)|[Hne Hv]].
    + rewrite decide_True by done. by rewrite (Hf v q Eq), app_assoc.
    + rewrite decide_False by done. by rewrite app_nil_r, (Hf v r Hv).
  - apply Forall_app in Hw as [Ha Hh]. rewrite !Forall_app, Forall_singleton. split_and!; simpl; auto; lia.
Qed.

Lemma work_core n p w p' :
  pool_core n p -> work p w = Some p' ->
  pool_core n p' /\ assigned p' = assigned p /\ received p' = received p /\ pending p' = pending p.
Proof.
  intros [Hl Hi Hd Hf Hw]. unfold work. destruct (queues p !! w) as [[|d q]|] eqn:Eq; [done| |done].
  intros [= <-]. split; [|done]. pose proof (lookup_lt_Some _ _ _ Eq) as Hlt. split; simpl.
  - by rewrite length_insert.
  - done.
  - apply Forall_insert; [done|]. pose proof (Forall_lookup_1 _ _ _ _ Hd Eq) as Hq. simpl in Hq. lia.
  - intros v r Hv. rewrite of_worker_snoc. apply list_lookup_insert_Some in Hv as [(-> & <- & _)|[Hne Hv]].
    + rewrite decide_True by done. by rewrite (Hf v _ Eq), <- app_assoc.
    + rewrite decide_False by done. by rewrite app_nil_r, (Hf v r Hv).
  - apply Forall_app in Hw as [Ha Hh]. rewrite !Forall_app, Forall_singleton. split_and!; simpl; auto; lia.
Qed.

Lemma try_workers_inv p d base turns p' :
  try_workers p d base turns = Some p' -> exists w, try_send p w d = Some p'.
Proof.
  induction turns as [|i turns IH]; simpl; [done|]. case_match; [|done]. intros [= <-]. eauto.
Qed.

Lemma try_send_None p w d q :
  queues p !! w = Some q -> try_send p w d = None -> WORKER_QUEUE_DEPTH <= length q.
Proof. unfold try_send. intros ->. simpl. case_decide; [done|]. intros _. lia. Qed.

Lemma try_workers_None p d base turns i :
  try_workers p d base turns = None -> i ∈ turns ->
  try_send p ((base + i) mod length (queues p)) d = None.
Proof.
  induction turns as [|j turns IH]; simpl; [intros _ Hi; by apply elem_of_nil in Hi|].
  case_match; [done|]. intros Hn [->|Hi]%elem_of_cons; [done|auto].
Qed.

(** Starting from any worker, [num_workers] turns reach all of them. *)
Lemma turns_reach base n w : base < n -> w < n -> exists i, i < n /\ (base + i) mod n = w.
Proof.
  intros Hb Hw. destruct (decide (base <= w)).
  - exists (w - base). split; [lia|]. replace (base + (w - base)) with w by lia. by apply Nat.mod_small.
  - exists (w + n - base). split; [lia|]. replace (base + (w + n - base)) with (w + 1 * n) by lia.
    rewrite Nat.Div0.mod_add. by apply Nat.mod_small.
Qed.

Lemma on_datagram_ok n p d :
  pool_ok n p -> pending p = None ->
  pool_ok n (on_datagram p d) /\
  (pending (on_datagram p d) <> None -> Forall (fun q => length q = WORKER_QUEUE_DEPTH) (queues p)).
Proof.
  intros [Hc Hp Hr] Hn. unfold on_datagram. set (p0 := mkPool _ _ _ _ _ _).
  assert (pool_core n p0) as Hc0 by (destruct Hc; by split).
  destruct (try_workers p0 d (idx p0) (seq 0 (length (queues p0)))) as [p'|] eqn:Et.
  - apply try_workers_inv in Et as [w Et].
    destruct (try_send_core n p0 w d p' Hc0 Et) as (Hc' & Ea & Er & Ep). split; [|by rewrite Ep].
    split; [done| |]; rewrite Ep; simpl; rewrite Hn; [done|].
    rewrite Er, Ea. simpl. rewrite Hr, Hn. simpl. by rewrite fmap_app, !app_nil_r.
  - split.
    + split; simpl; [by destruct Hc0; split| |].
      * intros w d' [= <- <-]. rewrite (pc_len _ _ Hc). apply Nat.mod_upper_bound. pose proof (pc_idx _ _ Hc). lia.
      * by rewrite Hr, Hn, app_nil_r.
    + intros _. apply Forall_lookup. intros w q Hq. pose proof (Forall_lookup_1 _ _ _ _ (pc_depth _ _ Hc) Hq) as Hle.
      simpl in Hle. pose proof (lookup_lt_Some _ _ _ Hq) as Hw. rewrite (pc_len _ _ Hc) in Hw.
      destruct (turns_reach (idx p) n w (pc_idx _ _ Hc) Hw) as (i & Hi & Ei).
      pose proof (try_workers_None p0 d (idx p) _ i Et) as Hs. simpl in Hs. rewrite (pc_len _ _ Hc), Ei in Hs.
      pose proof (try_send_None p0 w d q Hq (Hs ltac:(apply elem_of_seq; lia))). lia.
Qed.

Lemma pool_step_ok n p p' : pool_ok n p -> pool_step p p' -> pool_ok n p'.
Proof.
  intros Hok Hs. pose proof Hok as [Hc Hp Hr]. destruct Hs as [p d Hn|p p' Hs|p p' w Hs].
  - by apply on_datagram_ok.
  - unfold complete_send in Hs. destruct (pending p) as [[w d]|] eqn:Ep; [|done]. simpl in Hs.
    destruct (try_send p w d) as [p1|] eqn:Et; [|done]. simpl in Hs. injection Hs as <-.
    destruct (try_send_core n p w d p1 Hc Et) as (Hc' & Ea & Er & _).
    split; simpl; [by destruct Hc'; split|done|]. by rewrite Er, Ea, Hr, fmap_app, app_nil_r.
  - destruct (work_core n p w p' Hc Hs) as (Hc' & Ea & Er & Ep). split; rewrite ?Ep, ?Er, ?Ea; done.
Qed.

(** ** Draining *)

Definition waiting (p : Pool) : nat := length (concat (queues p)) + 2 * length (option_list (pending p)).

Lemma concat_update (qs : list (list D)) w q q' :
  qs !! w = Some q -> length (concat (<[w := q']> qs)) + length q = length (concat qs) + length q'.
Proof.
  intros (l1 & l2 & -> & ->)%lookup_split. rewrite insert_middle, !concat_app. simpl. rewrite !length_app. lia.
Qed.

Lemma drain_progress n p :
  pool_ok n p -> (exists p', drain_step p p' /\ waiting p' < waiting p) \/
  (Forall (fun q => q = []) (queues p) /\ pending p = None).
Proof.
  intros [Hc Hp Hr]. destruct (decide (Forall (fun q => q = []) (queues p))) as [He|He].
  - destruct (pending p) as [[w d]|] eqn:Ep; [left|by right].
    destruct (lookup_lt_is_Some_2 (queues p) w) as [q Hq]; [rewrite (pc_len _ _ Hc); eauto|].
    pose proof (Forall_lookup_1 _ _ _ _ He Hq) as ->.
    eexists. split; [left; unfold complete_send; rewrite Ep; simpl; unfold try_send; by rewrite Hq|].
    unfold waiting. simpl. rewrite Ep. pose proof (concat_update (queues p) w [] [d] Hq) as Hl. simpl in *. lia.
  - left. apply not_Forall_Exists in He; [|intros q; apply (decide (q = []))].
    apply Exists_exists in He as (q & [w Hq]%list_elem_of_lookup_1 & Hne).
    destruct q as [|d q]; [by destruct Hne|]. eexists. split; [right; exists w; unfold work; by rewrite Hq|].
    unfold waiting. simpl. pose proof (concat_update (queues p) w (d :: q) q Hq) as Hl. simpl in *. lia.
Qed.

Lemma drain_step_pool p p' : drain_step p p' -> pool_step p p'.
Proof. intros [?|[w ?]]; [by apply step_send|by eapply step_work]. Qed.

Lemma drain_received p p' : drain_step p p' -> received p' = received p.
Proof.
  intros [Hs|[w Hs]]; [|unfold work in Hs; repeat case_match; by simplify_eq/=].
  unfold complete_send, try_send in Hs. destruct (pending p) as [[w d]|]; [|done]. simpl in Hs.
  destruct (queues p !! w); [|done]. simpl in Hs. case_decide; by simplify_eq/=.
Qed.

Lemma drains n p :
  pool_ok n p -> exists p', rtc drain_step p p' /\ pool_ok n p' /\ received p' = received p /\
    Forall (fun q => q = []) (queues p') /\ pending p' = None.
Proof.
  remember (waiting p) as k eqn:Ek. revert p Ek. induction (lt_wf k) as [k _ IH]. intros p -> Hok.
  destruct (drain_progress n p Hok) as [(p1 & Hs & Hlt)|[He Hn]]; [|exists p; by split_and!].
  destruct (IH _ Hlt p1 eq_refl (pool_step_ok n p p1 Hok (drain_step_pool p p1 Hs))) as (p' & Hr & Hok' & Er & H').
  exists p'. split; [by eapply rtc_l|]. split; [done|]. by rewrite Er, (drain_received p p1 Hs).
Qed.

(** Two logs with the same entries per worker are permutations. *)
Lemma of_worker_perm l l' : (forall w, of_worker w l = of_worker w l') -> l ≡ₚ l'.
Proof.
  revert l'. induction l as [|[v d] l IH]; intros l' Hw.
  - destruct l' as [|[v d] l']; [done|]. specialize (Hw v). unfold of_worker in Hw.
    rewrite filter_cons_True in Hw by done. done.
  - assert (exists l1 l2, l' = l1 ++ (v, d) :: l2 /\ of_worker v l1 = []) as (l1 & l2 & -> & H1).
    { clear IH. specialize (Hw v). unfold of_worker in Hw. rewrite filter_cons_True in Hw by done. simpl in Hw.
      induction l' as [|[u e] l' IH']; [done|]. destruct (decide (u = v)) as [->|Hne].
      - rewrite filter_cons_True in Hw by done. simpl in Hw. injection Hw as <- _. by exists [], l'.
      - rewrite filter_cons_False in Hw by done. destruct (IH' Hw) as (l1 & l2 & -> & H1).
        exists ((u, e) :: l1), l2. split; [done|]. unfold of_worker. by rewrite filter_cons_False. }
    rewrite <- Permutation_middle. constructor. apply IH. intros w. specialize (Hw w). revert Hw H1.
    unfold of_worker. rewrite !filter_app, !filter_cons, !fmap_app. simpl. destruct (decide (v = w)) as [->|].
    + intros Hw H1. rewrite H1 in Hw |- *. simpl in *. by injection Hw.
    + done.
Qed.

Lemma of_worker_beyond n l w : Forall (fun x => x.1 < n) l -> n <= w -> of_worker w l = [].
Proof.
  intros Hl Hw. unfold of_worker. induction Hl as [|x l Hx _ IH]; [done|].
  rewrite filter_cons_False; [done|lia].
Qed.

Lemma all_handled n p :
  pool_ok n p -> Forall (fun q => q = []) (queues p) -> pending p = None ->
  handled p ≡ₚ assigned p /\ snd <$> assigned p = received p.
Proof.
  intros [Hc _ Hr] He Hn. split; [|by rewrite Hr, Hn, app_nil_r]. symmetry. apply of_worker_perm. intros w.
  pose proof (pc_workers _ _ Hc) as [Ha Hh]%Forall_app. destruct (queues p !! w) as [q|] eqn:Eq.
  - pose proof (Forall_lookup_1 _ _ _ _ He Eq) as Eq0. simpl in Eq0. subst q.
    by rewrite (pc_fifo _ _ Hc w [] Eq), app_nil_r.
  - apply lookup_ge_None_1 in Eq. rewrite (pc_len _ _ Hc) in Eq. by rewrite !(of_worker_beyond n).
Qed.

(** ** Claims *)

(** C25: the worker pool loses and duplicates nothing.  In every reachable state
    the datagrams received are, in order, those given to workers followed by the
    one on which the loop waits; each worker has handled, in order, a prefix of
    what it was given and the rest is its queue, of at most 256 entries; the
    receive loop waits only if every queue was full; and the workers can always
    finish: some run of them handles every datagram received so far. *)
Theorem workers_lose_nothing (n : nat) (p : Pool) :
  0 < n -> rtc pool_step (Pool_new n) p ->
  received p = (snd <$> assigned p) ++ (snd <$> option_list (pending p)) /\
  (forall w q, queues p !! w = Some q ->
     of_worker w (assigned p) = of_worker w (handled p) ++ q /\ length q <= WORKER_QUEUE_DEPTH) /\
  (forall d, pending p = None -> pending (on_datagram p d) <> None ->
     Forall (fun q => length q = WORKER_QUEUE_DEPTH) (queues p)) /\
  exists p', rtc drain_step p p' /\ received p' = received p /\ (snd <$> handled p') ≡ₚ received p.
Proof.
  intros Hn Hsteps.
  assert (pool_ok n p) as Hok.
  { refine (rtc_ind_r (pool_ok n) _ _ (fun _ _ _ Hstep IH => pool_step_ok n _ _ IH Hstep) _ Hsteps).
    by apply Pool_new_ok. }
  pose proof Hok as [Hc _ Hr]. split_and!.
  - done.
  - intros w q Hq. split; [by apply (pc_fifo _ _ Hc)|]. exact (Forall_lookup_1 _ _ _ _ (pc_depth _ _ Hc) Hq).
  - intros d Hp. by apply (on_datagram_ok n).
  - destruct (drains n p Hok) as (p' & Hrun & Hok' & Er & He & Hnone). exists p'. split; [done|]. split; [done|].
    destruct (all_handled n p' Hok' He Hnone) as [Hh Ha]. by rewrite Hh, Ha, Er.
Qed.

End workers.
Arguments Pool D : clear implicits.

(** Two workers, three datagrams, one of them handled. *)
Definition demo_pool : Pool nat :=
  default (Pool_new 2) (work (on_datagram (on_datagram (on_datagram (Pool_new 2) 7) 8) 9) 0).

Lemma workers_lose_nothing_witness :
  queues demo_pool = [[9]; [8]] /\ handled demo_pool = [(0, 7)] /\
  exists p', rtc drain_step demo_pool p' /\ (snd <$> handled p') ≡ₚ [7; 8; 9].
Proof.
  split; [reflexivity|]. split; [reflexivity|].
  destruct (workers_lose_nothing 2 demo_pool) as (_ & _ & _ & p' & Hrun & _ & Hh).
  - lia.
  - apply (rtc_l _ _ (on_datagram (Pool_new 2) 7)); [by apply step_recv|].
    apply (rtc_l _ _ (on_datagram (on_datagram (Pool_new 2) 7) 8)); [by apply step_recv|].
    apply (rtc_l _ _ (on_datagram (on_datagram (on_datagram (Pool_new 2) 7) 8) 9)); [by apply step_recv|].
    apply rtc_once, (step_work _ _ 0). reflexivity.
  - exists p'. split; [exact Hrun|exact Hh].
Defined.
