(* ===== verification/NodeState.v ===== *)
(** * NodeState: the persisted state of a node and its background tasks

    Models [save_state], the loop body of [save_state_regularly] and the numbers
    of [schedule_stats_log] in [src/src/network.rs], over the file system of
    [KeyManager.v] and the documents of [Json.v]; and, in [Lifecycle], which
    tasks [listen], [save_state_regularly] and [stop] start and cancel.  hex is
    the class [HexCodec]. *)
From S2P Require Import Prelude Node Routing RoutingTable RoutingTableSpec Storage Text Json Crypto AuthHandler KeyManager SigCache Crawling Protocol ProtocolSpec Network NetworkSpec.
From Stdlib Require Import Strings.Byte.
Local Open Scope Z_scope.

Class HexCodec := {
  hex_encode : bytes -> bytes;
  hex_decode : bytes -> option bytes
}.

Class HexLaws `{HexCodec} := {
  hex_roundtrip l : hex_decode (hex_encode l) = Some l;
  hex_text l : utf8_valid (hex_encode l) = true
}.

Section state.
Context `{US : UnstableSort} `{HO : HashOrder} `{HA : Hashes} `{NA : NetAddr}.
Context {S : Type} `{IS : IStorage S}.
Context {Hd E : Type} `{SH : SignatureVerifierHandler Hd E}.
Context {C : Type} `{MC : Moka C}.
Context {R : Type} `{NW : !Net R S Hd C}.
Context `{JM : JsonMap} `{SJ : SerdeJson} `{HX : HexCodec}.

Definition str_bytes (s : string) : bytes := String.list_byte_of_string s.

(** A [(String, u16)] as serde writes it: an array of two elements. *)
Definition addr_json (a : string * Z) : JValue :=
  JArray [JString (str_bytes (fst a)); JNumber (PosInt (snd a))].

Definition state_json (ksize alpha : nat) (node : Node) (neighbors : list (string * Z)) : JValue :=
  obj [
    (b! "ksize", JNumber (PosInt (Z.of_nat ksize)));
    (b! "alpha", JNumber (PosInt (Z.of_nat alpha)));
    (b! "id", JString (hex_encode (id node)));
    (b! "neighbors", JArray (addr_json <$> neighbors))].

(** Failures to write are logged. *)
Definition write_state (fname : bytes) (data : JValue) (fs : FileSystem) : FileSystem :=
  match ok (to_string_pretty data) with
  | Some json => snd (fs_write fs fname json)
  | None => fs
  end.

Definition save_state (now : Z) (fname : bytes) (s : Server R) (fs : FileSystem)
  : Server R * FileSystem :=
  let '(neighbors, s) := bootstrappable_neighbors now s in
  match neighbors with
  | [] => (s, fs)
  | _ => (s, write_state fname (state_json (sksize s) (salpha s) (snode s) neighbors) fs)
  end.

(** One iteration of the loop of [save_state_regularly]; [node], [ksize] and
    [alpha] are the values captured when it was spawned. *)
Definition save_tick (now : Z) (fname : bytes) (node : Node) (ksize alpha : nat)
    (s : Server R) (fs : FileSystem) : Server R * FileSystem :=
  let '(ns, s) := neighbors_of now node s in
  let neighbors := omap address ns in
  if negb (bool_decide (neighbors = []))
  then (s, write_state fname (state_json ksize alpha node neighbors) fs)
  else (s, fs).

(** The numbers of one line of the statistics loop. *)
Definition stats_line (now : Z) (s : Server R) : nat * nat * option Z :=
  let p := rproto (running s) in
  let routing_size := foldr Nat.add 0%nat (KBucket_len <$> buckets (router p)) in
  let storage_size := length (iter_all now (storage p)) in
  (routing_size, storage_size, entry_count <$> sig_cache p).

(** *** Facts *)

Definition addr_ok (a : string * Z) : bool := utf8_valid (str_bytes (fst a)) && (0 <=? snd a) && (snd a <? 2 ^ 16).

Lemma addr_json_text a : addr_ok a = true -> text_json (addr_json a) = true.
Proof.
  unfold addr_ok. rewrite !andb_true_iff, Z.leb_le, Z.ltb_lt. intros [[Hu ?] ?]. unfold addr_json.
  cbn [text_json forallb fst snd]. rewrite Hu. simpl.
  rewrite !andb_true_iff, Z.leb_le, Z.ltb_lt. split_and!; [lia|lia|done].
Qed.

Lemma state_printable ksize alpha node neighbors :
  Z.of_nat ksize < 2 ^ 64 -> Z.of_nat alpha < 2 ^ 64 -> forallb addr_ok neighbors = true ->
  HexLaws -> printable (state_json ksize alpha node neighbors).
Proof.
  intros Hk Ha Hn HL. unfold state_json. rewrite forallb_Forall in Hn. split_and!.
  - rewrite obj_text by literal_keys. simpl. rewrite hex_text. simpl.
    assert (forallb text_json (addr_json <$> neighbors) = true) as ->.
    { apply forallb_Forall, Forall_fmap. eapply Forall_impl; [exact Hn|apply addr_json_text]. }
    rewrite !andb_true_iff, !Z.leb_le, !Z.ltb_lt. lia.
  - apply obj_shaped; [literal_keys|]. repeat constructor; simpl.
    apply foldr_Forall, Forall_fmap, Forall_forall. done.
  - rewrite obj_depth by literal_keys. simpl.
    assert (max_list (depth <$> (addr_json <$> neighbors)) <= 1)%nat; [|lia].
    clear. induction neighbors as [|a l IH]; [simpl; lia|]. rewrite !fmap_cons.
    change (Nat.max 1 (max_list (depth <$> (addr_json <$> l))) <= 1)%nat. lia.
Qed.

Lemma fs_write_read fs p f data :
  resolve fs p = Ok f -> f ∉ dirs fs -> fs_read (snd (fs_write fs p data)) p = Ok data.
Proof.
  intros Hr Hf. unfold fs_write. rewrite Hr, decide_False by done. unfold fs_read. simpl.
  assert (resolve (mkFS (cwd fs) (dirs fs) (<[f := data]> (files fs))) p = Ok f) as ->.
  { unfold resolve in *. apply result_bind_Ok in Hr as (d & Hw & Hl). apply result_bind_Ok.
    exists d. split; [|done]. apply (walk_dir_same fs); [done|exact Hw]. }
  simpl. rewrite decide_False by done. by rewrite lookup_insert_eq.
Qed.

(** Both ways of saving do the same. *)
Lemma save_tick_eq now fname s fs :
  listening s = true -> save_tick now fname (snode s) (sksize s) (salpha s) s fs = save_state now fname s fs.
Proof.
  intros Hl. unfold save_tick, save_state, bootstrappable_neighbors. rewrite Hl. cbn [negb].
  pose proof (same_params_fields _ _ (neighbors_of_params now (snode s) s)) as (En & _ & Ek & Ea).
  destruct (neighbors_of now (snode s) s) as [ns s']. cbn [snd] in *. rewrite En, Ek, Ea.
  destruct (omap address ns); [by rewrite bool_decide_true|by rewrite bool_decide_false].
Qed.

(** C30: what [save_state] leaves on disk.  Without neighbours nothing is
    written.  Otherwise, when the path names a file that can be written, the
    file holds JSON text that parses to the node's parameters, its identifier
    (the hexadecimal text of it) and the addresses of its neighbours in order;
    a tick of [save_state_regularly] on a listening node does exactly the same. *)
Theorem saved_state_reads_back `{SL : !SerdeLaws} `{HL : !HexLaws} (now : Z) (fname : bytes) (s : Server R) (fs : FileSystem) (f : list bytes) :
  let neighbors := fst (bootstrappable_neighbors now s) in
  let fs' := snd (save_state now fname s fs) in
  Z.of_nat (sksize s) < 2 ^ 64 -> Z.of_nat (salpha s) < 2 ^ 64 -> forallb addr_ok neighbors = true ->
  resolve fs fname = Ok f -> f ∉ dirs fs ->
  (listening s = true -> save_tick now fname (snode s) (sksize s) (salpha s) s fs = save_state now fname s fs) /\
  (neighbors = [] -> fs' = fs) /\
  (neighbors <> [] ->
   exists json v, fs_read fs' fname = Ok json /\ from_slice json = Ok v /\
     index_str v (b! "ksize") = JNumber (PosInt (Z.of_nat (sksize s))) /\
     index_str v (b! "alpha") = JNumber (PosInt (Z.of_nat (salpha s))) /\
     (exists h, index_str v (b! "id") = JString h /\ hex_decode h = Some (id (snode s))) /\
     index_str v (b! "neighbors") = JArray (addr_json <$> neighbors)).
Proof.
  intros neighbors fs' Hk Ha Hn Hr Hf. split; [apply save_tick_eq|].
  pose proof (same_params_fields _ _ (bootstrappable_params now s)) as (En & _ & Ek & Ea).
  subst fs'. unfold save_state. subst neighbors. destruct (bootstrappable_neighbors now s) as [neighbors s1].
  simpl in *. split; [by intros ->|]. intros Hne.
  destruct neighbors as [|a l]; [done|]. cbn [snd]. rewrite En, Ek, Ea. unfold write_state.
  pose proof (state_printable (sksize s) (salpha s) (snode s) (a :: l) Hk Ha Hn HL) as Hp.
  destruct (pretty_ok (state_json (sksize s) (salpha s) (snode s) (a :: l))) as [json Ej].
  rewrite Ej. cbn [ok]. exists json, (state_json (sksize s) (salpha s) (snode s) (a :: l)).
  rewrite (fs_write_read _ _ f) by done. split; [done|]. split; [by apply pretty_roundtrip|].
  unfold state_json. rewrite !obj_index by literal_keys. split_and!; [done|done| |done].
  eexists. split; [reflexivity|]. apply hex_roundtrip.
Qed.

End state.

(** ** Background tasks

    What [listen], [save_state_regularly] and [stop] spawn and abort.  A task is
    known by the number under which it was spawned; a dropped [JoinHandle]
    detaches its task.  A socket stays bound while the receive loop that owns it
    is alive. *)
Module Lifecycle.

Inductive Task :=
| Worker (i : nat)
| Receive (addr : string * Z)
| Refresh
| Stats
| SaveState (fname : bytes) (frequency_secs : Z).

#[global] Instance Task_eq_dec : EqDecision Task.
Proof. solve_decision. Defined.

Record Tasks := mkTasks {
  next : nat;
  alive : gmap nat Task;
  protocol : bool;                   (* [self.protocol.is_some()] *)
  refresh_loop : option nat;
  save_state_loop : option nat
}.

Definition new : Tasks := mkTasks 0 ∅ false None None.

(** [tokio::spawn]; the handle is the task's number. *)
Definition spawn (t : Task) (s : Tasks) : nat * Tasks :=
  (next s, mkTasks (S (next s)) (<[next s := t]> (alive s)) (protocol s) (refresh_loop s) (save_state_loop s)).

Definition abort (h : nat) (s : Tasks) : Tasks :=
  mkTasks (next s) (delete h (alive s)) (protocol s) (refresh_loop s) (save_state_loop s).

(** [UdpSocket::bind] fails on an address in use; [os_ok] is false when the
    system refuses it for another reason. *)
Definition in_use (addr : string * Z) (s : Tasks) : bool :=
  bool_decide (map_Exists (fun _ t => t = Receive addr) (alive s)).

Definition schedule_refresh (s : Tasks) : Tasks :=
  if protocol s then
    let '(h, s) := spawn Refresh s in
    mkTasks (next s) (alive s) (protocol s) (Some h) (save_state_loop s)
  else s.

Definition schedule_stats_log (s : Tasks) : Tasks :=
  if protocol s then snd (spawn Stats s) else s.

Fixpoint spawn_workers (n : nat) (s : Tasks) : Tasks :=
  match n with
  | O => s
  | S n => spawn_workers n (snd (spawn (Worker n) s))
  end.

Definition listen (num_workers : nat) (os_ok : bool) (port : Z) (interface : string) (s : Tasks)
  : result unit unit * Tasks :=
  let addr := (interface, port) in
  if negb os_ok || in_use addr s then (Err tt, s)
  else
    let s := mkTasks (next s) (alive s) true (refresh_loop s) (save_state_loop s) in
    let s := spawn_workers num_workers s in
    let s := snd (spawn (Receive addr) s) in
    (Ok tt, schedule_stats_log (schedule_refresh s)).

Definition save_state_regularly (fname : bytes) (frequency_secs : Z) (s : Tasks) : Tasks :=
  if protocol s then
    let '(h, s) := spawn (SaveState fname frequency_secs) s in
    mkTasks (next s) (alive s) (protocol s) (refresh_loop s) (Some h)
  else s.

(** The tasks [stop] aborts; the [Leave] messages are [Network.stop]. *)
Definition stop (s : Tasks) : Tasks :=
  let s' := match refresh_loop s with Some h => abort h s | None => s end in
  let s' := mkTasks (next s') (alive s') (protocol s') None (save_state_loop s') in
  let s'' := match save_state_loop s' with Some h => abort h s' | None => s' end in
  mkTasks (next s'') (alive s'') (protocol s'') (refresh_loop s'') None.

Inductive op :=
| Listen (num_workers : nat) (os_ok : bool) (port : Z) (interface : string)
| SaveRegularly (fname : bytes) (frequency_secs : Z)
| Stop.

Definition run_op (s : Tasks) (o : op) : Tasks :=
  match o with
  | Listen n b p i => snd (listen n b p i s)
  | SaveRegularly f q => save_state_regularly f q s
  | Stop => stop s
  end.

(** Handles name live tasks of their kind, and numbers are not reused. *)
Record tasks_inv (s : Tasks) : Prop := {
  ti_fresh i : (next s <= i)%nat -> alive s !! i = None;
  ti_refresh h : refresh_loop s = Some h -> alive s !! h = Some Refresh;
  ti_save h : save_state_loop s = Some h -> exists f q, alive s !! h = Some (SaveState f q)
}.

(** Tasks no handle is kept of. *)
Definition detached (t : Task) : bool :=
  match t with Refresh | SaveState _ _ => false | _ => true end.

Lemma tasks_inv_new : tasks_inv new.
Proof. split; simpl; [intros; apply lookup_empty|done|done]. Qed.

Lemma spawn_inv t s : tasks_inv s -> tasks_inv (snd (spawn t s)).
Proof.
  intros [Hf Hr Hs]. split; simpl.
  - intros i Hi. rewrite lookup_insert_ne by lia. apply Hf. lia.
  - intros h Hh. destruct (decide (next s = h)) as [<-|]; [|rewrite lookup_insert_ne by done; auto].
    apply Hr in Hh. by rewrite Hf in Hh by lia.
  - intros h Hh. destruct (decide (next s = h)) as [<-|]; [|rewrite lookup_insert_ne by done; auto].
    destruct (Hs _ Hh) as (f & q & E). by rewrite Hf in E by lia.
Qed.

Lemma spawn_keeps t s i u : tasks_inv s -> alive s !! i = Some u -> alive (snd (spawn t s)) !! i = Some u.
Proof.
  intros [Hf _ _] Hi. simpl. rewrite lookup_insert_ne; [done|]. intros <-. by rewrite Hf in Hi by lia.
Qed.

(** A step of a live node only adds tasks. *)
Definition extends (s s' : Tasks) : Prop :=
  tasks_inv s' /\ forall i t, detached t = true -> alive s !! i = Some t -> alive s' !! i = Some t.

Lemma extends_trans s1 s2 s3 : extends s1 s2 -> extends s2 s3 -> extends s1 s3.
Proof. intros [_ H1] [H2 H3]. split; eauto. Qed.

Lemma extends_spawn t s : tasks_inv s -> extends s (snd (spawn t s)).
Proof. intros Hi. split; [by apply spawn_inv|]. intros i u _. by apply spawn_keeps. Qed.

Lemma extends_workers n s : tasks_inv s -> extends s (spawn_workers n s).
Proof.
  revert s. induction n as [|n IH]; intros s Hi; simpl; [by split|].
  eapply extends_trans; [apply extends_spawn, Hi|]. apply IH, spawn_inv, Hi.
Qed.

Lemma extends_refresh s : tasks_inv s -> extends s (schedule_refresh s).
Proof.
  intros Hi. unfold schedule_refresh. destruct (protocol s); [|by split].
  destruct (extends_spawn Refresh s Hi) as [[Hf _ Hs] Hk]. split; [|exact Hk].
  split; simpl in *; [done| |done]. intros h [= <-]. apply lookup_insert_eq.
Qed.

Lemma extends_stats s : tasks_inv s -> extends s (schedule_stats_log s).
Proof. intros Hi. unfold schedule_stats_log. destruct (protocol s); [by apply extends_spawn|by split]. Qed.

Lemma listen_ok n b p i s :
  tasks_inv s ->
  extends s (snd (listen n b p i s)) /\
  (fst (listen n b p i s) = Ok tt -> exists j, alive (snd (listen n b p i s)) !! j = Some (Receive (i, p))).
Proof.
  intros Hi. unfold listen. destruct (negb b || in_use (i, p) s); [done|]. cbv zeta. cbn [fst snd].
  set (s1 := mkTasks _ _ true _ _). assert (extends s s1) as E1 by (by destruct Hi; repeat split).
  pose proof (extends_workers n s1 (proj1 E1)) as E2.
  set (s2 := spawn_workers n s1) in *. pose proof (extends_spawn (Receive (i, p)) s2 (proj1 E2)) as E3.
  assert (alive (snd (spawn (Receive (i, p)) s2)) !! next s2 = Some (Receive (i, p))) as Hj by apply lookup_insert_eq.
  set (s3 := snd (spawn (Receive (i, p)) s2)) in *. pose proof (extends_refresh s3 (proj1 E3)) as E4.
  pose proof (extends_stats (schedule_refresh s3) (proj1 E4)) as E5.
  split; [exact (extends_trans _ _ _ E1 (extends_trans _ _ _ E2 (extends_trans _ _ _ E3 (extends_trans _ _ _ E4 E5))))|].
  intros _. exists (next s2).
  by apply (proj2 (extends_trans _ _ _ E4 E5)).
Qed.

Lemma spawn_workers_protocol n s : protocol (spawn_workers n s) = protocol s.
Proof. revert s. induction n as [|n IH]; intros s; simpl; [done|]. by rewrite IH. Qed.

(** The node has a protocol from its first successful [listen] on. *)
Lemma listen_protocol n b p i s :
  protocol (snd (listen n b p i s)) = match fst (listen n b p i s) with Ok _ => true | Err _ => protocol s end.
Proof.
  unfold listen. destruct (negb b || in_use (i, p) s); [done|]. cbv zeta. cbn [fst snd].
  set (s1 := snd (spawn _ _)). assert (protocol s1 = true) as H1 by apply spawn_workers_protocol.
  unfold schedule_stats_log, schedule_refresh. rewrite H1. cbn [spawn snd protocol]. by rewrite H1.
Qed.

Lemma stop_protocol s : protocol (stop s) = protocol s.
Proof. unfold stop. by destruct (refresh_loop s), (save_state_loop s) eqn:E; simpl; rewrite ?E. Qed.

Lemma stop_alive s :
  alive (stop s) = filter (fun e => Some (fst e) <> refresh_loop s /\ Some (fst e) <> save_state_loop s) (alive s).
Proof.
  apply map_eq. intros i. unfold stop. apply option_eq. intros t. rewrite map_lookup_filter_Some. simpl.
  destruct (refresh_loop s) as [h|]; simpl; destruct (save_state_loop s) as [h'|]; simpl;
    rewrite ?lookup_delete_Some; intuition congruence.
Qed.

Lemma stop_fields s :
  refresh_loop (stop s) = None /\ save_state_loop (stop s) = None /\ next (stop s) = next s.
Proof. unfold stop. by destruct (refresh_loop s), (save_state_loop s) eqn:E; simpl; rewrite ?E. Qed.

Lemma extends_stop s : tasks_inv s -> extends s (stop s).
Proof.
  intros [Hf Hr Hs]. split.
  - destruct (stop_fields s) as (E1 & E2 & E3). split; rewrite ?E1, ?E2; [|done..].
    intros i Hi. rewrite stop_alive. apply map_lookup_filter_None_2. left. apply Hf. by rewrite <- E3.
  - intros i t Hd Hi. rewrite stop_alive, map_lookup_filter_Some. split_and!; [done| |]; intros E; symmetry in E.
    + apply Hr in E. simpl in E. rewrite Hi in E. by injection E as ->.
    + apply Hs in E as (f & q & E). simpl in E. rewrite Hi in E. by injection E as ->.
Qed.

Lemma extends_op s o : tasks_inv s -> extends s (run_op s o).
Proof.
  intros Hi. destruct o as [n b p i|f q|]; simpl; [by apply listen_ok| |by apply extends_stop].
  unfold save_state_regularly. destruct (protocol s); [|by split].
  destruct (extends_spawn (SaveState f q) s Hi) as [[Hf Hr _] Hk]. split; [|exact Hk].
  split; simpl in *; [done|done|]. intros h [= <-]. do 2 eexists. apply lookup_insert_eq.
Qed.

Lemma extends_ops ops s : tasks_inv s -> extends s (foldl run_op s ops).
Proof.
  revert s. induction ops as [|o ops IH]; intros s Hi; simpl; [by split|].
  eapply extends_trans; [apply extends_op, Hi|]. apply IH, extends_op, Hi.
Qed.

Lemma in_use_receive a s j : alive s !! j = Some (Receive a) -> in_use a s = true.
Proof. intros Hj. apply bool_decide_eq_true_2. by exists j, (Receive a). Qed.

(** [stop] does not undo [listen].  Whatever is called before and after, a
    successful [listen] on an address leaves that address bound for good: a later
    [listen] on it is refused, also after [stop], because the receive loop (like
    the workers and the statistics loop) has no handle and is never cancelled. *)
Theorem listen_cannot_be_repeated (before after : list op) (n n' : nat) (b b' : bool) (p : Z) (i : string) :
  let s0 := foldl run_op new before in
  fst (listen n b p i s0) = Ok tt ->
  let s := foldl run_op (snd (listen n b p i s0)) after in
  listen n' b' p i s = (Err tt, s) /\
  (forall j t, detached t = true -> alive (snd (listen n b p i s0)) !! j = Some t -> alive s !! j = Some t).
Proof.
  intros s0 Hok s.
  destruct (listen_ok n b p i s0) as [[Hi _] Hr]; [apply extends_ops, tasks_inv_new|].
  destruct (Hr Hok) as (j & Hj). destruct (extends_ops after _ Hi) as [_ Hk]. split; [|exact Hk].
  unfold listen. rewrite (in_use_receive _ _ j) by by apply Hk. by rewrite orb_true_r.
Qed.

(** What [stop] cancels: the two loops whose handles the server holds, and
    no other task.  A node that starts saving twice, before or after anything
    else, therefore keeps the first saving loop running after [stop]. *)
Theorem stop_cancels_held_loops (ops : list op) (f1 f2 : bytes) (q1 q2 : Z) :
  let s := foldl run_op new ops in
  alive (stop s) = filter (fun e => Some (fst e) <> refresh_loop s /\ Some (fst e) <> save_state_loop s) (alive s) /\
  (protocol s = true ->
   exists j, alive (stop (save_state_regularly f2 q2 (save_state_regularly f1 q1 s))) !! j = Some (SaveState f1 q1)).
Proof.
  intros s. split; [apply stop_alive|]. intros Hp. exists (next s).
  destruct (extends_ops ops new tasks_inv_new) as [Hi _]. fold s in Hi.
  rewrite stop_alive, map_lookup_filter_Some. unfold save_state_regularly. rewrite Hp. simpl. rewrite Hp. simpl.
  split_and!; [rewrite lookup_insert_ne by lia; apply lookup_insert_eq| |intros [= E]; lia].
  intros E. symmetry in E. apply (ti_refresh _ Hi) in E. by rewrite (ti_fresh _ Hi) in E by lia.
Qed.

(** [stop] does not undo [listen].  It cancels the two loops whose handles the
    server holds and no other task; so a node that starts saving twice keeps the
    first saving loop running, and a successful [listen] leaves its address bound
    for good: whatever is called before and after, a later [listen] on it is
    refused, because the receive loop (like the workers and the statistics loop)
    has no handle and is never cancelled. *)
Theorem stop_leaves_tasks (before after : list op) (n n' : nat) (b b' : bool) (p : Z) (i : string)
    (f1 f2 : bytes) (q1 q2 : Z) :
  let s0 := foldl run_op new before in
  fst (listen n b p i s0) = Ok tt ->
  let s := foldl run_op (snd (listen n b p i s0)) after in
  listen n' b' p i s = (Err tt, s) /\
  (forall j t, detached t = true -> alive (snd (listen n b p i s0)) !! j = Some t -> alive s !! j = Some t) /\
  alive (stop s0) = filter (fun e => Some (fst e) <> refresh_loop s0 /\ Some (fst e) <> save_state_loop s0) (alive s0) /\
  (protocol s0 = true ->
   exists j, alive (stop (save_state_regularly f2 q2 (save_state_regularly f1 q1 s0))) !! j = Some (SaveState f1 q1)).
Proof.
  intros s0 Hok s. destruct (listen_cannot_be_repeated before after n n' b b' p i Hok) as [H1 H2].
  destruct (stop_cancels_held_loops before f1 f2 q1 q2) as [H3 H4]. auto.
Qed.


End Lifecycle.

(** ** Examples *)

#[local] Existing Instances demo_hashes demo_handler demo_laws plain_addr.

Definition toy_hex : HexCodec := {| hex_encode := toy_b64; hex_decode l := Some (toy_unb64 l) |}.

Definition toy_hex_laws : @HexLaws toy_hex.
Proof. split; simpl; [|apply toy_b64_text]. intros l. by rewrite toy_b64_roundtrip. Qed.

Lemma saved_state_reads_back_witness :
  exists json v,
    fs_read (snd (save_state (JM := btree_map) (SJ := tree_json) (HX := toy_hex) 0 (b! "state.json") (demo_server_peer [x09]) toy_fs)) (b! "state.json") = Ok json /\
    @from_slice tree_json json = Ok v /\
    index_str v (b! "neighbors") = JArray [addr_json ("10.0.0.2"%string, 9000)].
Proof.
  destruct (saved_state_reads_back (JM := btree_map) (SJ := tree_json) (HX := toy_hex)
    (SL := tree_json_laws _) (HL := toy_hex_laws) 0 (b! "state.json") (demo_server_peer [x09]) toy_fs [b! "home"; b! "state.json"])
    as (_ & _ & H); try (vm_compute; reflexivity); [..|destruct H as (json & v & H1 & H2 & _ & _ & _ & H3)].
  - apply (bool_decide_unpack _). vm_compute. exact I.
  - vm_compute. discriminate.
  - exists json, v. split_and!; [exact H1|exact H2|rewrite H3; reflexivity].
Defined.

Lemma stop_leaves_tasks_witness :
  fst (Lifecycle.listen 4 true 5678 "0.0.0.0"
    (foldl Lifecycle.run_op Lifecycle.new [Lifecycle.Listen 4 true 5678 "0.0.0.0"; Lifecycle.Stop])) = Err tt.
Proof.
  destruct (Lifecycle.stop_leaves_tasks [] [Lifecycle.Stop] 4 4 true true 5678 "0.0.0.0" [] [] 0 0 eq_refl) as [E _].
  exact (f_equal fst E).
Defined.

Lemma stop_cancels_held_loops_witness :
  exists j, Lifecycle.alive (Lifecycle.stop (Lifecycle.save_state_regularly [x62] 20
    (Lifecycle.save_state_regularly [x61] 10 (foldl Lifecycle.run_op Lifecycle.new [Lifecycle.Listen 2 true 5678 "::"])))) !! j
    = Some (Lifecycle.SaveState [x61] 10).
Proof.
  apply (Lifecycle.stop_cancels_held_loops [Lifecycle.Listen 2 true 5678 "::"] [x61] [x62] 10 20). reflexivity.
Defined.
