(* ===== verification/Cluster.v ===== *)
(** * Cluster: several nodes together

    The composition of [Protocol.v] and [Network.v]: a cluster is the map from
    addresses to the nodes that listen there.  While a node runs an operation of
    its [Server], its calls are requests to the other nodes, which handle them
    with [dispatch_request] at once, or lose the request or the answer; this is
    the instance [cluster_net] of the interface [Net], so that the definitions
    and theorems on [Server] apply as they are.  [run_move] is one step of the
    cluster: an operation of some node, a task it has spawned, or a request or an
    unasked response from an outsider.  All nodes have the same signature handler.
    [Publish.v] runs a program of the repository in a cluster. *)
From S2P Require Import Prelude Node Routing RoutingTable RoutingTableSpec Storage Text Crypto AuthHandler SigCache Crawling Protocol ProtocolSpec Network NetworkSpec.
From Stdlib Require Import Strings.Byte.
Local Open Scope Z_scope.

(** What happens to a message. *)
Inductive Fate := Delivered | RequestLost | ResponseLost.

(** The fields that the code declares as 20-byte arrays have 20 bytes; a message
    in which they have not does not exist. *)
Definition well_typed (m : RpcMessage) : bool :=
  match m with
  | Ping i | Pong i | Leave i => Nat.eqb (length i) ID_LEN
  | Store i k _ | UpdateStatusList i k _ | FindNode i k | FindValue i k
  | Update i k _ _ | Delete i k _ _ => Nat.eqb (length i) ID_LEN && Nat.eqb (length k) ID_LEN
  | _ => true
  end.

Lemma well_typed_wf m : well_typed m = true -> msg_wf m.
Proof. destruct m; simpl; rewrite ?andb_true_iff, ?Nat.eqb_eq; done. Qed.

Section cluster.
Context `{US : UnstableSort} `{HO : HashOrder} `{HA : Hashes} `{NA : NetAddr}.
Context {S : Type} `{IS : IStorage S}.
Context {Hd E : Type} `{SH : SignatureVerifierHandler Hd E}.
Context {C : Type} `{MC : Moka C}.

Local Abbreviation proto := (KademliaProtocol S Hd C).

(** ** The network of a cluster, seen from one of its nodes *)

Record Seat := mkSeat {
  own : proto;
  self : SocketAddr;
  others : gmap SocketAddr proto;
  fate : nat -> Fate;
  sent : nat
}.

Definition set_own (r : Seat) (p : proto) : Seat := mkSeat p (self r) (others r) (fate r) (sent r).
Definition set_others (r : Seat) (m : gmap SocketAddr proto) : Seat :=
  mkSeat (own r) (self r) m (fate r) (sent r).

(** The request [m] of this node arrives at the address [a].  A node whose
    handler does not return is gone. *)
Definition deliver (now : Z) (r : Seat) (a : SocketAddr) (m : RpcMessage) : Seat * option RpcMessage :=
  if decide (a = self r) then
    match dispatch_request now m (self r) (own r) with
    | Some (resp, p) => (set_own r p, resp)
    | None => (r, None)
    end
  else
    match others r !! a with
    | Some p =>
        match dispatch_request now m (self r) p with
        | Some (resp, p) => (set_others r (<[a := p]> (others r)), resp)
        | None => (set_others r (delete a (others r)), None)
        end
    | None => (r, None)
    end.

Definition cluster_send (now : Z) (r : Seat) (a : SocketAddr) (m : RpcMessage) : Seat * option RpcMessage :=
  let r' := mkSeat (own r) (self r) (others r) (fate r) (Datatypes.S (sent r)) in
  if negb (well_typed m) then (r', None)
  else match fate r (sent r) with
  | RequestLost => (r', None)
  | Delivered => deliver now r' a m
  | ResponseLost => (fst (deliver now r' a m), None)
  end.

#[global] Program Instance cluster_net : Net Seat S Hd C := {
  rproto := own;
  set_rproto := set_own;
  send := cluster_send
}.
Next Obligation. done. Qed.

(** ** The cluster *)

Local Abbreviation cluster := (gmap SocketAddr proto).

(** The server of the node at [a], with the others around it; [listen] gives
    server and protocol the same node and bucket size. *)
Definition sit (al : nat) (cl : cluster) (fate : nat -> Fate) (a : SocketAddr) (p : proto) : Server Seat :=
  mkServer (tksize (router p)) al (source_node p) true (mkSeat p a (delete a cl) fate 0).

Definition rise (r : Seat) : cluster := <[self r := own r]> (others r).

(** A spawned task of the node: its request, if it makes one, and its end. *)
Definition task_request (t : Task) (p : proto) : option (SocketAddr * RpcMessage) :=
  match t with
  | WelcomeIfNew _ => None
  | PingNode n => '(i, q) ← address n; a ← parse_addr i q; Some (a, Ping (id (source_node p)))
  | StoreRpc n key value => to_peer n (fun i => Store i key value) p
  end.

Definition run_task_in (now : Z) (t : Task) (r : Seat) : option Seat :=
  let req := task_request t (own r) in
  let '(r, answer) :=
    match req with
    | Some (a, m) => cluster_send now r a m
    | None => (r, None)
    end in
  p ← run_task (fun _ _ => answer) now t (on_answer req answer (own r));
  Some (set_own r p).

Inductive action :=
| AGet (key : bytes)
| ASet (key value : bytes)
| AUpdate (key value : bytes) (auth_signature : option bytes)
| ADelete (key auth_signature delete_msg : bytes)
| ABootstrap (addrs : list (string * Z))
| ARefresh (gen_range : nat -> Z -> Z -> Z)
| ATask (i : nat)
| ARequest (from : SocketAddr) (m : RpcMessage)
| AResponse (from : SocketAddr) (m : RpcMessage).

(** What the node's user gets, or the node's answer to an outsider. *)
Inductive outcome :=
| OValue (v : option bytes)
| OAnswer (r : option bool)
| ONodes (ns : list Node)
| OReply (r : option RpcMessage)
| ODone.

(** The cluster after the action; a node whose handler or task does not return
    is gone.  [None]: a lookup ran out of fuel. *)
Definition run_action (fuel : nat) (now : Z) (act : action) (s : Server Seat) : option (outcome * cluster) :=
  match act with
  | AGet key => '(v, s) ← server_get fuel now key s; Some (OValue v, rise (running s))
  | ASet key value => '(b, s) ← server_set fuel now key value s; Some (OAnswer b, rise (running s))
  | AUpdate key value auth => '(b, s) ← server_update fuel now key value auth s; Some (OAnswer b, rise (running s))
  | ADelete key auth msg => '(b, s) ← server_delete fuel now key auth msg s; Some (OAnswer b, rise (running s))
  | ABootstrap addrs => '(ns, s) ← bootstrap fuel now addrs s; Some (ONodes ns, rise (running s))
  | ARefresh gen => s ← refresh gen fuel now s; Some (ODone, rise (running s))
  | ATask i =>
      match spawned (own (running s)) !! i with
      | None => Some (ODone, rise (running s))
      | Some t =>
          match run_task_in now t (set_own (running s) (unspawn i (own (running s)))) with
          | Some r => Some (ODone, rise r)
          | None => Some (ODone, others (running s))
          end
      end
  | ARequest from m =>
      if negb (well_typed m) then Some (OReply None, rise (running s))
      else match dispatch_request now m from (own (running s)) with
      | Some (resp, p) => Some (OReply resp, rise (set_own (running s) p))
      | None => Some (OReply None, others (running s))
      end
  | AResponse from m => Some (ODone, rise (set_own (running s) (on_response from m (own (running s)))))
  end.

(** One step of the cluster: the node at [a] acts at time [now]. *)
Record move := mkMove {
  mnow : Z;
  mfate : nat -> Fate;
  mwho : SocketAddr;
  mact : action
}.

Definition run_move (fuel al : nat) (mv : move) (cl : cluster) : option (outcome * cluster) :=
  match cl !! mwho mv with
  | None => Some (ODone, cl)
  | Some p =>
      run_action fuel (mnow mv) (mact mv) (sit al cl (mfate mv) (mwho mv) p)
  end.

Fixpoint run_moves (fuel al : nat) (mvs : list move) (cl : cluster) : option (list outcome * cluster) :=
  match mvs with
  | [] => Some ([], cl)
  | mv :: mvs =>
      '(o, cl) ← run_move fuel al mv cl;
      '(os, cl) ← run_moves fuel al mvs cl;
      Some (o :: os, cl)
  end.

End cluster.
Arguments Seat {_} S Hd C.

(** The nodes by their address. *)
Abbreviation cluster S Hd C := (gmap SocketAddr (KademliaProtocol S Hd C)).

(** ** Safety of the whole cluster *)

Section cluster_spec.
Context `{US : UnstableSort} `{HO : HashOrder} `{HA : Hashes} `{NA : NetAddr}.
Context {S : Type} `{SL : StorageLaws S}.
Context {Hd E : Type} `{HL : HandlerLaws Hd E}.
Context {C : Type} `{MC : Moka C}.

Local Abbreviation proto := (KademliaProtocol S Hd C).

Definition cluster_inv (h : Hd) (t : Z) (cl : cluster S Hd C) : Prop :=
  map_Forall (fun _ p => proto_inv h (t, p)) cl.

Lemma cluster_inv_later h t t' cl : t <= t' -> cluster_inv h t cl -> cluster_inv h t' cl.
Proof.
  intros Hle Hc a p Hp. eapply (proto_inv_same h t t' p); [done|apply (Hc a p Hp)|done|by apply (Hc a)].
Qed.

Lemma cluster_inv_insert h t cl a p :
  cluster_inv h t cl -> proto_inv h (t, p) -> cluster_inv h t (<[a := p]> cl).
Proof. intros Hc Hp b q Hq. apply lookup_insert_Some in Hq as [[_ <-]|[_ Hq]]; [done|by apply (Hc b)]. Qed.

Lemma cluster_inv_delete h t cl a : cluster_inv h t cl -> cluster_inv h t (delete a cl).
Proof. intros Hc b q Hq. apply lookup_delete_Some in Hq as [_ Hq]. by apply (Hc b). Qed.

Lemma dispatch_inv h t m peer (p : proto) resp p' :
  proto_inv h (t, p) -> msg_wf m -> dispatch_request t m peer p = Some (resp, p') -> proto_inv h (t, p').
Proof. intros Hi Hm Hd'. eapply step_inv; [exact Hi|]. eapply step_request; [lia|exact Hm|exact Hd']. Qed.

Lemma deliver_inv h t (r : Seat S Hd C) a m :
  proto_inv h (t, own r) -> cluster_inv h t (others r) -> msg_wf m ->
  proto_inv h (t, own (fst (deliver t r a m))) /\ cluster_inv h t (others (fst (deliver t r a m))).
Proof.
  intros Ho Hc Hm. unfold deliver. case_decide.
  - destruct (dispatch_request t m (self r) (own r)) as [[resp p]|] eqn:Ed; [|done].
    split; [by eapply dispatch_inv|done].
  - destruct (others r !! a) as [p|] eqn:Ea; [|done].
    destruct (dispatch_request t m (self r) p) as [[resp p']|] eqn:Ed; (split; [done|]); simpl.
    + apply cluster_inv_insert; [done|]. eapply dispatch_inv; [by apply (Hc a)|exact Hm|exact Ed].
    + by apply cluster_inv_delete.
Qed.

#[global] Instance cluster_net_safe : NetSafe (Seat S Hd C).
Proof.
  refine {| net_ok h t (r : Seat S Hd C) := cluster_inv h t (others r) |}.
  - intros h t t' r. apply cluster_inv_later.
  - done.
  - intros h t r a m Ho Hc. simpl in *. unfold cluster_send.
    destruct (well_typed m) eqn:Hm; simpl; [|done]. apply well_typed_wf in Hm.
    pose proof (deliver_inv h t (mkSeat (own r) (self r) (others r) (fate r) (Datatypes.S (sent r))) a m Ho Hc Hm).
    by destruct (fate r (sent r)).
Defined.

Lemma sit_inv h t al cl f a p : cluster_inv h t cl -> cl !! a = Some p -> server_inv h t (sit al cl f a p).
Proof. intros Hc Ha. split; [by apply (Hc a)|]. by apply cluster_inv_delete. Qed.

Lemma rise_inv h t (r : Seat S Hd C) : run_inv h t r -> cluster_inv h t (rise r).
Proof. intros [Ho Hc]. by apply cluster_inv_insert. Qed.

Lemma run_task_in_inv h t task (r r' : Seat S Hd C) :
  run_inv h t r -> task_wf task -> run_task_in t task r = Some r' -> run_inv h t r'.
Proof.
  intros Hr Ht. unfold run_task_in.
  assert (run_inv h t (fst (match task_request task (own r) with Some (a, m) => cluster_send t r a m | None => (r, None) end))) as Hs.
  { destruct (task_request task (own r)) as [[a m]|]; [|done]. destruct Hr as [Ho Hc]. exact (net_send h t r a m Ho Hc). }
  destruct (match task_request task (own r) with Some (a, m) => cluster_send t r a m | None => (r, None) end) as [r1 answer].
  cbn [fst] in Hs. set (p1 := on_answer _ answer (own r1)).
  assert (proto_inv h (t, p1)) as Hp1 by apply on_answer_inv, Hs.
  destruct (run_task _ t task p1) as [p|] eqn:Er; [|done]. intros [= <-].
  split; [|apply Hs]. simpl in *. pose proof (pi_wf _ _ Hp1) as Hw.
  eapply (proto_inv_same h t t p1); [lia|by eapply run_task_wf|by eapply run_task_same|done].
Qed.

Lemma unspawn_inv h t i (p : proto) : proto_inv h (t, p) -> proto_inv h (t, unspawn i p).
Proof. intros [Hw Hh Hca Hs]. split; [by apply unspawn_wf|done..]. Qed.

(** An operation that returns, with its specification. *)
Ltac api_case returns spec :=
  let Hs := fresh "Hs" in let Eg := fresh "Eg" in let x := fresh "x" in
  pose proof spec as Hs; destruct returns as [x Eg]; rewrite Eg in *; try destruct x as [? ?]; simpl in *;
  do 2 eexists; split; [reflexivity|]; split; [by apply rise_inv; try apply Hs|naive_solver].

Lemma run_action_inv `{!HashLaws} h now act (s : Server (Seat S Hd C)) :
  server_inv h now s ->
  exists o cl, run_action CRAWL_FUEL now act s = Some (o, cl) /\ cluster_inv h now cl /\
    forall v, o = OValue (Some v) -> authentic h v.
Proof.
  intros Hi. destruct act as [key|key value|key value auth|key auth msg|addrs|gen|i|from m|from m]; simpl.
  - api_case (server_get_returns h now key s Hi) (server_get_spec h CRAWL_FUEL now key s Hi).
  - api_case (server_set_returns h now key value s Hi) (server_set_spec h CRAWL_FUEL now key value s Hi).
  - api_case (server_update_returns h now key value auth s Hi) (server_update_spec h CRAWL_FUEL now key value auth s Hi).
  - api_case (server_delete_returns h now key auth msg s Hi) (server_delete_spec h CRAWL_FUEL now key auth msg s Hi).
  - api_case (bootstrap_returns h now addrs s Hi) (bootstrap_spec h CRAWL_FUEL now addrs s Hi).
  - api_case (refresh_returns h gen now s Hi) (refresh_spec h gen CRAWL_FUEL now s Hi).
  - destruct (spawned (own (running s)) !! i) as [t|] eqn:Ei; [|do 2 eexists; by split_and!; [|apply rise_inv|]].
    assert (run_inv h now (set_own (running s) (unspawn i (own (running s))))) as Hu.
    { split; [|apply Hi]. apply unspawn_inv, Hi. }
    assert (task_wf t) as Ht by exact (proj1 (Forall_lookup _ _) (pw_tasks _ (pi_wf _ _ (proj1 Hi))) i t Ei).
    destruct (run_task_in now t _) as [r|] eqn:Er; do 2 eexists; (split; [done|]); (split; [|done]).
    + by eapply rise_inv, run_task_in_inv.
    + apply Hi.
  - destruct (well_typed m) eqn:Hm; simpl; [|do 2 eexists; by split_and!; [|apply rise_inv|]].
    apply well_typed_wf in Hm.
    destruct (dispatch_request now m from (own (running s))) as [[resp p]|] eqn:Ed;
      do 2 eexists; (split; [done|]); (split; [|done]); [|apply Hi].
    apply rise_inv. split; [|apply Hi]. by eapply dispatch_inv; [apply Hi| |].
  - do 2 eexists. split; [done|]. split; [|done]. apply rise_inv. split; [|apply Hi].
    apply (on_answer_inv h now _ (Some (from, m)) (Some m)), Hi.
Qed.

End cluster_spec.

(** Moves in the order of time, and the time of the last one. *)
Fixpoint times_ok `{NetAddr} (t : Z) (mvs : list move) : Prop :=
  match mvs with [] => True | mv :: mvs => t <= mnow mv /\ times_ok (mnow mv) mvs end.

Fixpoint end_time `{NetAddr} (t : Z) (mvs : list move) : Z :=
  match mvs with [] => t | mv :: mvs => end_time (mnow mv) mvs end.

Section publish.
Context `{US : UnstableSort} `{HO : HashOrder} `{HA : Hashes} `{NA : NetAddr}.
Context {S : Type} `{SL : StorageLaws S}.
Context {Hd E : Type} `{HL : HandlerLaws Hd E}.
Context {C : Type} `{MC : Moka C}.

Local Abbreviation proto := (KademliaProtocol S Hd C).
Local Abbreviation seat := (Seat S Hd C).

Lemma run_moves_inv `{!HashLaws} h t al mvs (cl : cluster S Hd C) :
  cluster_inv h t cl -> times_ok t mvs ->
  exists os cl', run_moves CRAWL_FUEL al mvs cl = Some (os, cl') /\ cluster_inv h (end_time t mvs) cl' /\
    forall v, OValue (Some v) ∈ os -> authentic h v.
Proof.
  revert t cl. induction mvs as [|mv mvs IH]; intros t cl Hc Hts; cbn [run_moves end_time times_ok] in *.
  - exists [], cl. split_and!; [done|done|]. intros v Hv. by apply elem_of_nil in Hv.
  - destruct Hts as [Hle Hts]. apply (cluster_inv_later h t (mnow mv)) in Hc; [|done].
    assert (exists o cl1, run_move CRAWL_FUEL al mv cl = Some (o, cl1) /\ cluster_inv h (mnow mv) cl1 /\
      forall v, o = OValue (Some v) -> authentic h v) as (o & cl1 & -> & Hc1 & Ho).
    { unfold run_move. destruct (cl !! mwho mv) as [p|] eqn:Ea; [|by do 2 eexists].
      by apply run_action_inv, sit_inv. }
    cbn [mbind option_bind]. destruct (IH (mnow mv) cl1 Hc1 Hts) as (os & cl2 & -> & Hc2 & Hos).
    cbn [mbind option_bind]. do 2 eexists. split; [done|]. split; [done|].
    intros v [E'|Hv]%elem_of_cons; [by apply Ho|by apply Hos].
Qed.

(** C3: every record of a cluster is authentic.  Starting from nodes that
    satisfy the node invariant, any sequence of moves in the order of time
    (operations by the users of any node, spawned tasks, requests and unasked
    responses from outsiders, with any messages lost) runs to its end, every value a [get]
    returns is authentic, and so is every live record that any node then holds. *)
Theorem cluster_records_authentic `{!HashLaws} (h : Hd) (t : Z) (al : nat) (mvs : list move) (cl : cluster S Hd C) :
  cluster_inv h t cl -> times_ok t mvs ->
  exists os cl', run_moves CRAWL_FUEL al mvs cl = Some (os, cl') /\
    (forall v, OValue (Some v) ∈ os -> authentic h v) /\
    (forall a p now key v, cl' !! a = Some p -> end_time t mvs <= now ->
       get now (storage p) key = Some v -> authentic h v).
Proof.
  intros Hc Hts. destruct (run_moves_inv h t al mvs cl Hc Hts) as (os & cl' & Hr & Hc' & Hos).
  exists os, cl'. split_and!; [done|done|]. intros a p now key v Ha Hle Hg.
  by apply (pi_storage _ _ (Hc' a p Ha) now key).
Qed.

(** ** A published record is stored *)

(** Some node of the network, this one included, holds [v] under [k]. *)
Definition held (now : Z) (k v : bytes) (r : seat) : Prop :=
  get now (storage (own r)) k = Some v \/
  exists a p, a <> self r /\ others r !! a = Some p /\ get now (storage p) k = Some v.

(** Storing the pair again changes nothing where it is held. *)
Lemma store_keeps now i peer k v (p : proto) resp p' :
  dispatch_request now (Store i k v) peer p = Some (resp, p') ->
  (get now (storage p) k = Some v -> get now (storage p') k = Some v) /\
  (resp = Some (StoreResult true) -> get now (storage p') k = Some v).
Proof.
  simpl. pose proof (rpc_store_cases now i (addr_ip peer, addr_port peer) k v p) as Hc.
  destruct (rpc_store now i _ k v p) as [b p1]. intros [= <- <-].
  destruct Hc as (Hok & Hyes & Hno & _). split; [|intros [= ->]; by apply Hyes].
  intros Hg. destruct b; [by apply Hyes|]. by rewrite Hno.
Qed.

Lemma store_send now i a k v (r : seat) :
  let x := cluster_send now r a (Store i k v) in
  (held now k v r -> held now k v (fst x)) /\ (snd x = Some (StoreResult true) -> held now k v (fst x)).
Proof.
  assert (forall r, let x := deliver now r a (Store i k v) in
    (held now k v r -> held now k v (fst x)) /\ (snd x = Some (StoreResult true) -> held now k v (fst x))) as Hd'.
  { clear r. intros r. unfold deliver. case_decide.
    - destruct (dispatch_request _ _ _ (own r)) as [[resp p]|] eqn:Ed; [|done].
      destruct (store_keeps _ _ _ _ _ _ _ _ Ed) as [Hk Hy]. unfold held. simpl. naive_solver.
    - destruct (others r !! a) as [p|] eqn:Ea; [|done].
      destruct (dispatch_request _ _ _ p) as [[resp p']|] eqn:Ed.
      + destruct (store_keeps _ _ _ _ _ _ _ _ Ed) as [Hk Hy]. unfold held. simpl. split.
        * intros [Ho|(b & q & Hne & Hb & Hg)]; [by left|right]. destruct (decide (a = b)) as [<-|].
          -- exists a, p'. rewrite lookup_insert_eq. naive_solver.
          -- exists b, q. by rewrite lookup_insert_ne.
        * intros Hr. right. exists a, p'. rewrite lookup_insert_eq. auto.
      + exfalso. simpl in Ed. by destruct (rpc_store now i _ k v p). }
  unfold cluster_send. destruct (negb _); [done|]. set (r' := mkSeat _ _ _ _ _).
  destruct (Hd' r') as [Hk Hy]. destruct (fate r (sent r)); [by split|done|by split].
Qed.

Lemma store_call_held now k v n (r : seat) :
  let x := one_call now (store_call n k v) r in
  (held now k v r -> held now k v (snd x)) /\ (fst x = true -> held now k v (snd x)).
Proof.
  assert (forall answer (p : proto), storage (snd (call_store_rpc (fun _ _ => answer) n k v p)) = storage p) as Hs.
  { intros. unfold call_store_rpc. by repeat case_match. }
  assert (forall answer (p : proto), fst (call_store_rpc (fun _ _ => answer) n k v p) = true ->
    answer = Some (StoreResult true)) as Ht.
  { intros answer p. unfold call_store_rpc. repeat case_match; naive_solver. }
  assert (forall r' req answer, held now k v r' ->
    held now k v (set_own r' (snd (call_store_rpc (fun _ _ => answer) n k v (on_answer req answer (own r')))))) as Hset.
  { intros r' req answer [Ho|Hx]; [left|by right]. simpl. rewrite Hs. by rewrite (proj1 (on_answer_same req answer (own r'))). }
  unfold one_call. cbn [request finish store_call rproto set_rproto send cluster_net].
  unfold to_peer. destruct (peer_sock_addr n) as [a|] eqn:Ea; cbn [mbind option_bind].
  - destruct (store_send now (id (source_node (own r))) a k v r) as [Hk Hy].
    destruct (cluster_send now r a _) as [r1 answer]. cbn [fst snd] in *.
    set (req := Some (a, _)). specialize (Hset r1 req answer). specialize (Ht answer (on_answer req answer (own r1))).
    destruct (call_store_rpc _ n k v (on_answer req answer (own r1))) as [b p]. cbn [fst snd] in *. split; [auto|]. intros ->.
    apply Hset, Hy, Ht. done.
  - specialize (Hset r None None). specialize (Ht None (on_answer None None (own r))).
    destruct (call_store_rpc _ n k v (on_answer None None (own r))) as [b p]. cbn [fst snd] in *. split; [auto|]. intros ->. by specialize (Ht eq_refl).
Qed.

Lemma call_each_held now k v ns (r : seat) :
  let x := call_each now (fun n => store_call n k v) ns r in
  (held now k v r -> held now k v (snd x)) /\ (true ∈ fst x -> held now k v (snd x)).
Proof.
  revert r. induction ns as [|n ns IH]; intros r; cbn [call_each].
  { split; [done|]. intros Hx%elem_of_nil. done. }
  destruct (store_call_held now k v n r) as [Hk Hy]. destruct (one_call now _ r) as [b r1].
  destruct (IH r1) as [Hk1 Hy1]. destruct (call_each now _ ns r1) as [bs r2]. cbn [fst snd] in *.
  split; [auto|]. intros [E'|Hb]%elem_of_cons; auto.
Qed.

(** In a cluster, whatever messages are lost, when [set] answers [Some true]
    some node holds the value under the key's digest. *)
Lemma set_true_held (fuel : nat) (now : Z) (key value : bytes) (s s' : Server seat) :
  server_set fuel now key value s = Some (Some true, s') ->
  held now (digest key) value (running s').
Proof.
  unfold server_set. intros ([[ex nodes] s1] & _ & Hs)%bind_Some. destruct ex; [done|].
  destruct (verify_value now key value s1) as [ok s2]. destruct ok; [|done]. cbn [negb] in Hs.
  unfold set_digest in Hs. destruct (negb (listening s2)); [done|]. destruct nodes as [|n nodes]; [done|].
  unfold call_nodes in Hs.
  destruct (call_each_held now (digest key) value (n :: nodes)
    (running (store_locally now (digest key) value (n :: nodes) s2))) as [_ Hy].
  destruct (call_each now _ (n :: nodes) _) as [oks r]. cbn [fst snd] in Hy. injection Hs as Hs <-. apply Hy.
  apply Nat.ltb_lt in Hs. destruct (filter _ oks) as [|b l] eqn:Ef; [simpl in Hs; lia|].
  assert (b ∈ filter (fun r => r = true) oks) as Hb by (rewrite Ef; apply list_elem_of_here).
  apply list_elem_of_filter in Hb as [-> Hb]. done.
Qed.

(** C11: a published record can be read.  In a cluster of nodes that satisfy the
    node invariant, whatever messages are lost: when [set] answers [Some true] for
    a value that verifies, some node then answers [get] for that key, at that
    time, with that value. *)
Theorem published_record_readable `{!HashLaws} (h : Hd) (fuel al : nat) (now : Z) (f : nat -> Fate)
    (a : SocketAddr) (key value : bytes) (cl cl' : cluster S Hd C) :
  cluster_inv h now cl ->
  run_move fuel al (mkMove now f a (ASet key value)) cl = Some (OAnswer (Some true), cl') ->
  verify_record h (bool_decide (key = STATUS_LIST_KEY)) value = true ->
  exists b, forall fuel' f', exists cl'',
    run_move fuel' al (mkMove now f' b (AGet key)) cl' = Some (OValue (Some value), cl'').
Proof.
  intros Hc Hset Hv. unfold run_move in Hset. cbn [mwho mnow mfate mact] in Hset.
  destruct (cl !! a) as [p|] eqn:Ea; [|done]. simpl in Hset.
  apply bind_Some in Hset as ([res s'] & Hs & [= -> <-]).
  pose proof (server_set_spec h fuel now key value (sit al cl f a p) (sit_inv h now al cl f a p Hc Ea)) as Hspec.
  rewrite Hs in Hspec. pose proof (rise_inv h now (running s') (proj1 Hspec)) as Hc'.
  assert (exists b q, rise (running s') !! b = Some q /\ get now (storage q) (digest key) = Some value) as (b & q & Hb & Hq).
  { destruct (set_true_held fuel now key value _ s' Hs) as [Ho|(b & q & Hne & Hb & Hq)].
    - exists (self (running s')), (own (running s')). split; [apply lookup_insert_eq|done].
    - exists b, q. split; [|done]. unfold rise. by rewrite lookup_insert_ne. }
  exists b. intros fuel' f'. unfold run_move. cbn [mwho mnow mfate mact]. rewrite Hb.
  destruct (local_get h fuel' now key value (sit al (rise (running s')) f' b q)) as (s2 & Hg & _);
    [by apply sit_inv|done|done|].
  eexists. simpl. by rewrite Hg.
Qed.

End publish.

(** ** Two nodes *)

#[local] Existing Instances demo_hashes demo_hash_laws demo_handler demo_laws plain_addr.

Definition addr_a : SocketAddr := ("10.0.0.1"%string, 9000).
Definition addr_b : SocketAddr := ("10.0.0.2"%string, 9000).

(** The first knows the second, which knows nobody. *)
Definition two_nodes : cluster ForgetfulStorage unit SimpleCache :=
  <[addr_a := rproto (running (demo_server_peer []))]>
    {[addr_b := KademliaProtocol_new 0 (from_id (demo_key 2)) (server_storage None) 2 tt (Some (SignatureCache_new 4096))]}.

Lemma two_nodes_inv : cluster_inv tt 0 two_nodes.
Proof.
  apply cluster_inv_insert; [|apply demo_server_peer_inv]. intros a p Hp.
  apply lookup_singleton_Some in Hp as [_ <-]. split; simpl; try done.
  - apply proto_wf_new; [by split|lia].
  - intros c [= <-]. apply (cache_sound_new (C := SimpleCache)).
Qed.

Definition demo_moves : list move :=
  [mkMove 1 (fun _ => Delivered) addr_a (ASet demo_did [x01; x41]);
   mkMove 2 (fun _ => RequestLost) addr_b (AGet demo_did);
   mkMove 3 (fun _ => Delivered) addr_b (ARequest addr_a (Ping (demo_key 7)));
   mkMove 4 (fun _ => ResponseLost) addr_b (ATask 0)].

Lemma cluster_records_authentic_witness :
  exists os cl', run_moves CRAWL_FUEL 3 demo_moves two_nodes = Some (os, cl') /\
    (forall v, OValue (Some v) ∈ os -> authentic tt v).
Proof.
  destruct (cluster_records_authentic tt 0 3 demo_moves two_nodes two_nodes_inv) as (os & cl' & E & Hv & _).
  - simpl. lia.
  - exists os, cl'. split; [exact E|exact Hv].
Defined.

(** The record stored by the first node is read from the second. *)
Definition demo_publish : option (outcome * cluster ForgetfulStorage unit SimpleCache) :=
  run_move 3 3 (mkMove 0 (fun _ => Delivered) addr_a (ASet demo_did [x01; x41])) two_nodes.

Definition demo_published : cluster ForgetfulStorage unit SimpleCache :=
  match demo_publish with Some (_, cl) => cl | None => ∅ end.

Lemma demo_publish_ok : demo_publish = Some (OAnswer (Some true), demo_published).
Proof.
  assert (fst <$> demo_publish = Some (OAnswer (Some true))) as H by (vm_compute; reflexivity).
  unfold demo_published. destruct demo_publish as [[o cl]|]; [|discriminate H]. by injection H as ->.
Qed.

Lemma published_record_readable_witness :
  exists b, forall fuel' f', exists cl'',
    run_move fuel' 3 (mkMove 0 f' b (AGet demo_did)) demo_published = Some (OValue (Some [x01; x41]), cl'').
Proof.
  apply (published_record_readable tt 3 3 0 (fun _ => Delivered) addr_a demo_did [x01; x41] two_nodes demo_published
    two_nodes_inv).
  - exact demo_publish_ok.
  - vm_compute. reflexivity.
Defined.
