(* ===== verification/Reliable.v ===== *)
(** * Reliable: a cluster that loses nothing

    The safety theorems hold whatever the network does.  This file shows what it
    does when it works: in a cluster ([Cluster.v]) in which no message is lost and
    every node knows every other, a [set] of a valid record under a free key
    succeeds, and every node then finds the record with [get].  First the value
    lookup ([src/src/crawling.rs]) over peers that all answer; then the handlers of
    [src/src/protocol.rs] on the nodes of such a cluster; then the operations of
    [src/src/network.rs]. *)
From S2P Require Import Prelude Node Routing RoutingTable RoutingTableSpec Storage Text Crypto AuthHandler SigCache Crawling Protocol ProtocolSpec Network NetworkSpec Cluster.
From Stdlib Require Import Strings.Byte.
Local Open Scope Z_scope.

(** ** Lookups among peers that answer *)

Definition heap_in (G : Node -> Prop) (h : NodeHeap) : Prop := Forall (fun e => G (node e)) (heap h).

Definition heap_ids (h : NodeHeap) : list bytes := entry_id <$> heap h.

Section heaps.
Context `{UnstableSort}.

Lemma push_heap_in (G : Node -> Prop) h ns : heap_in G h -> Forall G ns -> heap_in G (push h ns).
Proof.
  intros Hh Hns. apply Forall_forall. intros e He%enforce_maxsize_sub.
  destruct (fold_push_spec ns h) as [x [Eh _ _ _ Ex _ _]]. rewrite Eh in He.
  apply elem_of_app in He as [He|He]; [by apply (proj1 (Forall_forall _ _) Hh)|].
  destruct (proj1 (Forall_forall _ _) Ex e He) as [Hn _]. by apply (proj1 (Forall_forall _ _) Hns).
Qed.

Lemma push_nonempty h ns n :
  heap_wf h -> Forall wf_node ns -> (0 < maxsize h)%nat -> n ∈ (node <$> heap h) ++ ns -> heap (push h ns) <> [].
Proof.
  intros Hw Hns Hk Hn E. destruct (push_closest h ns n Hw Hns Hn) as [Hin|[Hl _]]; rewrite E in *.
  - by apply elem_of_nil in Hin.
  - simpl in Hl. lia.
Qed.

(** A heap with room for all identifiers in sight forgets none. *)
Lemma push_room (U : gset bytes) h ns n :
  heap_wf h -> Forall wf_node ns -> Forall (fun e => entry_id e ∈ U) (heap h) -> Forall (fun n => id n ∈ U) ns ->
  (size U <= maxsize h)%nat -> n ∈ (node <$> heap h) ++ ns -> id n ∈ heap_ids (push h ns).
Proof.
  intros Hw Hns Hh HU Hs Hn. destruct (push_closest h ns n Hw Hns Hn) as [Hin|[Hl _]]; [done|].
  destruct (decide (id n ∈ heap_ids (push h ns))) as [|Hno]; [done|exfalso].
  assert (list_to_set (C := gset bytes) (heap_ids (push h ns)) ⊆ U ∖ {[id n]}) as Hsub%subseteq_size.
  { intros i Hi%elem_of_list_to_set. apply elem_of_difference. split; [|set_solver].
    apply list_elem_of_fmap in Hi as (e & -> & He). by apply (proj1 (Forall_forall _ _) (push_in U h ns Hh HU)). }
  rewrite size_list_to_set in Hsub by apply (push_wf h ns Hw Hns). unfold heap_ids in Hsub. rewrite length_fmap, Hl in Hsub.
  assert (id n ∈ U) as HnU.
  { apply elem_of_app in Hn as [(e & -> & He)%list_elem_of_fmap|Hn];
      [by apply (proj1 (Forall_forall _ _) Hh)|by apply (proj1 (Forall_forall _ _) HU)]. }
  assert (size (U ∖ {[id n]}) < size U)%nat by (apply subset_size; set_solver). lia.
Qed.

End heaps.

Section reliable_crawl.
Context `{UnstableSort} `{HashOrder} {P : Type} `{SpiderProtocol P}.

(** [J] holds of the network, [G] of the peers; of these the ones that [hold]
    names hold the value [V] of the target [T]. *)
Variables (J : P -> Prop) (G : Node -> Prop) (hold : bytes -> bool) (V : bytes) (T : Node).

(** The answer of the peer [i]. *)
Definition answer_ok (i : bytes) (r : RawResponse) : Prop :=
  happened r = true /\ get_value r = (if hold i then Some V else None) /\ Forall G (get_node_list r).

Definition peers_answer : Prop :=
  forall p n, J p -> G n -> J (fst (call_find_value p n T)) /\ answer_ok (id n) (snd (call_find_value p n T)).

Variable Hans : peers_answer.
Variable HGwf : forall n, G n -> wf_node n.

Lemma call_all_ok p peers :
  J p -> Forall G peers ->
  J (fst (call_all call_find_value T p peers)) /\
  Forall (fun ir => answer_ok (fst ir) (snd ir)) (snd (call_all call_find_value T p peers)) /\
  (snd (call_all call_find_value T p peers)).*1 = id <$> peers.
Proof.
  intros Hj Hp. revert p Hj. induction Hp as [|n peers Hn _ IH]; intros p Hj; simpl; [done|].
  destruct (Hans p n Hj Hn) as [Hj1 Hr]. destruct (call_find_value p n T) as [p1 r].
  destruct (IH p1 Hj1) as (Hj2 & Hrs & Eids). destruct (call_all _ T p1 peers) as [p2 rs]. cbn [fst snd] in *.
  split_and!; [done|by constructor|]. rewrite fmap_cons. by f_equal.
Qed.

Lemma has_value_get r : has_value r = bool_decide (is_Some (get_value r)).
Proof. unfold has_value, get_value. by destruct (payload r). Qed.

(** What the answers of a round make of the heaps and the values found. *)
Record responses_rel (h nwv h' nwv' : NodeHeap) (rem found found' : list bytes) (rs : list (bytes * RawResponse)) : Prop := {
  rs_heap : heap_in G h';
  rs_nwv : heap_in G nwv';
  rs_remove : rem = [];
  rs_found : Forall (fun w => w = V) found';
  rs_none : found' = [] -> found = [] /\ Forall (fun ir => hold (fst ir) = false) rs;
  rs_some : Forall (fun ir => hold (fst ir) = false) rs -> found' = found;
  rs_nonempty : (0 < maxsize h)%nat -> heap h <> [] -> heap h' <> [];
  rs_room : forall U : gset bytes, (forall n, G n -> id n ∈ U) -> (size U <= maxsize h)%nat ->
              forall i, i ∈ heap_ids h -> i ∈ heap_ids h'
}.

Lemma value_responses_rel h nwv found rs :
  heap_wf h -> heap_wf nwv -> heap_in G h -> heap_in G nwv -> Forall (fun w => w = V) found ->
  Forall (fun ir => answer_ok (fst ir) (snd ir)) rs ->
  let '(h', nwv', rem, found') := value_responses h nwv [] found rs in
  responses_rel h nwv h' nwv' rem found found' rs.
Proof.
  intros Hw Hv Hh Hn Hf Hrs. revert h nwv found Hw Hv Hh Hn Hf.
  induction Hrs as [|[i r] rs Ha _ IH]; intros h nwv found Hw Hv Hh Hn Hf; cbn [value_responses].
  { split; try done. }
  cbn [fst snd] in Ha. destruct Ha as (Hhap & Hval & Hl). rewrite Hhap. cbn [negb]. rewrite has_value_get, Hval. destruct (hold i) eqn:Ei.
  - rewrite bool_decide_true by done.
    specialize (IH h nwv (found ++ [V]) Hw Hv Hh Hn ltac:(apply Forall_app; auto)). change (option_list (Some V)) with [V].
    destruct (value_responses h nwv [] (found ++ [V]) rs) as [[[h' nwv'] rem] found'].
    destruct IH as [I1 I2 I3 I4 I5 I6 I7 I8]. split; try done.
    + intros E'. destruct (I5 E') as [E'' _]. by destruct found.
    + intros [? _]%Forall_cons. cbn in *. congruence.
  - rewrite bool_decide_false by (intros [? [=]]).
    set (nwv1 := match get_node h i with Some peer => push_one nwv peer | None => nwv end).
    assert (heap_wf nwv1 /\ heap_in G nwv1) as [Hv1 Hn1].
    { unfold nwv1, get_node. destruct (list_find _ (heap h)) as [[j e]|] eqn:Ef; simpl; [|done].
      apply list_find_Some in Ef as (He%list_elem_of_lookup_2 & _).
      pose proof (proj1 (Forall_forall _ _) Hh e He) as Hg.
      split; [apply push_wf; [done|]|apply push_heap_in; [done|]]; apply Forall_singleton; auto. }
    pose proof (Forall_impl _ _ _ Hl HGwf) as Hlw.
    destruct (push_fields h (get_node_list r)) as (_ & _ & Em).
    specialize (IH (push h (get_node_list r)) nwv1 found (push_wf h _ Hw Hlw) Hv1 (push_heap_in G h _ Hh Hl) Hn1 Hf).
    destruct (value_responses _ nwv1 [] found rs) as [[[h' nwv'] rem] found'].
    destruct IH as [I1 I2 I3 I4 I5 I6 I7 I8]. rewrite Em in I7, I8. split; try done.
    + intros E'. destruct (I5 E') as [-> ?]. split; [done|]. by constructor.
    + intros [_ ?]%Forall_cons. auto.
    + intros Hk Hne. apply I7; [done|]. destruct (heap h) as [|e l] eqn:Eh; [done|].
      apply (push_nonempty h _ (node e)); [done..|]. rewrite Eh. left.
    + intros U HU Hs j Hj. apply (I8 U HU Hs). apply list_elem_of_fmap in Hj as (e & -> & He).
      apply (push_room U); try done.
      * eapply Forall_impl; [exact Hh|]. intros e'. apply HU.
      * eapply Forall_impl; [exact Hl|]. apply HU.
      * apply elem_of_app. left. by apply list_elem_of_fmap_2.
Qed.

(** The responses of a round: the answers of its peers, each under its identifier. *)
Lemma round_responses n (rs : list (bytes * RawResponse)) :
  Forall (fun ir => answer_ok (fst ir) (snd ir)) rs ->
  Forall (fun ir => answer_ok (fst ir) (snd ir)) (hash_iter n (map_to_list (list_to_map rs : gmap bytes RawResponse))) /\
  (Forall (fun ir => hold (fst ir) = false) (hash_iter n (map_to_list (list_to_map rs : gmap bytes RawResponse))) <->
   Forall (fun i => hold i = false) rs.*1).
Proof.
  intros Hrs. rewrite !Forall_forall in *. split_and!; [|split].
  - intros [i r] Hin. rewrite hash_iter_perm in Hin.
    apply elem_of_map_to_list, elem_of_list_to_map_2 in Hin. exact (Hrs _ Hin).
  - intros Hh i Hi. destruct ((list_to_map rs : gmap bytes RawResponse) !! i) as [r|] eqn:Er.
    + apply (Hh (i, r)). rewrite hash_iter_perm. by apply elem_of_map_to_list.
    + by apply not_elem_of_list_to_map in Er.
  - intros Hh [i r] Hin. rewrite hash_iter_perm in Hin. apply elem_of_map_to_list, elem_of_list_to_map_2 in Hin.
    apply Hh. by apply (list_elem_of_fmap_2 fst) in Hin.
Qed.

Record crawl_ok (v : ValueSpiderCrawl) : Prop := {
  co_wf : crawl_wf (base v);
  co_nwv_wf : heap_wf (nearest_without_value v);
  co_heap : heap_in G (nearest (base v));
  co_nwv : heap_in G (nearest_without_value v);
  co_target : cnode (base v) = T;
  co_contacted : forall i, i ∈ contacted (nearest (base v)) -> hold i = false
}.

Lemma round_peers_good c : crawl_wf c -> heap_in G (nearest c) -> Forall G (round_peers c).
Proof.
  intros Hw Hh. apply Forall_forall. intros n Hn. unfold round_peers in Hn.
  apply elem_of_take in Hn as (i & Hn%list_elem_of_lookup_2 & _).
  apply get_uncontacted_spec in Hn as [(e & -> & He)%list_elem_of_fmap _]; [|apply Hw].
  by apply (proj1 (Forall_forall _ _) Hh).
Qed.

Lemma known_universe c : crawl_wf c -> known_in id_universe c.
Proof.
  intros Hw. eapply Forall_impl; [exact (hw_nodes _ (cw_heap c Hw))|]. intros e He. by apply wf_in_universe.
Qed.

(** What a round does when all peers answer. *)
Record round_ok (v v' : ValueSpiderCrawl) (found : list bytes) : Prop := {
  ro_rel : round_rel id_universe (base v) (base v');
  ro_ok : found = [] -> crawl_ok v';
  ro_found : Forall (fun w => w = V) found;
  ro_nwv : heap_in G (nearest_without_value v') /\ heap_wf (nearest_without_value v');
  ro_holder : found <> [] -> exists n, G n /\ hold (id n) = true;
  ro_nonempty : (0 < cksize (base v))%nat -> heap (nearest (base v)) <> [] -> heap (nearest (base v')) <> [];
  ro_room : forall U : gset bytes, (forall n, G n -> id n ∈ U) -> (size U <= cksize (base v))%nat ->
              forall i, i ∈ heap_ids (nearest (base v)) -> i ∈ heap_ids (nearest (base v'))
}.

Lemma value_round_ok round p v :
  J p -> crawl_ok v ->
  J (value_round round p v).1.1 /\ round_ok v (value_round round p v).1.2 (value_round round p v).2.
Proof.
  intros Hj [Hw Hnw Hh Hn Et Hc].
  destruct (value_round_rel id_universe round p v Hw Hnw (known_universe _ Hw) (all_answers_in _)) as [Hrel Hnw'].
  revert Hrel Hnw'. unfold value_round, find_round. rewrite Et.
  pose proof (round_peers_good _ Hw Hh) as Hpeers.
  destruct (call_all_ok p (round_peers (base v)) Hj Hpeers) as (Hj' & Hrs & Eids).
  destruct (call_all _ T p _) as [p' rs]. cbn [fst snd nearest] in *.
  destruct (round_responses round rs Hrs) as [Hit Hhold]. rewrite Eids in Hhold.
  destruct (mark_all_fields (round_peers (base v)) (nearest (base v))) as (_ & Fh & Fm & Fc).
  pose proof (value_responses_rel (foldl mark_contacted (nearest (base v)) (round_peers (base v)))
    (nearest_without_value v) [] _ (mark_all_wf _ _ (cw_heap _ Hw)) Hnw ltac:(by unfold heap_in; rewrite Fh) Hn
    (Forall_nil_2 _) Hit) as Hr.
  destruct (value_responses _ _ [] [] _) as [[[h nwv] rem] found]. cbn [fst snd].
  destruct Hr as [I1 I2 -> I4 I5 I6 I7 I8]. intros Hrel Hnw'. split; [done|].
  unfold heap_ids in I8. rewrite Fh, Fm, (cw_size _ Hw) in I7, I8. split; cbn [base nearest_without_value set_nearest nearest]; try done.
  - intros ->. destruct (I5 eq_refl) as [_ Hno%Hhold]. split; try done; [apply Hrel|].
    intros i [Hi|Hi]%(rr_contacted _ _ _ Hrel); [by apply Hc|].
    by apply (proj1 (Forall_forall _ _) Hno).
  - intros Hne. destruct (decide (Forall (fun i => hold i = false) (id <$> round_peers (base v)))) as [Hno|Hyes].
    + by apply Hhold, I6 in Hno.
    + apply not_Forall_Exists in Hyes; [|intros ?; apply _]. apply Exists_exists in Hyes as (i & (n & -> & Hin)%list_elem_of_fmap & Hi).
      exists n. split; [by apply (proj1 (Forall_forall _ _) Hpeers)|]. by apply not_false_iff_true.
Qed.

(** The result of the lookup: the value, if a peer holds it, or else peers that were
    asked and do not, among them, if there is room, all that were known. *)
Definition lookup_ok (p : P) (v : ValueSpiderCrawl) (res : option bytes * list Node) : Prop :=
  match res with
  | (Some w, ns) => w = V /\ ns = [] /\ (exists n, G n /\ hold (id n) = true) /\
      exists q, J q /\ (p = q \/ exists n, G n /\ p = fst (call_store q n (id T) V))
  | (None, ns) => J p /\ ns <> [] /\ Forall G ns /\ Forall (fun n => hold (id n) = false) ns /\
      forall U : gset bytes, (forall n, G n -> id n ∈ U) -> (size U <= cksize (base v))%nat ->
        forall i, i ∈ heap_ids (nearest (base v)) -> i ∈ id <$> ns
  end.

Lemma to_vec_ids c i : crawl_wf c -> i ∈ id <$> to_vec (nearest c) <-> i ∈ heap_ids (nearest c).
Proof.
  intros Hw. unfold to_vec. rewrite iter_perm by apply Hw. unfold heap_ids. by rewrite <- list_fmap_compose.
Qed.

Lemma finished_ok p v :
  J p -> crawl_ok v -> have_contacted_all (nearest (base v)) = true -> heap (nearest (base v)) <> [] ->
  lookup_ok p v (None, to_vec (nearest (base v))).
Proof.
  intros Hj [Hw _ Hh _ _ Hc] Hall Hne. simpl. unfold to_vec. pose proof (cw_heap _ Hw) as Hhw.
  split_and!; [done|..].
  - intros E. pose proof (iter_perm _ Hhw) as Hp. rewrite E in Hp. apply Permutation_nil_l in Hp. by destruct (heap (nearest (base v))).
  - rewrite iter_perm by done. by apply Forall_fmap.
  - rewrite iter_perm by done. apply Forall_fmap. apply have_contacted_all_spec in Hall; [|done].
    eapply Forall_impl; [exact Hall|]. intros e. apply Hc.
  - intros U _ _ i Hi. by apply (to_vec_ids _ i Hw).
Qed.

Lemma value_find_ok fuel round p v :
  J p -> crawl_ok v -> (measure id_universe (base v) < fuel)%nat ->
  (0 < cksize (base v))%nat -> heap (nearest (base v)) <> [] ->
  exists p' v' res, value_find fuel round p v = Some (p', v', res) /\ lookup_ok p' v res.
Proof.
  revert round p v. induction fuel as [|fuel IH]; intros round p v Hj Hok Hf Hk Hne; [lia|]. cbn [value_find].
  destruct (value_round_ok round p v Hj Hok) as [Hj' [Hrel Hno Hfound [Hnwv Hnwf] Hholder Hnext Hroom]].
  destruct (value_round round p v) as [[p1 v1] found]. cbn [fst snd] in *.
  destruct found as [|w0 found].
  - specialize (Hno eq_refl). specialize (Hnext Hk Hne).
    destruct (rr_alpha _ _ _ Hrel) as (_ & Ek & _).
    destruct (have_contacted_all (nearest (base v1))) eqn:Hall.
    + do 3 eexists. split; [reflexivity|].
      destruct (finished_ok p1 v1 Hj' Hno Hall Hnext) as (F1 & F2 & F3 & F4 & F5). split_and!; try done.
      intros U HU Hs i Hi. rewrite <- Ek in Hs. apply (F5 U HU Hs), (Hroom U HU); [by rewrite <- Ek|done].
    + destruct (round_measure id_universe (base v) (base v1) (co_wf v Hok) (known_universe _ (co_wf v Hok)) Hrel) as [Hx|Hlt];
        [rewrite Hx in Hall; discriminate Hall|].
      assert (measure id_universe (base v1) < fuel)%nat as Hf1 by exact (Nat.lt_le_trans _ _ _ Hlt (proj1 (Nat.lt_succ_r _ _) Hf)).
      assert (0 < cksize (base v1))%nat as Hk1 by (rewrite Ek; exact Hk).
      destruct (IH (Datatypes.S round) p1 v1 Hj' Hno Hf1 Hk1 Hnext) as (p' & v' & [res ns] & E & Hres).
      do 3 eexists. split; [exact E|]. destruct res as [w|]; [done|].
      destruct Hres as (F1 & F2 & F3 & F4 & F5). rewrite Ek in F5. split_and!; try done.
      intros U HU Hs i Hi. apply (F5 U HU Hs), (Hroom U HU Hs i Hi).
  - destruct (Hholder ltac:(done)) as (n & Hn & Hhold).
    pose proof (majority_spec (Datatypes.S round) (w0 :: found)) as Hm.
    destruct (majority _ (w0 :: found)) as [w|]; [|done]. destruct Hm as [Hw _].
    assert (w = V) as -> by exact (proj1 (Forall_forall _ _) Hfound w Hw).
    pose proof (popleft_spec _ Hnwf) as Hpop. destruct (rr_alpha _ _ _ Hrel) as (_ & _ & Et).
    destruct (popleft _) as [nwv [peer|]]; do 3 eexists; (split; [reflexivity|]); simpl; split_and!; eauto.
    exists p1. split; [done|]. right. exists peer. rewrite Et, (co_target v Hok). split; [|done].
    destruct Hpop as (_ & Hperm & _).
    assert (peer ∈ node <$> heap (nearest_without_value v1)) as (e & -> & He)%list_elem_of_fmap by (rewrite Hperm; left).
    by apply (proj1 (Forall_forall _ _) Hnwv).
Qed.

End reliable_crawl.

(** What [find_neighbors] lists, and when it lists something. *)
Lemma find_neighbors_members `{UnstableSort} now t target exclude :
  table_wf t -> wf_node target -> (0 < tksize t)%nat ->
  Forall (fun m => m ∈ all_nodes t /\ skip_neighbor target exclude m = false) (snd (find_neighbors now t target exclude)).
Proof.
  intros Hw Ht Hk. destruct (table_locate t (long_id target) Hw (wf_node_range target Ht)) as (l1 & b & l2 & Hloc).
  rewrite (find_neighbors_candidates now t target exclude _ _ _ Hloc Hk). cbn [snd].
  rewrite neighbors_perm. apply Forall_forall. intros m Hm. by apply candidates_elem.
Qed.

Lemma find_neighbors_count `{UnstableSort} now t target exclude :
  table_wf t -> wf_node target -> (0 < tksize t)%nat ->
  length (snd (find_neighbors now t target exclude)) =
  Nat.min (tksize t) (length (filter (eligible target exclude) (all_nodes t))).
Proof.
  intros Hw Ht Hk. destruct (table_locate t (long_id target) Hw (wf_node_range target Ht)) as (l1 & b & l2 & Hloc).
  rewrite (find_neighbors_candidates now t target exclude _ _ _ Hloc Hk). cbn [snd].
  rewrite neighbors_perm. by apply candidates_length.
Qed.

Lemma find_neighbors_all `{UnstableSort} now t target exclude m :
  table_wf t -> wf_node target -> (0 < tksize t)%nat -> (length (all_nodes t) <= tksize t)%nat ->
  m ∈ all_nodes t -> skip_neighbor target exclude m = false -> m ∈ snd (find_neighbors now t target exclude).
Proof.
  intros Hw Ht Hk Hl Hm Hs. destruct (table_locate t (long_id target) Hw (wf_node_range target Ht)) as (l1 & b & l2 & Hloc).
  rewrite (find_neighbors_candidates now t target exclude _ _ _ Hloc Hk). cbn [snd]. rewrite neighbors_perm.
  unfold candidates. rewrite take_ge.
  - apply list_elem_of_filter. split; [done|]. by rewrite (traversal_perm _ _ _ _ _ Hloc).
  - etrans; [apply length_filter|]. by rewrite (traversal_perm _ _ _ _ _ Hloc).
Qed.

Lemma set_size_le (l : list bytes) : (size (list_to_set l : gset bytes) <= length l)%nat.
Proof.
  induction l as [|x l IH]; [done|]. simpl. rewrite size_union_alt, size_singleton.
  pose proof (subseteq_size ((list_to_set l : gset bytes) ∖ {[x]}) (list_to_set l) ltac:(set_solver)). lia.
Qed.

(** ** A mesh: every node knows every other *)

Section mesh.
Context `{US : UnstableSort} `{HO : HashOrder} `{HA : Hashes} `{NA : NetAddr}.
Context {S : Type} `{SL : StorageLaws S}.
Context {Hd E : Type} `{HL : HandlerLaws Hd E}.
Context {C : Type} `{MC : Moka C}.

Local Abbreviation proto := (KademliaProtocol S Hd C).
Local Abbreviation seat := (Seat S Hd C).
Local Abbreviation home b := (addr_ip b, addr_port b).

(** The members: their addresses, which a node's own text form names, and their
    identifiers. *)
Record population (P : gmap SocketAddr bytes) : Prop := {
  pop_inj : forall b c i, P !! b = Some i -> P !! c = Some i -> b = c;
  pop_length : forall b i, P !! b = Some i -> length i = ID_LEN;
  pop_addr : forall b i, P !! b = Some i -> parse_addr (addr_ip b) (addr_port b) = Some b
}.

Definition member (P : gmap SocketAddr bytes) (c : SocketAddr) (n : Node) : Prop :=
  P !! c = Some (id n) /\ n = sender (id n) (home c).

(** The table of the node at [b] holds exactly the other members, and they are at
    most [k]. *)
Record knows_all (P : gmap SocketAddr bytes) (b : SocketAddr) (p : proto) : Prop := {
  ka_self : P !! b = Some (id (source_node p));
  ka_all : forall c i, c <> b -> P !! c = Some i -> sender i (home c) ∈ all_nodes (router p);
  ka_only : forall n, n ∈ all_contacts (router p) -> exists c, c <> b /\ member P c n;
  ka_room : (size P <= tksize (router p))%nat
}.

Record mesh (h : Hd) (t : Z) (P : gmap SocketAddr bytes) (cl : cluster S Hd C) : Prop := {
  me_pop : population P;
  me_dom : forall b, is_Some (cl !! b) <-> is_Some (P !! b);
  me_inv : cluster_inv h t cl;
  me_nodes : forall b p, cl !! b = Some p -> knows_all P b p
}.

(** Changes that leave a node in the mesh. *)
Record quiet (p p' : proto) : Prop := {
  q_source : source_node p' = source_node p;
  q_nodes : all_nodes (router p') = all_nodes (router p);
  q_contacts : all_contacts (router p') = all_contacts (router p);
  q_ksize : tksize (router p') = tksize (router p)
}.

#[global] Instance quiet_preorder : PreOrder quiet.
Proof. split; [done|]. intros x y z [] []. split; congruence. Qed.

Lemma quiet_knows P b p p' : quiet p p' -> knows_all P b p -> knows_all P b p'.
Proof. intros [Es En Ec Ek] [K1 K2 K3 K4]. split; rewrite ?Es, ?En, ?Ec, ?Ek; done. Qed.

Lemma quiet_spawn p task : quiet p (spawn p task).
Proof. done. Qed.

Lemma quiet_storage p st : quiet p (set_storage p st).
Proof. done. Qed.

Lemma quiet_find now p target exclude :
  proto_wf p -> wf_node target -> quiet p (set_router p (fst (find_neighbors now (router p) target exclude))).
Proof.
  intros Hw Ht. destruct (find_neighbors_table now (router p) target exclude (pw_table _ Hw) Ht (pw_ksize _ Hw))
    as (_ & _ & K & N & A). by split.
Qed.

Lemma mesh_update h t P cl b p p' :
  mesh h t P cl -> cl !! b = Some p -> quiet p p' -> proto_inv h (t, p') -> mesh h t P (<[b := p']> cl).
Proof.
  intros [Hp Hd' Hi Hk] Hb Hq Hpi. split; [done|..].
  - intros c. rewrite <- Hd'. destruct (decide (b = c)) as [<-|Hne]; [|by rewrite lookup_insert_ne].
    rewrite lookup_insert_eq, Hb. split; eauto.
  - by apply cluster_inv_insert.
  - intros c q [[<- <-]|[Hne Hq']]%lookup_insert_Some; [by eapply quiet_knows; [|apply Hk]|by apply Hk].
Qed.

Lemma mesh_later h t t' P cl : t <= t' -> mesh h t P cl -> mesh h t' P cl.
Proof. intros Hle [? ? Hi ?]. split; [done..| |done]. by eapply cluster_inv_later. Qed.

Lemma member_wf P c n : population P -> member P c n -> wf_node n.
Proof. intros Hp [Hc ->]. apply Node_new_wf. by apply (pop_length P Hp c). Qed.

Lemma member_addr P c n : population P -> member P c n -> peer_sock_addr n = Some c.
Proof. intros Hp [Hc ->]. exact (pop_addr P Hp c _ Hc). Qed.

(** ** The handlers on a node of the mesh *)

Lemma known_sender P b p a i :
  proto_wf p -> knows_all P b p -> population P -> a <> b -> P !! a = Some i ->
  is_new_node (router p) (sender i (home a)) = false.
Proof.
  intros Hw Hk Hp Hne Ha. apply not_true_iff_false. rewrite is_new_node_spec.
  - intros Hn. apply Hn, (list_elem_of_fmap_2 id (all_nodes (router p)) (sender i (home a))). by apply (ka_all _ _ _ Hk).
  - apply Hw.
  - apply Node_new_wf. by apply (pop_length P Hp a).
Qed.

Lemma find_value_handled now P b p a i key :
  proto_wf p -> knows_all P b p -> population P -> a <> b -> P !! a = Some i -> length key = ID_LEN ->
  exists resp p', dispatch_request now (FindValue i key) a p = Some (Some resp, p') /\
    quiet p p' /\ storage p' = storage p /\
    match get now (storage p) key with
    | Some v => resp = FindValueHit v
    | None => exists ns, resp = FindValueNodes (wire_of_node <$> ns) /\
        Forall (fun n => exists c, c <> a /\ member P c n) ns
    end.
Proof.
  intros Hw Hk Hp Hne Ha Hl. cbn [dispatch_request rpc_find_value]. unfold rpc_find_value, welcome_if_new.
  rewrite (known_sender P b p a i Hw Hk Hp Hne Ha). cbn [negb mbind option_bind].
  destruct (get now (storage p) key) as [v|]; [by do 2 eexists; split; [reflexivity|]|].
  assert (wf_node (from_id key)) as Ht by (by apply Node_new_wf).
  pose proof (quiet_find now p (from_id key) (Some (sender i (home a))) Hw Ht) as Hq.
  pose proof (find_neighbors_members now (router p) (from_id key) (Some (sender i (home a))) (pw_table _ Hw) Ht (pw_ksize _ Hw)) as Hm.
  destruct (find_neighbors now (router p) _ _) as [r ns]. cbn [fst snd] in *.
  do 2 eexists. split; [reflexivity|]. split_and!; [done|done|]. exists ns. split; [done|].
  eapply Forall_impl; [exact Hm|]. intros n [Hn Hsk].
  destruct (ka_only _ _ _ Hk n (all_nodes_contacts _ _ Hn)) as (c & Hcb & Hc). exists c. split; [|done]. intros ->.
  destruct Hc as [Hc _]. rewrite Ha in Hc. injection Hc as ->.
  unfold skip_neighbor in Hsk. cbn [sender Node_new id] in Hsk.
  rewrite (bool_decide_true (id n = id n)) in Hsk by done. by rewrite orb_true_r in Hsk.
Qed.

(** ** Calls of a node of the mesh *)

(** The node at [a] with the others around it; nothing is lost. *)
Record seat_ok (h : Hd) (t : Z) (P : gmap SocketAddr bytes) (a : SocketAddr) (r : seat) : Prop := {
  so_self : self r = a;
  so_fate : forall n, fate r n = Delivered;
  so_others : others r !! a = None;
  so_mesh : mesh h t P (rise r)
}.

Lemma rise_own h t P a r : seat_ok h t P a r -> rise r !! a = Some (own r).
Proof. intros [<- _ _ _]. apply lookup_insert_eq. Qed.

Lemma rise_ne h t P a r b : seat_ok h t P a r -> b <> a -> rise r !! b = others r !! b.
Proof. intros [<- _ _ _] Hne. by apply lookup_insert_ne. Qed.

Lemma own_step h t P a r p' :
  seat_ok h t P a r -> quiet (own r) p' -> proto_inv h (t, p') ->
  seat_ok h t P a (set_own r p') /\ rise (set_own r p') = <[a := p']> (rise r).
Proof.
  intros Hs Hq Hi. pose proof (rise_own _ _ _ _ _ Hs) as Ho. destruct Hs as [Es Hf Hn Hm].
  assert (rise (set_own r p') = <[a := p']> (rise r)) as Er.
  { unfold rise. simpl. by rewrite Es, insert_insert_eq. }
  split; [|done]. split; [done..|]. rewrite Er. by eapply mesh_update.
Qed.

Lemma reliable_send h t P a r b p m resp p' :
  seat_ok h t P a r -> b <> a -> rise r !! b = Some p -> well_typed m = true ->
  dispatch_request t m a p = Some (resp, p') -> quiet p p' ->
  exists r', cluster_send t r b m = (r', resp) /\ seat_ok h t P a r' /\
    rise r' = <[b := p']> (rise r) /\ own r' = own r.
Proof.
  intros Hs Hne Hb Hm Hd' Hq. pose proof Hs as [Es Hf Hn Hmesh].
  unfold cluster_send. rewrite Hm, Hf. cbn [negb]. unfold deliver. cbn [self own others fate sent].
  rewrite Es, decide_False by done. rewrite (rise_ne _ _ _ _ _ _ Hs Hne) in Hb. rewrite Hb, Hd'.
  eexists. split; [reflexivity|]. cbn [set_others own].
  assert (rise (set_others (mkSeat (own r) a (others r) (fate r) (Datatypes.S (sent r))) (<[b := p']> (others r))) = <[b := p']> (rise r)) as Er.
  { unfold rise. simpl. rewrite Es. by rewrite insert_insert_ne. }
  split_and!; [|exact Er|done]. split; [done|done|by simpl; rewrite lookup_insert_ne|].
  rewrite Er. assert (rise r !! b = Some p) as Hb' by (by rewrite (rise_ne _ _ _ _ _ _ Hs Hne)).
  eapply mesh_update; [done|exact Hb'|done|].
  eapply dispatch_inv; [apply (me_inv _ _ _ _ Hmesh b p Hb')|by apply well_typed_wf|exact Hd'].
Qed.

(** The stores of the nodes. *)
Definition stores_of (cl : cluster S Hd C) (b : SocketAddr) : option S := storage <$> cl !! b.

Lemma stores_of_insert cl b p p' :
  cl !! b = Some p -> storage p' = storage p -> forall c, stores_of (<[b := p']> cl) c = stores_of cl c.
Proof.
  intros Hb Hs c. unfold stores_of. destruct (decide (b = c)) as [<-|]; [|by rewrite lookup_insert_ne].
  rewrite lookup_insert_eq, Hb. simpl. by rewrite Hs.
Qed.

(** The tuples of an answer give its nodes back. *)
Lemma wire_nodes ns :
  Forall wf_node ns -> get_node_list (mkRaw true (Nodes (wire_tuple <$> (wire_of_node <$> ns)))) = ns.
Proof.
  induction 1 as [|n ns [Hl Hn] _ IH]; [done|]. cbn [get_node_list payload] in *. rewrite !fmap_cons. cbn [omap list_omap].
  unfold tuple_node at 1. cbn [wire_tuple wire_of_node wid wip wport]. rewrite Hl, Nat.eqb_refl. cbn [negb].
  change (omap tuple_node (wire_tuple <$> (wire_of_node <$> ns))) with (get_node_list (mkRaw true (Nodes (wire_tuple <$> (wire_of_node <$> ns))))).
  f_equal; [|exact IH]. destruct n as [i ad po li]. cbn in *. unfold Node_new. by rewrite Hn.
Qed.

Lemma seat_member h t P a r c n :
  seat_ok h t P a r -> c <> a -> member P c n ->
  exists p, rise r !! c = Some p /\ proto_wf p /\ knows_all P c p.
Proof.
  intros Hs Hne [Hc _]. destruct (proj2 (me_dom _ _ _ _ (so_mesh _ _ _ _ _ Hs) c)) as [p Hp]; [by rewrite Hc|].
  exists p. split_and!; [done| |by apply (me_nodes _ _ _ _ (so_mesh _ _ _ _ _ Hs))].
  apply (me_inv _ _ _ _ (so_mesh _ _ _ _ _ Hs) c p Hp).
Qed.

Lemma own_self h t P a r : seat_ok h t P a r -> P !! a = Some (id (source_node (own r))).
Proof. intros Hs. apply (me_nodes _ _ _ _ (so_mesh _ _ _ _ _ Hs) a). by eapply rise_own. Qed.

Lemma own_inv h t P a r : seat_ok h t P a r -> proto_inv h (t, own r).
Proof. intros Hs. apply (me_inv _ _ _ _ (so_mesh _ _ _ _ _ Hs) a). by eapply rise_own. Qed.

(** The peers of the node at [a]. *)
Definition peer_of (P : gmap SocketAddr bytes) (a : SocketAddr) (n : Node) : Prop :=
  exists c, c <> a /\ member P c n.

(** Asking a member for a value. *)
Lemma find_value_asked h t P a r n key :
  seat_ok h t P a r -> peer_of P a n -> length key = ID_LEN ->
  exists raw r', one_call t (find_value_call n (from_id key)) r = (raw, r') /\
    seat_ok h t P a r' /\ (forall b, stores_of (rise r') b = stores_of (rise r) b) /\
    happened raw = true /\ Forall (peer_of P a) (get_node_list raw) /\
    forall c, member P c n -> get_value raw = (st ← stores_of (rise r) c; get t st key).
Proof.
  intros Hs (c & Hca & Hc) Hl. pose proof (me_pop _ _ _ _ (so_mesh _ _ _ _ _ Hs)) as Hpop.
  destruct (seat_member h t P a r c n Hs Hca Hc) as (p & Hp & Hw & Hk).
  pose proof (own_self _ _ _ _ _ Hs) as Hself.
  destruct (find_value_handled t P c p a (id (source_node (own r))) key Hw Hk Hpop) as (resp & p' & Ed & Hq & Est & Hresp);
    [done..|].
  assert (well_typed (FindValue (id (source_node (own r))) key) = true) as Hm
    by (simpl; by rewrite (pop_length P Hpop a _ Hself), Hl).
  destruct (reliable_send h t P a r c p _ _ p' Hs Hca Hp Hm Ed Hq)
    as (r1 & Esend & Hs1 & Er1 & Eo1).
  unfold one_call. cbn [request finish find_value_call rproto set_rproto send cluster_net].
  unfold to_peer. rewrite (member_addr P c n Hpop Hc). cbn [mbind option_bind id from_id Node_new].
  rewrite Esend. unfold kp_call_find_value. rewrite (member_addr P c n Hpop Hc).
  assert (proto_inv h (t, spawn (own r1) (WelcomeIfNew n))) as Hi1.
  { pose proof (own_inv _ _ _ _ _ Hs1) as [W1 W2 W3 W4]. split; [|done..]. apply spawn_wf; [done|]. by apply (member_wf P c). }
  destruct (own_step h t P a r1 (spawn (own r1) (WelcomeIfNew n)) Hs1 (quiet_spawn _ _) Hi1) as [Hs2 Er2].
  assert (forall b, stores_of (rise (set_own r1 (spawn (own r1) (WelcomeIfNew n)))) b = stores_of (rise r) b) as Hst.
  { intros b. rewrite Er2, (stores_of_insert _ a (own r1)); [|by eapply rise_own|done].
    rewrite Er1. by apply (stores_of_insert _ c p). }
  assert (forall c', member P c' n -> (st ← stores_of (rise r) c'; get t st key) = get t (storage p) key) as Hget.
  { intros c' Hc'. assert (c' = c) as -> by (apply (pop_inj P Hpop c' c (id n)); [apply Hc'|apply Hc]).
    unfold stores_of. by rewrite Hp. }
  destruct (get t (storage p) key) as [v|].
  - subst resp. do 2 eexists. split; [reflexivity|]. split_and!; [done|done|done|constructor|].
    intros c' Hc'. by rewrite Hget.
  - destruct Hresp as (ns & -> & Hns). do 2 eexists. split; [reflexivity|]. split_and!; [done|done|done| |].
    + rewrite wire_nodes; [done|]. eapply Forall_impl; [exact Hns|]. intros m (d & _ & Hmd). by apply (member_wf P d).
    + intros c' Hc'. by rewrite Hget.
Qed.

(** ** Lookups in the mesh *)

Section lookup.
Context (h : Hd) (t : Z) (P : gmap SocketAddr bytes) (a : SocketAddr) (key V : bytes) (st : SocketAddr -> option S).

(** What the node at [c] holds under the key. *)
Definition content (c : SocketAddr) : option bytes := s ← st c; get t s key.

Definition holds (i : bytes) : bool :=
  existsb (fun cj => bool_decide (snd cj = i) && bool_decide (content (fst cj) = Some V)) (map_to_list P).

Lemma holds_member c n : population P -> member P c n -> holds (id n) = bool_decide (content c = Some V).
Proof.
  intros Hp [Hc _]. apply eq_true_iff_eq. unfold holds. rewrite existsb_exists, bool_decide_eq_true. split.
  - intros ([c' j] & Hin & [Ej Ec]%andb_true_iff). apply list_elem_of_In, elem_of_map_to_list in Hin.
    apply bool_decide_eq_true in Ej, Ec. cbn in *. subst j. by rewrite <- (pop_inj P Hp c' c _ Hin Hc).
  - intros Ec. exists (c, id n). split; [by apply list_elem_of_In, elem_of_map_to_list|].
    cbn. by rewrite !bool_decide_true.
Qed.

(** The seat, with the stores as they are. *)
Definition seat_with (r : seat) : Prop := seat_ok h t P a r /\ forall b, stores_of (rise r) b = st b.

Hypothesis Honly : forall c w, content c = Some w -> w = V.

Lemma mesh_answers :
  length key = ID_LEN -> @peers_answer _ (kademlia_spider t) seat_with (peer_of P a) holds V (from_id key).
Proof.
  intros Hl r n [Hs Hst] Hn. cbn [call_find_value kademlia_spider].
  destruct (find_value_asked h t P a r n key Hs Hn Hl) as (raw & r' & -> & Hs' & Hst' & Hh & Hns & Hv).
  cbn [fst snd]. split; [split; [done|]; intros b; by rewrite Hst'|]. split_and!; [done| |done].
  destruct Hn as (c & _ & Hc). rewrite (Hv c Hc), Hst. fold (content c).
  rewrite (holds_member c n (me_pop _ _ _ _ (so_mesh _ _ _ _ _ Hs)) Hc).
  destruct (content c) as [w|] eqn:Ec.
  - rewrite (Honly c w Ec) in *. by rewrite bool_decide_true.
  - by rewrite bool_decide_false.
Qed.

(** The identifiers of the members. *)
Definition member_ids : gset bytes := list_to_set (snd <$> map_to_list P).

Lemma member_ids_size : (size member_ids <= size P)%nat.
Proof.
  unfold member_ids. etrans; [apply set_size_le|]. by rewrite length_fmap, length_map_to_list.
Qed.

Lemma peer_id n : peer_of P a n -> id n ∈ member_ids.
Proof.
  intros (c & _ & Hc & _). apply elem_of_list_to_set, (list_elem_of_fmap_2 snd (map_to_list P) (c, id n)).
  by apply elem_of_map_to_list.
Qed.

(** A value lookup among peers of the mesh returns: the value, if a member other than
    this one holds it; otherwise members that do not hold it, and then, if the heap
    has room for all, none of the peers does. *)
Lemma mesh_lookup (r : seat) (peers : list Node) (k al : nat) :
  seat_with r -> length key = ID_LEN -> (0 < k)%nat -> peers <> [] -> Forall (peer_of P a) peers ->
  exists r' v' res, @value_find _ _ _ (kademlia_spider t) CRAWL_FUEL 0 r (ValueSpiderCrawl_new (from_id key) peers k al)
    = Some (r', v', res) /\
  match res with
  | (Some w, ns) => w = V /\ (exists c n, c <> a /\ member P c n /\ content c = Some V) /\
      exists q, seat_with q /\ (r' = q \/ exists n, peer_of P a n /\ r' = snd (one_call t (store_call n key V) q))
  | (None, ns) => seat_with r' /\ ns <> [] /\ Forall (peer_of P a) ns /\
      ((size P <= k)%nat -> forall c n, c <> a -> member P c n -> n ∈ peers -> content c <> Some V)
  end.
Proof.
  intros Hr Hl Hk Hne Hp. pose proof (me_pop _ _ _ _ (so_mesh _ _ _ _ _ (proj1 Hr))) as Hpop.
  assert (forall n, peer_of P a n -> wf_node n) as Hwf by (intros n (c & _ & Hc); by apply (member_wf P c)).
  pose proof (Forall_impl _ _ _ Hp Hwf) as Hpw. set (v := ValueSpiderCrawl_new (from_id key) peers k al).
  assert (crawl_ok (peer_of P a) holds (from_id key) v) as Hok.
  { split; cbn [base v ValueSpiderCrawl_new nearest_without_value SpiderCrawl_new nearest cnode].
    - by apply SpiderCrawl_new_wf.
    - apply NodeHeap_new_wf.
    - by apply push_heap_in; [constructor|].
    - constructor.
    - done.
    - intros i. rewrite (proj1 (proj2 (push_fields _ _))). intros Hi. by apply not_elem_of_empty in Hi. }
  assert (heap (nearest (base v)) <> []) as Hheap.
  { destruct peers as [|n peers]; [done|]. apply (push_nonempty _ _ n); [apply NodeHeap_new_wf|done|done|]. left. }
  destruct (@value_find_ok _ _ _ (kademlia_spider t) seat_with (peer_of P a) holds V (from_id key) (mesh_answers Hl) Hwf
    CRAWL_FUEL 0 r v Hr Hok (measure_bound _ _) Hk Hheap) as (r' & v' & [[w|] ns] & E' & Hres);
    exists r', v'; eexists; (split; [exact E'|]); clear E'.
  - destruct Hres as (-> & _ & (n & (c & Hca & Hc) & Hn) & q & Hq & Hr'). split_and!; [done|..].
    + exists c, n. split_and!; [done..|]. rewrite (holds_member c n Hpop Hc) in Hn. by apply bool_decide_eq_true in Hn.
    + exists q. split; [done|]. destruct Hr' as [->|(m & Hm & ->)]; [by left|right]. exists m. split; [done|].
      cbn [call_store kademlia_spider id from_id Node_new]. by destruct (one_call t (store_call m key V) q).
  - destruct Hres as (Hr' & Hns & Hg & Hno & Hroom). split_and!; [done..|].
    intros Hs c n Hca Hc Hn Hcon.
    assert (id n ∈ id <$> ns) as (m & Em & Hm)%list_elem_of_fmap.
    { apply (Hroom member_ids); [apply peer_id|pose proof member_ids_size; cbn; lia|].
      apply (push_room member_ids); [apply NodeHeap_new_wf|done|constructor|..|by apply elem_of_app; right].
      - eapply Forall_impl; [exact Hp|]. apply peer_id.
      - cbn. pose proof member_ids_size. lia. }
    pose proof (proj1 (Forall_forall _ _) Hno m Hm) as Hf. cbn in Hf. rewrite <- Em, (holds_member c n Hpop Hc) in Hf.
    by apply bool_decide_eq_false in Hf.
Qed.

End lookup.

(** ** Storing in the mesh *)

Lemma verify_for_key_true h t key v (p : proto) :
  proto_inv h (t, p) -> verify_record h (bool_decide (key = digest STATUS_LIST_KEY)) v = true ->
  fst (verify_for_key t key v p) = true.
Proof.
  intros [_ Hh Hc _] Hv. cbn [snd] in *. unfold verify_for_key. rewrite Hh, Hv.
  destruct (sig_cache p) as [c|] eqn:Ec; cbn [mbind option_bind]; [|done].
  destruct (get_by_key t c (compute_key v)) as [b|] eqn:Eg; [|done]. simpl.
  by destruct (cache_sound_get _ _ _ _ _ (Hc c eq_refl) Eg) as [-> _].
Qed.

Lemma rpc_store_quiet t i ad key v (p : proto) :
  fst (verify_for_key t key v p) = true -> quiet p (snd (rpc_store t i ad key v p)).
Proof.
  intros Hv. unfold rpc_store. destruct (verify_for_key_fields t key v p) as (Er & _ & En & _).
  destruct (verify_for_key t key v p) as [valid p1]. cbn [fst snd] in *. subst valid. cbn [negb].
  destruct (insert_if_absent t (storage p1) key v) as [st []]; cbn [negb snd]; split; simpl; congruence.
Qed.

(** Only [v] is stored under the key. *)
Definition only (t : Z) (key v : bytes) (cl : cluster S Hd C) : Prop :=
  forall c p w, cl !! c = Some p -> get t (storage p) key = Some w -> w = v.

(** Changes that a lookup of the key with value [v] may make. *)
Record benign (t : Z) (key v : bytes) (r r' : seat) : Prop := {
  bn_only : only t key v (rise r) -> only t key v (rise r');
  bn_kept : forall c p, rise r !! c = Some p -> get t (storage p) key = Some v ->
              exists p', rise r' !! c = Some p' /\ get t (storage p') key = Some v;
  bn_own : storage (own r') = storage (own r)
}.

#[global] Instance benign_preorder t key v : PreOrder (benign t key v).
Proof.
  split; [split; eauto|]. intros x y z [O1 K1 S1] [O2 K2 S2]. split; [auto| |congruence].
  intros c p Hp Hg. destruct (K1 c p Hp Hg) as (q & Hq & Hg'). by apply (K2 c q).
Qed.

Lemma same_stores_benign h t P a key v r r' :
  seat_ok h t P a r -> seat_ok h t P a r' -> (forall b, stores_of (rise r') b = stores_of (rise r) b) -> benign t key v r r'.
Proof.
  intros Hs Hs' Hst. unfold stores_of in Hst. split.
  - intros Ho c p w Hp Hg. specialize (Hst c). rewrite Hp in Hst.
    destruct (rise r !! c) as [q|] eqn:Hq; [|done]. injection Hst as Hst. apply (Ho c q); [done|]. by rewrite <- Hst.
  - intros c p Hp Hg. specialize (Hst c). rewrite Hp in Hst.
    destruct (rise r' !! c) as [q|]; [|done]. injection Hst as Hst. exists q. by rewrite Hst.
  - specialize (Hst a). rewrite (rise_own _ _ _ _ _ Hs), (rise_own _ _ _ _ _ Hs') in Hst. by injection Hst.
Qed.

(** Offering a value that verifies to a member: it is accepted exactly when the member
    has none. *)
Lemma store_asked h t P a r n key v :
  seat_ok h t P a r -> peer_of P a n -> length key = ID_LEN ->
  verify_record h (bool_decide (key = digest STATUS_LIST_KEY)) v = true ->
  exists b r', one_call t (store_call n key v) r = (b, r') /\ seat_ok h t P a r' /\
    benign t key v r r' /\
    forall c p, member P c n -> rise r !! c = Some p -> get t (storage p) key = None -> b = true.
Proof.
  intros Hs (c & Hca & Hc) Hl Hv. pose proof (me_pop _ _ _ _ (so_mesh _ _ _ _ _ Hs)) as Hpop.
  destruct (seat_member h t P a r c n Hs Hca Hc) as (p & Hp & Hw & Hk).
  pose proof (own_self _ _ _ _ _ Hs) as Hself.
  pose proof (verify_for_key_true h t key v p (me_inv _ _ _ _ (so_mesh _ _ _ _ _ Hs) c p Hp) Hv) as Hver.
  pose proof (rpc_store_quiet t (id (source_node (own r))) (home a) key v p Hver) as Hq.
  pose proof (rpc_store_cases t (id (source_node (own r))) (home a) key v p) as Hcases.
  destruct (rpc_store t (id (source_node (own r))) (home a) key v p) as [ok p'] eqn:Est. cbn [snd] in Hq.
  destruct Hcases as (Hok & Hyes & Hno & _).
  assert (well_typed (Store (id (source_node (own r))) key v) = true) as Hm
    by (simpl; by rewrite (pop_length P Hpop a _ Hself), Hl).
  assert (dispatch_request t (Store (id (source_node (own r))) key v) a p = Some (Some (StoreResult ok), p')) as Ed
    by (simpl; by rewrite Est).
  destruct (reliable_send h t P a r c p _ _ p' Hs Hca Hp Hm Ed Hq) as (r1 & Esend & Hs1 & Er1 & Eo1).
  exists ok, r1. split_and!.
  - unfold one_call. cbn [request finish store_call rproto set_rproto send cluster_net].
    unfold to_peer. rewrite (member_addr P c n Hpop Hc). cbn [mbind option_bind]. rewrite Esend.
    unfold call_store_rpc. rewrite (member_addr P c n Hpop Hc). f_equal. by destruct r1.
  - done.
  - split; [..|by rewrite Eo1].
    + intros Ho c' q w. rewrite Er1. intros [[<- <-]|[Hne Hq']]%lookup_insert_Some; [|by apply (Ho c')].
      destruct ok; [rewrite (proj1 (Hyes eq_refl)); by intros [= <-]|]. rewrite Hno by done. by apply (Ho c).
    + intros c' q Hq' Hg. rewrite Er1. destruct (decide (c = c')) as [<-|Hne]; [|rewrite lookup_insert_ne by done; eauto].
      rewrite lookup_insert_eq. eexists. split; [done|]. rewrite Hp in Hq'. injection Hq' as <-.
      destruct ok; [apply (Hyes eq_refl)|]. by rewrite Hno.
  - intros c' q Hc' Hq' Hg. assert (c' = c) as -> by (apply (pop_inj P Hpop c' c (id n)); [apply Hc'|apply Hc]).
    rewrite Hp in Hq'. injection Hq' as <-. by apply Hok.
Qed.

Lemma stores_asked h t P a r ns key v :
  seat_ok h t P a r -> Forall (peer_of P a) ns -> length key = ID_LEN ->
  verify_record h (bool_decide (key = digest STATUS_LIST_KEY)) v = true -> only t key v (rise r) ->
  seat_ok h t P a (snd (call_each t (fun n => store_call n key v) ns r)) /\
  only t key v (rise (snd (call_each t (fun n => store_call n key v) ns r))).
Proof.
  intros Hs Hns Hl Hv. revert r Hs. induction Hns as [|n ns Hn _ IH]; intros r Hs Ho; cbn [call_each]; [done|].
  destruct (store_asked h t P a r n key v Hs Hn Hl Hv) as (b & r1 & -> & Hs1 & Ho1 & _).
  specialize (IH r1 Hs1 (bn_only _ _ _ _ _ Ho1 Ho)). by destruct (call_each t _ ns r1).
Qed.

(** ** The operations of the server *)

(** The table of a node of a mesh with at most [k] members holds few contacts. *)
Lemma mesh_contacts_few h t P a r :
  seat_ok h t P a r -> (length (all_nodes (router (own r))) <= size P)%nat.
Proof.
  intros Hs. pose proof (me_nodes _ _ _ _ (so_mesh _ _ _ _ _ Hs) a (own r) (rise_own _ _ _ _ _ Hs)) as Hk.
  pose proof (pw_table _ (pi_wf _ _ (own_inv _ _ _ _ _ Hs))) as Hw. cbn [snd] in Hw.
  etrans; [|apply (member_ids_size P)]. rewrite <- (length_fmap id), <- (size_list_to_set (C := gset bytes)).
  - apply subseteq_size. intros i (n & -> & Hn)%elem_of_list_to_set%list_elem_of_fmap.
    apply (peer_id P a). by apply (ka_only _ _ _ Hk), all_nodes_contacts.
  - by apply all_nodes_nodup.
Qed.

Lemma neighbors_mesh h t P a key (s : Server seat) :
  seat_ok h t P a (running s) -> length key = ID_LEN -> (forall c, P !! c <> Some key) ->
  let '(ns, s') := neighbors_of t (from_id key) s in
  seat_ok h t P a (running s') /\ (forall b, stores_of (rise (running s')) b = stores_of (rise (running s)) b) /\
  same_params s s' /\ Forall (peer_of P a) ns /\
  (forall c i, c <> a -> P !! c = Some i -> ns <> [] /\
     ((size P <= tksize (router (own (running s))))%nat -> sender i (home c) ∈ ns)).
Proof.
  intros Hs Hl Hfree. pose proof (own_inv _ _ _ _ _ Hs) as Hi. pose proof (pi_wf _ _ Hi) as Hw. cbn [snd] in Hw.
  pose proof (me_nodes _ _ _ _ (so_mesh _ _ _ _ _ Hs) a _ (rise_own _ _ _ _ _ Hs)) as Hk.
  pose proof (mesh_contacts_few _ _ _ _ _ Hs) as Hfew.
  assert (wf_node (from_id key)) as Ht by (by apply Node_new_wf). set (p := own (running s)) in *.
  unfold neighbors_of. cbn [rproto set_rproto cluster_net]. fold p.
  pose proof (quiet_find t p (from_id key) None Hw Ht) as Hq.
  destruct (find_neighbors_table t (router p) (from_id key) None (pw_table _ Hw) Ht (pw_ksize _ Hw)) as (T1 & T2 & T3 & _).
  pose proof (find_neighbors_members t (router p) (from_id key) None (pw_table _ Hw) Ht (pw_ksize _ Hw)) as Hm.
  pose proof (find_neighbors_count t (router p) (from_id key) None (pw_table _ Hw) Ht (pw_ksize _ Hw)) as Hc.
  pose proof (fun m => find_neighbors_all t (router p) (from_id key) None m (pw_table _ Hw) Ht (pw_ksize _ Hw)) as Ha.
  destruct (find_neighbors t (router p) (from_id key) None) as [rt ns]. cbn [fst snd] in *.
  assert (proto_inv h (t, set_router p rt)) as Hi'.
  { apply (proto_inv_same h t t p); [lia| |done|apply Hi]. by apply set_router_wf. }
  destruct (own_step h t P a (running s) _ Hs Hq Hi') as [Hs' Er]. cbn [running set_running].
  split_and!; [done| |done| |].
  - intros b. rewrite Er. by apply (stores_of_insert _ a p); [by eapply rise_own|].
  - eapply Forall_impl; [exact Hm|]. intros n [Hn _]. by apply (ka_only _ _ _ Hk), all_nodes_contacts.
  - intros c i Hca Hci. pose proof (ka_all _ _ _ Hk c i Hca Hci) as Hin.
    assert (skip_neighbor (from_id key) None (sender i (home c)) = false) as Hsk.
    { unfold skip_neighbor. rewrite orb_false_r. apply bool_decide_eq_false. cbn. intros ->. by apply (Hfree c). }
    split.
    + intros ->. assert (sender i (home c) ∈ filter (eligible (from_id key) None) (all_nodes (router p))) as Hf
        by (by apply list_elem_of_filter).
      apply list_elem_of_lookup in Hf as [j Hj%lookup_lt_Some]. pose proof (pw_ksize _ Hw). simpl in Hc. lia.
    + intros Hsz. apply Ha; [lia|done|done].
Qed.

Lemma seat_inv h t P a r : seat_ok h t P a r -> run_inv h t r.
Proof.
  intros Hs. split; [by eapply own_inv|]. intros b p Hb.
  destruct (decide (b = a)) as [->|Hne]; [by rewrite (so_others _ _ _ _ _ Hs) in Hb|].
  apply (me_inv _ _ _ _ (so_mesh _ _ _ _ _ Hs) b). by rewrite (rise_ne _ _ _ _ _ _ Hs Hne).
Qed.

Lemma verify_mesh h t P a key v (s : Server seat) :
  seat_ok h t P a (running s) -> verify_record h (bool_decide (key = STATUS_LIST_KEY)) v = true ->
  exists s', verify_value t key v s = (true, s') /\ seat_ok h t P a (running s') /\ same_params s s' /\
    forall b, stores_of (rise (running s')) b = stores_of (rise (running s)) b.
Proof.
  intros Hs Hv. pose proof (own_inv _ _ _ _ _ Hs) as Hi.
  pose proof (verify_value_true h t key v s Hi Hv) as Ht. revert Ht.
  destruct (verify_value_spec h t t key v s (seat_inv _ _ _ _ _ Hs)) as ([Hi' _] & _).
  revert Hi'. unfold verify_value. destruct (c ← sig_cache _; _) as [b|]; [intros _ Hb; cbn [fst] in Hb; subst b; exists s; by split_and!; [..|destruct s|]|].
  pose proof (pi_handler _ _ Hi) as Hh. cbn [snd] in Hh. cbn [rproto cluster_net]. rewrite Hh, Hv. intros Hi' _. eexists. split; [reflexivity|].
  cbn [snd running set_running set_rproto cluster_net set_own own] in Hi'.
  match type of Hi' with proto_inv _ (_, ?q) => assert (quiet (own (running s)) q) as Hq by (by split) end.
  destruct (own_step h t P a (running s) _ Hs Hq Hi') as [Hs' Er].
  split_and!; [exact Hs'|done|]. intros b. cbn [running set_running set_rproto cluster_net]. rewrite Er.
  by apply (stores_of_insert _ a (own (running s))); [by eapply rise_own|].
Qed.

(** Nobody holds the key. *)
Definition free (t : Z) (key : bytes) (cl : cluster S Hd C) : Prop :=
  forall c p, cl !! c = Some p -> get t (storage p) key = None.

Lemma same_stores_free t key cl cl' :
  (forall b, stores_of cl' b = stores_of cl b) -> free t key cl -> free t key cl'.
Proof.
  intros Hst Hf c p Hp. specialize (Hst c). unfold stores_of in Hst. rewrite Hp in Hst.
  destruct (cl !! c) as [q|] eqn:Hq; [|done]. injection Hst as ->. by apply (Hf c).
Qed.

(** In the mesh a free key is found to be free, with some members to store at. *)
Lemma mesh_check_exists `{!HashLaws} h t P a key (s : Server seat) :
  seat_ok h t P a (running s) -> listening s = true -> (0 < sksize s)%nat ->
  (forall c, P !! c <> Some (digest key)) -> free t (digest key) (rise (running s)) ->
  (exists c, c <> a /\ is_Some (P !! c)) ->
  exists ns s', check_exists_and_get_nodes CRAWL_FUEL t key s = Some (false, ns, s') /\
    seat_ok h t P a (running s') /\ same_params s s' /\ free t (digest key) (rise (running s')) /\
    ns <> [] /\ Forall (peer_of P a) ns.
Proof.
  intros Hs Hup Hk Hid Hfree (c0 & Hc0 & i0 & Hi0). pose proof (digest_length key) as Hl.
  unfold check_exists_and_get_nodes. cbv zeta. cbn [rproto cluster_net].
  rewrite (Hfree a _ (rise_own _ _ _ _ _ Hs)), Hup. cbn [negb].
  pose proof (neighbors_mesh h t P a (digest key) s Hs Hl Hid) as Hn.
  destruct (neighbors_of t (from_id (digest key)) s) as [peers s1].
  destruct Hn as (Hs1 & Hst1 & Hp1 & Hpeers & Hsome). destruct (Hsome c0 i0 Hc0 Hi0) as [Hne _].
  pose proof (same_stores_free _ _ _ _ Hst1 Hfree) as Hfree1.
  destruct (same_params_fields _ _ Hp1) as (_ & _ & Ek & _).
  destruct peers as [|n peers]; [done|].
  destruct (mesh_lookup h t P a (digest key) [] (stores_of (rise (running s1)))
    (ltac:(intros c w; unfold content, stores_of; destruct (rise (running s1) !! c) as [p|] eqn:Ep; simpl; [|done];
       by rewrite (Hfree1 c p Ep))) (running s1) (n :: peers) (sksize s1) (salpha s1))
    as (r' & v' & [[w|] ns] & Ef & Hres); [done|done|by rewrite Ek|done|done|..].
  - destruct Hres as (_ & (c & m & _ & _ & Hcon) & _). unfold content, stores_of in Hcon.
    destruct (rise (running s1) !! c) as [p|] eqn:Ep; simpl in Hcon; [|done]. by rewrite (Hfree1 c p Ep) in Hcon.
  - destruct Hres as ((Hs2 & Hst2) & Hns & Hg & _). unfold crawl_value. rewrite Ef. cbn [mbind option_bind].
    do 2 eexists. split; [reflexivity|]. cbn [running set_running]. split_and!; [done| |by eapply same_stores_free|done|done].
    rewrite Hp1. by destruct s.
Qed.

(** The copy a node keeps itself. *)
Lemma store_locally_mesh h t P a key v ns (s : Server seat) :
  seat_ok h t P a (running s) -> authentic h v -> free t key (rise (running s)) ->
  let s' := store_locally t key v ns s in
  seat_ok h t P a (running s') /\ only t key v (rise (running s')) /\
  forall c, c <> a -> rise (running s') !! c = rise (running s) !! c.
Proof.
  intros Hs Ha Hfree. pose proof (store_locally_inv h t key v ns s (seat_inv _ _ _ _ _ Hs) Ha) as Hi. cbv zeta.
  assert (only t key v (rise (running s))) as Ho by (intros c p w Hp; by rewrite (Hfree c p Hp)).
  revert Hi. unfold store_locally. destruct (farthest _ ns); [|done]. destruct (_ <? _); [|done].
  cbn [running set_running rproto set_rproto cluster_net]. intros [Hi _]. cbn [rproto cluster_net own set_own] in Hi.
  destruct (own_step h t P a (running s) _ Hs (quiet_storage _ _) Hi) as [Hs' Er]. rewrite Er. split_and!; [done|..].
  - intros c p w [[<- <-]|[_ Hp]]%lookup_insert_Some; [|by apply (Ho c)]. simpl. rewrite get_set, decide_True by done. by intros [= <-].
  - intros c Hc. by rewrite lookup_insert_ne.
Qed.

(** Publishing a record that verifies under a free key succeeds. *)
Lemma mesh_set `{!HashLaws} h t P a key v (s : Server seat) :
  seat_ok h t P a (running s) -> listening s = true -> (0 < sksize s)%nat ->
  (forall c, P !! c <> Some (digest key)) -> free t (digest key) (rise (running s)) ->
  (exists c, c <> a /\ is_Some (P !! c)) ->
  verify_record h (bool_decide (key = STATUS_LIST_KEY)) v = true ->
  verify_record h (bool_decide (digest key = digest STATUS_LIST_KEY)) v = true ->
  exists s', server_set CRAWL_FUEL t key v s = Some (Some true, s') /\
    seat_ok h t P a (running s') /\ only t (digest key) v (rise (running s')).
Proof.
  intros Hs Hup Hk Hid Hfree Hother Hv Hv'. unfold server_set.
  destruct (mesh_check_exists h t P a key s Hs Hup Hk Hid Hfree Hother) as (ns & s1 & -> & Hs1 & Hp1 & Hfree1 & Hne & Hns).
  cbn [mbind option_bind]. destruct (verify_mesh h t P a key v s1 Hs1 Hv) as (s2 & -> & Hs2 & Hp2 & Hst2).
  pose proof (same_stores_free _ _ _ _ Hst2 Hfree1) as Hfree2. cbn [negb]. unfold set_digest.
  destruct (same_params_fields _ _ Hp1) as (_ & El1 & _). destruct (same_params_fields _ _ Hp2) as (_ & El2 & _).
  rewrite El2, El1, Hup. cbn [negb]. destruct ns as [|n ns]; [done|].
  assert (authentic h v) as Hau by (exists v; split; [done|]; by apply verify_record_true in Hv).
  destruct (store_locally_mesh h t P a (digest key) v (n :: ns) s2 Hs2 Hau Hfree2) as (Hs3 & Ho3 & Hsame).
  set (s3 := store_locally t (digest key) v (n :: ns) s2) in *. unfold call_nodes. cbn [call_each].
  apply Forall_cons in Hns as [Hn Hns].
  destruct (store_asked h t P a (running s3) n (digest key) v Hs3 Hn (digest_length key) Hv') as (b & r4 & -> & Hs4 & Ho4 & Hb).
  destruct (stores_asked h t P a r4 ns (digest key) v Hs4 Hns (digest_length key) Hv' (bn_only _ _ _ _ _ Ho4 Ho3)) as [Hs5 Ho5].
  assert (b = true) as ->.
  { destruct Hn as (c & Hca & Hc). destruct (seat_member h t P a _ c n Hs3 Hca Hc) as (p & Hp & _).
    apply (Hb c p Hc Hp). apply (Hfree2 c). by rewrite <- Hsame. }
  destruct (call_each t _ ns r4) as [bs r5]. cbn [snd] in *. eexists. split; [reflexivity|]. done.
Qed.

(** Reading a key that only [v] is stored under, somewhere, gives [v]. *)
Lemma mesh_get `{!HashLaws} h t P a key v (s : Server seat) :
  seat_ok h t P a (running s) -> listening s = true -> (0 < sksize s)%nat ->
  (size P <= sksize s)%nat ->
  (forall c, P !! c <> Some (digest key)) -> only t (digest key) v (rise (running s)) ->
  (exists c p, rise (running s) !! c = Some p /\ get t (storage p) (digest key) = Some v) ->
  verify_record h (bool_decide (key = STATUS_LIST_KEY)) v = true ->
  verify_record h (bool_decide (digest key = digest STATUS_LIST_KEY)) v = true ->
  exists s', server_get CRAWL_FUEL t key s = Some (Some v, s') /\ seat_ok h t P a (running s') /\ same_params s s' /\
    benign t (digest key) v (running s) (running s').
Proof.
  intros Hs Hup Hk Hsz Hid Honly (c & p & Hp & Hg) Hv Hv'. pose proof (digest_length key) as Hl.
  unfold server_get. cbv zeta. destruct (get t (storage (rproto (running s))) (digest key)) as [w|] eqn:Eg.
  { assert (w = v) as -> by (apply (Honly a (own (running s))); [by eapply rise_own|done]).
    destruct (verify_mesh h t P a key v s Hs Hv) as (s' & -> & Hs' & Hp' & Hst'). exists s'.
    split_and!; [done..|by eapply same_stores_benign]. }
  assert (c <> a) as Hca by (intros ->; rewrite (rise_own _ _ _ _ _ Hs) in Hp; injection Hp as <-; cbn in Eg; congruence).
  pose proof (so_mesh _ _ _ _ _ Hs) as Hm. pose proof (me_pop _ _ _ _ Hm) as Hpop.
  destruct (proj1 (me_dom _ _ _ _ Hm c)) as [i Hi]; [by rewrite Hp|]. rewrite Hup. cbn [negb].
  pose proof (neighbors_mesh h t P a (digest key) s Hs Hl Hid) as Hn.
  destruct (neighbors_of t (from_id (digest key)) s) as [peers s1].
  destruct Hn as (Hs1 & Hst1 & Hp1 & Hpeers & Hsome). destruct (Hsome c i Hca Hi) as [Hne Hin].
  specialize (Hin (ka_room _ _ _ (me_nodes _ _ _ _ Hm a _ (rise_own _ _ _ _ _ Hs)))).
  pose proof (same_stores_benign h t P a (digest key) v _ _ Hs Hs1 Hst1) as Hb1.
  destruct (same_params_fields _ _ Hp1) as (_ & _ & Ek & _). destruct peers as [|n peers]; [done|].
  assert (forall c' w, content t (digest key) (stores_of (rise (running s1))) c' = Some w -> w = v) as Hcon.
  { intros c' w. unfold content. rewrite Hst1. unfold stores_of.
    destruct (rise (running s) !! c') as [q|] eqn:Eq; [|done]. by apply (Honly c'). }
  destruct (mesh_lookup h t P a (digest key) v (stores_of (rise (running s1))) Hcon (running s1) (n :: peers) (sksize s1) (salpha s1))
    as (r' & v' & [[w|] ns] & Ef & Hres); [done|done|by rewrite Ek|done|done|..].
  - destruct Hres as (-> & _ & q & [Hq Hstq] & Hr'). unfold crawl_value. rewrite Ef. clear Ef. cbn [mbind option_bind].
    pose proof (same_stores_benign h t P a (digest key) v _ _ Hs1 Hq Hstq) as Hbq.
    assert (seat_ok h t P a r' /\ benign t (digest key) v q r') as [Hs' Hb'].
    { destruct Hr' as [->|(m & Hm' & ->)]; [done|].
      destruct (store_asked h t P a q m (digest key) v Hq Hm' Hl Hv') as (b & r2 & -> & ? & ? & _). done. }
    destruct (verify_mesh h t P a key v (set_running s1 r') Hs' Hv) as (s3 & -> & Hs3 & Hp3 & Hst3).
    exists s3. split_and!; [done|done| |].
    + etransitivity; [exact Hp1|]. etransitivity; [|exact Hp3]. by destruct s1.
    + etransitivity; [exact Hb1|]. etransitivity; [exact Hbq|]. etransitivity; [exact Hb'|].
      exact (same_stores_benign h t P a (digest key) v _ _ Hs' Hs3 Hst3).
  - exfalso. destruct Hres as (_ & _ & _ & Hno). rewrite Ek in Hno.
    apply (Hno Hsz c (sender i (home c)) Hca); [by split|done|].
    unfold content. rewrite Hst1. unfold stores_of. rewrite Hp. done.
Qed.

Lemma sit_ok h t P al cl a p f :
  mesh h t P cl -> cl !! a = Some p -> (forall n, f n = Delivered) ->
  seat_ok h t P a (running (sit al cl f a p)) /\ rise (running (sit al cl f a p)) = cl.
Proof.
  intros Hm Ha Hf. assert (rise (running (sit al cl f a p)) = cl) as Er by (unfold rise; cbn; by apply insert_delete_id).
  split; [|done]. split; [done|done|by cbn; rewrite lookup_delete_eq|by rewrite Er].
Qed.

Lemma held_somewhere t k v (r : seat) :
  held t k v r -> exists c p, rise r !! c = Some p /\ get t (storage p) k = Some v.
Proof.
  intros [Ho|(c & p & Hne & Hc & Hg)]; [exists (self r), (own r); split; [apply lookup_insert_eq|done]|].
  exists c, p. split; [|done]. unfold rise. by rewrite lookup_insert_ne.
Qed.

Lemma get_earlier now now' (st : S) k w : now <= now' -> get now' st k = Some w -> get now st k = Some w.
Proof.
  unfold get. rewrite !get_default_live. intros Hle.
  destruct (live now' st !! k) as [[w' i]|] eqn:El; [|done]. intros [= <-].
  by rewrite (lookup_weaken _ _ _ _ El (live_mono now now' st Hle)).
Qed.

Lemma mesh_read `{!HashLaws} h al t P b key v (cl : cluster S Hd C) :
  mesh h t P cl -> is_Some (P !! b) -> (forall c, P !! c <> Some (digest key)) -> only t (digest key) v cl ->
  (exists c p, cl !! c = Some p /\ get t (storage p) (digest key) = Some v) ->
  verify_record h (bool_decide (key = STATUS_LIST_KEY)) v = true ->
  verify_record h (bool_decide (digest key = digest STATUS_LIST_KEY)) v = true ->
  exists cl', run_move CRAWL_FUEL al (mkMove t (fun _ => Delivered) b (AGet key)) cl = Some (OValue (Some v), cl').
Proof.
  intros Hm Hb Hid Honly Hex Hv Hv'. destruct (proj2 (me_dom _ _ _ _ Hm b) Hb) as [p Hp].
  destruct (sit_ok h t P al cl b p (fun _ => Delivered) Hm Hp (fun _ => eq_refl)) as [Hs Er].
  pose proof (me_inv _ _ _ _ Hm b p Hp) as Hi. cbv beta in Hi.
  destruct (mesh_get h t P b key v (sit al cl (fun _ => Delivered) b p) Hs eq_refl (pw_ksize _ (pi_wf _ _ Hi)))
    as (s' & Hget & _); [exact (ka_room _ _ _ (me_nodes _ _ _ _ Hm b p Hp))|done|by rewrite Er|by rewrite Er|done|done|].
  unfold run_move. cbn [mwho mnow mfate mact]. rewrite Hp. cbn [run_action]. rewrite Hget. by eexists.
Qed.

(** C12: in a cluster that works, what is published can be read everywhere.  Nothing
    is lost; every node's table holds the other members, which are at most [k]; no
    node holds the key, and no member's identifier is its digest.  Then [set] of a
    record that verifies, at any member, answers [Some true]; and from then on, as
    long as the stored copies have not expired, [get] at every member returns that
    record. *)
Theorem working_cluster_serves `{!HashLaws} (h : Hd) (al : nat) (now : Z) (P : gmap SocketAddr bytes)
    (a : SocketAddr) (key v : bytes) (cl : cluster S Hd C) :
  mesh h now P cl -> is_Some (P !! a) -> (exists c, c <> a /\ is_Some (P !! c)) ->
  (forall c, P !! c <> Some (digest key)) -> free now (digest key) cl ->
  verify_record h (bool_decide (key = STATUS_LIST_KEY)) v = true ->
  verify_record h (bool_decide (digest key = digest STATUS_LIST_KEY)) v = true ->
  exists cl', run_move CRAWL_FUEL al (mkMove now (fun _ => Delivered) a (ASet key v)) cl
      = Some (OAnswer (Some true), cl') /\ mesh h now P cl' /\
    forall now' b, now <= now' -> is_Some (P !! b) ->
      (forall c p, cl' !! c = Some p -> get now (storage p) (digest key) = Some v -> get now' (storage p) (digest key) = Some v) ->
      exists cl'', run_move CRAWL_FUEL al (mkMove now' (fun _ => Delivered) b (AGet key)) cl'
        = Some (OValue (Some v), cl'').
Proof.
  intros Hm Ha Hother Hid Hfree Hv Hv'. destruct (proj2 (me_dom _ _ _ _ Hm a) Ha) as [p Hp].
  destruct (sit_ok h now P al cl a p (fun _ => Delivered) Hm Hp (fun _ => eq_refl)) as [Hs Er].
  pose proof (me_inv _ _ _ _ Hm a p Hp) as Hi.
  destruct (mesh_set h now P a key v (sit al cl (fun _ => Delivered) a p) Hs eq_refl (pw_ksize _ (pi_wf _ _ Hi)) Hid)
    as (s' & Hset & Hs' & Honly); [by rewrite Er|done..|].
  exists (rise (running s')). split_and!; [|by apply Hs'|].
  { unfold run_move. cbn [mwho mnow mfate mact]. rewrite Hp. cbn [run_action]. by rewrite Hset. }
  intros now' b Hle Hb Hlive.
  destruct (held_somewhere _ _ _ _ (set_true_held CRAWL_FUEL now key v _ s' Hset)) as (c & q & Hc & Hg).
  apply (mesh_read h al now' P); [by eapply mesh_later; [|apply Hs']|done|done| | |done|done].
  - intros c' q' w Hq' Hw. apply (Honly c' q' w Hq'). by apply (get_earlier now now').
  - exists c, q. split; [done|]. by apply (Hlive c).
Qed.

(** ** Every population forms a mesh *)

Section formed.
Context (h : Hd) (k : nat) (st : S) (P : gmap SocketAddr bytes).

(** A fresh node whose table was filled with the other members. *)
Definition formed_node (b : SocketAddr) (i : bytes) : proto :=
  set_router (KademliaProtocol_new 0 (from_id i) st k h None)
    (one_bucket 0 (from_id i) k ((fun cj => sender (snd cj) (home (fst cj))) <$> map_to_list (delete b P))).

Definition formed : cluster S Hd C := map_imap (fun b i => Some (formed_node b i)) P.

Lemma formed_lookup b : formed !! b = formed_node b <$> P !! b.
Proof. unfold formed. rewrite map_lookup_imap. by destruct (P !! b). Qed.

Hypothesis Hpop : population P.
Hypothesis Hk : (0 < k)%nat.
Hypothesis Hsize : (size P <= k)%nat.
Hypothesis Hst : forall now key v, get now st key = Some v -> authentic h v.

Lemma others_elem b c i : (c, i) ∈ map_to_list (delete b P) <-> c <> b /\ P !! c = Some i.
Proof. rewrite elem_of_map_to_list, lookup_delete_Some. naive_solver. Qed.

Lemma formed_table_wf b i : P !! b = Some i ->
  table_wf (router (formed_node b i)).
Proof.
  intros Hb. cbn [formed_node router set_router]. apply one_bucket_wf.
  - apply from_id_wf. by apply (pop_length P Hpop b).
  - apply Forall_fmap, Forall_forall. intros [c j] [_ Hc]%others_elem. apply Node_new_wf. by apply (pop_length P Hpop c).
  - rewrite fmap_cons, <- list_fmap_compose. apply NoDup_cons. split.
    + intros ([c j] & Ej & [Hne Hc]%others_elem)%list_elem_of_fmap. cbn in Ej. subst j.
      by apply Hne, (pop_inj P Hpop c b i).
    + apply NoDup_fmap_2_strong; [|apply NoDup_map_to_list].
      intros [c j] [c' j'] [_ Hc]%others_elem [_ Hc']%others_elem Ej. cbn in Ej. subst j'.
      by rewrite (pop_inj P Hpop c c' j Hc Hc').
  - rewrite length_fmap, length_map_to_list, map_size_delete, Hb. cbn. lia.
Qed.

Lemma formed_free now key : get now st key = None -> free now key formed.
Proof.
  intros Hg b p. rewrite formed_lookup. destruct (P !! b); [|done]. by intros [= <-].
Qed.

Lemma formed_mesh now : mesh h now P formed.
Proof.
  assert (forall b p, formed !! b = Some p -> exists i, P !! b = Some i /\ p = formed_node b i) as Hl.
  { intros b p. rewrite formed_lookup. destruct (P !! b); [|done]. intros [= <-]. eauto. }
  split; [done|..].
  - intros b. by rewrite formed_lookup, fmap_is_Some.
  - intros b p (i & Hb & ->)%Hl. split; cbn [snd]; [|done|done|].
    + apply set_router_wf; [|by apply formed_table_wf|done|done].
      apply proto_wf_new; [|done]. apply from_id_wf. by apply (pop_length P Hpop b).
    + intros now' key v _ Hg. by apply (Hst now' key).
  - intros b p (i & Hb & ->)%Hl. split; [done|..|done].
    + intros c j Hne Hc. cbn. rewrite app_nil_r.
      apply (list_elem_of_fmap_2 (fun cj => sender (snd cj) (home (fst cj))) _ (c, j)). by apply others_elem.
    + intros n. unfold all_contacts, contacts. cbn. rewrite !app_nil_r.
      intros ([c j] & -> & [Hne Hc]%others_elem)%list_elem_of_fmap. by exists c.
Qed.

End formed.

End mesh.

(** ** Three nodes *)

#[local] Existing Instances demo_hashes demo_hash_laws demo_handler demo_laws plain_addr.

Definition addr_c : SocketAddr := ("10.0.0.3"%string, 9000).

Definition three_members : gmap SocketAddr bytes :=
  {[addr_a := demo_key 1; addr_b := demo_key 2; addr_c := demo_key 3]}.

Lemma three_members_list b i :
  three_members !! b = Some i -> (b, i) ∈ [(addr_a, demo_key 1); (addr_b, demo_key 2); (addr_c, demo_key 3)].
Proof.
  unfold three_members. rewrite !lookup_insert_Some, lookup_singleton_Some, !elem_of_cons. naive_solver.
Qed.

Lemma three_members_population : population three_members.
Proof.
  split.
  - intros b c i Hb%three_members_list Hc%three_members_list. rewrite !elem_of_cons, elem_of_nil in Hb, Hc.
    destruct Hb as [[= -> ->]|[[= -> ->]|[[= -> ->]|[]]]]; destruct Hc as [Ec|[Ec|[Ec|[]]]];
      first [by apply (f_equal fst) in Ec
            |exfalso; apply (f_equal snd) in Ec; revert Ec; apply (bool_decide_unpack _); vm_compute; exact I].
  - intros b i Hb%three_members_list. rewrite !elem_of_cons, elem_of_nil in Hb.
    by destruct Hb as [[= -> ->]|[[= -> ->]|[[= -> ->]|[]]]].
  - intros [] i _. done.
Qed.

Lemma working_cluster_serves_witness :
  exists cl', run_move CRAWL_FUEL 3 (mkMove 0 (fun _ => Delivered) addr_a (ASet demo_did [x01; x41]))
      (formed tt 3 (server_storage None) three_members : cluster ForgetfulStorage unit SimpleCache)
      = Some (OAnswer (Some true), cl') /\
    exists cl'', run_move CRAWL_FUEL 3 (mkMove 0 (fun _ => Delivered) addr_c (AGet demo_did)) cl'
      = Some (OValue (Some [x01; x41]), cl'').
Proof.
  pose proof (formed_mesh (C := SimpleCache) tt 3 (server_storage None) three_members three_members_population
    ltac:(lia) ltac:(by vm_compute; lia) ltac:(done) 0) as Hm.
  destruct (working_cluster_serves tt 3 0 three_members addr_a demo_did [x01; x41] _ Hm) as (cl' & Hset & _ & Hget).
  - by exists (demo_key 1).
  - exists addr_b. split; [done|]. by exists (demo_key 2).
  - intros c Hc%three_members_list%(list_elem_of_fmap_2 snd). revert Hc. apply (bool_decide_unpack _). vm_compute. exact I.
  - by apply formed_free.
  - vm_compute. reflexivity.
  - vm_compute. reflexivity.
  - exists cl'. split; [exact Hset|]. apply (Hget 0 addr_c); [lia|by exists (demo_key 3)|done].
Defined.
