(* ===== verification/Maintain.v ===== *)
(** * Maintain: updating and deleting in a cluster that loses nothing

    [Reliable.v] shows that a record set in a working cluster is read everywhere.
    Here the record is changed.  A node lookup ([NodeSpiderCrawl] of
    [src/src/crawling.rs]) reaches every member; the [Update] and [Delete] requests
    of [src/src/network.rs] then reach every copy, except the one of the node that
    makes them: a deletion is complete, and an update leaves its own node's copy as
    it was when that node is the farthest from the key. *)
From S2P Require Import Prelude Node Routing RoutingTable RoutingTableSpec Storage Text Crypto AuthHandler SigCache Crawling Protocol ProtocolSpec Network NetworkSpec Cluster Reliable.
From Stdlib Require Import Strings.Byte.
Local Open Scope Z_scope.

(** ** Node lookups among peers that answer *)

Section reliable_nodes.
Context `{UnstableSort} `{HashOrder} {P : Type} `{SpiderProtocol P}.
Variables (J : P -> Prop) (G : Node -> Prop) (T : Node).

Definition nodes_answered (r : RawResponse) : Prop := happened r = true /\ Forall G (get_node_list r).

Hypothesis Hans : forall p n, J p -> G n ->
  J (fst (call_find_node p n T)) /\ nodes_answered (snd (call_find_node p n T)).
Hypothesis HGwf : forall n, G n -> wf_node n.

Lemma call_all_nodes p peers :
  J p -> Forall G peers ->
  J (fst (call_all call_find_node T p peers)) /\
  Forall (fun ir => nodes_answered (snd ir)) (snd (call_all call_find_node T p peers)).
Proof.
  intros Hj Hp. revert p Hj. induction Hp as [|n peers Hn _ IH]; intros p Hj; simpl; [done|].
  destruct (Hans p n Hj Hn) as [Hj1 Hr]. destruct (call_find_node p n T) as [p1 r].
  destruct (IH p1 Hj1) as [Hj2 Hrs]. destruct (call_all _ T p1 peers) as [p2 rs]. cbn [fst snd] in *.
  split; [done|by constructor].
Qed.

(** A heap with room for all peers loses none of them. *)
Definition keeps_all (h h' : NodeHeap) : Prop :=
  forall U : gset bytes, (forall n, G n -> id n ∈ U) -> (size U <= maxsize h)%nat ->
    forall i, i ∈ heap_ids h -> i ∈ heap_ids h'.

Lemma node_responses_ok h rs :
  heap_wf h -> heap_in G h -> Forall (fun ir => nodes_answered (snd ir)) rs ->
  heap_in G (fst (node_responses h [] rs)) /\ snd (node_responses h [] rs) = [] /\
  keeps_all h (fst (node_responses h [] rs)).
Proof.
  intros Hw Hh Hrs. revert h Hw Hh. induction Hrs as [|[i r] rs [Hhap Hl] _ IH]; intros h Hw Hh; cbn [node_responses].
  { split_and!; [done|done|]. by intros U _ _. }
  cbn [snd] in Hhap, Hl. rewrite Hhap. cbn [negb].
  pose proof (Forall_impl _ _ _ Hl HGwf) as Hlw. destruct (push_fields h (get_node_list r)) as (_ & _ & Em).
  destruct (IH (push h (get_node_list r)) (push_wf h _ Hw Hlw) (push_heap_in G h _ Hh Hl)) as (I1 & I2 & I3).
  split_and!; [done|done|]. intros U HU Hs j Hj. apply (I3 U HU); [by rewrite Em|].
  apply list_elem_of_fmap in Hj as (e & -> & He). apply (push_room U); try done.
  - eapply Forall_impl; [exact Hh|]. intros e'. apply HU.
  - eapply Forall_impl; [exact Hl|]. apply HU.
  - apply elem_of_app. left. by apply list_elem_of_fmap_2.
Qed.

Lemma node_round_ok round p c :
  J p -> crawl_wf c -> heap_in G (nearest c) -> cnode c = T ->
  J (fst (node_round round p c)) /\ heap_in G (nearest (snd (node_round round p c))) /\
  keeps_all (nearest c) (nearest (snd (node_round round p c))).
Proof.
  intros Hj Hw Hh Et. unfold node_round, find_round. rewrite Et.
  destruct (call_all_nodes p (round_peers c) Hj (round_peers_good G c Hw Hh)) as [Hj' Hrs].
  destruct (call_all _ T p _) as [p' rs]. cbn [fst snd nearest] in *.
  assert (Forall (fun ir => nodes_answered (snd ir))
    (hash_iter round (map_to_list (list_to_map rs : gmap bytes RawResponse)))) as Hit.
  { rewrite Forall_forall in *. intros [i r] Hin. rewrite hash_iter_perm in Hin.
    apply elem_of_map_to_list, elem_of_list_to_map_2 in Hin. exact (Hrs _ Hin). }
  destruct (mark_all_fields (round_peers c) (nearest c)) as (_ & Fh & Fm & _).
  destruct (node_responses_ok (foldl mark_contacted (nearest c) (round_peers c)) _ (mark_all_wf _ _ (cw_heap _ Hw))
    ltac:(by unfold heap_in; rewrite Fh) Hit) as (I1 & I2 & I3).
  destruct (node_responses _ [] _) as [h rem]. cbn [fst snd] in *. subst rem. split_and!; [done|done|].
  unfold keeps_all, heap_ids in *. by rewrite Fh, Fm in I3.
Qed.

(** A node lookup ends; it lists peers only, and, if there is room, all that it
    started with. *)
Lemma node_find_ok fuel round p c :
  J p -> crawl_wf c -> heap_in G (nearest c) -> cnode c = T -> (measure id_universe c < fuel)%nat ->
  exists p' c' ns, node_find fuel round p c = Some (p', c', ns) /\ J p' /\ Forall G ns /\
    forall U : gset bytes, (forall n, G n -> id n ∈ U) -> (size U <= cksize c)%nat ->
      forall i, i ∈ heap_ids (nearest c) -> i ∈ id <$> ns.
Proof.
  revert round p c. induction fuel as [|fuel IH]; intros round p c Hj Hw Hh Et Hf; [lia|]. cbn [node_find].
  destruct (node_round_ok round p c Hj Hw Hh Et) as (Hj1 & Hh1 & Hk1).
  pose proof (node_round_rel id_universe round p c Hw (known_universe c Hw) (all_answers_in _)) as Hrel.
  destruct (node_round round p c) as [p1 c1]. cbn [fst snd] in *. pose proof (rr_wf _ _ _ Hrel) as Hw1.
  destruct (rr_alpha _ _ _ Hrel) as (_ & Ek & Et1). unfold keeps_all in Hk1. rewrite (cw_size c Hw) in Hk1.
  destruct (have_contacted_all (nearest c1)) eqn:Hall.
  - do 3 eexists. split; [reflexivity|]. split_and!; [done|..].
    + unfold to_vec. rewrite iter_perm by apply Hw1. by apply Forall_fmap.
    + intros U HU Hs i Hi. apply (to_vec_ids c1 i Hw1). by apply (Hk1 U).
  - destruct (round_measure id_universe c c1 Hw (known_universe _ Hw) Hrel) as [Hx|Hlt]; [congruence|].
    destruct (IH (Datatypes.S round) p1 c1 Hj1 Hw1 Hh1) as (p' & c' & ns & E' & Hj' & Hg & Hroom); [congruence|lia|].
    do 3 eexists. split; [exact E'|]. split_and!; [done..|].
    intros U HU Hs i Hi. apply (Hroom U HU); [by rewrite Ek|]. by apply (Hk1 U).
Qed.

End reliable_nodes.

Section mesh.
Context `{US : UnstableSort} `{HO : HashOrder} `{HA : Hashes} `{NA : NetAddr}.
Context {S : Type} `{SL : StorageLaws S}.
Context {Hd E : Type} `{HL : HandlerLaws Hd E}.
Context {C : Type} `{MC : Moka C}.

Local Abbreviation proto := (KademliaProtocol S Hd C).
Local Abbreviation seat := (Seat S Hd C).
Local Abbreviation home b := (addr_ip b, addr_port b).

(** ** Calls to a member *)

(** A call whose request the member at [c] handles. *)
Lemma member_called {X} h t P a r c n (f : bytes -> RpcMessage) (call : Call X) p resp p' x :
  seat_ok h t P a r -> c <> a -> member P c n -> rise r !! c = Some p ->
  request call = to_peer n f -> well_typed (f (id (source_node (own r)))) = true ->
  dispatch_request t (f (id (source_node (own r)))) a p = Some (Some resp, p') -> quiet p p' ->
  (forall q, finish call (Some resp) (on_response c resp q) = (x, q)) ->
  exists r', one_call t call r = (x, r') /\ seat_ok h t P a r' /\ rise r' = <[c := p']> (rise r) /\ own r' = own r.
Proof.
  intros Hs Hca Hc Hp Hreq Hm Ed Hq Hfin. pose proof (me_pop _ _ _ _ (so_mesh _ _ _ _ _ Hs)) as Hpop.
  destruct (reliable_send h t P a r c p _ _ p' Hs Hca Hp Hm Ed Hq) as (r1 & Esend & Hs1 & Er1 & Eo1).
  exists r1. split_and!; [|done..]. unfold one_call. rewrite Hreq. cbn [rproto set_rproto send cluster_net].
  unfold to_peer. rewrite (member_addr P c n Hpop Hc). cbn [mbind option_bind]. rewrite Esend. cbn [on_answer]. rewrite Hfin. by destruct r1.
Qed.

(** Asking a member for nodes. *)
Lemma find_node_handled now P b p a i key :
  proto_wf p -> knows_all P b p -> population P -> P !! a = Some i -> length i = ID_LEN -> length key = ID_LEN ->
  exists ns p', dispatch_request now (FindNode i key) a p = Some (Some (FindNodeResult (wire_of_node <$> ns)), p') /\
    quiet p p' /\ storage p' = storage p /\ Forall (peer_of P a) ns.
Proof.
  intros Hw Hk Hp Ha Hi Hl. cbn [dispatch_request rpc_find_node]. unfold rpc_find_node. cbn [router spawn].
  assert (wf_node (from_id key)) as Ht by (by apply Node_new_wf).
  set (src := sender i (home a)).
  pose proof (quiet_find now (spawn p (WelcomeIfNew src)) (from_id key) (Some src)
    (spawn_wf _ (WelcomeIfNew src) Hw (sender_wf _ _ Hi)) Ht) as Hq.
  pose proof (find_neighbors_members now (router p) (from_id key) (Some src) (pw_table _ Hw) Ht (pw_ksize _ Hw)) as Hm.
  cbn [router spawn] in Hq. destruct (find_neighbors now (router p) _ _) as [r ns]. cbn [fst snd] in *.
  do 2 eexists. split; [reflexivity|]. split_and!; [|done|].
  - etransitivity; [|exact Hq]. apply quiet_spawn.
  - eapply Forall_impl; [exact Hm|]. intros n [Hn Hsk].
    destruct (ka_only _ _ _ Hk n (all_nodes_contacts _ _ Hn)) as (c & Hcb & Hc). exists c. split; [|done]. intros ->.
    destruct Hc as [Hc _]. rewrite Ha in Hc. injection Hc as ->.
    unfold skip_neighbor, src in Hsk. cbn [sender Node_new id] in Hsk.
    rewrite (bool_decide_true (id n = id n)) in Hsk by done. by rewrite orb_true_r in Hsk.
Qed.

Lemma find_node_asked h t P a r n key :
  seat_ok h t P a r -> peer_of P a n -> length key = ID_LEN ->
  let x := one_call t (find_node_call n (from_id key)) r in
  seat_ok h t P a (snd x) /\ (forall b, stores_of (rise (snd x)) b = stores_of (rise r) b) /\
  nodes_answered (peer_of P a) (fst x).
Proof.
  intros Hs (c & Hca & Hc) Hl. pose proof (me_pop _ _ _ _ (so_mesh _ _ _ _ _ Hs)) as Hpop.
  destruct (seat_member h t P a r c n Hs Hca Hc) as (p & Hp & Hw & Hk).
  pose proof (own_self _ _ _ _ _ Hs) as Hself. pose proof (pop_length P Hpop a _ Hself) as Hi.
  destruct (find_node_handled t P c p a (id (source_node (own r))) key Hw Hk Hpop Hself Hi Hl) as (ns & p' & Ed & Hq & Est & Hns).
  assert (well_typed (FindNode (id (source_node (own r))) key) = true) as Hm by (simpl; by rewrite Hi, Hl).
  destruct (reliable_send h t P a r c p _ _ p' Hs Hca Hp Hm Ed Hq) as (r1 & Esend & Hs1 & Er1 & Eo1).
  unfold one_call. cbn [request finish find_node_call rproto set_rproto send cluster_net].
  unfold to_peer. rewrite (member_addr P c n Hpop Hc). cbn [mbind option_bind id from_id Node_new].
  rewrite Esend. unfold kp_call_find_node. rewrite (member_addr P c n Hpop Hc). cbv zeta. cbn [on_answer on_response fst snd].
  assert (proto_inv h (t, spawn (own r1) (WelcomeIfNew n))) as Hi1.
  { pose proof (own_inv _ _ _ _ _ Hs1) as [W1 W2 W3 W4]. split; [|done..]. apply spawn_wf; [done|]. by apply (member_wf P c). }
  destruct (own_step h t P a r1 (spawn (own r1) (WelcomeIfNew n)) Hs1 (quiet_spawn _ _) Hi1) as [Hs2 Er2].
  split_and!; [done|..].
  - intros b. rewrite Er2, (stores_of_insert _ a (own r1)); [|by eapply rise_own|done].
    rewrite Er1. by apply (stores_of_insert _ c p).
  - split; [done|]. rewrite wire_nodes; [done|]. eapply Forall_impl; [exact Hns|]. intros m (d & _ & Hmd). by apply (member_wf P d).
Qed.

(** A node lookup among all members lists them all, and changes no store. *)
Lemma crawl_mesh h t P a key peers (s : Server seat) :
  seat_ok h t P a (running s) -> length key = ID_LEN -> (0 < sksize s)%nat -> Forall (peer_of P a) peers ->
  exists ns s', crawl_nodes CRAWL_FUEL t (from_id key) peers s = Some (ns, s') /\
    seat_ok h t P a (running s') /\ same_params s s' /\
    (forall b, stores_of (rise (running s')) b = stores_of (rise (running s)) b) /\ Forall (peer_of P a) ns /\
    ((size P <= sksize s)%nat -> forall n, n ∈ peers -> id n ∈ id <$> ns).
Proof.
  intros Hs Hl Hk Hp. pose proof (me_pop _ _ _ _ (so_mesh _ _ _ _ _ Hs)) as Hpop.
  assert (forall n, peer_of P a n -> wf_node n) as Hwf by (intros n (c & _ & Hc); by apply (member_wf P c)).
  pose proof (Forall_impl _ _ _ Hp Hwf) as Hpw. set (c0 := SpiderCrawl_new (from_id key) peers (sksize s) (salpha s)).
  pose (J := fun r : seat => seat_ok h t P a r /\ forall b, stores_of (rise r) b = stores_of (rise (running s)) b).
  assert (forall r n, J r -> peer_of P a n ->
    J (fst (@call_find_node _ (kademlia_spider t) r n (from_id key))) /\
    nodes_answered (peer_of P a) (snd (@call_find_node _ (kademlia_spider t) r n (from_id key)))) as Hans.
  { intros r n [Hr Hst] Hn. cbn [call_find_node kademlia_spider].
    destruct (find_node_asked h t P a r n key Hr Hn Hl) as (Hs' & Hst' & Ha).
    destruct (one_call t (find_node_call n (from_id key)) r) as [raw r']. cbn [fst snd] in *.
    split; [split; [done|]; intros b; by rewrite Hst'|done]. }
  destruct (@node_find_ok _ _ _ (kademlia_spider t) J (peer_of P a) (from_id key) Hans Hwf CRAWL_FUEL 0 (running s) c0)
    as (r' & c' & ns & E' & [Hr' Hst'] & Hg & Hroom).
  - by split.
  - by apply SpiderCrawl_new_wf.
  - by apply push_heap_in; [constructor|].
  - done.
  - apply measure_bound.
  - unfold crawl_nodes. fold c0. rewrite E'. clear E'. do 2 eexists. split; [reflexivity|]. cbn [running set_running].
    split_and!; [done|by destruct s|done|done|].
    intros Hs' n Hn. pose proof (member_ids_size P). apply (Hroom (member_ids P)).
    + intros m. apply (peer_id P a).
    + cbn. lia.
    + apply (push_room (member_ids P)); [apply NodeHeap_new_wf|done|constructor|..|by apply elem_of_app; right].
      * eapply Forall_impl; [exact Hp|]. intros m. apply (peer_id P a).
      * cbn. lia.
Qed.

(** ** Changing every copy of a record *)

(** What the node at [c] holds under the key. *)
Definition at_key (t : Z) (key : bytes) (cl : cluster S Hd C) (c : SocketAddr) : option bytes :=
  p ← cl !! c; get t (storage p) key.

(** A request leaves a copy as it is or puts [z] in its place; it makes no copy. *)
Definition changed (z x y : option bytes) : Prop := y = x \/ (is_Some x /\ y = z).

#[global] Instance changed_preorder z : PreOrder (changed z).
Proof.
  split; [by left|]. intros x y w [->|[Hx ->]] [->|[Hy ->]]; [by left|by right|by right|by right].
Qed.

Section changes.
Context (h : Hd) (t : Z) (P : gmap SocketAddr bytes) (a : SocketAddr) (key v : bytes) (z : option bytes).

(** What a call [f n] to a member does: only that member's copy changes, and the copy
    [v] does, with the answer [true]. *)
Record change_asked (f : Node -> Call bool) (n : Node) (c : SocketAddr) (r : seat) (ok : bool) (r' : seat) : Prop := {
  ca_call : one_call t (f n) r = (ok, r');
  ca_seat : seat_ok h t P a r';
  ca_own : own r' = own r;
  ca_others : forall c', c' <> c -> at_key t key (rise r') c' = at_key t key (rise r) c';
  ca_changed : changed z (at_key t key (rise r) c) (at_key t key (rise r') c);
  ca_copy : at_key t key (rise r) c = Some v -> at_key t key (rise r') c = z /\ ok = true
}.

Variable f : Node -> Call (S := S) (Hd := Hd) (C := C) bool.
Hypothesis Hasks : forall r n c, seat_ok h t P a r -> c <> a -> member P c n -> exists ok r', change_asked f n c r ok r'.

Lemma changes_asked r ns :
  seat_ok h t P a r -> Forall (peer_of P a) ns ->
  let '(oks, r') := call_each t f ns r in
  seat_ok h t P a r' /\ own r' = own r /\
  (forall c, changed z (at_key t key (rise r) c) (at_key t key (rise r') c)) /\
  forall c n, c <> a -> member P c n -> id n ∈ id <$> ns -> at_key t key (rise r) c = Some v ->
    at_key t key (rise r') c = z /\ existsb (fun b => b) oks = true.
Proof.
  intros Hs Hns. revert r Hs. induction Hns as [|m ns Hm _ IH]; intros r Hs; cbn [call_each].
  { split_and!; [done|done|reflexivity|]. intros c n _ _ Hn. by apply elem_of_nil in Hn. }
  destruct Hm as (d & Hda & Hd'). destruct (Hasks r m d Hs Hda Hd') as (ok & r1 & [-> Hs1 Ho1 Hoth Hch Hcopy]).
  specialize (IH r1 Hs1). destruct (call_each t f ns r1) as [oks r2]. destruct IH as (Hs2 & Ho2 & Hch2 & Hin2).
  assert (forall c, changed z (at_key t key (rise r) c) (at_key t key (rise r1) c)) as Hch1.
  { intros c. destruct (decide (c = d)) as [->|Hne]; [done|]. rewrite Hoth by done. reflexivity. }
  split_and!; [done|congruence|intros c; exact (transitivity (Hch1 c) (Hch2 c))|].
  intros c n Hca Hc Hn Hv. cbn [existsb]. destruct (decide (c = d)) as [->|Hne].
  - destruct (Hcopy Hv) as [Hz ->]. split; [|done]. destruct (Hch2 d) as [E2|[_ E2]]; by rewrite E2.
  - rewrite <- (Hoth c Hne) in Hv. destruct (Hin2 c n Hca Hc) as [E2 E3]; [|done|by rewrite E3, orb_true_r].
    rewrite fmap_cons in Hn. apply elem_of_cons in Hn as [En|Hn]; [|done]. exfalso.
    apply Hne, (pop_inj P (me_pop _ _ _ _ (so_mesh _ _ _ _ _ Hs)) c d (id n)); [apply Hc|]. rewrite En. apply Hd'.
Qed.

End changes.

Lemma at_key_insert t key (cl : cluster S Hd C) c p :
  at_key t key (<[c := p]> cl) c = get t (storage p) key /\
  forall c', c' <> c -> at_key t key (<[c := p]> cl) c' = at_key t key cl c'.
Proof.
  unfold at_key. split; [by rewrite lookup_insert_eq|]. intros c' Hne. by rewrite lookup_insert_ne.
Qed.

(** Asking a member to replace its copy. *)
Lemma update_asked h t P a key v v' sig r n c :
  handle_update_verification h v' v sig = Ok true -> length key = ID_LEN ->
  seat_ok h t P a r -> c <> a -> member P c n ->
  exists ok r', change_asked h t P a key v (Some v') (fun n => update_call n key v' sig) n c r ok r'.
Proof.
  intros Hu Hl Hs Hca Hc. pose proof (me_pop _ _ _ _ (so_mesh _ _ _ _ _ Hs)) as Hpop.
  destruct (seat_member h t P a r c n Hs Hca Hc) as (p & Hp & _).
  pose proof (pi_handler _ _ (me_inv _ _ _ _ (so_mesh _ _ _ _ _ Hs) c p Hp)) as Hh. cbn [snd] in Hh.
  set (i := id (source_node (own r))). pose proof (pop_length P Hpop a _ (own_self _ _ _ _ _ Hs)) as Hi.
  destruct (rpc_update t i (home a) key v' sig p) as [ok p'] eqn:Eu.
  assert (quiet p p' /\ changed (Some v') (get t (storage p) key) (get t (storage p') key) /\
    (get t (storage p) key = Some v -> get t (storage p') key = Some v' /\ ok = true)) as (Hq & Hch & Hcopy).
  { revert Eu. unfold rpc_update. rewrite Hh. destruct (get t (storage p) key) as [w|] eqn:Eg.
    2:{ intros [= <- <-]. split_and!; [done|by left|done]. }
    destruct (handle_update_verification h v' w sig) as [[]|e] eqn:Ew; cbn [unwrap_or negb]; intros [= <- <-].
    1:{ cbn [storage spawn set_storage]. rewrite get_set, decide_True by done. split_and!; [done|by right|done]. }
    all: rewrite Eg; split_and!; [done|by left|]; intros [= ->]; by rewrite Hu in Ew. }
  destruct (member_called h t P a r c n (fun i => Update i key v' sig) (update_call n key v' sig) p (UpdateResult ok) p' ok)
    as (r' & Ecall & Hs' & Er & Eo); try done.
  - simpl. by rewrite Hi, Hl.
  - cbn [dispatch_request]. fold i. by rewrite Eu.
  - intros q. cbn [finish update_call]. unfold call_update_rpc. by rewrite (member_addr P c n Hpop Hc).
  - destruct (at_key_insert t key (rise r) c p') as [E1 E2].
    assert (at_key t key (rise r) c = get t (storage p) key) as E0 by (unfold at_key; by rewrite Hp).
    exists ok, r'. split; [done..|by rewrite Er| |]; rewrite ?Er, ?E0, ?E1; done.
Qed.

(** Asking a member to remove its copy. *)
Lemma delete_asked h t P a key v sig msg r n c :
  handle_signature_delete_operation h v sig msg = Ok true -> length key = ID_LEN ->
  seat_ok h t P a r -> c <> a -> member P c n ->
  exists ok r', change_asked h t P a key v None (fun n => delete_call n key sig msg) n c r ok r'.
Proof.
  intros Hu Hl Hs Hca Hc. pose proof (me_pop _ _ _ _ (so_mesh _ _ _ _ _ Hs)) as Hpop.
  destruct (seat_member h t P a r c n Hs Hca Hc) as (p & Hp & _).
  pose proof (pi_handler _ _ (me_inv _ _ _ _ (so_mesh _ _ _ _ _ Hs) c p Hp)) as Hh. cbn [snd] in Hh.
  set (i := id (source_node (own r))). pose proof (pop_length P Hpop a _ (own_self _ _ _ _ _ Hs)) as Hi.
  destruct (rpc_delete t i (home a) key sig msg p) as [ok p'] eqn:Eu.
  assert (quiet p p' /\ changed None (get t (storage p) key) (get t (storage p') key) /\
    (get t (storage p) key = Some v -> get t (storage p') key = None /\ ok = true)) as (Hq & Hch & Hcopy).
  { revert Eu. unfold rpc_delete. rewrite Hh. destruct (get t (storage p) key) as [w|] eqn:Eg.
    2:{ intros [= <- <-]. split_and!; [done|by left|done]. }
    destruct (handle_signature_delete_operation h w sig msg) as [[]|e] eqn:Ew; cbn [unwrap_or negb]; intros [= <- <-].
    1:{ cbn [storage spawn set_storage]. rewrite get_delete, decide_True by done. split_and!; [done|by right|done]. }
    all: rewrite Eg; split_and!; [done|by left|]; intros [= ->]; by rewrite Hu in Ew. }
  destruct (member_called h t P a r c n (fun i => Delete i key sig msg) (delete_call n key sig msg) p (DeleteResult ok) p' ok)
    as (r' & Ecall & Hs' & Er & Eo); try done.
  - simpl. by rewrite Hi, Hl.
  - cbn [dispatch_request]. fold i. by rewrite Eu.
  - intros q. cbn [finish delete_call]. unfold call_delete_rpc. by rewrite (member_addr P c n Hpop Hc).
  - destruct (at_key_insert t key (rise r) c p') as [E1 E2].
    assert (at_key t key (rise r) c = get t (storage p) key) as E0 by (unfold at_key; by rewrite Hp).
    exists ok, r'. split; [done..|by rewrite Er| |]; rewrite ?Er, ?E0, ?E1; done.
Qed.

(** ** The operations *)

(** The lookup of an operation reaches every other member. *)
Lemma members_reached h t P a key (s : Server seat) :
  seat_ok h t P a (running s) -> length key = ID_LEN -> (0 < sksize s)%nat -> (size P <= sksize s)%nat ->
  (forall c, P !! c <> Some key) -> (exists c, c <> a /\ is_Some (P !! c)) ->
  let '(nearest, s1) := neighbors_of t (from_id key) s in
  nearest <> [] /\ exists ns s2, crawl_nodes CRAWL_FUEL t (from_id key) nearest s1 = Some (ns, s2) /\
    seat_ok h t P a (running s2) /\ same_params s s2 /\
    (forall b, stores_of (rise (running s2)) b = stores_of (rise (running s)) b) /\ Forall (peer_of P a) ns /\
    forall c i, c <> a -> P !! c = Some i -> i ∈ id <$> ns.
Proof.
  intros Hs Hl Hk Hsz Hid (c0 & Hc0 & i0 & Hi0).
  pose proof (neighbors_mesh h t P a key s Hs Hl Hid) as Hn.
  destruct (neighbors_of t (from_id key) s) as [nearest s1]. destruct Hn as (Hs1 & Hst1 & Hp1 & Hpeers & Hsome).
  split; [apply (Hsome c0 i0 Hc0 Hi0)|]. destruct (same_params_fields _ _ Hp1) as (_ & _ & Ek & _).
  destruct (crawl_mesh h t P a key nearest s1 Hs1 Hl) as (ns & s2 & Ec & Hs2 & Hp2 & Hst2 & Hns & Hall);
    [by rewrite Ek|done|].
  exists ns, s2. split; [exact Ec|]. clear Ec. split_and!; [done|by transitivity s1|intros b; by rewrite Hst2|done|].
  intros c i Hca Hc. apply (Hall ltac:(by rewrite Ek) (sender i (home c))), (Hsome c i Hca Hc).
  apply (ka_room _ _ _ (me_nodes _ _ _ _ (so_mesh _ _ _ _ _ Hs) a _ (rise_own _ _ _ _ _ Hs))).
Qed.

Lemma foldl_max_spec (x : Z) l : let m := foldl Z.max x l in m ∈ x :: l /\ forall y, y ∈ x :: l -> y <= m.
Proof.
  revert x. induction l as [|z l IH]; intros x; cbn [foldl].
  { split; [left|]. intros y Hy%list_elem_of_singleton. lia. }
  destruct (IH (Z.max x z)) as [Hin Hle]. split.
  - apply elem_of_cons in Hin as [->|Hin]; [|by do 2 right]. destruct (Z.max_spec x z) as [[_ ->]|[_ ->]]; [right|]; left.
  - pose proof (Hle (Z.max x z) ltac:(left)). intros y [->|[->|Hy]%elem_of_cons]%elem_of_cons; [lia|lia|].
    apply Hle. by right.
Qed.

Lemma farthest_spec target ns :
  ns <> [] -> exists n, n ∈ ns /\ farthest target ns = Some (distance_to n target) /\
    forall m, m ∈ ns -> distance_to m target <= distance_to n target.
Proof.
  destruct ns as [|n0 ns]; [done|]. intros _. cbn [farthest].
  destruct (foldl_max_spec (distance_to n0 target) ((fun m => distance_to m target) <$> ns)) as [Hin Hle].
  rewrite <- (fmap_cons (fun m => distance_to m target)) in Hin, Hle.
  apply list_elem_of_fmap in Hin as (n & En & Hn). exists n. split_and!; [done|by rewrite En|].
  intros m Hm. rewrite <- En. apply Hle. by apply (list_elem_of_fmap_2 (fun m => distance_to m target)).
Qed.

(** The node at [a] is at least as far from the key as every other member. *)
Definition outermost (P : gmap SocketAddr bytes) (a : SocketAddr) (key : bytes) : Prop :=
  forall i c j, P !! a = Some i -> c <> a -> P !! c = Some j ->
    distance_to (from_id j) (from_id key) <= distance_to (from_id i) (from_id key).

Lemma wf_distance n target : wf_node n -> distance_to n target = distance_to (from_id (id n)) target.
Proof. intros [_ Hn]. unfold distance_to, from_id. cbn. by rewrite Hn. Qed.

(** The node's own copy is written exactly when some member is farther. *)
Lemma store_locally_cases h t P a key v' ns (s : Server seat) :
  seat_ok h t P a (running s) -> authentic h v' -> wf_node (snode s) -> P !! a = Some (id (snode s)) ->
  Forall (peer_of P a) ns -> ns <> [] -> (forall c i, c <> a -> P !! c = Some i -> i ∈ id <$> ns) ->
  let s' := store_locally t key v' ns s in
  seat_ok h t P a (running s') /\ (forall c, c <> a -> at_key t key (rise (running s')) c = at_key t key (rise (running s)) c) /\
  ((at_key t key (rise (running s')) a = Some v' /\ ~ outermost P a key) \/ (s' = s /\ outermost P a key)).
Proof.
  intros Hs Hau Hwn Hself Hns Hne Hall. pose proof (store_locally_inv h t key v' ns s (seat_inv _ _ _ _ _ Hs) Hau) as Hi. cbv zeta.
  pose proof (me_pop _ _ _ _ (so_mesh _ _ _ _ _ Hs)) as Hpop.
  destruct (farthest_spec (from_id key) ns Hne) as (n & Hn & Ef & Hmax).
  destruct (proj1 (Forall_forall _ _) Hns n Hn) as (d & Hda & Hd').
  rewrite (wf_distance n) in Ef, Hmax by (by apply (member_wf P d)).
  revert Hi. unfold store_locally. rewrite Ef, (wf_distance _ _ Hwn).
  destruct (Z.ltb_spec (distance_to (from_id (id (snode s))) (from_id key)) (distance_to (from_id (id n)) (from_id key))) as [Hlt|Hge].
  - cbn [running set_running rproto set_rproto cluster_net]. intros [Hi _]. cbn [rproto cluster_net own set_own] in Hi.
    destruct (own_step h t P a (running s) _ Hs (quiet_storage _ _) Hi) as [Hs' Er]. rewrite Er.
    match goal with |- context [<[a := ?q]> (rise (running s))] => destruct (at_key_insert t key (rise (running s)) a q) as [E1 E2] end.
    split_and!; [done|done|left]. rewrite E1. cbn [storage set_storage]. rewrite get_set, decide_True by done. split; [done|].
    intros Hout. pose proof (Hout _ d (id n) Hself Hda (proj1 Hd')). lia.
  - intros _. split_and!; [done|done|right]. split; [done|]. intros i c j Hi Hca Hc. rewrite Hself in Hi. injection Hi as <-.
    destruct (proj1 (list_elem_of_fmap _ _ _) (Hall c j Hca Hc)) as (m & Em & Hm).
    destruct (proj1 (Forall_forall _ _) Hns m Hm) as (d2 & _ & Hd2).
    pose proof (Hmax m Hm) as Hle. rewrite (wf_distance m), <- Em in Hle by (by apply (member_wf P d2)). lia.
Qed.

Lemma at_key_own h t P a key (r : seat) : seat_ok h t P a r -> at_key t key (rise r) a = get t (storage (own r)) key.
Proof. intros Hs. unfold at_key. by rewrite (rise_own _ _ _ _ _ Hs). Qed.

Lemma at_key_stores t key (cl cl' : cluster S Hd C) c :
  stores_of cl' c = stores_of cl c -> at_key t key cl' c = at_key t key cl c.
Proof. unfold stores_of, at_key. destruct (cl !! c), (cl' !! c); cbn; congruence. Qed.

Lemma at_key_Some t key (cl : cluster S Hd C) c w :
  at_key t key cl c = Some w <-> exists p, cl !! c = Some p /\ get t (storage p) key = Some w.
Proof. unfold at_key. destruct (cl !! c); naive_solver. Qed.

(** The server of a member of the mesh, with room for all members. *)
Record member_server (h : Hd) (t : Z) (P : gmap SocketAddr bytes) (a : SocketAddr) (s : Server seat) : Prop := {
  ms_seat : seat_ok h t P a (running s);
  ms_up : listening s = true;
  ms_ksize : (0 < sksize s)%nat;
  ms_room : (size P <= sksize s)%nat;
  ms_node : wf_node (snode s);
  ms_self : P !! a = Some (id (snode s))
}.

Lemma member_server_same h t P a s s' :
  member_server h t P a s -> seat_ok h t P a (running s') -> same_params s s' -> member_server h t P a s'.
Proof.
  intros [_ M2 M3 M4 M5 M6] Hs' Hp. destruct (same_params_fields _ _ Hp) as (En & Eu & Ek & _).
  split; rewrite ?En, ?Eu, ?Ek; done.
Qed.

Lemma sit_member h t P al cl a p f :
  mesh h t P cl -> cl !! a = Some p -> (forall n, f n = Delivered) ->
  member_server h t P a (sit al cl f a p) /\ rise (running (sit al cl f a p)) = cl.
Proof.
  intros Hm Ha Hf. destruct (sit_ok h t P al cl a p f Hm Ha Hf) as [Hs Er]. split; [|done].
  pose proof (pi_wf _ _ (me_inv _ _ _ _ Hm a p Ha)) as Hw. cbn [snd] in Hw. pose proof (me_nodes _ _ _ _ Hm a p Ha) as Hk.
  split; [done|done|apply Hw|apply Hk| |apply Hk]. cbn. rewrite <- (pw_local _ Hw). apply Hw.
Qed.

(** The copies after [update_digest]: the other members' are the new record, the
    node's own is, unless it is the outermost. *)
Definition updated (t : Z) (P : gmap SocketAddr bytes) (a : SocketAddr) (key v v' : bytes) (cl cl' : cluster S Hd C) : Prop :=
  (forall c, c <> a -> at_key t key cl c = Some v -> at_key t key cl' c = Some v') /\
  (forall c w, c <> a -> at_key t key cl' c = Some w -> w = v') /\
  (exists c, c <> a /\ at_key t key cl' c = Some v') /\
  ((at_key t key cl' a = Some v' /\ ~ outermost P a key) \/ (at_key t key cl' a = at_key t key cl a /\ outermost P a key)).

Lemma update_digest_mesh `{!HashLaws} h t P a key v v' sig (s : Server seat) :
  member_server h t P a s -> (forall c, P !! c <> Some (digest key)) -> key <> STATUS_LIST_KEY ->
  only t (digest key) v (rise (running s)) -> (exists c, c <> a /\ at_key t (digest key) (rise (running s)) c = Some v) ->
  handle_update_verification h v' v sig = Ok true ->
  exists s', update_digest CRAWL_FUEL t key (digest key) v' (Some sig) s = Some (true, s') /\
    seat_ok h t P a (running s') /\ updated t P a (digest key) v v' (rise (running s)) (rise (running s')).
Proof.
  intros Hms Hid Hst Honly (c & Hca & Hc) Hu. pose proof Hms as [Hs Hup Hk Hsz _ _]. pose proof (digest_length key) as Hl.
  assert (is_Some (P !! c)) as [i Hi].
  { apply (me_dom _ _ _ _ (so_mesh _ _ _ _ _ Hs)). apply at_key_Some in Hc as (p & -> & _). done. }
  unfold update_digest. rewrite Hup. cbn [negb]. cbv zeta.
  pose proof (members_reached h t P a (digest key) s Hs Hl Hk Hsz Hid ltac:(by exists c)) as Hreach.
  destruct (neighbors_of t (from_id (digest key)) s) as [nearest s1]. destruct Hreach as (Hne & ns & s2 & Ec & Hs2 & Hp2 & Hst2 & Hns & Hall).
  destruct nearest as [|n0 nearest]; [destruct (Hne eq_refl)|]. rewrite Ec. clear Ec. cbn [mbind option_bind].
  destruct (member_server_same h t P a s s2 Hms Hs2 Hp2) as [_ _ _ _ M5 M6].
  assert (authentic h v') as Hau by (exists v'; split; [done|left; by eapply update_self_signed]).
  assert (ns <> []) as Hne' by (intros ->; specialize (Hall c i Hca Hi); by apply elem_of_nil in Hall).
  destruct (store_locally_cases h t P a (digest key) v' ns s2 Hs2 Hau M5 M6 Hns Hne' Hall) as (Hs3 & Hoth3 & Hown3).
  set (s3 := store_locally t (digest key) v' ns s2) in *. unfold call_nodes. rewrite (bool_decide_false (key = STATUS_LIST_KEY)) by done.
  pose proof (changes_asked h t P a (digest key) v (Some v') (fun n => update_call n (digest key) v' (default [] (Some sig)))
    (fun r n c Hr Hc' Hm => update_asked h t P a (digest key) v v' sig r n c Hu Hl Hr Hc' Hm) (running s3) ns Hs3 Hns) as Hch.
  destruct (call_each t _ ns (running s3)) as [oks r4]. destruct Hch as (Hs4 & Ho4 & Hch & Hcopy).
  assert (forall d, d <> a -> at_key t (digest key) (rise (running s3)) d = at_key t (digest key) (rise (running s)) d) as H3.
  { intros d Hd'. rewrite Hoth3 by done. by apply at_key_stores. }
  assert (forall d, d <> a -> at_key t (digest key) (rise (running s)) d = Some v -> at_key t (digest key) (rise r4) d = Some v' /\ existsb (fun b => b) oks = true) as Hcopy'.
  { intros d Hda Hd'. rewrite <- H3 in Hd' by done.
    assert (is_Some (P !! d)) as [j Hj].
    { apply (me_dom _ _ _ _ (so_mesh _ _ _ _ _ Hs3)). apply at_key_Some in Hd' as (p & -> & _). done. }
    apply (Hcopy d (sender j (home d)) Hda); [by split|by apply (Hall d)|done]. }
  destruct (Hcopy' c Hca Hc) as [Hc' ->]. eexists. split; [reflexivity|]. cbn [running set_running]. unfold updated. split_and!; [done|..].
  - intros d Hda Hd'. apply (Hcopy' d Hda Hd').
  - intros d w Hda Hw. destruct (Hch d) as [E1|[_ E1]]; rewrite E1 in Hw; [|by injection Hw].
    rewrite H3 in Hw by done. pose proof Hw as Hw'. apply at_key_Some in Hw' as (p & Hp & Hg).
    rewrite (Honly d p w Hp Hg) in Hw. destruct (Hcopy' d Hda Hw) as [E2 _].
    rewrite E1, H3, Hw in E2 by done. rewrite (Honly d p w Hp Hg). by injection E2.
  - by exists c.
  - assert (at_key t (digest key) (rise r4) a = at_key t (digest key) (rise (running s3)) a) as Ea.
    { rewrite !(at_key_own h t P a) by done. by rewrite Ho4. }
    rewrite Ea. destruct Hown3 as [?|[E3 Hout]]; [by left|right]. split; [|done].
    rewrite E3. by apply at_key_stores.
Qed.

(** Reading the record first, as the operations do. *)
Lemma get_member `{!HashLaws} h t P a key v (s : Server seat) :
  member_server h t P a s -> (forall c, P !! c <> Some (digest key)) -> digest key <> digest STATUS_LIST_KEY ->
  only t (digest key) v (rise (running s)) -> (exists c, at_key t (digest key) (rise (running s)) c = Some v) ->
  verify_record h false v = true ->
  exists s', server_get CRAWL_FUEL t key s = Some (Some v, s') /\ member_server h t P a s' /\
    only t (digest key) v (rise (running s')) /\
    (forall c, at_key t (digest key) (rise (running s)) c = Some v -> at_key t (digest key) (rise (running s')) c = Some v) /\
    at_key t (digest key) (rise (running s')) a = at_key t (digest key) (rise (running s)) a.
Proof.
  intros Hms Hid Hst Honly (c & (p & Hp & Hg)%at_key_Some) Hv. pose proof Hms as [Hs Hup Hk Hsz _ _].
  destruct (mesh_get h t P a key v s Hs Hup Hk Hsz Hid Honly) as (s' & Eg & Hs' & Hp' & [B1 B2 B3]).
  - by exists c, p.
  - by rewrite bool_decide_false by congruence.
  - by rewrite bool_decide_false.
  - exists s'. split; [exact Eg|]. clear Eg. split_and!; [by eapply member_server_same|by apply B1|..].
    + intros d (q & Hq & Hgq)%at_key_Some. apply at_key_Some. by apply (B2 d q).
    + rewrite !(at_key_own h t P a) by done. by rewrite B3.
Qed.

Lemma server_update_mesh `{!HashLaws} h t P a key v v' sig (s : Server seat) :
  member_server h t P a s -> (forall c, P !! c <> Some (digest key)) -> digest key <> digest STATUS_LIST_KEY ->
  only t (digest key) v (rise (running s)) -> (exists c, c <> a /\ at_key t (digest key) (rise (running s)) c = Some v) ->
  verify_record h false v = true -> handle_update_verification h v' v sig = Ok true ->
  exists s', server_update CRAWL_FUEL t key v' (Some sig) s = Some (Some true, s') /\
    seat_ok h t P a (running s') /\ updated t P a (digest key) v v' (rise (running s)) (rise (running s')).
Proof.
  intros Hms Hid Hst Honly (c & Hca & Hc) Hv Hu. unfold server_update.
  destruct (get_member h t P a key v s Hms Hid Hst Honly ltac:(by exists c) Hv) as (s1 & -> & Hms1 & Ho1 & Hk1 & Ea1).
  cbn [mbind option_bind]. rewrite bool_decide_false by congruence. cbn [andb].
  pose proof (pi_handler _ _ (own_inv _ _ _ _ _ (ms_seat _ _ _ _ _ Hms1))) as Hh. cbn [snd] in Hh.
  cbn [rproto cluster_net]. rewrite Hh. change (default [] (Some sig)) with sig. rewrite Hu. cbn [unwrap_or negb].
  destruct (update_digest_mesh h t P a key v v' sig s1 Hms1 Hid ltac:(congruence) Ho1) as (s2 & -> & Hs2 & U0 & U1 & U2 & U3);
    [exists c; split; [done|by apply Hk1]|done|].
  exists s2. split_and!; [done|done|]. unfold updated. rewrite <- Ea1. split_and!; [|done..]. auto.
Qed.

(** A member that holds a record that verifies answers with it. *)
Lemma read_own `{!HashLaws} h al t P b key v (cl : cluster S Hd C) :
  mesh h t P cl -> at_key t (digest key) cl b = Some v -> key <> STATUS_LIST_KEY -> verify_record h false v = true ->
  exists cl', run_move CRAWL_FUEL al (mkMove t (fun _ => Delivered) b (AGet key)) cl = Some (OValue (Some v), cl').
Proof.
  intros Hm (q & Hq & Hg)%at_key_Some Hst Hv.
  destruct (sit_member h t P al cl b q (fun _ => Delivered) Hm Hq (fun _ => eq_refl)) as [Hms _].
  destruct (local_get h CRAWL_FUEL t key v (sit al cl (fun _ => Delivered) b q)
    (seat_inv _ _ _ _ _ (ms_seat _ _ _ _ _ Hms)) Hg) as (s2 & Eg & _); [by rewrite bool_decide_false|].
  exists (rise (running s2)). unfold run_move. cbn [mwho mnow mfate mact]. rewrite Hq. cbn [run_action]. by rewrite Eg.
Qed.

(** After an update every member reads the new record; but the outermost one, if it
    held the old one and made the update, reads the old one. *)
Lemma read_updated `{!HashLaws} h al t P a key v v' (cl cl' : cluster S Hd C) b :
  mesh h t P cl' -> (forall c, P !! c <> Some (digest key)) -> digest key <> digest STATUS_LIST_KEY ->
  updated t P a (digest key) v v' cl cl' -> verify_record h false v' = true -> is_Some (P !! b) ->
  (outermost P a (digest key) -> at_key t (digest key) cl a = None) ->
  exists cl'', run_move CRAWL_FUEL al (mkMove t (fun _ => Delivered) b (AGet key)) cl' = Some (OValue (Some v'), cl'').
Proof.
  intros Hm Hid Hst (_ & Hall & (c & _ & Hc) & Hown) Hv Hb Hout.
  apply (mesh_read h al t P); [done..| | | |].
  - intros d p w Hp Hg. assert (at_key t (digest key) cl' d = Some w) as Hw by (apply at_key_Some; by exists p).
    destruct (decide (d = a)) as [->|Hne]; [|by apply (Hall d)].
    destruct Hown as [[E1 _]|[E1 Ho]]; rewrite E1 in Hw; [by injection Hw|]. by rewrite Hout in Hw.
  - apply at_key_Some in Hc as (p & Hp & Hg). by exists c, p.
  - by rewrite bool_decide_false by congruence.
  - by rewrite bool_decide_false.
Qed.

(** Deleting removes every copy. *)
Lemma delete_digest_mesh `{!HashLaws} h t P a key v sig msg (s : Server seat) :
  member_server h t P a s -> (forall c, P !! c <> Some (digest key)) -> (exists c, c <> a /\ is_Some (P !! c)) ->
  only t (digest key) v (rise (running s)) -> handle_signature_delete_operation h v sig msg = Ok true ->
  exists s', delete_digest CRAWL_FUEL t (digest key) sig msg s = Some (true, s') /\
    seat_ok h t P a (running s') /\ free t (digest key) (rise (running s')).
Proof.
  intros Hms Hid Hother Honly Hu. pose proof Hms as [Hs Hup _ _ _ _]. pose proof (digest_length key) as Hl.
  pose proof (delete_local_inv h t (digest key) s (seat_inv _ _ _ _ _ Hs)) as [Hi _].
  unfold delete_digest. rewrite Hup. cbn [negb]. cbv zeta.
  match goal with |- context [neighbors_of t _ ?x] => set (s0 := x) end.
  destruct (own_step h t P a (running s) (set_storage (own (running s)) (delete_key t (storage (own (running s))) (digest key)))
    Hs (quiet_storage _ _) Hi) as [Hs0 Er]. change (set_own (running s) _) with (running s0) in Hs0, Er.
  destruct (at_key_insert t (digest key) (rise (running s)) a
    (set_storage (own (running s)) (delete_key t (storage (own (running s))) (digest key)))) as [E1 E2]. rewrite <- Er in E1, E2.
  cbn [storage set_storage] in E1. rewrite get_delete, decide_True in E1 by done.
  assert (member_server h t P a s0) as Hms0 by (eapply member_server_same; [exact Hms|exact Hs0|done]).
  destruct Hms0 as [_ _ Hk Hsz _ _].
  pose proof (members_reached h t P a (digest key) s0 Hs0 Hl Hk Hsz Hid Hother) as Hreach.
  destruct (neighbors_of t (from_id (digest key)) s0) as [nearest s1]. destruct Hreach as (Hne & ns & s2 & Ec & Hs2 & _ & Hst2 & Hns & Hall).
  destruct nearest as [|n0 nearest]; [destruct (Hne eq_refl)|]. rewrite Ec. clear Ec. cbn [mbind option_bind]. unfold call_nodes.
  pose proof (changes_asked h t P a (digest key) v None (fun n => delete_call n (digest key) sig msg)
    (fun r n c Hr Hc' Hm => delete_asked h t P a (digest key) v sig msg r n c Hu Hl Hr Hc' Hm) (running s2) ns Hs2 Hns) as Hch.
  destruct (call_each t _ ns (running s2)) as [oks r4]. destruct Hch as (Hs4 & Ho4 & Hch & Hcopy).
  eexists. split; [reflexivity|]. cbn [running set_running]. split; [done|]. intros c p Hp.
  destruct (get t (storage p) (digest key)) as [w|] eqn:Eg; [exfalso|done].
  assert (at_key t (digest key) (rise r4) c = Some w) as Hw by (apply at_key_Some; by exists p).
  assert (at_key t (digest key) (rise (running s2)) c = Some w) as Hw2
    by (destruct (Hch c) as [E3|[_ E3]]; rewrite E3 in Hw; done).
  rewrite (at_key_stores t (digest key) (rise (running s0))) in Hw2 by done.
  destruct (decide (c = a)) as [->|Hca]; [by rewrite E1 in Hw2|].
  assert (at_key t (digest key) (rise (running s)) c = Some w) as Hw0 by (rewrite <- E2; done).
  apply at_key_Some in Hw0 as (q & Hq & Hgq). rewrite (Honly c q w Hq Hgq) in Hw, Hw2.
  rewrite <- (at_key_stores t (digest key) (rise (running s0)) (rise (running s2))) in Hw2 by done.
  destruct (proj1 (me_dom _ _ _ _ (so_mesh _ _ _ _ _ Hs) c)) as [j Hj]; [by rewrite Hq|].
  destruct (Hcopy c (sender j (home c)) Hca) as [E3 _]; [by split|by apply (Hall c)|done|]. congruence.
Qed.

(** A key that nobody holds is not found. *)
Lemma get_free `{!HashLaws} h t P a key (s : Server seat) :
  member_server h t P a s -> (forall c, P !! c <> Some (digest key)) -> (exists c, c <> a /\ is_Some (P !! c)) ->
  free t (digest key) (rise (running s)) -> exists s', server_get CRAWL_FUEL t key s = Some (None, s').
Proof.
  intros [Hs Hup Hk _ _ _] Hid Hother Hfree.
  destruct (mesh_check_exists h t P a key s Hs Hup Hk Hid Hfree Hother) as (ns & s' & Ec & _).
  revert Ec. unfold check_exists_and_get_nodes, server_get. cbv zeta. cbn [rproto cluster_net].
  rewrite (Hfree a _ (rise_own _ _ _ _ _ Hs)), Hup. cbn [negb].
  destruct (neighbors_of t (from_id (digest key)) s) as [[|n peers] s1]; [intros _; by exists s1|].
  destruct (crawl_value CRAWL_FUEL t _ (n :: peers) s1) as [[[[w|] ns'] s2]|]; cbn [mbind option_bind]; intros Ec; [|by exists s2|discriminate Ec].
  destruct (verify_value t key w s2) as [[] s3]; [discriminate Ec|by exists s3].
Qed.

(** C13: in a cluster that works, an update is seen by the others.  Nothing is lost,
    every node's table holds the other members, which are at most [k], and all copies
    of the key, at least one of them not at the member [a], are the record [v], which
    verifies.  An [update] at [a] with an authorisation that the handler accepts for
    [v] then answers [Some true].  Unless [a] itself held [v] and no other member is
    farther from the key, [get] at every member then returns the new record.  In that
    exceptional case [a]'s own copy is not replaced and [get] at [a] goes on returning
    [v], while [get] at the other members that held the record returns the new one; of
    members without a copy nothing is said. *)
Theorem working_cluster_updates `{!HashLaws} (h : Hd) (al : nat) (now : Z) (P : gmap SocketAddr bytes)
    (a : SocketAddr) (key v v' sig : bytes) (cl : cluster S Hd C) :
  mesh h now P cl -> is_Some (P !! a) -> (forall c, P !! c <> Some (digest key)) ->
  digest key <> digest STATUS_LIST_KEY ->
  only now (digest key) v cl -> (exists c, c <> a /\ at_key now (digest key) cl c = Some v) ->
  verify_record h false v = true -> handle_update_verification h v' v sig = Ok true ->
  exists cl', run_move CRAWL_FUEL al (mkMove now (fun _ => Delivered) a (AUpdate key v' (Some sig))) cl
      = Some (OAnswer (Some true), cl') /\ mesh h now P cl' /\
    (forall b, is_Some (P !! b) -> (outermost P a (digest key) -> at_key now (digest key) cl a = None) ->
       exists cl'', run_move CRAWL_FUEL al (mkMove now (fun _ => Delivered) b (AGet key)) cl'
         = Some (OValue (Some v'), cl'')) /\
    (forall b, b <> a -> at_key now (digest key) cl b = Some v ->
       exists cl'', run_move CRAWL_FUEL al (mkMove now (fun _ => Delivered) b (AGet key)) cl'
         = Some (OValue (Some v'), cl'')) /\
    (outermost P a (digest key) -> at_key now (digest key) cl a = Some v ->
       exists cl'', run_move CRAWL_FUEL al (mkMove now (fun _ => Delivered) a (AGet key)) cl'
         = Some (OValue (Some v), cl'')).
Proof.
  intros Hm Ha Hid Hst Honly Hc Hv Hu. destruct (proj2 (me_dom _ _ _ _ Hm a) Ha) as [p Hp].
  destruct (sit_member h now P al cl a p (fun _ => Delivered) Hm Hp (fun _ => eq_refl)) as [Hms Er].
  destruct (server_update_mesh h now P a key v v' sig (sit al cl (fun _ => Delivered) a p) Hms Hid Hst)
    as (s' & Eu & Hs' & Hup); [by rewrite Er|by rewrite Er|done|done|]. rewrite Er in Hup.
  exists (rise (running s')). pose proof (so_mesh _ _ _ _ _ Hs') as Hm'.
  assert (verify_record h false v' = true) as Hv'
    by (unfold verify_record; by rewrite (update_self_signed h v' v sig Hu)).
  split; [unfold run_move; cbn [mwho mnow mfate mact]; rewrite Hp; cbn [run_action]; by rewrite Eu|]. clear Eu.
  split_and!; [done|intros b Hb Hout; by apply (read_updated h al now P a key v v' cl)|..].
  - intros b Hne Hb. apply (read_own h al now P); [done| |congruence|done]. by apply Hup.
  - intros Hout Hold. destruct Hup as (_ & _ & _ & [[_ Hno]|[Eown _]]); [by destruct Hno|].
    apply (read_own h al now P); [done|by rewrite Eown|congruence|done].
Qed.

(** C14: in a cluster that works, a deletion is complete.  Nothing is lost, every node's
    table holds the other members, which are at most [k], and all copies of the key, at
    least one, are the record [v], which verifies.  A [delete] at any member with a
    signature that the handler accepts for [v] answers [Some true]; afterwards no
    member holds the key, and from then on [get] at every member returns [None]. *)
Theorem working_cluster_deletes `{!HashLaws} (h : Hd) (al : nat) (now : Z) (P : gmap SocketAddr bytes)
    (a : SocketAddr) (key v sig msg : bytes) (cl : cluster S Hd C) :
  mesh h now P cl -> is_Some (P !! a) -> (exists c, c <> a /\ is_Some (P !! c)) ->
  (forall c, P !! c <> Some (digest key)) -> digest key <> digest STATUS_LIST_KEY ->
  only now (digest key) v cl -> (exists c, at_key now (digest key) cl c = Some v) ->
  verify_record h false v = true -> handle_signature_delete_operation h v sig msg = Ok true ->
  exists cl', run_move CRAWL_FUEL al (mkMove now (fun _ => Delivered) a (ADelete key sig msg)) cl
      = Some (OAnswer (Some true), cl') /\ mesh h now P cl' /\ free now (digest key) cl' /\
    forall now' b, now <= now' -> is_Some (P !! b) ->
      exists cl'', run_move CRAWL_FUEL al (mkMove now' (fun _ => Delivered) b (AGet key)) cl' = Some (OValue None, cl'').
Proof.
  intros Hm Ha Hother Hid Hst Honly Hc Hv Hu. destruct (proj2 (me_dom _ _ _ _ Hm a) Ha) as [p Hp].
  destruct (sit_member h now P al cl a p (fun _ => Delivered) Hm Hp (fun _ => eq_refl)) as [Hms Er].
  set (s := sit al cl (fun _ => Delivered) a p) in *.
  destruct (get_member h now P a key v s Hms Hid Hst) as (s1 & Eg & Hms1 & Ho1 & _ & _); [by rewrite Er|by rewrite Er|done|].
  destruct (delete_digest_mesh h now P a key v sig msg s1 Hms1 Hid Hother Ho1 Hu) as (s2 & Ed & Hs2 & Hfree).
  pose proof (pi_handler _ _ (own_inv _ _ _ _ _ (ms_seat _ _ _ _ _ Hms1))) as Hh. cbn [snd] in Hh.
  exists (rise (running s2)). split_and!; [|apply Hs2|done|].
  - unfold run_move. cbn [mwho mnow mfate mact]. rewrite Hp. cbn [run_action]. fold s. unfold server_delete. rewrite Eg.
    cbn [mbind option_bind rproto cluster_net]. rewrite Hh, Hu. cbn [unwrap_or negb]. by rewrite Ed.
  - clear Eg Ed. intros now' b Hle Hb. pose proof (mesh_later h now now' P _ Hle (so_mesh _ _ _ _ _ Hs2)) as Hm2.
    destruct (proj2 (me_dom _ _ _ _ Hm2 b) Hb) as [q Hq].
    destruct (sit_member h now' P al (rise (running s2)) b q (fun _ => Delivered) Hm2 Hq (fun _ => eq_refl)) as [Hms3 Er3].
    destruct (get_free h now' P b key (sit al (rise (running s2)) (fun _ => Delivered) b q) Hms3 Hid) as [s4 Eg4].
    + destruct (decide (a = b)) as [<-|Hne]; [done|by exists a].
    + rewrite Er3. intros c pc Hpc. destruct (get now' (storage pc) (digest key)) as [w|] eqn:Ew; [|done].
      by rewrite <- (Hfree c pc Hpc), (get_earlier now now' _ _ _ Hle Ew).
    + exists (rise (running s4)). unfold run_move. cbn [mwho mnow mfate mact]. rewrite Hq. cbn [run_action]. by rewrite Eg4.
Qed.

End mesh.

(** ** Three nodes that hold a record *)

#[local] Existing Instances demo_hashes demo_hash_laws demo_handler demo_laws plain_addr.

Definition demo_old : bytes := [x01; x41].
Definition demo_new : bytes := [x01; x42].

Definition holding : ForgetfulStorage := set 0 (server_storage None) (digest demo_did) demo_old.

Definition three_holders : cluster ForgetfulStorage unit SimpleCache := formed tt 3 holding three_members.

Lemma holding_get now key w :
  get now holding key = Some w -> w = demo_old.
Proof.
  unfold get. change (fs_get_default now holding key None = Some w -> w = demo_old). unfold fs_get_default.
  destruct (data holding !! key) as [[w' i]|] eqn:Ed; [|done].
  change (data holding) with (<[digest demo_did := (demo_old, 0)]> (∅ : gmap bytes (bytes * Z))) in Ed.
  apply lookup_insert_Some in Ed as [[_ [= <- <-]]|[_ Hno]]; [|by rewrite lookup_empty in Hno]. by intros [= <-].
Qed.

Lemma three_holders_mesh : mesh tt 0 three_members three_holders.
Proof.
  apply formed_mesh; [apply three_members_population|lia|by vm_compute; lia|].
  intros now key w ->%holding_get. exists demo_old. split; [done|]. by left.
Qed.

Lemma three_holders_only : only 0 (digest demo_did) demo_old three_holders.
Proof.
  intros c p w Hp. unfold three_holders in Hp. rewrite formed_lookup in Hp. destruct (three_members !! c); [|done].
  injection Hp as <-. apply holding_get.
Qed.

Lemma three_holders_hold c : is_Some (three_members !! c) -> at_key 0 (digest demo_did) three_holders c = Some demo_old.
Proof.
  intros [i Hi]. unfold at_key, three_holders. rewrite formed_lookup, Hi. cbn [fmap option_fmap option_map mbind option_bind].
  cbn [formed_node storage set_router KademliaProtocol_new]. vm_compute. reflexivity.
Qed.

Lemma demo_did_not_member c : three_members !! c <> Some (digest demo_did).
Proof. intros Hc%three_members_list%(list_elem_of_fmap_2 snd). revert Hc. apply (bool_decide_unpack _). vm_compute. exact I. Qed.

Lemma demo_did_not_status : digest demo_did <> digest STATUS_LIST_KEY.
Proof. apply (bool_decide_unpack _). vm_compute. exact I. Qed.

(** The first node is the farthest from the key. *)
Lemma first_outermost : outermost three_members addr_a (digest demo_did).
Proof.
  intros i c j Ha%three_members_list Hne Hc%three_members_list.
  assert (i = demo_key 1) as ->.
  { rewrite !elem_of_cons, elem_of_nil in Ha. destruct Ha as [[= ->]|[[= ]|[[= ]|[]]]]; done. }
  rewrite !elem_of_cons, elem_of_nil in Hc.
  destruct Hc as [[= -> ->]|[[= -> ->]|[[= -> ->]|[]]]]; [done|apply Z.leb_le; vm_compute; reflexivity..].
Qed.

Lemma working_cluster_updates_witness :
  exists cl', run_move CRAWL_FUEL 3 (mkMove 0 (fun _ => Delivered) addr_a (AUpdate demo_did demo_new (Some [x02]))) three_holders
      = Some (OAnswer (Some true), cl') /\
    (exists cl'', run_move CRAWL_FUEL 3 (mkMove 0 (fun _ => Delivered) addr_c (AGet demo_did)) cl'
      = Some (OValue (Some demo_new), cl'')) /\
    (exists cl'', run_move CRAWL_FUEL 3 (mkMove 0 (fun _ => Delivered) addr_a (AGet demo_did)) cl'
      = Some (OValue (Some demo_old), cl'')).
Proof.
  destruct (working_cluster_updates tt 3 0 three_members addr_a demo_did demo_old demo_new [x02] three_holders
    three_holders_mesh) as (cl' & Hu & _ & _ & Hothers & Hstale).
  - by exists (demo_key 1).
  - exact demo_did_not_member.
  - exact demo_did_not_status.
  - exact three_holders_only.
  - exists addr_b. split; [done|]. apply three_holders_hold. by exists (demo_key 2).
  - vm_compute. reflexivity.
  - vm_compute. reflexivity.
  - exists cl'. split_and!; [exact Hu|apply Hothers; [done|]|apply Hstale; [exact first_outermost|]];
      apply three_holders_hold; [by exists (demo_key 3)|by exists (demo_key 1)].
Defined.

Lemma working_cluster_deletes_witness :
  exists cl', run_move CRAWL_FUEL 3 (mkMove 0 (fun _ => Delivered) addr_b (ADelete demo_did [x04] [x2a])) three_holders
      = Some (OAnswer (Some true), cl') /\
    exists cl'', run_move CRAWL_FUEL 3 (mkMove 5 (fun _ => Delivered) addr_c (AGet demo_did)) cl' = Some (OValue None, cl'').
Proof.
  destruct (working_cluster_deletes tt 3 0 three_members addr_b demo_did demo_old [x04] [x2a] three_holders
    three_holders_mesh) as (cl' & Hd' & _ & _ & Hget).
  - by exists (demo_key 2).
  - exists addr_a. split; [done|]. by exists (demo_key 1).
  - exact demo_did_not_member.
  - exact demo_did_not_status.
  - exact three_holders_only.
  - exists addr_a. apply three_holders_hold. by exists (demo_key 1).
  - vm_compute. reflexivity.
  - vm_compute. reflexivity.
  - exists cl'. split; [exact Hd'|]. apply (Hget 5 addr_c); [lia|by exists (demo_key 3)].
Defined.
