(* ===== verification/Join.v ===== *)
(** * Join: a node joins a cluster that loses nothing

    [Reliable.v] and [Maintain.v] are about a cluster in which every node knows every
    other (a [mesh]).  Here a fresh node joins such a cluster: [bootstrap] of
    [src/src/network.rs] pings one member and looks its own identifier up; the members
    it asks and the node itself spawn [welcome_if_new] ([src/src/protocol.rs]) for each
    other, and when these tasks have run the larger cluster is a mesh again. *)
From S2P Require Import Prelude Node Routing RoutingTable RoutingTableSpec Storage Text Crypto AuthHandler SigCache Crawling Protocol ProtocolSpec Network NetworkSpec Cluster Reliable Maintain.
From Stdlib Require Import Strings.Byte.
Local Open Scope Z_scope.

(** ** Adding a contact to a table with room *)

Lemma add_contact_room now t n :
  table_wf t -> wf_node n -> id n <> id (local_node t) -> (length (all_nodes t) < tksize t)%nat ->
  exists t', add_contact INSERT_FUEL now t n = Some (t', None) /\ table_wf t' /\ insert_rel t t' n /\ n ∈ all_nodes t'.
Proof.
  intros Hw Hn Hid Hlen. destruct (table_locate t (long_id n) Hw (wf_node_range n Hn)) as (l1 & b & l2 & Hloc).
  pose proof Hloc as (Eb & _). assert (b ∈ buckets t) as Hb by (rewrite Eb; set_solver).
  assert (length (bnodes b) < bksize b)%nat as Hroom.
  { rewrite (proj1 (Forall_forall _ _) (tw_ksize t Hw) b Hb). eapply Nat.le_lt_trans; [|exact Hlen].
    unfold all_nodes. rewrite Eb, fmap_app, fmap_cons, concat_app, length_app. cbn [concat]. rewrite length_app. lia. }
  assert (exists t', add_contact INSERT_FUEL now t n = Some (t', None)) as [t' Ha].
  { unfold add_contact. rewrite decide_False by done. change INSERT_FUEL with (Datatypes.S 128).
    rewrite (table_insert_step 128 now t n _ _ _ Hloc). cbv zeta.
    pose proof (add_node_outcome b n (proj1 (Forall_forall _ _) (tw_buckets t Hw) b Hb)) as Ho. cbv zeta in Ho.
    destruct Ho as [? ? ? ?|? ?|? ? Hfull ?]; [by eexists..|lia]. }
  destruct (add_contact_spec _ _ _ _ _ _ Hw Hn ltac:(lia) Ha) as (Hw' & Hrel & [(? & _)|(_ & l1' & b' & l2' & (Eb' & _) & Hi)]);
    [done|].
  exists t'. split_and!; [done..|]. apply elem_of_all_nodes. exists b'. split; [rewrite Eb'; set_solver|exact Hi].
Qed.

(** Timestamps do not matter to who is known. *)
Lemma equiv_contacts (t t' : RoutingTable) : t ≡ t' -> all_nodes t = all_nodes t' /\ all_contacts t = all_contacts t'.
Proof.
  intros Ht. assert (forall t, all_nodes (erase_timers t) = all_nodes t /\ all_contacts (erase_timers t) = all_contacts t) as He.
  { intros x. unfold all_nodes, all_contacts, erase_timers. cbn [buckets set_buckets]. rewrite <- !list_fmap_compose. done. }
  unfold equiv, table_equiv in Ht. destruct (He t) as [<- <-], (He t') as [<- <-]. by rewrite Ht.
Qed.

(** ** Lookups that reach everybody *)

Section complete_crawl.
Context `{UnstableSort} `{HashOrder} {P : Type} `{SpiderProtocol P}.

(** [dn i] holds of the network once the peer [i] has been asked. *)
Variables (J : P -> Prop) (G : Node -> Prop) (T : Node) (dn : bytes -> P -> Prop) (U : gset bytes).

(** The answer of the peer [i] lists all the other peers. *)
Definition full_answer (i : bytes) (r : RawResponse) : Prop :=
  nodes_answered G r /\ forall m, G m -> id m <> i -> id m ∈ id <$> get_node_list r.

Hypothesis Hans : forall p n, J p -> G n ->
  J (fst (call_find_node p n T)) /\ full_answer (id n) (snd (call_find_node p n T)) /\
  dn (id n) (fst (call_find_node p n T)) /\ forall i, dn i p -> dn i (fst (call_find_node p n T)).
Hypothesis HGwf : forall n, G n -> wf_node n.
Hypothesis HU : forall n, G n -> id n ∈ U.

Lemma call_all_full p peers :
  J p -> Forall G peers ->
  let '(p', rs) := call_all call_find_node T p peers in
  J p' /\ Forall (fun ir => full_answer (fst ir) (snd ir)) rs /\ rs.*1 = id <$> peers /\
  (forall i, i ∈ id <$> peers -> dn i p') /\ forall i, dn i p -> dn i p'.
Proof.
  intros Hj Hp. revert p Hj. induction Hp as [|n peers Hn _ IH]; intros p Hj; cbn [call_all].
  { split_and!; [done|done|done| |done]. intros i Hi. by apply elem_of_nil in Hi. }
  destruct (Hans p n Hj Hn) as (Hj1 & Hr & Hd1 & Hm1). destruct (call_find_node p n T) as [p1 r]. cbn [fst snd] in *.
  specialize (IH p1 Hj1). destruct (call_all call_find_node T p1 peers) as [p2 rs].
  destruct IH as (Hj2 & Hrs & Eids & Hd2 & Hm2). split_and!; [done|by constructor|by rewrite !fmap_cons, Eids| |auto].
  intros i. rewrite fmap_cons. intros [->|Hi]%elem_of_cons; auto.
Qed.

(** Everything that is answered gets into a heap with room. *)
Lemma node_responses_full h rs :
  heap_wf h -> heap_in G h -> (size U <= maxsize h)%nat -> Forall (fun ir => full_answer (fst ir) (snd ir)) rs ->
  forall i r m, (i, r) ∈ rs -> m ∈ get_node_list r -> id m ∈ heap_ids (fst (node_responses h [] rs)).
Proof.
  intros Hw Hh Hs Hrs. revert h Hw Hh Hs. induction Hrs as [|[j x] rs [[Hhap Hl] _] Hrs IH]; intros h Hw Hh Hs i r m Hi Hm.
  { by apply elem_of_nil in Hi. }
  cbn [node_responses fst snd] in *. rewrite Hhap. cbn [negb].
  pose proof (Forall_impl _ _ _ Hl HGwf) as Hlw. destruct (push_fields h (get_node_list x)) as (_ & _ & Em).
  pose proof (push_wf h _ Hw Hlw) as Hw1. pose proof (push_heap_in G h _ Hh Hl) as Hh1.
  apply elem_of_cons in Hi as [[= -> ->]|Hi]; [|eapply IH; [done|done|by rewrite Em|done|done]].
  destruct (node_responses_ok G HGwf (push h (get_node_list x)) rs Hw1 Hh1) as (_ & _ & Hkeep);
    [eapply Forall_impl; [exact Hrs|]; by intros ? []|].
  apply (Hkeep U HU); [by rewrite Em|]. apply (push_room U); try done.
  - eapply Forall_impl; [exact Hh|]. intros e'. apply HU.
  - eapply Forall_impl; [exact Hl|]. apply HU.
  - apply elem_of_app. by right.
Qed.

(** The state of the crawl between two rounds: who was contacted was asked, and once
    somebody was contacted all peers are in the heap. *)
Record crawl_full (p : P) (c : SpiderCrawl) : Prop := {
  cf_wf : crawl_wf c;
  cf_heap : heap_in G (nearest c);
  cf_target : cnode c = T;
  cf_room : (size U <= cksize c)%nat;
  cf_nonempty : heap (nearest c) <> [];
  cf_done : forall i, i ∈ contacted (nearest c) -> dn i p;
  cf_all : forall i, i ∈ contacted (nearest c) -> forall m, G m -> id m ∈ heap_ids (nearest c)
}.

Lemma round_full round p c :
  J p -> crawl_full p c -> J (fst (node_round round p c)) /\ crawl_full (fst (node_round round p c)) (snd (node_round round p c)).
Proof.
  intros Hj [Hw Hh Et Hroom Hne Hdone Hall].
  pose proof (node_round_rel id_universe round p c Hw (known_universe c Hw) (all_answers_in _)) as Hrel.
  destruct (node_round_ok J G T (fun p n Hp Hn => match Hans p n Hp Hn with conj A (conj B _) => conj A (proj1 B) end) HGwf
    round p c Hj Hw Hh Et) as (Hj1 & Hh1 & Hk1).
  destruct (rr_alpha _ _ _ Hrel) as (_ & Ek & Et1). pose proof (rr_contacted _ _ _ Hrel) as Hcon.
  unfold keeps_all in Hk1. rewrite (cw_size c Hw) in Hk1. specialize (Hk1 U HU Hroom).
  assert ((forall i, i ∈ id <$> round_peers c -> dn i (fst (node_round round p c))) /\
    (forall i, dn i p -> dn i (fst (node_round round p c))) /\
    forall i, i ∈ id <$> round_peers c -> forall m, G m -> id m ∈ heap_ids (nearest (snd (node_round round p c)))) as (Hd1 & Hm1 & Hnew).
  { clear Hrel Hj1 Hh1 Ek Et1 Hcon. revert Hk1. unfold node_round, find_round. rewrite Et.
    pose proof (call_all_full p (round_peers c) Hj (round_peers_good G c Hw Hh)) as Hca.
    destruct (call_all _ T p _) as [p' rs]. destruct Hca as (_ & Hrs & Eids & Hd & Hm). cbn [nearest].
    destruct (mark_all_fields (round_peers c) (nearest c)) as (_ & Fh & Fm & _).
    set (h := foldl mark_contacted (nearest c) (round_peers c)) in *.
    set (it := hash_iter round (map_to_list (list_to_map rs : gmap bytes RawResponse))).
    assert (Forall (fun ir => full_answer (fst ir) (snd ir)) it) as Hit.
    { rewrite Forall_forall in *. intros [i r] Hin. unfold it in Hin. rewrite hash_iter_perm in Hin.
      apply elem_of_map_to_list, elem_of_list_to_map_2 in Hin. exact (Hrs _ Hin). }
    assert (heap_wf h) as Hwh by (by apply mark_all_wf, Hw).
    assert (heap_in G h) as Hinh by (unfold heap_in; by rewrite Fh).
    pose proof (node_responses_full h it Hwh Hinh ltac:(by rewrite Fm, (cw_size c Hw)) Hit) as Hfull.
    destruct (node_responses_ok G HGwf h it Hwh Hinh) as (_ & Erem & _); [eapply Forall_impl; [exact Hit|]; by intros ? []|].
    destruct (node_responses h [] it) as [h' rem]. cbn [fst snd] in *. subst rem. cbn [heap_remove set_nearest nearest].
    intros Hk1. split_and!; [done|done|]. intros i Hi m Hgm.
    destruct (decide (id m = i)) as [<-|Hmi].
    - apply Hk1. apply list_elem_of_fmap in Hi as (n & En & Hn). unfold round_peers in Hn.
      apply elem_of_take in Hn as (k & Hn%list_elem_of_lookup_2 & _).
      apply get_uncontacted_spec in Hn as [(e & -> & He)%list_elem_of_fmap _]; [|apply Hw].
      rewrite En. by apply (list_elem_of_fmap_2 entry_id).
    - destruct ((list_to_map rs : gmap bytes RawResponse) !! i) as [r|] eqn:Er; [|by apply not_elem_of_list_to_map in Er; rewrite Eids in Er].
      assert ((i, r) ∈ it) as Hir by (unfold it; rewrite hash_iter_perm; by apply elem_of_map_to_list).
      destruct (proj1 (Forall_forall _ _) Hit _ Hir) as [_ Hothers].
      destruct (proj1 (list_elem_of_fmap _ _ _) (Hothers m Hgm Hmi)) as (m' & -> & Hm'). by apply (Hfull i r m'). }
  split; [done|]. split; [apply Hrel|done|congruence|by rewrite Ek| |..].
  - destruct (heap (nearest c)) as [|e l] eqn:Eh; [done|]. intros E0.
    assert (entry_id e ∈ heap_ids (nearest (snd (node_round round p c)))) as Hx.
    { apply Hk1. unfold heap_ids. rewrite Eh. left. }
    unfold heap_ids in Hx. rewrite E0 in Hx. by apply elem_of_nil in Hx.
  - intros i [Hi|Hi]%Hcon; auto.
  - intros i [Hi|Hi]%Hcon m Hgm; [apply Hk1; by apply (Hall i Hi)|by apply (Hnew i Hi)].
Qed.

Lemma node_find_full fuel round p c :
  J p -> crawl_full p c -> (measure id_universe c < fuel)%nat ->
  exists p' c' ns, node_find fuel round p c = Some (p', c', ns) /\ J p' /\ forall m, G m -> dn (id m) p'.
Proof.
  revert round p c. induction fuel as [|fuel IH]; intros round p c Hj Hc Hf; [lia|]. cbn [node_find].
  destruct (round_full round p c Hj Hc) as [Hj1 Hc1].
  pose proof (node_round_rel id_universe round p c (cf_wf _ _ Hc) (known_universe c (cf_wf _ _ Hc)) (all_answers_in _)) as Hrel.
  destruct (node_round round p c) as [p1 c1]. cbn [fst snd] in *.
  destruct (have_contacted_all (nearest c1)) eqn:Hall.
  - do 3 eexists. split; [reflexivity|]. split; [done|]. intros m Hgm. pose proof (cw_heap _ (cf_wf _ _ Hc1)) as Hwh.
    apply have_contacted_all_spec in Hall; [|done]. rewrite Forall_forall in Hall.
    destruct (heap (nearest c1)) as [|e l] eqn:Eh; [by destruct (cf_nonempty _ _ Hc1)|].
    pose proof (cf_all _ _ Hc1 (entry_id e) (Hall e ltac:(left)) m Hgm) as Hm. unfold heap_ids in Hm.
    apply list_elem_of_fmap in Hm as (e' & Em & He'). rewrite Eh in He'. apply (cf_done _ _ Hc1). rewrite Em. by apply Hall.
  - destruct (round_measure id_universe c c1 (cf_wf _ _ Hc) (known_universe _ (cf_wf _ _ Hc)) Hrel) as [Hx|Hlt]; [congruence|].
    apply IH; [done|done|lia].
Qed.

End complete_crawl.

Section join.
Context `{US : UnstableSort} `{HO : HashOrder} `{HA : Hashes} `{NA : NetAddr}.
Context {S : Type} `{SL : StorageLaws S}.
Context {Hd E : Type} `{HL : HandlerLaws Hd E}.
Context {C : Type} `{MC : Moka C}.

Local Abbreviation proto := (KademliaProtocol S Hd C).
Local Abbreviation seat := (Seat S Hd C).
Local Abbreviation home b := (addr_ip b, addr_port b).

(** ** Welcoming a node into a table with room *)

(** What welcoming [n] makes of a node. *)
Record welcomes (h : Hd) (t : Z) (n : Node) (p p' : proto) : Prop := {
  we_inv : proto_inv h (t, p');
  we_storage : storage p' = storage p;
  we_source : source_node p' = source_node p;
  we_ksize : tksize (router p') = tksize (router p);
  we_new : n ∈ all_nodes (router p');
  we_nodes : forall m, m ∈ all_nodes (router p) -> m ∈ all_nodes (router p');
  we_contacts : forall m, m ∈ all_contacts (router p') -> m = n \/ m ∈ all_contacts (router p);
  we_spawned : exists kvs, spawned p' = spawned p ++ ((fun kv => StoreRpc n (fst kv) (snd kv)) <$> kvs) /\
    Forall (fun kv => length (fst kv) = ID_LEN /\ get t (storage p) (fst kv) = Some (snd kv)) kvs
}.

Lemma welcome_adds h t n (p : proto) :
  proto_inv h (t, p) -> wf_node n -> id n <> id (source_node p) -> (length (all_nodes (router p)) < tksize (router p))%nat ->
  (forall m, m ∈ all_nodes (router p) -> id m = id n -> m = n) ->
  exists p', welcome_if_new t n p = Some p' /\ welcomes h t n p p'.
Proof.
  intros Hi Hn Hid Hlen Huniq. pose proof (pi_wf _ _ Hi) as Hw. cbn [snd] in Hw.
  destruct (is_new_node (router p) n) eqn:En.
  2:{ exists p. split; [unfold welcome_if_new; by rewrite En|]. split; auto; [|exists []; by rewrite app_nil_r].
      destruct (decide (id n ∈ id <$> all_nodes (router p))) as [(m & Em & Hm)%list_elem_of_fmap|Hno].
      - by rewrite <- (Huniq m Hm ltac:(done)).
      - exfalso. apply not_true_iff_false in En. apply En. by apply is_new_node_spec; [apply Hw|..]. }
  assert (exists p', welcome_if_new t n p = Some p') as [p' Ew].
  { unfold welcome_if_new. rewrite En. cbn [negb].
    pose proof (keys_to_replicate_spec t (router p) (source_node p) n (iter_all t (storage p)) (pw_table _ Hw) (pw_ksize _ Hw)) as Hk.
    destruct (keys_to_replicate _ _ _ _ _) as [r kvs]. destruct Hk as (W & T & _ & N & _).
    destruct (add_contact_room t r n W Hn) as (r' & -> & _).
    - pose proof (f_equal local_node T) as El. cbn in El. by rewrite El, (pw_local _ Hw).
    - pose proof (f_equal tksize T) as Ek. cbn in Ek. by rewrite N, Ek.
    - by eexists. }
  exists p'. split; [done|]. destruct (welcome_spec _ _ _ _ Hw Hn Ew) as (Hw' & Hsame & _ & Hnew).
  destruct (Hnew En) as (r & lru & T & W & Ea & Esp).
  destruct (equiv_contacts r (router p) T) as [N A].
  pose proof (f_equal tksize T) as Ek. pose proof (f_equal local_node T) as El. cbn in Ek, El.
  destruct (add_contact_room t r n W Hn) as (r' & Ea' & W' & [I1 I2 I3 I4] & Hin);
    [by rewrite El, (pw_local _ Hw)|by rewrite N, Ek|].
  rewrite Ea in Ea'. injection Ea' as <- ->. pose proof Hsame as (S1 & S2 & _). split; try done.
  - by apply (proto_inv_same h t t p).
  - congruence.
  - intros m Hm. destruct (decide (id m = id n)) as [Em|Hne]; [by rewrite (Huniq m Hm Em)|]. apply I3; [by rewrite N|done].
  - intros m [->|Hm]%I4; [by left|right]. by rewrite <- A.
  - eexists. rewrite Esp. cbn [option_list fmap option_fmap option_map app]. split; [reflexivity|].
    apply Forall_forall. intros [k v] [[Hl _] Hkv]%list_elem_of_filter. split; [done|]. by apply iter_all_get.
Qed.

(** ** Tasks that belong to a cluster *)

(** The task of the node at [c] welcomes another node of [Q], or replicates one of the
    [records] to one. *)
Definition task_fits (Q : gmap SocketAddr bytes) (records : bytes -> bytes -> Prop) (c : SocketAddr) (x : Task) : Prop :=
  match x with
  | WelcomeIfNew n => peer_of Q c n
  | StoreRpc n key value => peer_of Q c n /\ length key = ID_LEN /\ records key value
  | PingNode _ => False
  end.

(** ** The bootstrap of a new node *)

Section joining.
Context (h : Hd) (t : Z) (P : gmap SocketAddr bytes) (a : SocketAddr) (i : bytes) (K : SocketAddr -> nat).
Context (records : bytes -> bytes -> Prop).

(** The new node at [a], which knows nobody, and the mesh; [K] gives the bucket sizes. *)
Record joining (r : seat) : Prop := {
  jo_self : self r = a;
  jo_fate : forall n, fate r n = Delivered;
  jo_mesh : mesh h t P (others r);
  jo_inv : proto_inv h (t, own r);
  jo_id : id (source_node (own r)) = i;
  jo_empty : all_contacts (router (own r)) = [];
  jo_ksize : forall c p, others r !! c = Some p -> tksize (router p) = K c;
  jo_own_ksize : tksize (router (own r)) = K a;
  jo_tasks : forall c p, others r !! c = Some p -> Forall (task_fits (<[a := i]> P) records c) (spawned p);
  jo_own_tasks : Forall (task_fits (<[a := i]> P) records a) (spawned (own r))
}.

Hypothesis Hpop : population (<[a := i]> P).
Hypothesis Ha : P !! a = None.

Lemma member_not_new c j : P !! c = Some j -> c <> a /\ j <> i.
Proof.
  intros Hc. assert (c <> a) as Hne by (intros ->; congruence). split; [done|]. intros ->.
  apply Hne, (pop_inj _ Hpop c a i); [by rewrite lookup_insert_ne|by rewrite lookup_insert_eq].
Qed.

Lemma new_length : length i = ID_LEN.
Proof. apply (pop_length _ Hpop a). by rewrite lookup_insert_eq. Qed.

(** Each is a peer of the other in the larger cluster. *)
Lemma new_peer c : is_Some (P !! c) -> peer_of (<[a := i]> P) c (sender i (home a)).
Proof.
  intros [j Hc]. exists a. split; [intros ->; congruence|]. split; [|done]. by rewrite lookup_insert_eq.
Qed.

Lemma old_peer c n : member P c n -> peer_of (<[a := i]> P) a n.
Proof.
  intros [Hc Hn]. destruct (member_not_new c (id n) Hc) as [Hca _]. exists c. split; [done|]. split; [|done].
  by rewrite lookup_insert_ne.
Qed.

(** Both sides of the exchange with the member [j] are to be welcomed. *)
Definition asked (j : bytes) (r : seat) : Prop :=
  forall c, P !! c = Some j ->
    WelcomeIfNew (sender j (home c)) ∈ spawned (own r) /\
    exists p, others r !! c = Some p /\ WelcomeIfNew (sender i (home a)) ∈ spawned p.

(** What calls do not undo. *)
Record after (r r' : seat) : Prop := {
  af_stores : forall c, stores_of (others r') c = stores_of (others r) c;
  af_own : storage (own r') = storage (own r);
  af_asked : forall j, asked j r -> asked j r'
}.

#[global] Instance after_preorder : PreOrder after.
Proof. split; [done|]. intros x y z [S1 O1 A1] [S2 O2 A2]. split; [intros c; by rewrite S2|congruence|auto]. Qed.

(** A member handles a request of the new node. *)
Lemma join_send r c p m resp p' :
  joining r -> others r !! c = Some p -> well_typed m = true ->
  dispatch_request t m a p = Some (resp, p') -> quiet p p' -> storage p' = storage p ->
  spawned p' = spawned p ++ [WelcomeIfNew (sender i (home a))] ->
  exists r', cluster_send t r c m = (r', resp) /\ joining r' /\ others r' = <[c := p']> (others r) /\
    own r' = own r /\ after r r'.
Proof.
  intros Hj Hc Hm Hdisp Hq Hst Hsp. pose proof Hj as [J1 J2 J3 J4 J5 J6 J7 J8 J9 J10].
  destruct (proj1 (me_dom _ _ _ _ J3 c)) as [j Hcj]; [by rewrite Hc|].
  destruct (member_not_new c j Hcj) as [Hca _].
  unfold cluster_send. rewrite Hm, J2. cbn [negb]. unfold deliver. cbn [self own others fate sent].
  rewrite J1, decide_False by done. rewrite Hc, Hdisp. eexists. split; [reflexivity|]. cbn [set_others own others].
  split_and!; [|done|done|].
  - split; cbn [set_others self fate others own]; try done.
    + eapply mesh_update; [done|exact Hc|done|]. eapply dispatch_inv; [apply (me_inv _ _ _ _ J3 c p Hc)|by apply well_typed_wf|exact Hdisp].
    + intros d q [[<- <-]|[_ Hq']]%lookup_insert_Some; [|by apply (J7 d)]. rewrite (q_ksize _ _ Hq). by apply (J7 c).
    + intros d q [[<- <-]|[_ Hq']]%lookup_insert_Some; [|by apply (J9 d)]. rewrite Hsp. apply Forall_app.
      split; [by apply J9|]. apply Forall_singleton, new_peer. by rewrite Hcj.
  - split; cbn [set_others own others]; [intros d; by apply (stores_of_insert _ c p)|done|].
    intros j' Hj' d Hdm. destruct (Hj' d Hdm) as (Hw & q & Hq' & Hin). split; [done|]. cbn [set_others own others].
    destruct (decide (c = d)) as [<-|Hne]; [|exists q; by rewrite lookup_insert_ne].
    exists p'. rewrite lookup_insert_eq. split; [done|]. rewrite Hsp. apply elem_of_app. left. congruence.
Qed.

Lemma known_few c (p : proto) : proto_wf p -> knows_all P c p -> (length (all_nodes (router p)) <= size P)%nat.
Proof.
  intros Hw Hk. etrans; [|apply (member_ids_size P)]. rewrite <- (length_fmap id), <- (size_list_to_set (C := gset bytes)).
  - apply subseteq_size. intros j (n & -> & Hn)%elem_of_list_to_set%list_elem_of_fmap.
    apply (peer_id P c). by apply (ka_only _ _ _ Hk), all_nodes_contacts.
  - apply all_nodes_nodup, Hw.
Qed.

Lemma find_node_from_new c (p : proto) :
  proto_wf p -> knows_all P c p ->
  exists ns p', dispatch_request t (FindNode i i) a p = Some (Some (FindNodeResult (wire_of_node <$> ns)), p') /\
    quiet p p' /\ storage p' = storage p /\ spawned p' = spawned p ++ [WelcomeIfNew (sender i (home a))] /\
    Forall (peer_of P a) ns /\ forall d j, d <> c -> P !! d = Some j -> sender j (home d) ∈ ns.
Proof.
  intros Hw Hk. cbn [dispatch_request rpc_find_node]. unfold rpc_find_node. cbn [router spawn].
  assert (wf_node (from_id i)) as Ht by (apply Node_new_wf, new_length).
  set (src := sender i (home a)).
  pose proof (quiet_find t (spawn p (WelcomeIfNew src)) (from_id i) (Some src)
    (spawn_wf _ (WelcomeIfNew src) Hw (sender_wf _ _ new_length)) Ht) as Hq.
  pose proof (find_neighbors_members t (router p) (from_id i) (Some src) (pw_table _ Hw) Ht (pw_ksize _ Hw)) as Hm.
  pose proof (fun m => find_neighbors_all t (router p) (from_id i) (Some src) m (pw_table _ Hw) Ht (pw_ksize _ Hw)) as Hall.
  cbn [router spawn] in Hq. destruct (find_neighbors t (router p) _ _) as [r ns]. cbn [fst snd] in *.
  do 2 eexists. split; [reflexivity|]. split_and!; [|done|done|..].
  - etransitivity; [|exact Hq]. apply quiet_spawn.
  - eapply Forall_impl; [exact Hm|]. intros n [Hn _].
    destruct (ka_only _ _ _ Hk n (all_nodes_contacts _ _ Hn)) as (d & _ & Hdm). exists d. split; [|done].
    apply (member_not_new d (id n)), Hdm.
  - intros d j Hne Hdm. apply Hall; [|by apply (ka_all _ _ _ Hk)|].
    + etrans; [by eapply known_few|]. apply (ka_room _ _ _ Hk).
    + destruct (member_not_new d j Hdm) as [_ Hji]. unfold skip_neighbor. cbn. by rewrite !bool_decide_false.
Qed.

(** The new node is to welcome a member. *)
Lemma welcome_waits r c n :
  joining r -> member P c n ->
  joining (set_own r (spawn (own r) (WelcomeIfNew n))) /\ after r (set_own r (spawn (own r) (WelcomeIfNew n))).
Proof.
  intros Hj Hc. split.
  - pose proof (me_pop _ _ _ _ (jo_mesh _ Hj)) as HP. destruct Hj as [J1 J2 J3 J4 J5 J6 J7 J8 J9 J10]. split; try done.
    + destruct J4 as [W1 W2 W3 W4]. split; [|done..]. apply spawn_wf; [done|]. by apply (member_wf P c).
    + apply Forall_app. split; [done|]. apply Forall_singleton. by apply (old_peer c).
  - split; [done|done|]. intros j Hj' d Hdm. destruct (Hj' d Hdm) as [Hin Hp']. split; [|exact Hp'].
    cbn. apply elem_of_app. by left.
Qed.

(** The new node asks a member for its neighbours. *)
Lemma find_node_joined r n T :
  joining r -> peer_of P a n -> id T = i ->
  let x := one_call t (find_node_call n T) r in
  joining (snd x) /\ full_answer (peer_of P a) (id n) (fst x) /\ asked (id n) (snd x) /\ after r (snd x).
Proof.
  intros Hj (c & Hca & Hc) Ei. pose proof (jo_mesh _ Hj) as Hm. pose proof (me_pop _ _ _ _ Hm) as HP.
  destruct (proj2 (me_dom _ _ _ _ Hm c)) as [p Hp]; [by rewrite (proj1 Hc)|].
  pose proof (pi_wf _ _ (me_inv _ _ _ _ Hm c p Hp)) as Hw. pose proof (me_nodes _ _ _ _ Hm c p Hp) as Hk. cbn [snd] in Hw.
  destruct (find_node_from_new c p Hw Hk) as (ns & p' & Ed & Hq & Est & Esp & Hns & Hall).
  assert (well_typed (FindNode i i) = true) as Hwt by (simpl; by rewrite new_length).
  destruct (join_send r c p _ _ p' Hj Hp Hwt Ed Hq Est Esp) as (r1 & Esend & Hj1 & Eo1 & Eown & Haf).
  unfold one_call. cbn [request finish find_node_call rproto set_rproto send cluster_net].
  unfold to_peer. rewrite (member_addr P c n HP Hc), (jo_id _ Hj), Ei. cbn [mbind option_bind].
  rewrite Esend. unfold kp_call_find_node. rewrite (member_addr P c n HP Hc). cbv zeta. cbn [on_answer on_response fst snd].
  set (r2 := set_own r1 (spawn (own r1) (WelcomeIfNew n))).
  destruct (welcome_waits r1 c n Hj1 Hc) as [Hj2 Haf2]. fold r2 in Hj2, Haf2.
  split_and!.
  - done.
  - split; [split; [done|]|].
    + rewrite wire_nodes; [done|]. eapply Forall_impl; [exact Hns|]. intros m (d & _ & Hdm). by apply (member_wf P d).
    + intros m (d & _ & Hdm) Hmn.
      rewrite wire_nodes by (eapply Forall_impl; [exact Hns|]; intros m' (d' & _ & Hdisp); by apply (member_wf P d')).
      rewrite (proj2 Hdm). apply list_elem_of_fmap_2, Hall; [|apply Hdm]. intros ->.
      apply Hmn. destruct Hdm as [Hdm _], Hc as [Hc _]. congruence.
  - intros d Hdm. assert (d = c) as -> by (apply (pop_inj P HP d c (id n)); [done|apply Hc]). split.
    + cbn. apply elem_of_app. right. rewrite <- (proj2 Hc). left.
    + exists p'. cbn. rewrite Eo1, lookup_insert_eq. split; [done|]. rewrite Esp. apply elem_of_app. right. left.
  - by transitivity r1.
Qed.

(** The new node pings a member. *)
Lemma ping_joined r b j :
  joining r -> P !! b = Some j ->
  exists r', one_call t (ping_call (home b)) r = ((true, j), r') /\ joining r' /\ after r r'.
Proof.
  intros Hj Hb. pose proof (jo_mesh _ Hj) as Hm. pose proof (me_pop _ _ _ _ Hm) as HP.
  destruct (proj2 (me_dom _ _ _ _ Hm b)) as [p Hp]; [by rewrite Hb|].
  assert (id (source_node p) = j) as Ej.
  { pose proof (ka_self _ _ _ (me_nodes _ _ _ _ Hm b p Hp)). congruence. }
  assert (well_typed (Ping i) = true) as Hwt by (simpl; by rewrite new_length).
  destruct (join_send r b p (Ping i) (Some (Pong (id (source_node p)))) (spawn p (WelcomeIfNew (sender i (home a)))) Hj Hp Hwt)
    as (r1 & Esend & Hj1 & _ & Eown & Haf); [done|done|done|done|].
  destruct (welcome_waits r1 b (sender j (home b)) Hj1) as [Hj2 Haf2]; [by split|].
  exists (set_own r1 (spawn (own r1) (WelcomeIfNew (sender j (home b))))).
  split_and!; [|done|by transitivity r1]. unfold one_call. cbn [request finish ping_call rproto set_rproto send cluster_net fst snd].
  rewrite (pop_addr P HP b j Hb). cbn [mbind option_bind]. rewrite (jo_id _ Hj), Esend. unfold call_ping_addr. cbn [fst snd].
  rewrite (pop_addr P HP b j Hb), Ej. cbn [on_answer on_response].
  by rewrite (pop_length P HP b j Hb), Nat.eqb_refl.
Qed.

Lemma bootstrap_joined b j (s : Server seat) :
  joining (running s) -> listening s = true -> id (snode s) = i -> (0 < sksize s)%nat -> (size P <= sksize s)%nat ->
  P !! b = Some j ->
  exists ns s', bootstrap CRAWL_FUEL t [home b] s = Some (ns, s') /\ joining (running s') /\ after (running s) (running s') /\
    forall c k, P !! c = Some k -> asked k (running s').
Proof.
  intros Hj Hup Eid Hk Hsz Hb. unfold bootstrap. cbn [bootstrap_nodes]. unfold bootstrap_node. rewrite Hup. cbn [negb].
  destruct (ping_joined (running s) b j Hj Hb) as (r1 & -> & Hj1 & Haf1). cbv beta iota zeta.
  pose proof (me_pop _ _ _ _ (jo_mesh _ Hj)) as HP. rewrite (pop_length P HP b j Hb), Nat.eqb_refl. cbn [negb orb option_list app].
  cbn [listening set_running]. rewrite Hup. cbn [negb snode set_running].
  set (n0 := Node_new j _ _). assert (member P b n0) as Hn0 by (by split).
  assert (b <> a) as Hba by (apply (member_not_new b j Hb)).
  assert (forall n, peer_of P a n -> wf_node n) as Hwf by (intros n (c & _ & Hc); by apply (member_wf P c)).
  assert (Forall (peer_of P a) [n0]) as Hpeers by (apply Forall_singleton; by exists b).
  pose proof (Forall_impl _ _ _ Hpeers Hwf) as Hpw. pose proof (member_ids_size P) as Hids.
  pose (J := fun r : seat => joining r /\ after r1 r).
  assert (forall r n, J r -> peer_of P a n ->
    J (fst (@call_find_node _ (kademlia_spider t) r n (snode s))) /\
    full_answer (peer_of P a) (id n) (snd (@call_find_node _ (kademlia_spider t) r n (snode s))) /\
    asked (id n) (fst (@call_find_node _ (kademlia_spider t) r n (snode s))) /\
    forall k, asked k r -> asked k (fst (@call_find_node _ (kademlia_spider t) r n (snode s)))) as Hans.
  { intros r n [Hr Haf] Hn. cbn [call_find_node kademlia_spider].
    destruct (find_node_joined r n (snode s) Hr Hn Eid) as (Hr' & Hans & Hask & Haf').
    destruct (one_call t (find_node_call n (snode s)) r) as [raw r']. cbn [fst snd] in *.
    split_and!; [by split; [|transitivity r]|done|done|]. apply Haf'. }
  set (c0 := SpiderCrawl_new (snode s) [n0] (sksize s) (salpha s)).
  destruct (@node_find_full _ _ _ (kademlia_spider t) J (peer_of P a) (snode s) asked (member_ids P) Hans Hwf (peer_id P a)
    CRAWL_FUEL 0 r1 c0) as (r2 & c2 & ns & Ef & [Hj2 Haf2] & Hall).
  - by split.
  - split; cbn [c0 SpiderCrawl_new nearest cnode cksize].
    + by apply SpiderCrawl_new_wf.
    + by apply push_heap_in; [constructor|].
    + done.
    + lia.
    + apply (push_nonempty _ _ n0); [apply NodeHeap_new_wf|done|done|]. left.
    + intros k. rewrite (proj1 (proj2 (push_fields _ _))). intros Hi. by apply not_elem_of_empty in Hi.
    + intros k. rewrite (proj1 (proj2 (push_fields _ _))). intros Hi. by apply not_elem_of_empty in Hi.
  - apply measure_bound.
  - unfold crawl_nodes. cbn [running set_running sksize salpha]. change (option_list (Some n0) ++ []) with [n0]. fold c0. rewrite Ef. clear Ef.
    do 2 eexists. split; [reflexivity|]. cbn [running set_running]. split_and!; [done|by transitivity r1|].
    intros c k Hc. apply (Hall (sender k (home c))). exists c. split; [apply (member_not_new c k Hc)|by split].
Qed.

End joining.

(** ** Running the spawned tasks *)

(** The node at [c], going from [p] to [p'] by tasks of its own. *)
Definition task_move (t : Z) (c : SocketAddr) (idx : nat) : move := mkMove t (fun _ => Delivered) c (ATask idx).

Definition runs (fuel al : nat) (t : Z) (c : SocketAddr) (p p' : proto) : Prop :=
  exists idxs, forall cl, cl !! c = Some p ->
    exists os, run_moves fuel al (task_move t c <$> idxs) cl = Some (os, <[c := p']> cl).

Lemma run_moves_app fuel al (l1 l2 : list move) (cl cl1 cl2 : cluster S Hd C) os1 os2 :
  run_moves fuel al l1 cl = Some (os1, cl1) -> run_moves fuel al l2 cl1 = Some (os2, cl2) ->
  run_moves fuel al (l1 ++ l2) cl = Some (os1 ++ os2, cl2).
Proof.
  revert cl os1. induction l1 as [|mv l1 IH]; intros cl os1; cbn [run_moves app]; [by intros [= <- <-]|].
  intros ([o cl'] & -> & ([os cl''] & H1 & [= <- <-])%bind_Some)%bind_Some H2. cbn [mbind option_bind].
  by rewrite (IH cl' os H1 H2).
Qed.

#[global] Instance runs_preorder fuel al t c : PreOrder (runs fuel al t c).
Proof.
  split.
  - intros p. exists []. intros cl Hc. exists []. cbn. by rewrite insert_id.
  - intros p q r [i1 H1] [i2 H2]. exists (i1 ++ i2). intros cl Hc. destruct (H1 cl Hc) as [os1 E1].
    destruct (H2 (<[c := q]> cl)) as [os2 E2]; [by rewrite lookup_insert_eq|].
    exists (os1 ++ os2). rewrite fmap_app. rewrite insert_insert_eq in E2. by eapply run_moves_app.
Qed.

Lemma run_welcome fuel al t c n idx (p p' : proto) :
  spawned p !! idx = Some (WelcomeIfNew n) -> welcome_if_new t n (unspawn idx p) = Some p' -> runs fuel al t c p p'.
Proof.
  intros Hs Hw. exists [idx]. intros cl Hc. exists [ODone]. cbn [fmap list_fmap run_moves]. unfold run_move, task_move.
  cbn [mwho mnow mfate mact]. rewrite Hc. cbn [run_action sit running own]. rewrite Hs. unfold run_task_in.
  cbn [task_request own set_own on_answer run_task]. rewrite Hw. cbn [mbind option_bind]. unfold rise. cbn.
  by rewrite insert_delete_eq.
Qed.

(** A node that knows only other members has room for all of them. *)
Lemma peers_few P c (p : proto) :
  proto_wf p -> P !! c = Some (id (source_node p)) -> (forall m, m ∈ all_contacts (router p) -> peer_of P c m) ->
  (size P <= tksize (router p))%nat -> (length (all_nodes (router p)) < tksize (router p))%nat.
Proof.
  intros Hi Hc Hcon Hroom. assert (size (delete c P) < size P)%nat as Hlt.
  { rewrite map_size_delete, Hc. cbn. assert (size P <> 0%nat); [|lia]. intros E0%map_size_empty_inv. by rewrite E0 in Hc. }
  eapply Nat.lt_le_trans; [|exact Hroom]. eapply Nat.le_lt_trans; [|exact Hlt].
  etrans; [|apply (member_ids_size (delete c P))]. rewrite <- (length_fmap id), <- (size_list_to_set (C := gset bytes)).
  - apply subseteq_size. intros j (m & -> & Hm)%elem_of_list_to_set%list_elem_of_fmap.
    destruct (Hcon m (all_nodes_contacts _ _ Hm)) as (d & Hdc & Hd' & Em).
    apply (peer_id (delete c P) c). exists d. split; [done|]. split; [by rewrite lookup_delete_ne|done].
  - apply all_nodes_nodup, Hi.
Qed.

(** Each of several nodes runs tasks of its own. *)
Lemma run_everywhere fuel al t (Q : SocketAddr -> proto -> proto -> Prop) cs (cl : cluster S Hd C) :
  NoDup cs -> (forall c, c ∈ cs -> exists p p', cl !! c = Some p /\ runs fuel al t c p p' /\ Q c p p') ->
  exists mvs os cl', Forall (fun mv => exists c idx, c ∈ cs /\ mv = task_move t c idx) mvs /\
    run_moves fuel al mvs cl = Some (os, cl') /\
    (forall c, c ∈ cs -> exists p p', cl !! c = Some p /\ cl' !! c = Some p' /\ Q c p p') /\
    forall c, c ∉ cs -> cl' !! c = cl !! c.
Proof.
  intros Hnd. revert cl. induction Hnd as [|c cs Hc Hnd IH]; intros cl Hall.
  { exists [], [], cl. split_and!; [done|done| |done]. intros c Hc. by apply elem_of_nil in Hc. }
  destruct (Hall c ltac:(left)) as (p & p' & Hp & [idxs Hrun] & Hq). destruct (Hrun cl Hp) as [os1 E1].
  destruct (IH (<[c := p']> cl)) as (mvs & os & cl' & Hmv & E2 & Hin & Hout).
  { intros d Hd'. destruct (Hall d ltac:(by right)) as (q & q' & Hq1 & Hq2). exists q, q'. split; [|done].
    rewrite lookup_insert_ne; [done|]. by intros ->. }
  exists ((task_move t c <$> idxs) ++ mvs), (os1 ++ os), cl'. split_and!.
  - apply Forall_app. split.
    + apply Forall_fmap, Forall_true. intros idx. exists c, idx. split; [left|done].
    + eapply Forall_impl; [exact Hmv|]. intros mv (d & idx & Hd' & ->). exists d, idx. split; [by right|done].
  - by eapply run_moves_app.
  - intros d [->|Hd']%elem_of_cons.
    + exists p, p'. rewrite Hout by done. by rewrite lookup_insert_eq.
    + destruct (Hin d Hd') as (q & q' & H1 & H2). exists q, q'. rewrite lookup_insert_ne in H1; [done|]. by intros ->.
  - intros d Hd'. rewrite Hout by set_solver. rewrite lookup_insert_ne; [done|]. set_solver.
Qed.

(** ** From the first contacts to the larger mesh *)

Section gathering.
Context (h : Hd) (t : Z) (Q : gmap SocketAddr bytes) (K : SocketAddr -> nat) (records : bytes -> bytes -> Prop).
Hypothesis HQ : population Q.
Hypothesis Hrecords : forall key v, records key v -> verify_record h (bool_decide (key = digest STATUS_LIST_KEY)) v = true.

(** A node on its way to knowing all others: those it does not know it is going to
    welcome. *)
Record gathers (c : SocketAddr) (p : proto) : Prop := {
  ga_inv : proto_inv h (t, p);
  ga_self : Q !! c = Some (id (source_node p));
  ga_only : forall n, n ∈ all_contacts (router p) -> peer_of Q c n;
  ga_ksize : tksize (router p) = K c;
  ga_room : (size Q <= tksize (router p))%nat;
  ga_hope : forall n, peer_of Q c n -> n ∈ all_nodes (router p) \/ WelcomeIfNew n ∈ spawned p;
  ga_tasks : Forall (task_fits Q records c) (spawned p);
  ga_records : forall key v, get t (storage p) key = Some v -> records key v
}.

Definition gathering (cl : cluster S Hd C) : Prop :=
  (forall c, is_Some (cl !! c) <-> is_Some (Q !! c)) /\ map_Forall gathers cl.

(** Nobody has a node to welcome. *)
Definition all_welcomed (cl : cluster S Hd C) : Prop := map_Forall (fun _ p => forall n, WelcomeIfNew n ∉ spawned p) cl.

Lemma gathered_mesh cl : gathering cl -> all_welcomed cl -> mesh h t Q cl.
Proof.
  intros [Hdom Hg] Hno. split; [done|done|intros c p Hp; apply (ga_inv _ _ (Hg c p Hp))|].
  intros c p Hp. destruct (Hg c p Hp) as [G1 G2 G3 G4 G5 G6 G7 G8]. split; [done|..|done|done].
  intros d j Hdc Hd'. destruct (G6 (sender j (home d))) as [?|Hin]; [by exists d|done|by destruct (Hno c p Hp _ Hin)].
Qed.

Lemma gathering_insert cl c p p' : gathering cl -> cl !! c = Some p -> gathers c p' -> gathering (<[c := p']> cl).
Proof.
  intros [Hdom Hg] Hc Hp'. split.
  - intros d. rewrite <- Hdom. destruct (decide (c = d)) as [<-|Hne]; [|by rewrite lookup_insert_ne].
    rewrite lookup_insert_eq, Hc. split; by eexists.
  - by apply map_Forall_insert_2.
Qed.

(** Taking a task away; a welcome only of a node that is known. *)
Lemma unspawn_elem idx x y (p : proto) : spawned p !! idx = Some x -> y <> x -> y ∈ spawned p -> y ∈ spawned (unspawn idx p).
Proof.
  intros Hx Hne Hy. cbn [spawned unspawn]. apply list_elem_of_lookup in Hy as [k Hk]. apply list_elem_of_lookup.
  assert (k <> idx) as Hki by (intros ->; congruence).
  destruct (decide (k < idx)%nat); [exists k; by rewrite list_lookup_delete_lt|exists (k - 1)%nat].
  rewrite list_lookup_delete_ge by lia. by replace (Datatypes.S (k - 1)) with k by lia.
Qed.

Lemma gathers_task c p idx x : gathers c p -> spawned p !! idx = Some x -> task_fits Q records c x.
Proof. intros Hg Hx. exact (proj1 (Forall_lookup _ _) (ga_tasks _ _ Hg) idx x Hx). Qed.

(** A welcome runs. *)
Lemma gathers_welcome c p idx n :
  gathers c p -> spawned p !! idx = Some (WelcomeIfNew n) ->
  exists p' kvs, welcome_if_new t n (unspawn idx p) = Some p' /\ gathers c p' /\ storage p' = storage p /\
    spawned p' = delete idx (spawned p) ++ ((fun kv => StoreRpc n (fst kv) (snd kv)) <$> kvs).
Proof.
  intros Hg Hx. pose proof (gathers_task c p idx _ Hg Hx) as Hn. cbn [task_fits] in Hn.
  destruct Hg as [G1 G2 G3 G4 G5 G6 G7 G8].
  assert (forall m, m ∈ all_nodes (router p) -> id m = id n -> m = n) as Huniq.
  { intros m (d & _ & Hd1 & Em)%all_nodes_contacts%G3 E'. destruct Hn as (d' & _ & Hd2 & En).
    rewrite E' in Hd1, Em. by rewrite Em, En, (pop_inj Q HQ d d' (id n) Hd1 Hd2). }
  destruct (welcome_adds h t n (unspawn idx p)) as (p' & Ew & [W1 W2 W3 W4 W5 W6 W7 (kvs & W8 & W9)]);
    [by apply unspawn_inv| | | |done|].
  - destruct Hn as (d & _ & Hd'). by apply (member_wf Q d).
  - destruct Hn as (d & Hdc & Hd' & _). intros E'. apply Hdc, (pop_inj Q HQ d c (id n)); [done|by rewrite E'].
  - apply (peers_few Q c p); [exact (pi_wf _ _ G1)|done..].
  - exists p', kvs. cbn [router unspawn source_node storage spawned] in *. split_and!; [done| |done|done].
    split; [done|by rewrite W3|..|by rewrite W4|by rewrite W4| | |by rewrite W2].
    + intros m [->|Hm]%W7; auto.
    + intros m Hm. destruct (decide (m = n)) as [->|Hmn]; [by left|]. destruct (G6 m Hm) as [?|Hin]; [left; auto|right].
      rewrite W8. apply elem_of_app. left. apply (unspawn_elem idx (WelcomeIfNew n)); [done|congruence|done].
    + rewrite W8. apply Forall_app. split; [by apply Forall_delete|]. apply Forall_fmap.
      eapply Forall_impl; [exact W9|]. intros kv [Hl Hget]. split_and!; [done|done|by apply G8].
Qed.

(** A member handles a replication. *)
Lemma gathers_store c d q i key v :
  gathers d q -> Q !! c = Some i -> c <> d -> length key = ID_LEN -> records key v ->
  exists ok q', dispatch_request t (Store i key v) c q = Some (Some (StoreResult ok), q') /\ gathers d q' /\
    forall k w, get t (storage q) k = Some w -> get t (storage q') k = Some w.
Proof.
  intros Hg Hc Hcd Hl Hr. pose proof Hg as [G1 G2 G3 G4 G5 G6 G7 G8].
  pose proof (verify_for_key_true h t key v q G1 (Hrecords key v Hr)) as Hver.
  pose proof (rpc_store_quiet t i (home c) key v q Hver) as [Q1 Q2 Q3 Q4].
  pose proof (rpc_store_cases t i (home c) key v q) as Hcases.
  destruct (rpc_store t i (home c) key v q) as [ok q'] eqn:Est. cbn [snd] in *.
  assert (dispatch_request t (Store i key v) c q = Some (Some (StoreResult ok), q')) as Ed by (simpl; by rewrite Est).
  exists ok, q'. split; [done|]. destruct Hcases as (Hok & Hyes & Hno & _).
  assert (forall k, get t (storage q') k = get t (storage q) k \/
    (get t (storage q) k = None /\ get t (storage q') k = Some v /\ k = key)) as Hget.
  { intros k. destruct (dispatch_storage _ _ _ _ _ _ k Ed) as [?|Hch]; [by left|right].
    inversion Hch; subst. done. }
  assert (spawned q' = spawned q \/ spawned q' = spawned q ++ [WelcomeIfNew (sender i (home c))]) as Hsp.
  { destruct ok; [right; by apply Hyes|left]. revert Est. unfold rpc_store.
    destruct (verify_for_key_fields t key v q) as (_ & _ & _ & _ & _ & Ep).
    destruct (verify_for_key t key v q) as [valid q1]. cbn [fst snd] in *. subst valid. cbn [negb].
    destruct (insert_if_absent _ _ _ _) as [st []]; cbn [negb]; intros [= <-]. done. }
  split.
  - split; [|by rewrite Q1|by rewrite Q3|by rewrite Q4|by rewrite Q4| | |].
    + eapply dispatch_inv; [exact G1| |exact Ed]. split; [by apply (pop_length Q HQ c)|done].
    + intros n Hn. rewrite Q2. destruct (G6 n Hn) as [?|Hin]; [by left|right].
      destruct Hsp as [->| ->]; [done|apply elem_of_app; by left].
    + destruct Hsp as [->| ->]; [done|]. apply Forall_app. split; [done|]. apply Forall_singleton.
      exists c. split; [done|by split].
    + intros k w Hw. destruct (Hget k) as [E'|(_ & E' & ->)]; rewrite E' in Hw; [by apply G8|]. by injection Hw as <-.
  - intros k w Hw. destruct (Hget k) as [->|(E' & _)]; [done|congruence].
Qed.

(** What nodes hold they keep. *)
Definition kept (cl cl' : cluster S Hd C) : Prop :=
  forall key v c, at_key t key cl c = Some v -> at_key t key cl' c = Some v.

#[global] Instance kept_preorder : PreOrder kept.
Proof. split; [by intros x key v c|]. intros x y z H1 H2 key v c Hc. by apply H2, H1. Qed.

Lemma kept_insert (cl : cluster S Hd C) c p p' :
  cl !! c = Some p -> (forall k w, get t (storage p) k = Some w -> get t (storage p') k = Some w) -> kept cl (<[c := p']> cl).
Proof.
  intros Hc Hst key v d. unfold at_key. destruct (decide (c = d)) as [<-|Hne]; [|by rewrite lookup_insert_ne].
  rewrite lookup_insert_eq, Hc. apply Hst.
Qed.

(** Any task of any node runs. *)
Lemma gathering_task fuel al c idx cl :
  gathering cl -> exists o cl', run_move fuel al (task_move t c idx) cl = Some (o, cl') /\ gathering cl' /\ kept cl cl'.
Proof.
  intros Hga. pose proof Hga as [Hdom Hg]. unfold run_move, task_move. cbn [mwho mnow mfate mact].
  destruct (cl !! c) as [p|] eqn:Hc; [|by exists ODone, cl]. cbn [run_action sit running own].
  pose proof (Hg c p Hc) as Hp. destruct (spawned p !! idx) as [x|] eqn:Hx.
  2:{ exists ODone, cl. split; [|done]. unfold rise. cbn. by rewrite insert_delete_eq, insert_id. }
  pose proof (gathers_task c p idx x Hp Hx) as Hfit. destruct x as [n|n|n key v]; cbn [task_fits] in Hfit; [|done|].
  - destruct (gathers_welcome c p idx n Hp Hx) as (p' & kvs & Ew & Hp' & Est & _).
    exists ODone, (<[c := p']> cl). unfold run_task_in. cbn [task_request own set_own on_answer run_task]. rewrite Ew.
    cbn [mbind option_bind]. split; [unfold rise; cbn; by rewrite insert_delete_eq|].
    split; [by eapply gathering_insert|]. apply (kept_insert cl c p); [done|]. by rewrite Est.
  - destruct Hfit as ((d & Hdc & Hdn) & Hl & Hr). destruct (proj2 (Hdom d)) as [q Hq]; [by rewrite (proj1 Hdn)|].
    pose proof (ga_self _ _ Hp) as Hself.
    destruct (gathers_store c d q (id (source_node p)) key v (Hg d q Hq) Hself ltac:(done) Hl Hr) as (ok & q' & Ed & Hq' & Hkeep).
    assert (gathers c (unspawn idx p)) as Hu.
    { destruct Hp as [G1 G2 G3 G4 G5 G6 G7 G8]. split; try done; [by apply unspawn_inv| |by apply Forall_delete].
      intros m Hm. destruct (G6 m Hm) as [?|Hin]; [by left|right]. by eapply unspawn_elem. }
    exists ODone, (<[d := q']> (<[c := unspawn idx p]> cl)). split_and!.
    + unfold run_task_in. cbn [task_request own set_own unspawn source_node]. unfold to_peer.
      rewrite (member_addr Q d n HQ Hdn). cbn [mbind option_bind unspawn source_node].
      unfold cluster_send. cbn [fate sent own self others set_own]. simpl well_typed.
      rewrite (pop_length Q HQ c _ Hself), Hl, Nat.eqb_refl. cbn [andb negb]. unfold deliver. cbn [self own others].
      rewrite decide_False by done. rewrite lookup_delete_ne, Hq by done. rewrite Ed. cbn [on_answer on_response].
      cbn [run_task]. unfold call_store_rpc. rewrite (member_addr Q d n HQ Hdn). cbn [snd mbind option_bind].
      do 2 f_equal. unfold rise. cbn. rewrite insert_insert_ne by done. by rewrite insert_delete_eq.
    + eapply gathering_insert; [by eapply gathering_insert|by rewrite lookup_insert_ne|done].
    + transitivity (<[c := unspawn idx p]> cl); [by apply (kept_insert cl c p)|]. by apply (kept_insert _ d q); [rewrite lookup_insert_ne|].
Qed.

(** A schedule: whose task runs next. *)
Definition task_moves (turns : list (SocketAddr * nat)) : list move := (fun x => task_move t (fst x) (snd x)) <$> turns.

Lemma gathering_tasks fuel al turns cl :
  gathering cl -> exists os cl', run_moves fuel al (task_moves turns) cl = Some (os, cl') /\ gathering cl' /\ kept cl cl'.
Proof.
  revert cl. induction turns as [|[c idx] turns IH]; intros cl Hg; [by exists [], cl|].
  destruct (gathering_task fuel al c idx cl Hg) as (o & cl1 & E1 & Hg1 & Hk1).
  destruct (IH cl1 Hg1) as (os & cl2 & E2 & Hg2 & Hk2). exists (o :: os), cl2.
  cbn [task_moves fmap list_fmap run_moves fst snd] in *. rewrite E1. cbn [mbind option_bind]. unfold task_moves in E2. rewrite E2.
  split_and!; [done|done|by transitivity cl1].
Qed.

(** *** All welcomes can run *)

Definition is_welcome (x : Task) : Prop := match x with WelcomeIfNew _ => True | _ => False end.

#[local] Instance is_welcome_dec x : Decision (is_welcome x).
Proof. destruct x; apply _. Defined.

Lemma node_welcomes fuel al c p :
  gathers c p -> exists p', runs fuel al t c p p' /\ forall n, WelcomeIfNew n ∉ spawned p'.
Proof.
  remember (length (filter is_welcome (spawned p))) as m eqn:Em. revert p Em.
  induction m as [m IH] using lt_wf_ind. intros p Em Hg.
  destruct (filter is_welcome (spawned p)) as [|x l] eqn:Ef.
  { exists p. split; [reflexivity|]. intros n Hn.
    assert (WelcomeIfNew n ∈ filter is_welcome (spawned p)) as Hin by (by apply list_elem_of_filter).
    rewrite Ef in Hin. by apply elem_of_nil in Hin. }
  assert (x ∈ filter is_welcome (spawned p)) as [Hw Hx]%list_elem_of_filter by (rewrite Ef; left).
  destruct x as [n|n|n key v]; [|done..]. apply list_elem_of_lookup in Hx as [idx Hx].
  destruct (gathers_welcome c p idx n Hg Hx) as (p1 & kvs & Ew & Hg1 & _ & Esp).
  assert (length (filter is_welcome (spawned p1)) < m)%nat as Hlt.
  { rewrite Esp, filter_app, length_app. rewrite <- Ef in Em.
    assert (filter is_welcome ((fun kv => StoreRpc n (fst kv) (snd kv)) <$> kvs) = []) as ->
      by (clear; induction kvs as [|kv kvs IH]; [done|]; rewrite fmap_cons, filter_cons; by rewrite decide_False by (intros [])).
    assert (length (filter is_welcome (spawned p)) = Datatypes.S (length (filter is_welcome (delete idx (spawned p))))) as Hl.
    { rewrite (Permutation_length (filter_Permutation is_welcome _ _ (delete_Permutation _ _ _ Hx))), filter_cons.
      by rewrite decide_True. }
    cbn [length]. lia. }
  destruct (IH _ Hlt p1 eq_refl Hg1) as (p2 & Hr & Hno). exists p2. split; [|done].
  transitivity p1; [by eapply run_welcome|done].
Qed.

Lemma gathering_drains fuel al cl :
  gathering cl -> exists turns os cl', run_moves fuel al (task_moves turns) cl = Some (os, cl') /\ all_welcomed cl'.
Proof.
  intros Hg. destruct (run_everywhere fuel al t (fun _ _ p' => forall n, WelcomeIfNew n ∉ spawned p') (map_to_list cl).*1 cl)
    as (mvs & os & cl' & Hmv & Erun & Hin & Hout).
  { apply NoDup_fst_map_to_list. }
  { intros c ([c' p] & -> & Hp%elem_of_map_to_list)%list_elem_of_fmap. exists p.
    destruct (node_welcomes fuel al c' p (proj2 Hg c' p Hp)) as (p' & Hr & Hno). by exists p'. }
  assert (exists turns, mvs = task_moves turns) as [turns ->].
  { clear Erun. induction Hmv as [|mv mvs (c & idx & _ & ->) _ [turns ->]]; [by exists []|]. by exists ((c, idx) :: turns). }
  exists turns, os, cl'. split; [done|]. clear Erun. intros c p Hp n.
  destruct (decide (c ∈ (map_to_list cl).*1)) as [Hc|Hc].
  - destruct (Hin c Hc) as (q & q' & _ & Hq' & Hno). rewrite Hp in Hq'. injection Hq' as ->. apply Hno.
  - exfalso. apply Hc. rewrite Hout in Hp by done. by apply (list_elem_of_fmap_2 fst _ (c, p)), elem_of_map_to_list.
Qed.

End gathering.

(** ** The larger mesh *)

(** Somebody holds [v] under [key]. *)
Definition held_in (t : Z) (cl : cluster S Hd C) (key v : bytes) : Prop := exists c, at_key t key cl c = Some v.

(** A fresh node at [a] beside the mesh of [P]; all have room for one more.  The tasks
    that wait concern these nodes and their records only, and the records verify. *)
Record newcomer (h : Hd) (t : Z) (P : gmap SocketAddr bytes) (a : SocketAddr) (i : bytes) (cl : cluster S Hd C) : Prop := {
  nw_pop : population (<[a := i]> P);
  nw_out : P !! a = None;
  nw_mesh : mesh h t P (delete a cl);
  nw_room : forall b p, cl !! b = Some p -> (size P < tksize (router p))%nat;
  nw_node : exists p, cl !! a = Some p /\ proto_inv h (t, p) /\ id (source_node p) = i /\ all_contacts (router p) = [];
  nw_tasks : forall c p, cl !! c = Some p -> Forall (task_fits (<[a := i]> P) (held_in t cl) c) (spawned p);
  nw_records : forall key v, held_in t cl key v -> verify_record h (bool_decide (key = digest STATUS_LIST_KEY)) v = true
}.

(** The bucket size of each node. *)
Definition ksizes (P : gmap SocketAddr bytes) (cl : cluster S Hd C) (c : SocketAddr) : nat :=
  default (Datatypes.S (size P)) ((fun p => tksize (router p)) <$> cl !! c).

(** A member of the mesh that has been asked, in the larger cluster. *)
Lemma member_gathers h t P a i K records (r : seat) c p :
  joining h t P a i K records r -> population (<[a := i]> P) -> P !! a = None -> others r !! c = Some p ->
  (size P < K c)%nat -> WelcomeIfNew (sender i (home a)) ∈ spawned p ->
  (forall key v, get t (storage p) key = Some v -> records key v) -> gathers h t (<[a := i]> P) K records c p.
Proof.
  intros [J1 J2 J3 J4 J5 J6 J7 J8 J9 J10] Hpop Ha Hp Hsz Hin Hrec.
  pose proof (me_nodes _ _ _ _ J3 c p Hp) as [K1 K2 K3 K4]. assert (c <> a) as Hca by (intros ->; congruence).
  split; [apply (me_inv _ _ _ _ J3 c p Hp)|by rewrite lookup_insert_ne|..|by apply J7| | |by apply J9|done].
  - intros n (d & Hdc & Hdm & En)%K3. exists d. split; [done|]. split; [|done].
    rewrite lookup_insert_ne; [done|]. intros ->. congruence.
  - rewrite (J7 c p Hp), map_size_insert_None by done. lia.
  - intros n (d & Hdc & Hdm & En). destruct (decide (d = a)) as [->|Hda].
    + right. rewrite lookup_insert_eq in Hdm. injection Hdm as Ei. by rewrite En, <- Ei.
    + left. rewrite lookup_insert_ne in Hdm by done. rewrite En. by apply K2.
Qed.

(** The new node, when it has asked everybody. *)
Lemma new_gathers h t P a i K records (r : seat) :
  joining h t P a i K records r -> population (<[a := i]> P) -> P !! a = None -> (size P < K a)%nat ->
  (forall c j, P !! c = Some j -> WelcomeIfNew (sender j (home c)) ∈ spawned (own r)) ->
  (forall key v, get t (storage (own r)) key = Some v -> records key v) -> gathers h t (<[a := i]> P) K records a (own r).
Proof.
  intros [J1 J2 J3 J4 J5 J6 J7 J8 J9 J10] Hpop Ha Hsz Hin Hrec. split; try done.
  - by rewrite lookup_insert_eq, J5.
  - intros n Hn. rewrite J6 in Hn. by apply elem_of_nil in Hn.
  - rewrite J8, map_size_insert_None by done. lia.
  - intros n (d & Hda & Hdm & En). right. rewrite lookup_insert_ne in Hdm by done. rewrite En. by apply Hin.
Qed.

(** The new node has bootstrapped. *)
Lemma newcomer_bootstraps (h : Hd) (al : nat) (now : Z) (P : gmap SocketAddr bytes) (a b : SocketAddr) (i : bytes)
    (cl : cluster S Hd C) :
  newcomer h now P a i cl -> is_Some (P !! b) ->
  exists ns cl', run_move CRAWL_FUEL al (mkMove now (fun _ => Delivered) a (ABootstrap [home b])) cl = Some (ONodes ns, cl') /\
    gathering h now (<[a := i]> P) (ksizes P cl) (held_in now cl) cl' /\ forall c, stores_of cl' c = stores_of cl c.
Proof.
  intros [Hpop Ha Hm Hroom (p & Hp & Hi & Eid & Hempty) Htasks _] [j Hb].
  set (s := sit al cl (fun _ => Delivered) a p). set (K := ksizes P cl).
  assert (forall c, (size P < K c)%nat) as HK.
  { intros c. unfold K, ksizes. destruct (cl !! c) as [q|] eqn:Hq; [by apply (Hroom c)|cbn; lia]. }
  assert (forall c q, cl !! c = Some q -> tksize (router q) = K c) as HK' by (intros c q Hq; unfold K, ksizes; by rewrite Hq).
  assert (joining h now P a i K (held_in now cl) (running s)) as Hj.
  { split; try done; [|by apply HK'| |by apply Htasks]; intros c q Hq;
      change (delete a cl !! c = Some q) in Hq; apply lookup_delete_Some in Hq as [_ Hq]; [by apply HK'|by apply Htasks]. }
  destruct (bootstrap_joined h now P a i K (held_in now cl) Hpop Ha b j s Hj eq_refl Eid) as (ns & s' & Eb & Hj' & Haf & Hask);
    [exact (Nat.le_lt_trans _ _ _ (Nat.le_0_l _) (Hroom a p Hp))|exact (Nat.lt_le_incl _ _ (Hroom a p Hp))|done|].
  exists ns, (rise (running s')). pose proof (jo_self _ _ _ _ _ _ _ _ Hj') as Eself.
  split; [unfold run_move; cbn [mwho mnow mfate mact]; rewrite Hp; cbn [run_action]; fold s; by rewrite Eb|]. clear Eb.
  assert (forall c, stores_of (rise (running s')) c = stores_of cl c) as Hst.
  { intros c. unfold stores_of, rise. rewrite Eself. destruct (decide (c = a)) as [->|Hca].
    - rewrite lookup_insert_eq, Hp. cbn. by rewrite (af_own _ _ _ _ _ Haf).
    - rewrite lookup_insert_ne by done. pose proof (af_stores _ _ _ _ _ Haf c) as Est. unfold stores_of in Est.
      rewrite Est. cbn. by rewrite lookup_delete_ne. }
  assert (forall c q key v, rise (running s') !! c = Some q -> get now (storage q) key = Some v -> held_in now cl key v) as Hrec.
  { intros c q key v Hq Hg. exists c. rewrite <- (at_key_stores now key cl _ c (Hst c)). apply at_key_Some. by exists q. }
  split; [|done]. unfold rise in *. rewrite Eself in *. split.
  - intros c. destruct (decide (c = a)) as [->|Hca]; [rewrite !lookup_insert_eq; split; by eexists|].
    rewrite !lookup_insert_ne by done. apply (me_dom _ _ _ _ (jo_mesh _ _ _ _ _ _ _ _ Hj')).
  - intros c q Hq. pose proof (fun key v => Hrec c q key v Hq) as Hrq. apply lookup_insert_Some in Hq as [[<- <-]|[Hca Hq]].
    + apply (new_gathers h now P a i K (held_in now cl) (running s') Hj' Hpop Ha (HK a)); [|done]. intros c k Hc. by apply (Hask c k Hc c Hc).
    + destruct (proj1 (me_dom _ _ _ _ (jo_mesh _ _ _ _ _ _ _ _ Hj') c)) as [k Hk]; [by rewrite Hq|].
      destruct (Hask c k Hk c Hk) as (_ & q' & Hq' & Hin). rewrite Hq in Hq'. injection Hq' as <-.
      by apply (member_gathers h now P a i K (held_in now cl) (running s')).
Qed.

(** C15: a node that bootstraps becomes part of the cluster.  Nothing is lost; beside a
    cluster in which every node knows every other there is a fresh node, and all have
    room for one more contact; the tasks that wait are welcomes and replications among
    these nodes, and the records held verify.  The fresh node bootstraps from any one
    member.  Then tasks run, any of any node in any order, replications included: at
    every point what a node held it still holds and nothing else is held anywhere than
    what was; when no welcome waits any more, every node of the larger cluster knows
    every other; and from every point the waiting welcomes can be run to that end. *)
Theorem joining_extends_mesh (h : Hd) (al : nat) (now : Z) (P : gmap SocketAddr bytes) (a b : SocketAddr) (i : bytes)
    (cl : cluster S Hd C) :
  newcomer h now P a i cl -> is_Some (P !! b) ->
  exists ns cl1,
    run_move CRAWL_FUEL al (mkMove now (fun _ => Delivered) a (ABootstrap [(addr_ip b, addr_port b)])) cl
      = Some (ONodes ns, cl1) /\
    forall turns, exists os cl', run_moves CRAWL_FUEL al (task_moves now turns) cl1 = Some (os, cl') /\
      kept now cl cl' /\ (forall key v, held_in now cl' key v -> held_in now cl key v) /\
      (all_welcomed cl' -> mesh h now (<[a := i]> P) cl') /\
      exists turns' os' cl'', run_moves CRAWL_FUEL al (task_moves now turns') cl' = Some (os', cl'') /\ all_welcomed cl''.
Proof.
  intros Hn Hb. destruct (newcomer_bootstraps h al now P a b i cl Hn Hb) as (ns & cl1 & Eb & Hg & Hst).
  exists ns, cl1. split; [exact Eb|]. clear Eb. intros turns. pose proof Hn as [Hpop _ _ _ _ _ Hrec].
  destruct (gathering_tasks h now _ _ _ Hpop Hrec CRAWL_FUEL al turns cl1 Hg) as (os & cl' & Er & Hg' & Hk).
  exists os, cl'. split; [exact Er|]. clear Er. split_and!.
  - intros key v c Hc. apply Hk. by rewrite (at_key_stores now key cl cl1 c (Hst c)).
  - intros key v (c & (p & Hp & Hv)%at_key_Some). exact (ga_records _ _ _ _ _ _ _ (proj2 Hg' c p Hp) key v Hv).
  - intros Hw. exact (gathered_mesh _ _ _ _ _ Hpop cl' Hg' Hw).
  - exact (gathering_drains _ _ _ _ _ Hpop CRAWL_FUEL al cl' Hg').
Qed.

(** ** Clusters that form themselves *)

Section forming.
Context (h : Hd) (al : nat) (now : Z) (k : nat) (st : S) (cap : option Z).
Hypothesis Hk : (0 < k)%nat.
Hypothesis Hempty : forall t key, get t st key = None.

(** A node that has just been started. *)
Definition fresh (i : bytes) : proto := KademliaProtocol_new now (from_id i) st k h (SignatureCache_new <$> cap).

Lemma fresh_inv i : length i = ID_LEN -> proto_inv h (now, fresh i).
Proof.
  intros Hi. split; cbn [snd fst].
  - apply proto_wf_new; [by apply from_id_wf|done].
  - done.
  - intros c. cbn. destruct cap; [|done]. intros [= <-]. apply cache_sound_new.
  - intros t key v _ Hg. cbn in Hg. by rewrite Hempty in Hg.
Qed.

(** A cluster of such nodes with nothing left to do. *)
Record idle (P : gmap SocketAddr bytes) (cl : cluster S Hd C) : Prop := {
  id_mesh : mesh h now P cl;
  id_ksize : forall c p, cl !! c = Some p -> tksize (router p) = k;
  id_tasks : forall c p, cl !! c = Some p -> spawned p = [];
  id_free : forall key, free now key cl
}.

(** Starting a node beside a mesh. *)
Lemma start_newcomer P a i (cl : cluster S Hd C) :
  population (<[a := i]> P) -> P !! a = None -> idle P cl -> (size P < k)%nat -> newcomer h now P a i (<[a := fresh i]> cl).
Proof.
  intros Hpop Ha [Hm Htk Hts Hf] Hsz. assert (cl !! a = None) as Hcl.
  { apply eq_None_not_Some. intros Hc%(me_dom _ _ _ _ Hm). rewrite Ha in Hc. by destruct Hc. }
  split; [done|done|by rewrite delete_insert_id|..].
  - intros b p [[_ <-]|[_ Hp]]%lookup_insert_Some; [done|]. by rewrite (Htk b).
  - exists (fresh i). rewrite lookup_insert_eq. split_and!; try done. apply fresh_inv, (pop_length _ Hpop a). by rewrite lookup_insert_eq.
  - intros c p [[_ <-]|[_ Hp]]%lookup_insert_Some; [constructor|]. by rewrite (Hts c p Hp).
  - intros key v (c & (p & [[_ <-]|[_ Hp]]%lookup_insert_Some & Hv)%at_key_Some); [cbn in Hv; by rewrite Hempty in Hv|].
    by rewrite (Hf key c p Hp) in Hv.
Qed.

(** Nodes that start one after the other, each bootstrapping from one that is there;
    tasks run in any order, and the next node starts when no welcome waits. *)
Inductive grows : gmap SocketAddr bytes -> cluster S Hd C -> Prop :=
| grow_first a i : grows {[a := i]} {[a := fresh i]}
| grow_join P cl a b i o cl1 turns os cl' :
    grows P cl -> P !! a = None -> is_Some (P !! b) ->
    run_move CRAWL_FUEL al (mkMove now (fun _ => Delivered) a (ABootstrap [home b])) (<[a := fresh i]> cl) = Some (o, cl1) ->
    run_moves CRAWL_FUEL al (task_moves now turns) cl1 = Some (os, cl') -> all_welcomed cl' ->
    grows (<[a := i]> P) cl'.

Lemma first_idle a i : population {[a := i]} -> idle {[a := i]} {[a := fresh i]}.
Proof.
  intros Hpop. split.
  - split; [done|..].
    + intros b. destruct (decide (a = b)) as [<-|Hne]; [by rewrite !lookup_singleton_eq|by rewrite !lookup_singleton_ne].
    + intros b p [<- <-]%lookup_singleton_Some. apply fresh_inv, (pop_length _ Hpop a). by rewrite lookup_singleton_eq.
    + intros b p [<- <-]%lookup_singleton_Some. split.
      * by rewrite lookup_singleton_eq.
      * intros c j Hne [Hc _]%lookup_singleton_Some. by destruct Hne.
      * intros n Hn. unfold all_contacts in Hn. cbn in Hn. by apply elem_of_nil in Hn.
      * rewrite map_size_singleton. exact Hk.
  - by intros b p [_ <-]%lookup_singleton_Some.
  - by intros b p [_ <-]%lookup_singleton_Some.
  - intros key b p [_ <-]%lookup_singleton_Some. apply Hempty.
Qed.

Lemma population_less P a i : population (<[a := i]> P) -> P !! a = None -> population P.
Proof.
  intros [H1 H2 H3] Ha. assert (forall b j, P !! b = Some j -> <[a := i]> P !! b = Some j) as Hin.
  { intros b j Hb. rewrite lookup_insert_ne; [done|]. intros ->. congruence. }
  split; eauto.
Qed.

(** One more node, and no welcome waits any more. *)
Lemma join_idle P cl a b i o cl1 turns os cl' :
  population (<[a := i]> P) -> P !! a = None -> (size P < k)%nat -> idle P cl -> is_Some (P !! b) ->
  run_move CRAWL_FUEL al (mkMove now (fun _ => Delivered) a (ABootstrap [home b])) (<[a := fresh i]> cl) = Some (o, cl1) ->
  run_moves CRAWL_FUEL al (task_moves now turns) cl1 = Some (os, cl') -> all_welcomed cl' -> idle (<[a := i]> P) cl'.
Proof.
  intros Hpop Ha Hsz Hid Hb E1 E2 Hw. pose proof (start_newcomer P a i cl Hpop Ha Hid Hsz) as Hn.
  destruct (newcomer_bootstraps h al now P a b i _ Hn Hb) as (ns & cl1' & Eb & Hg & _).
  rewrite E1 in Eb. injection Eb as -> <-. clear E1. pose proof Hn as [_ _ _ _ _ _ Hrec].
  destruct (gathering_tasks h now _ _ _ Hpop Hrec CRAWL_FUEL al turns cl1 Hg) as (os' & cl2 & Er & Hg' & _).
  rewrite E2 in Er. injection Er as <- <-. clear E2.
  assert (forall key v, ~ held_in now (<[a := fresh i]> cl) key v) as Hnone.
  { intros key v (c & (p & [[_ <-]|[_ Hp]]%lookup_insert_Some & Hv)%at_key_Some); [cbn in Hv; by rewrite Hempty in Hv|].
    by rewrite (id_free _ _ Hid key c p Hp) in Hv. }
  split.
  - exact (gathered_mesh _ _ _ _ _ Hpop cl' Hg' Hw).
  - intros c p Hp. pose proof (proj2 Hg' c p Hp) as Hgc. rewrite (ga_ksize _ _ _ _ _ _ _ Hgc). unfold ksizes.
    assert (is_Some (<[a := fresh i]> cl !! c)) as [q Hq].
    { pose proof (ga_self _ _ _ _ _ _ _ Hgc) as Hs. destruct (decide (c = a)) as [->|Hca]; [by rewrite lookup_insert_eq|].
      rewrite lookup_insert_ne in Hs by done. rewrite lookup_insert_ne by done. apply (me_dom _ _ _ _ (id_mesh _ _ Hid)). by rewrite Hs. }
    rewrite Hq. cbn. apply lookup_insert_Some in Hq as [[_ <-]|[_ Hq]]; [done|by apply (id_ksize _ _ Hid c)].
  - intros c p Hp. pose proof (ga_tasks _ _ _ _ _ _ _ (proj2 Hg' c p Hp)) as Ht. specialize (Hw c p Hp).
    destruct (spawned p) as [|x l] eqn:Esp; [done|]. apply Forall_cons in Ht as [Hx _].
    destruct x as [n|n|n key v]; [exfalso; apply (Hw n); rewrite Esp; left|done|]. destruct Hx as (_ & _ & Hx). by destruct (Hnone key v).
  - intros key c p Hp. destruct (get now (storage p) key) as [v|] eqn:Hv; [|done].
    destruct (Hnone key v). exact (ga_records _ _ _ _ _ _ _ (proj2 Hg' c p Hp) key v Hv).
Qed.

Lemma grows_idle P cl : grows P cl -> population P -> (size P <= k)%nat -> idle P cl.
Proof.
  induction 1 as [a i|P cl a b i o cl1 turns os cl' _ IH Ha Hb E1 E2 Hw]; intros Hpop Hsz; [by apply first_idle|].
  rewrite map_size_insert_None in Hsz by done.
  eapply join_idle; [done|done|lia| |exact Hb|exact E1|exact E2|done]. apply IH; [by eapply population_less|lia].
Qed.

(** C16: clusters form themselves.  The nodes of a population with different
    identifiers, at most [k], start one after the other in any order; each bootstraps
    from some node that is there, and tasks run in any order until no welcome waits.
    However this happens, at the end every node knows every other and no key is held;
    and it can happen for every such population. *)
Theorem clusters_form (P : gmap SocketAddr bytes) :
  population P -> P <> ∅ -> (size P <= k)%nat ->
  (forall cl, grows P cl -> mesh h now P cl /\ forall key, free now key cl) /\ exists cl, grows P cl.
Proof.
  intros Hpop Hne Hsz. split; [intros cl Hg; destruct (grows_idle P cl Hg Hpop Hsz); done|].
  revert Hpop Hne Hsz. induction P as [|a i P Ha IH] using map_ind; [done|]. intros Hpop _ Hsz.
  rewrite map_size_insert_None in Hsz by done. destruct (decide (P = ∅)) as [->|HP]; [exists {[a := fresh i]}; apply (grow_first a i)|].
  destruct IH as (cl & Hg); [by eapply population_less|done|lia|]. destruct (map_choose P HP) as (b & j & Hb).
  assert (idle P cl) as Hid by (apply grows_idle; [done|by eapply population_less|lia]).
  pose proof (start_newcomer P a i cl Hpop Ha Hid ltac:(lia)) as Hn.
  destruct (newcomer_bootstraps h al now P a b i _ Hn) as (ns & cl1 & Eb & Hga & _); [by rewrite Hb|].
  destruct (gathering_drains h now _ _ _ Hpop CRAWL_FUEL al cl1 Hga) as (turns & os & cl' & Er & Hw).
  exists cl'. exact (grow_join P cl a b i _ cl1 turns os cl' Hg Ha ltac:(by rewrite Hb) Eb Er Hw).
Qed.

End forming.

End join.

(** ** Two nodes, and three *)

#[local] Existing Instances demo_hashes demo_hash_laws demo_handler demo_laws plain_addr.

Definition one_member : gmap SocketAddr bytes := {[addr_a := demo_key 1]}.

(** The second node, started beside the first. *)
Definition second_started : cluster ForgetfulStorage unit SimpleCache :=
  <[addr_b := fresh tt 0 3 (server_storage None) None (demo_key 2)]>
    {[addr_a := fresh tt 0 3 (server_storage None) None (demo_key 1)]}.

Lemma two_members_population : population (<[addr_b := demo_key 2]> one_member).
Proof.
  apply (population_less _ addr_c (demo_key 3)); [|by vm_compute].
  replace (<[addr_c := demo_key 3]> (<[addr_b := demo_key 2]> one_member)) with three_members; [apply three_members_population|].
  apply (bool_decide_unpack _). vm_compute. exact I.
Qed.

Lemma second_is_newcomer : newcomer tt 0 one_member addr_b (demo_key 2) second_started.
Proof.
  apply (start_newcomer tt 0 3 (server_storage None) None); [lia|done|apply two_members_population|by vm_compute| |].
  - apply (first_idle tt 0 3 (server_storage None) None); [lia|done|].
    apply (population_less _ addr_b (demo_key 2)); [apply two_members_population|by vm_compute].
  - vm_compute. lia.
Qed.

(** The second node bootstraps from the first; when the welcomes that wait have run, in
    whatever order, the two know each other. *)
Lemma joining_extends_mesh_witness :
  newcomer tt 0 one_member addr_b (demo_key 2) second_started /\
  exists ns cl1,
    run_move CRAWL_FUEL 3 (mkMove 0 (fun _ => Delivered) addr_b (ABootstrap [(addr_ip addr_a, addr_port addr_a)]))
      second_started = Some (ONodes ns, cl1) /\
    exists turns os cl', run_moves CRAWL_FUEL 3 (task_moves 0 turns) cl1 = Some (os, cl') /\
      mesh tt 0 (<[addr_b := demo_key 2]> one_member) cl'.
Proof.
  split; [exact second_is_newcomer|].
  destruct (joining_extends_mesh tt 3 0 one_member addr_b addr_a (demo_key 2) second_started second_is_newcomer)
    as (ns & cl1 & Eb & Htasks); [by exists (demo_key 1)|].
  exists ns, cl1. split; [exact Eb|].
  destruct (Htasks []) as (os & cl' & Er & _ & _ & _ & turns & os' & cl'' & Er' & Hw). apply (inj Some) in Er.
  apply pair_equal_spec in Er as [_ <-]. exists turns, os', cl''. split; [exact Er'|].
  destruct (Htasks turns) as (os2 & cl2 & Er2 & _ & _ & Hm & _).
  assert (cl'' = cl2) as -> by (rewrite Er' in Er2; apply (inj Some), pair_equal_spec in Er2 as [_ E2]; exact E2).
  apply Hm. exact Hw.
Defined.

Lemma clusters_form_witness :
  exists cl : cluster ForgetfulStorage unit SimpleCache,
    grows tt 3 0 3 (server_storage None) None three_members cl /\ mesh tt 0 three_members cl /\
    free 0 (digest demo_did) cl.
Proof.
  destruct (clusters_form (C := SimpleCache) tt 3 0 3 (server_storage None) None ltac:(lia) ltac:(done) three_members
    three_members_population) as [Hall (cl & Hg)].
  - apply (bool_decide_unpack _). vm_compute. exact I.
  - vm_compute. lia.
  - destruct (Hall cl Hg) as [Hm Hf]. exists cl. split; [exact Hg|]. split; [exact Hm|apply Hf].
Defined.
