(* ===== verification/Clock.v ===== *)
(** * Clock: the time of a program

    What the program models share ([NodeScript.v], [Publish.v], [Topology.v],
    [CacheBench.v], [Resilience.v]): a clock, the number of operations the program
    has awaited, the time it has slept, and what it runs on, a server or a cluster
    of them.  How long each operation takes is the function [lasts], in which a
    call may wait for its timeout; what happens while the program waits is the
    function [idle].  Nothing is assumed of [lasts], and of [idle] only that it
    keeps an invariant.  Times are in nanoseconds. *)
From S2P Require Import Prelude.
Local Open Scope Z_scope.

Record Timed (B : Type) := mkTimed { clock : Z; ops : nat; slept : Z; body : B }.
Arguments mkTimed {B}.
Arguments clock {B}.
Arguments ops {B}.
Arguments slept {B}.
Arguments body {B}.

Section program_clock.
Context {B : Type}.
Variable lasts : nat -> N.
Variable idle : Z -> B -> B.

(** [tokio::time::sleep] *)
Definition sleep (d : Z) (st : Timed B) : Timed B :=
  let t := clock st + d in mkTimed t (ops st) (slept st + d) (idle t (body st)).

(** The end of the [await] of an operation that left [b]. *)
Definition awaited (b : B) (st : Timed B) : Timed B :=
  let t := clock st + Z.of_N (lasts (ops st)) in mkTimed t (S (ops st)) (slept st) (idle t b).

(** The time that the first [n] operations took. *)
Fixpoint spent (n : nat) : Z := match n with O => 0 | S n => spent n + Z.of_N (lasts n) end.

(** The clock of a program that began at [start]. *)
Definition on_time (start : Z) (st : Timed B) : Prop := clock st = start + slept st + spent (ops st).

Variable inv : Z -> B -> Prop.
Hypothesis idle_inv : forall t t' b, t <= t' -> inv t b -> inv t' (idle t' b).

Definition timed_inv (st : Timed B) : Prop := inv (clock st) (body st).

(** [st'] comes [n] operations and [d] nanoseconds of sleep after [st]. *)
Definition comes_after (d : Z) (n : nat) (st st' : Timed B) : Prop :=
  timed_inv st' /\ slept st' = slept st + d /\ ops st' = (ops st + n)%nat /\
  forall start, on_time start st -> on_time start st'.

(** The same with bounds. *)
Definition comes_within (d : Z) (n : nat) (st st' : Timed B) : Prop :=
  exists d' n', 0 <= d' <= d /\ (n' <= n)%nat /\ comes_after d' n' st st'.

Lemma sleep_inv d st : 0 <= d -> timed_inv st -> timed_inv (sleep d st).
Proof. intros Hd Hi. unfold timed_inv, sleep. simpl. eapply idle_inv; [|exact Hi]. lia. Qed.

Lemma awaited_inv b st : inv (clock st) b -> timed_inv (awaited b st).
Proof. intros Hi. unfold timed_inv, awaited. simpl. eapply idle_inv; [|exact Hi]. lia. Qed.

Lemma after_refl st : timed_inv st -> comes_after 0 0 st st.
Proof. intros Hi. split_and!; [done|lia|lia|done]. Qed.

Lemma after_sleep d st : 0 <= d -> timed_inv st -> comes_after d 0 st (sleep d st).
Proof.
  intros Hd Hi. split_and!; [by apply sleep_inv|done|simpl; lia|].
  intros start. unfold on_time. cbn [sleep clock slept ops]. lia.
Qed.

Lemma after_awaited b st : inv (clock st) b -> comes_after 0 1 st (awaited b st).
Proof.
  intros Hi. split_and!; [by apply awaited_inv|simpl; lia|simpl; lia|].
  intros start. unfold on_time. cbn [awaited clock slept ops spent]. lia.
Qed.

Lemma after_trans d1 d2 d n1 n2 n st1 st2 st3 :
  comes_after d1 n1 st1 st2 -> comes_after d2 n2 st2 st3 -> d = d1 + d2 -> n = (n1 + n2)%nat -> comes_after d n st1 st3.
Proof.
  intros (_ & Hs1 & Ho1 & Ht1) (Hi & Hs2 & Ho2 & Ht2) -> ->. split_and!; [done|lia|lia|]. intros start Ht. auto.
Qed.

(** An attempt that failed: an operation, and a sleep. *)
Lemma after_retry d b st : 0 <= d -> inv (clock st) b -> comes_after d 1 st (sleep d (awaited b st)).
Proof.
  intros Hd Hi. pose proof (after_awaited b st Hi) as Ha.
  eapply after_trans; [exact Ha|apply after_sleep; [done|apply Ha]|lia|lia].
Qed.

Lemma after_within d n d' n' st st' : comes_after d' n' st st' -> 0 <= d' <= d -> (n' <= n)%nat -> comes_within d n st st'.
Proof. intros Ha Hd Hn. by exists d', n'. Qed.

Lemma within_trans d1 d2 d n1 n2 n st1 st2 st3 :
  comes_within d1 n1 st1 st2 -> comes_within d2 n2 st2 st3 -> d = d1 + d2 -> n = (n1 + n2)%nat -> comes_within d n st1 st3.
Proof.
  intros (d1' & n1' & Hd1 & Hn1 & H1) (d2' & n2' & Hd2 & Hn2 & H2) -> ->.
  eapply after_within; [eapply after_trans; [exact H1|exact H2|done|done]|lia|lia].
Qed.

(** A program that has run for [n] operations at most. *)
Lemma within_started d n start b st :
  comes_within d n (mkTimed start 0 0 b) st ->
  timed_inv st /\ 0 <= slept st <= d /\ (ops st <= n)%nat /\ clock st = start + slept st + spent (ops st).
Proof.
  intros (d' & n' & Hd & Hn & Hi & Hs & Ho & Ht). cbn [slept ops] in *. split_and!; [done|lia|lia|lia|].
  apply Ht. unfold on_time. cbn [clock slept ops spent]. lia.
Qed.

End program_clock.
