(* ===== verification/NodeScript.v ===== *)
(** * NodeScript: the node program

    Models [src/scripts/dht_node.rs]: starting the server, bootstrapping with
    retries, the publisher and retriever roles, and the reading of the
    environment.  The program is generic in the network ([Net]).  Key pairs, the
    UUID and the identifier's random bytes are arguments, as are the time each
    operation takes ([lasts]) and whether and when Ctrl-C arrives ([Signal]).
    While an operation, a sleep or the last wait lasts, the node serves requests
    and runs tasks: that is the function [idle], of which only the node's
    invariant is assumed.  [None] as a whole result means that a lookup ran out
    of fuel. *)
From S2P Require Import Prelude Node Routing RoutingTable RoutingTableSpec Storage Text Json Crypto AuthHandler Did SigCache Crawling Protocol ProtocolSpec Network NetworkSpec Clock.
From Stdlib Require Import Strings.Byte.
Local Open Scope Z_scope.

Section node_script.
Context `{US : UnstableSort} `{HO : HashOrder} `{HA : Hashes} `{NA : NetAddr}.
Context `{CP : CryptoPrims} `{JM : JsonMap} `{SJ : SerdeJson} `{B6 : Base64Engine} {io_error : Type}.
Context {C : Type} `{MC : Moka C}.
Local Abbreviation Hd := (DIDSignatureVerifierHandler io_error).
Context {R : Type} `{NW : !Net R ForgetfulStorage Hd C}.

Local Abbreviation St := (Timed (Server R)).

Variable fuel : nat.
Variable lasts : nat -> N.
Variable idle : Z -> Server R -> Server R.

(** [start_server], without the log; [bind_ok]: the socket could be bound. *)
Definition start_server (read_file : bytes -> result bytes io_error) (now : Z) (random : bytes)
    (place : KademliaProtocol ForgetfulStorage Hd C -> R) (bind_ok : bool) (port : Z) : option (Server R) :=
  let handler := mkDIDHandler (b! "issuer.bin") read_file in
  let server := Server_new now handler 20 3 None random (server_storage None) true place in
  if bind_ok then Some (listen now server) else None.

(** The loop of [bootstrap_with_retries] with [n] attempts left. *)
Fixpoint bootstrap_attempts (n : nat) (ip : string) (port : Z) (st : St) : option (bool * St) :=
  match n with
  | O => Some (false, st)
  | S n =>
      '(discovered, s) ← bootstrap fuel (clock st) [(ip, port)] (body st);
      let st := awaited lasts idle s st in
      match discovered with
      | _ :: _ => Some (true, st)
      | [] => bootstrap_attempts n ip port (sleep idle (from_secs 3) st)
      end
  end.

Definition bootstrap_with_retries (ip : string) (port : Z) (st : St) : option (bool * St) :=
  bootstrap_attempts 8 ip port st.

(** *** Publisher *)

(** What the log says at the end: the attempt that succeeded and what [get]
    then returned. *)
Inductive PublishReport :=
| Published (attempt : nat) (retrieved : option bytes)
| AllFailed.

Fixpoint publish_attempts (attempt n : nat) (dht_key record : bytes) (st : St) : option (PublishReport * St) :=
  match n with
  | O => Some (AllFailed, st)
  | S n =>
      '(r, s) ← server_set fuel (clock st) dht_key record (body st);
      let st := awaited lasts idle s st in
      match r with
      | Some true =>
          '(retrieved, s) ← server_get fuel (clock st) dht_key (body st);
          Some (Published attempt retrieved, awaited lasts idle s st)
      | _ => publish_attempts (S attempt) n dht_key record (sleep idle (from_secs 5) st)
      end
  end.

(** The result is the record, the report and the state; [None] in it is the panic
    of [expect] when the document could not be serialised. *)
Definition run_publisher (fixed_uuid : option bytes) (new_v4 dpk dsk kpk : bytes) (st : St)
  : option (option (bytes * PublishReport * St)) :=
  let uuid := default new_v4 fixed_uuid in
  let did := b! "did:iiot:" ++ uuid in
  let dht_key := uuid in
  let doc := build_did_document did dpk kpk in
  match build_signed_record doc dsk (b! "Dilithium-2") with
  | None => Some None
  | Some record =>
      '(report, st) ← publish_attempts 1 10 dht_key record st;
      Some (Some (record, report, st))
  end.

(** *** Retriever *)

Inductive RetrieveReport :=
| NoKey
| Retrieved (attempt : nat) (record : bytes) (pretty : option bytes)
| NotFound.

Fixpoint retrieve_attempts (attempt n : nat) (key : bytes) (st : St) : option (RetrieveReport * St) :=
  match n with
  | O => Some (NotFound, st)
  | S n =>
      '(r, s) ← server_get fuel (clock st) key (body st);
      let st := awaited lasts idle s st in
      match r with
      | Some record => Some (Retrieved attempt record (decode_record record), st)
      | None => retrieve_attempts (S attempt) n key (sleep idle (from_secs 3) st)
      end
  end.

Definition run_retriever (retrieve_key : option bytes) (st : St) : option (RetrieveReport * St) :=
  match retrieve_key with
  | None => Some (NoKey, st)
  | Some key => retrieve_attempts 1 10 key (sleep idle (from_secs 5) st)
  end.

(** *** The program *)

Inductive ScriptError := BadPort | BadBootstrapAddr | BadBootstrapPort | Panic.

Inductive Report :=
| PublisherDone (record : bytes) (r : PublishReport)
| RetrieverDone (r : RetrieveReport).

(** A [str] used as the text of an address. *)
Definition string_of (l : bytes) : string := String.string_of_list_byte l.

(** Joining: a seed waits, a peer bootstraps, an isolated node does nothing. *)
Definition join_network (env : bytes -> option bytes) (st : St) : option (result St ScriptError) :=
  match env (b! "IS_SEED") with
  | Some _ => Some (Ok (sleep idle 500000000 st))
  | None =>
      match env (b! "BOOTSTRAP_ADDR") with
      | None => Some (Ok st)
      | Some addr =>
          match split_first x3a addr with
          | (_, None) => Some (Err BadBootstrapAddr)
          | (bip, Some rest) =>
              match parse_u16 rest with
              | None => Some (Err BadBootstrapPort)
              | Some bport =>
                  '(_, st) ← bootstrap_with_retries (string_of bip) bport (sleep idle (from_secs 2) st);
                  Some (Ok st)
              end
          end
      end
  end.

Definition play_role (env : bytes -> option bytes) (new_v4 dpk dsk kpk : bytes) (st : St)
  : option (result (Report * St) ScriptError) :=
  let role := default (b! "publisher") (env (b! "ROLE")) in
  if decide (role = b! "retriever") then
    '(r, st) ← run_retriever (env (b! "RETRIEVE_KEY")) st; Some (Ok (RetrieverDone r, st))
  else
    done ← run_publisher (env (b! "FIXED_DID_UUID")) new_v4 dpk dsk kpk st;
    match done with
    | Some (record, r, st) => Some (Ok (PublisherDone record r, st))
    | None => Some (Err Panic)
    end.

(** [tokio::signal::ctrl_c]: the signal arrives some time after the program has
    begun to wait, or never, or it cannot be waited for. *)
Inductive Signal := Received (after : N) | Never | SignalFails.

(** How the program ends once its role is played: with the [Leave] messages of
    [stop], with the error of [ctrl_c], or not at all. *)
Inductive Ending := Stopped (leaves : list (SocketAddr * RpcMessage)) (st : St) | SignalError | Waiting.

Definition wait_and_stop (signal : Signal) (st : St) : Ending :=
  match signal with
  | Received after =>
      let t := clock st + Z.of_N after in
      let '(leaves, s) := stop t (idle t (body st)) in
      Stopped leaves (mkTimed (t + Z.of_N (lasts (ops st))) (S (ops st)) (slept st) s)
  | SignalFails => SignalError
  | Never => Waiting
  end.

(** [run]; [Ok] has the state in which the program began to wait for Ctrl-C. *)
Definition run (env : bytes -> option bytes) (read_file : bytes -> result bytes io_error) (now : Z)
    (random : bytes) (place : KademliaProtocol ForgetfulStorage Hd C -> R) (bind_ok : bool)
    (new_v4 dpk dsk kpk : bytes) (signal : Signal)
  : option (result (Report * St * Ending) ScriptError) :=
  match parse_u16 (default (b! "5678") (env (b! "NODE_PORT"))) with
  | None => Some (Err BadPort)
  | Some port =>
      match start_server read_file now random place bind_ok port with
      | None => Some (Err Panic)
      | Some server =>
          joined ← join_network env (mkTimed now 0 0 server);
          match joined with
          | Err e => Some (Err e)
          | Ok st =>
              played ← play_role env new_v4 dpk dsk kpk st;
              match played with
              | Err e => Some (Err e)
              | Ok (report, st) => Some (Ok (report, st, wait_and_stop signal st))
              end
          end
      end
  end.

End node_script.

Section node_script_spec.
Context `{US : UnstableSort} `{HO : HashOrder} `{HA : Hashes} `{HAL : !HashLaws} `{NA : NetAddr}.
Context `{CP : CryptoPrims} `{CL : !CryptoLaws} `{JM : JsonMap} `{SJ : SerdeJson} `{SEL : !SerdeLaws}.
Context `{B6 : Base64Engine} `{BL : !Base64Laws} {io_error : Type}.
Context {C : Type} `{MC : Moka C}.
Local Abbreviation Hd := (DIDSignatureVerifierHandler io_error).
Context {R : Type} `{NW : !Net R ForgetfulStorage Hd C} `{NS : !NetSafe R}.

(** Arithmetic with durations. *)
Local Ltac secs := unfold from_secs in *; lia.

(** Whatever the node does while the program waits keeps its invariant. *)
Variable lasts : nat -> N.
Variable idle : Z -> Server R -> Server R.
Variable h : Hd.
Hypothesis idle_inv : forall t t' s, t <= t' -> server_inv h t s -> server_inv h t' (idle t' s).

Local Abbreviation st_inv := (timed_inv (server_inv h)).
Local Abbreviation after := (comes_after lasts (server_inv h)).
Local Abbreviation within := (comes_within lasts (server_inv h)).
Local Abbreviation sleep_inv := (sleep_inv idle (server_inv h) idle_inv).
Local Abbreviation after_sleep := (after_sleep lasts idle (server_inv h) idle_inv).
Local Abbreviation after_awaited := (after_awaited lasts idle (server_inv h) idle_inv).
Local Abbreviation after_retry := (after_retry lasts idle (server_inv h) idle_inv).

Lemma bootstrap_attempts_ok n ip port st :
  st_inv st ->
  exists b st' j, bootstrap_attempts CRAWL_FUEL lasts idle n ip port st = Some (b, st') /\ (j <= n)%nat /\
    if b then (j < n)%nat /\ after (Z.of_nat j * from_secs 3) (S j) st st'
    else j = n /\ after (Z.of_nat j * from_secs 3) j st st'.
Proof.
  revert st. induction n as [|n IH]; intros st Hi; cbn [bootstrap_attempts].
  { exists false, st, 0%nat. split_and!; [done|done|done|by apply after_refl]. }
  destruct (bootstrap_returns h (clock st) [(ip, port)] (body st) Hi) as [[ns s] Eb].
  pose proof (bootstrap_spec h CRAWL_FUEL (clock st) [(ip, port)] (body st) Hi) as Hs.
  rewrite Eb in *. destruct Hs as [Hi1 _]. cbn [mbind option_bind].
  destruct ns as [|m ns].
  - assert (after (from_secs 3) 1 st (sleep idle (from_secs 3) (awaited lasts idle s st))) as Hr
      by (apply after_retry; [secs|done]).
    destruct (IH _ (proj1 Hr)) as (b & st' & j & Eq & Hj & Hb). exists b, st', (S j). split; [done|]. split; [lia|].
    destruct b; destruct Hb as [Hj' Ha]; (split; [lia|]); (eapply after_trans; [exact Hr|exact Ha|lia|lia]).
  - exists true, (awaited lasts idle s st), 0%nat. split_and!; [done|lia|lia|by apply after_awaited].
Qed.

(** What a publisher has done by the end of its attempts [k] to [k + n - 1]. *)
Definition publish_end (k n : nat) (rep : PublishReport) (st st' : Timed (Server R)) : Prop :=
  match rep with
  | Published j got => (k <= j < k + n)%nat /\ (forall v, got = Some v -> authentic h v) /\
                       after (Z.of_nat (j - k) * from_secs 5) (j - k + 2) st st'
  | AllFailed => after (Z.of_nat n * from_secs 5) n st st'
  end.

Lemma publish_end_later k n rep st st1 st' :
  after (from_secs 5) 1 st st1 -> publish_end (S k) n rep st1 st' -> publish_end k (S n) rep st st'.
Proof.
  intros Hr. destruct rep as [j got|]; cbn [publish_end].
  - intros (Hj & Ha & Hp). split_and!; [lia|lia|done|]. eapply after_trans; [exact Hr|exact Hp|secs|lia].
  - intros Hp. eapply after_trans; [exact Hr|exact Hp|secs|lia].
Qed.

Lemma publish_attempts_ok k n key record st :
  st_inv st ->
  exists rep st', publish_attempts CRAWL_FUEL lasts idle k n key record st = Some (rep, st') /\ publish_end k n rep st st'.
Proof.
  revert k st. induction n as [|n IH]; intros k st Hi; cbn [publish_attempts].
  { exists AllFailed, st. split; [done|by apply after_refl]. }
  destruct (server_set_returns h (clock st) key record (body st) Hi) as [[r s] Es].
  pose proof (server_set_spec h CRAWL_FUEL (clock st) key record (body st) Hi) as Hs.
  rewrite Es in *. destruct Hs as [Hi1 _]. cbn [mbind option_bind].
  assert (exists rep st',
    publish_attempts CRAWL_FUEL lasts idle (S k) n key record (sleep idle (from_secs 5) (awaited lasts idle s st)) = Some (rep, st') /\
    publish_end k (S n) rep st st') as Hagain.
  { assert (after (from_secs 5) 1 st (sleep idle (from_secs 5) (awaited lasts idle s st))) as Hr
      by (apply after_retry; [secs|done]).
    destruct (IH (S k) _ (proj1 Hr)) as (rep & st' & Eq & Hp). exists rep, st'. split; [done|]. by eapply publish_end_later. }
  destruct r as [[]|]; [|exact Hagain..].
  pose proof (after_awaited s st Hi1) as Hw. set (st1 := awaited lasts idle s st) in *.
  destruct (server_get_returns h (clock st1) key (body st1) (proj1 Hw)) as [[got s2] Eg].
  pose proof (server_get_spec h CRAWL_FUEL (clock st1) key (body st1) (proj1 Hw)) as Hg. rewrite Eg in *.
  destruct Hg as (Hi2 & _ & Ha). cbn [mbind option_bind].
  exists (Published k got), (awaited lasts idle s2 st1). split; [done|]. split_and!; [lia|lia|done|].
  eapply after_trans; [exact Hw|by apply after_awaited|lia|lia].
Qed.

(** The same of a retriever. *)
Definition retrieve_end (k n : nat) (rep : RetrieveReport) (st st' : Timed (Server R)) : Prop :=
  match rep with
  | Retrieved j v pretty => (k <= j < k + n)%nat /\ authentic h v /\ pretty = decode_record v /\
                            after (Z.of_nat (j - k) * from_secs 3) (j - k + 1) st st'
  | NotFound => after (Z.of_nat n * from_secs 3) n st st'
  | NoKey => False
  end.

Lemma retrieve_attempts_ok k n key st :
  st_inv st ->
  exists rep st', retrieve_attempts CRAWL_FUEL lasts idle k n key st = Some (rep, st') /\ retrieve_end k n rep st st'.
Proof.
  revert k st. induction n as [|n IH]; intros k st Hi; cbn [retrieve_attempts].
  { exists NotFound, st. split; [done|by apply after_refl]. }
  destruct (server_get_returns h (clock st) key (body st) Hi) as [[r s] Eg].
  pose proof (server_get_spec h CRAWL_FUEL (clock st) key (body st) Hi) as Hg. rewrite Eg in *.
  destruct Hg as (Hi1 & _ & Ha). cbn [mbind option_bind]. destruct r as [v|].
  - eexists _, _. split; [done|]. split_and!; [lia|lia|by apply Ha|done|]. rewrite Nat.sub_diag. by apply after_awaited.
  - assert (after (from_secs 3) 1 st (sleep idle (from_secs 3) (awaited lasts idle s st))) as Hr
      by (apply after_retry; [secs|done]).
    destruct (IH (S k) _ (proj1 Hr)) as (rep & st' & Eq & Hp). exists rep, st'. split; [done|].
    destruct rep as [|j v pretty|]; cbn [retrieve_end] in *; [done| |eapply after_trans; [exact Hr|exact Hp|secs|lia]].
    destruct Hp as (Hj & Hv & Hd' & Hp). split_and!; [lia|lia|done|done|]. eapply after_trans; [exact Hr|exact Hp|secs|lia].
Qed.

Lemma start_server_inv read_file now random place port s :
  h = mkDIDHandler (b! "issuer.bin") read_file ->
  (forall p, rproto (place p) = p /\ net_ok h now (place p)) ->
  start_server read_file now random place true port = Some s -> server_inv h now s.
Proof.
  intros Hh Hp [= <-]. rewrite <- Hh. apply listen_new_inv; [lia|done|done].
Qed.

Lemma run_publisher_ok fixed_uuid new_v4 dpk dsk kpk st :
  st_inv st ->
  exists b rep st',
    encode_did_document (build_did_document (b! "did:iiot:" ++ default new_v4 fixed_uuid) dpk kpk) = Some b /\
    run_publisher CRAWL_FUEL lasts idle fixed_uuid new_v4 dpk dsk kpk st =
      Some (Some (sign_and_pack b dsk (b! "Dilithium-2"), rep, st')) /\ publish_end 1 10 rep st st'.
Proof.
  intros Hi. unfold run_publisher, build_signed_record. cbv zeta.
  set (uuid := default new_v4 fixed_uuid).
  destruct (encode_Some (build_did_document (b! "did:iiot:" ++ uuid) dpk kpk)) as (b & Eb & _).
  rewrite Eb. cbn [mbind option_bind].
  destruct (publish_attempts_ok 1 10 uuid (sign_and_pack b dsk (b! "Dilithium-2")) st Hi) as (rep & st' & -> & Hr).
  by exists b, rep, st'.
Qed.

Lemma run_retriever_ok key st :
  st_inv st ->
  exists rep st', run_retriever CRAWL_FUEL lasts idle key st = Some (rep, st') /\
    match rep with
    | NoKey => key = None /\ st' = st
    | _ => is_Some key /\ retrieve_end 1 10 rep (sleep idle (from_secs 5) st) st'
    end.
Proof.
  intros Hi. destruct key as [key|]; cbn [run_retriever]; [|by exists NoKey, st].
  destruct (retrieve_attempts_ok 1 10 key (sleep idle (from_secs 5) st)) as (rep & st' & E & Hr).
  { apply sleep_inv; [secs|done]. }
  exists rep, st'. split; [done|]. by destruct rep.
Qed.

(** When joining fails: the bootstrap address of a peer cannot be read. *)
Definition join_error (env : bytes -> option bytes) : option ScriptError :=
  match env (b! "IS_SEED"), env (b! "BOOTSTRAP_ADDR") with
  | None, Some addr =>
      match snd (split_first x3a addr) with
      | None => Some BadBootstrapAddr
      | Some rest => if decide (parse_u16 rest = None) then Some BadBootstrapPort else None
      end
  | _, _ => None
  end.

Lemma join_network_ok env st :
  st_inv st ->
  exists res, join_network CRAWL_FUEL lasts idle env st = Some res /\
    match join_error env with
    | Some e => res = Err e
    | None => exists st', res = Ok st' /\ within (from_secs 26) 8 st st'
    end.
Proof.
  intros Hi. unfold join_network, join_error. destruct (env (b! "IS_SEED")) as [x|].
  { eexists. split; [done|]. eexists. split; [done|].
    eapply after_within; [by apply after_sleep|secs|lia]. }
  destruct (env (b! "BOOTSTRAP_ADDR")) as [addr|].
  2:{ eexists. split; [done|]. eexists. split; [done|]. eapply after_within; [by apply after_refl|secs|lia]. }
  destruct (split_first x3a addr) as [bip [rest|]]; cbn [snd]; [|eauto].
  destruct (parse_u16 rest) as [bport|]; [|rewrite decide_True by done; eauto].
  rewrite decide_False by done.
  assert (after (from_secs 2) 0 st (sleep idle (from_secs 2) st)) as Hs by (apply after_sleep; [secs|done]).
  destruct (bootstrap_attempts_ok 8 (string_of bip) bport _ (proj1 Hs)) as (b & st' & j & E & Hj & Hb).
  unfold bootstrap_with_retries. rewrite E. cbn [mbind option_bind].
  eexists. split; [done|]. exists st'. split; [done|].
  destruct b; destruct Hb as [Hj' Ha]; (eapply after_within; [eapply after_trans; [exact Hs|exact Ha|done|done]| |lia]);
    secs.
Qed.

(** [stop] changes no storage, and only says [Leave]. *)
Lemma stop_effect now (s : Server R) :
  storage (rproto (running (snd (stop now s)))) = storage (rproto (running s)) /\
  forall a m, (a, m) ∈ fst (stop now s) -> m = Leave (id (source_node (rproto (running (snd (stop now s)))))).
Proof.
  unfold stop. destruct (negb (listening s)); [split; [done|]; by intros a m ?%elem_of_nil|].
  unfold neighbors_of. destruct (find_neighbors _ _ _ _) as [r ns]. cbn [fst snd set_running running].
  rewrite rproto_set. split; [done|]. intros a m (n & Hn & Hm)%list_elem_of_omap. revert Hm.
  unfold call_leave_rpc. by intros (? & _ & [= _ <-])%bind_Some.
Qed.

(** What the role's report says of the role and of the records it shows. *)
Definition report_ok (env : bytes -> option bytes) (rep : Report) : Prop :=
  match rep with
  | RetrieverDone r =>
      env (b! "ROLE") = Some (b! "retriever") /\
      match r with
      | NoKey => env (b! "RETRIEVE_KEY") = None
      | Retrieved j v pretty => (1 <= j <= 10)%nat /\ authentic h v /\ pretty = decode_record v
      | NotFound => is_Some (env (b! "RETRIEVE_KEY"))
      end
  | PublisherDone record r =>
      env (b! "ROLE") <> Some (b! "retriever") /\
      match r with
      | Published j got => (1 <= j <= 10)%nat /\ forall v, got = Some v -> authentic h v
      | AllFailed => True
      end
  end.

Lemma play_role_ok env new_v4 dpk dsk kpk st :
  st_inv st ->
  exists rep st', play_role CRAWL_FUEL lasts idle env new_v4 dpk dsk kpk st = Some (Ok (rep, st')) /\
    within (from_secs 50) 11 st st' /\ report_ok env rep.
Proof.
  intros Hi. unfold play_role. cbv zeta. case_decide as Hrole.
  - destruct (run_retriever_ok (env (b! "RETRIEVE_KEY")) st Hi) as (r & st' & -> & Hr).
    exists (RetrieverDone r), st'. split; [done|].
    assert (env (b! "ROLE") = Some (b! "retriever")) as Erole.
    { revert Hrole. destruct (env (b! "ROLE")); [by intros <-|done]. }
    assert (after (from_secs 5) 0 st (sleep idle (from_secs 5) st)) as Hs by (apply after_sleep; [secs|done]).
    destruct r as [|j v pretty|]; cbn [retrieve_end] in Hr.
    + destruct Hr as [Hk ->]. split; [|done]. eapply after_within; [by apply after_refl|secs|lia].
    + destruct Hr as (_ & Hj & Hv & Hpr & Ha). split; [|split_and!; [done|lia|lia|done|done]].
      eapply after_within; [eapply after_trans; [exact Hs|exact Ha|done|done]|secs|lia].
    + destruct Hr as (Hk & Ha). split; [|done].
      eapply after_within; [eapply after_trans; [exact Hs|exact Ha|done|done]|secs|lia].
  - destruct (run_publisher_ok (env (b! "FIXED_DID_UUID")) new_v4 dpk dsk kpk st Hi) as (b & r & st' & _ & -> & Hr).
    exists (PublisherDone (sign_and_pack b dsk (b! "Dilithium-2")) r), st'. split; [done|].
    assert (env (b! "ROLE") <> Some (b! "retriever")) as Erole by (intros E; by rewrite E in Hrole).
    destruct r as [j got|]; cbn [publish_end] in Hr.
    + destruct Hr as (Hj & Hg & Ha). split; [|split_and!; [done|lia|lia|done]].
      eapply after_within; [exact Ha|secs|lia].
    + split; [|done]. eapply after_within; [exact Hr|secs|lia].
Qed.

(** Every live record of the node of [st] is authentic, at any time from now on. *)
Definition records_authentic (st : Timed (Server R)) : Prop :=
  forall t key v, clock st <= t -> get t (storage (rproto (running (body st)))) key = Some v -> authentic h v.

Lemma st_inv_records st : st_inv st -> records_authentic st.
Proof. intros Hi t key v Ht. apply (pi_storage _ _ (proj1 Hi) t key v Ht). Qed.

(** What becomes of a program that waits for the signal in the state [st]. *)
Definition ending_ok (signal : Signal) (st : Timed (Server R)) (e : Ending) : Prop :=
  match signal with
  | Received d => exists leaves st', e = Stopped leaves st' /\
      clock st' = clock st + Z.of_N d + Z.of_N (lasts (ops st)) /\ records_authentic st' /\
      forall a m, (a, m) ∈ leaves -> m = Leave (id (source_node (rproto (running (body st')))))
  | SignalFails => e = SignalError
  | Never => e = Waiting
  end.

Lemma wait_and_stop_ok signal st : st_inv st -> ending_ok signal st (wait_and_stop lasts idle signal st).
Proof.
  intros Hi. destruct signal as [d| |]; [|done..]. cbn [wait_and_stop ending_ok]. cbv zeta.
  set (t := clock st + Z.of_N d).
  assert (server_inv h t (idle t (body st))) as Ht by (eapply idle_inv; [|exact Hi]; lia).
  pose proof (stop_effect t (idle t (body st))) as (Hst & Hl).
  destruct (stop t (idle t (body st))) as [leaves s]. cbn [fst snd] in *.
  eexists _, _. split; [done|]. split; [done|]. split; [|done]. intros u key v Hu. cbn [body clock] in *. rewrite Hst.
  apply (pi_storage _ _ (proj1 Ht) u key v). simpl in *. lia.
Qed.

(** C20: what becomes of the node program, on a network of which only the node
    invariant is known and however long each operation takes.  It fails early
    exactly when the port is not a number below 65536, the socket cannot be
    bound, or a peer's bootstrap address has no colon or no port.  Otherwise it
    comes to wait for Ctrl-C, after at most 76 seconds of sleep and 19 operations
    of the server, whose durations make up the rest of the time since the start;
    it has been a retriever exactly when [ROLE] says so, and tried at most ten
    times.  From there the signal stops it, with [Leave] messages of its own
    id; if the signal cannot be waited for it fails; without the signal it goes on
    waiting.  Every record it reports, and every live record of its node at the
    wait and after the stop, is authentic. *)
Theorem node_script_outcomes (env : bytes -> option bytes) (read_file : bytes -> result bytes io_error) (now : Z)
    (random : bytes) (place : KademliaProtocol ForgetfulStorage Hd C -> R) (bind_ok : bool) (new_v4 dpk dsk kpk : bytes)
    (signal : Signal) :
  h = mkDIDHandler (b! "issuer.bin") read_file ->
  (forall p, rproto (place p) = p /\ net_ok h now (place p)) ->
  exists res, run CRAWL_FUEL lasts idle env read_file now random place bind_ok new_v4 dpk dsk kpk signal = Some res /\
    match parse_u16 (default (b! "5678") (env (b! "NODE_PORT"))), bind_ok, join_error env with
    | None, _, _ => res = Err BadPort
    | Some _, false, _ => res = Err Panic
    | Some _, true, Some e => res = Err e
    | Some _, true, None => exists rep st ending, res = Ok (rep, st, ending) /\
        report_ok env rep /\
        0 <= slept st <= from_secs 76 /\ (ops st <= 19)%nat /\ clock st = now + slept st + spent lasts (ops st) /\
        records_authentic st /\ ending_ok signal st ending
    end.
Proof.
  intros Hh Hp. unfold run. destruct (parse_u16 (default _ _)) as [port|]; [|eauto].
  destruct bind_ok; [|eauto].
  destruct (start_server read_file now random place true port) as [s0|] eqn:Es; [|done].
  pose proof (start_server_inv read_file now random place port s0 Hh Hp Es) as Hi0.
  destruct (join_network_ok env (mkTimed now 0 0 s0) Hi0) as (res & -> & Hj). cbn [mbind option_bind].
  destruct (join_error env) as [e|]; [subst res; eauto|].
  destruct Hj as (st1 & -> & Hw1). assert (st_inv st1) as Hi1 by (by destruct Hw1 as (? & ? & _ & _ & ? & _)).
  destruct (play_role_ok env new_v4 dpk dsk kpk st1 Hi1) as (rep & st2 & -> & Hw2 & Hrep). cbn [mbind option_bind].
  destruct (within_started lasts (server_inv h) (from_secs 76) 19 now s0 st2) as (Hi2 & Hs & Ho & Hc).
  { eapply within_trans; [exact Hw1|exact Hw2|done|done]. }
  eexists. split; [done|]. eexists rep, st2, _. split; [done|].
  split_and!; [done|apply Hs|apply Hs|done|done|by apply st_inv_records|by apply wait_and_stop_ok].
Qed.

(** What the publisher publishes.  For a Dilithium-2 key pair and a UUID in
    UTF-8 that is not the status-list name, [run_publisher] returns with a record
    that the handler accepts; it succeeds at the [j]-th of ten attempts, with
    five seconds of sleep between them, or gives up after fifty seconds of sleep; [set] refuses the record
    ([None]) only where the key is taken already; and what [get] then returns is
    authentic. *)
Theorem publisher_outcomes (fixed_uuid : option bytes) (new_v4 dpk dsk kpk : bytes) (st : Timed (Server R)) :
  dil_keypair 2 dpk dsk -> utf8_valid (default new_v4 fixed_uuid) = true ->
  default new_v4 fixed_uuid <> STATUS_LIST_KEY -> st_inv st ->
  exists record rep st',
    run_publisher CRAWL_FUEL lasts idle fixed_uuid new_v4 dpk dsk kpk st = Some (Some (record, rep, st')) /\
    handle_signature_verification h record = Ok true /\
    (forall now s s', server_inv h now s ->
       server_set CRAWL_FUEL now (default new_v4 fixed_uuid) record s = Some (None, s') ->
       check_exists_and_get_nodes CRAWL_FUEL now (default new_v4 fixed_uuid) s = Some (true, [], s')) /\
    publish_end 1 10 rep st st'.
Proof.
  intros Hk Hu Hne Hi. set (uuid := default new_v4 fixed_uuid) in *.
  destruct (run_publisher_ok fixed_uuid new_v4 dpk dsk kpk st Hi) as (b & rep & st' & Eb & Er & Hr).
  destruct (did_record_verifies h (b! "did:iiot:" ++ uuid) dpk dsk kpk Hk) as (b' & Eb' & Hv).
  { by rewrite utf8_valid_app. }
  assert (b' = b) as -> by (fold uuid in Eb; congruence).
  eexists _, rep, st'. split; [exact Er|]. split_and!; [exact Hv| |done].
  intros now s s' Hs Hset. eapply set_refused; [done|exact Hs| |exact Hset].
  rewrite bool_decide_false by done. unfold verify_record. by rewrite Hv.
Qed.

End node_script_spec.

(** ** Examples *)

#[local] Existing Instances toy_prims toy_laws btree_map tree_json toy_base64 toy_base64_laws demo_hashes demo_hash_laws plain_addr.
#[local] Existing Instance tree_json_laws.

Abbreviation lone_net := (Running ForgetfulStorage (DIDSignatureVerifierHandler unit) SimpleCache).

(** No node answers, nothing happens while the program sleeps. *)
Definition no_file (_ : bytes) : result bytes unit := Err tt.
Definition script_handler : DIDSignatureVerifierHandler unit := mkDIDHandler (b! "issuer.bin") no_file.
Definition silent (p : KademliaProtocol ForgetfulStorage (DIDSignatureVerifierHandler unit) SimpleCache) : lone_net :=
  mkRunning p (fun _ _ _ => None) 0.
Definition resting (_ : Z) (s : Server lone_net) : Server lone_net := s.

Lemma resting_inv t t' s : t <= t' -> server_inv script_handler t s -> server_inv script_handler t' (resting t' s).
Proof. apply run_inv_later. Qed.

Definition retriever_env (name : bytes) : option bytes :=
  if decide (name = b! "ROLE") then Some (b! "retriever")
  else if decide (name = b! "RETRIEVE_KEY") then Some toy_uuid
  else if decide (name = b! "BOOTSTRAP_ADDR") then Some (b! "10.0.0.1:5678")
  else None.

(** Every operation takes five seconds, and Ctrl-C comes after a minute. *)
Definition five_seconds (_ : nat) : N := 5000000000.

Lemma node_script_outcomes_witness :
  exists rep st leaves st',
    run CRAWL_FUEL five_seconds resting retriever_env no_file 0 [x01] silent true toy_uuid toy_pk toy_sk toy_pk
      (Received 60000000000) = Some (Ok (rep, st, Stopped leaves st')) /\
    slept st <= from_secs 76 /\ clock st = slept st + spent five_seconds (ops st).
Proof.
  destruct (node_script_outcomes five_seconds resting script_handler resting_inv retriever_env no_file 0 [x01] silent true
    toy_uuid toy_pk toy_sk toy_pk (Received 60000000000) eq_refl (fun p => conj eq_refl I)) as (res & -> & Hres).
  cbn [parse_u16] in Hres.
  destruct Hres as (rep & st & e & -> & _ & Hsl & _ & Hc & _ & (leaves & st' & -> & _)).
  exists rep, st, leaves, st'. split; [reflexivity|]. split; [apply Hsl|exact Hc].
Defined.

(** The publisher right after its server started. *)
Definition fresh_server : Server lone_net :=
  match start_server no_file 0 [x01] silent true 5678 with
  | Some s => s
  | None => Server_new 0 script_handler 20 3 None [x01] (server_storage None) true silent
  end.

Lemma publisher_outcomes_witness :
  exists record rep st',
    run_publisher CRAWL_FUEL five_seconds resting (Some toy_uuid) [] toy_pk toy_sk toy_pk (mkTimed 0 0 0 fresh_server) =
      Some (Some (record, rep, st')) /\
    handle_signature_verification script_handler record = Ok true.
Proof.
  destruct (publisher_outcomes five_seconds resting script_handler resting_inv (Some toy_uuid) [] toy_pk toy_sk toy_pk
    (mkTimed 0 0 0 fresh_server) toy_keypair eq_refl) as (record & rep & st' & E & Hv & _).
  - discriminate.
  - exact (start_server_inv script_handler no_file 0 [x01] silent 5678 fresh_server eq_refl
      (fun p => conj eq_refl I) eq_refl).
  - exists record, rep, st'. split; [exact E|exact Hv].
Defined.
