(* ===== verification/Publish.v ===== *)
(** * Publish: the two-node example program

    Models [src/examples/publish_did.rs]: two nodes start on one machine, the
    second bootstraps to the first and publishes the record of a fresh identity,
    which the first then retrieves.  The nodes form a cluster ([Cluster.v]) in
    which any message may be lost; key pairs, the UUID and the identifiers' random
    bytes are arguments.  An operation takes the time [lasts] says ([Clock.v]),
    and what the nodes do meanwhile and while the program sleeps is the function
    [pause], of which only the node invariant is assumed.  Printing is left out. *)
From S2P Require Import Prelude Node Routing RoutingTable RoutingTableSpec Storage Text Json Crypto AuthHandler Did SigCache Crawling Protocol ProtocolSpec Network NetworkSpec Cluster Clock.
From Stdlib Require Import Strings.Byte.
Local Open Scope Z_scope.

Section publish_did.
Context `{US : UnstableSort} `{HO : HashOrder} `{HA : Hashes} `{NA : NetAddr}.
Context `{CP : CryptoPrims} `{JM : JsonMap} `{SJ : SerdeJson} `{B6 : Base64Engine} {io_error : Type}.
Context {C : Type} `{MC : Moka C}.
Local Abbreviation Hd := (DIDSignatureVerifierHandler io_error).
Local Abbreviation nodes := (cluster ForgetfulStorage Hd C).

(** The program's clock and its nodes. *)
Local Abbreviation World := (Timed nodes).

Variable fuel : nat.
Variable fates : nat -> nat -> Fate.
Variable pause : Z -> nodes -> nodes.
Variable lasts : nat -> N.

(** An operation of the server at [who], which was started with [alpha]. *)
Definition operate (alpha : nat) (who : SocketAddr) (a : action) (w : World) : option (outcome * World) :=
  '(o, cl) ← run_move fuel alpha (mkMove (clock w) (fates (ops w)) who a) (body w);
  Some (o, awaited lasts pause cl w).

(** A server started on a local port; [None] is the panic when the address is
    not one or is in use. *)
Definition launch (ksize alpha : nat) (use_cache : bool) (read_file : bytes -> result bytes io_error) (random : bytes) (port : Z) (w : World)
  : option (SocketAddr * World) :=
  let handler := mkDIDHandler (b! "issuer.bin") read_file in
  a ← parse_addr "127.0.0.1" port;
  if decide (is_Some (body w !! a)) then None
  else
    let server := Server_new (clock w) handler ksize alpha None random (server_storage None) use_cache
                    (fun p => mkSeat p a (body w) (fates (ops w)) 0) in
    Some (a, mkTimed (clock w) (ops w) (slept w) (rise (running (listen (clock w) server)))).

Definition start_node : (bytes -> result bytes io_error) -> bytes -> Z -> World -> option (SocketAddr * World) := launch 20 3 true.

(** How the program ends: with a panic when a node cannot be started, the record
    cannot be built, or the record that was found cannot be shown. *)
Inductive DidRun :=
| StartPanic
| BuildPanic
| ShowPanic (attempt : nat) (record : bytes) (w : World)
| NotPublished (w : World)
| RecordMissing (attempt : nat) (w : World)
| RecordFound (attempt : nat) (record : bytes) (shown : option (JValue * bytes)) (w : World).

(** The retry loop: the attempt that succeeded, if one did. *)
Fixpoint publish_loop (attempt n : nat) (who : SocketAddr) (dht_key record : bytes) (w : World)
  : option (option nat * World) :=
  match n with
  | O => Some (None, w)
  | S n =>
      '(o, w) ← operate 3 who (ASet dht_key record) w;
      match o with
      | OAnswer (Some true) => Some (Some attempt, w)
      | _ => publish_loop (S attempt) n who dht_key record (sleep pause 500000000 w)
      end
  end.

(** The document shown: [record[doc_start..]] panics on a short record, and so
    does [unwrap] when the document cannot be printed. *)
Definition show_record (record : bytes) : option (option (JValue * bytes)) :=
  let doc_start := (12 + SIG_LEN)%nat in
  if Nat.ltb (length record) doc_start then None
  else match from_slice (drop doc_start record) with
  | Ok doc => pretty ← ok (to_string_pretty doc); Some (Some (doc, pretty))
  | Err _ => Some None
  end.

(** Node 2 joins: one bootstrap, one more when it found nothing, and a last one. *)
Definition join (who : SocketAddr) (w : World) : option World :=
  let boot := ABootstrap [("127.0.0.1"%string, 5678)] in
  '(o, w) ← operate 3 who boot w;
  '(_, w) ← match o with
            | ONodes (_ :: _) => Some (o, w)
            | _ => operate 3 who boot w
            end;
  let w := sleep pause (from_secs 2) w in
  '(_, w) ← operate 3 who boot w;
  Some (sleep pause (from_secs 1) w).

(** [run]; the outer [None] means that a lookup ran out of fuel. *)
Definition publish_did (read_file : bytes -> result bytes io_error) (now : Z) (random1 random2 : bytes)
    (dpk dsk kpk uuid : bytes) : option DidRun :=
  match ('(a1, w) ← start_node read_file random1 5678 (mkTimed now 0 0 ∅);
         '(a2, w) ← start_node read_file random2 5679 w; Some (a1, a2, w)) with
  | None => Some StartPanic
  | Some (a1, a2, w) =>
      w ← join a2 w;
      let did := generate_did_iiot uuid in
      let did_doc := build_did_document did dpk kpk in
      match dht_key did, build_signed_record did_doc dsk (b! "Dilithium-2") with
      | Some key, Some signed_record =>
          '(is_ready, w) ← publish_loop 1 10 a2 key signed_record w;
          match is_ready with
          | None => Some (NotPublished w)
          | Some i =>
              '(o, w) ← operate 3 a1 (AGet key) w;
              match o with
              | OValue (Some record) =>
                  match show_record record with
                  | Some shown => Some (RecordFound i record shown w)
                  | None => Some (ShowPanic i record w)
                  end
              | _ => Some (RecordMissing i w)
              end
          end
      | _, _ => Some BuildPanic
      end
  end.

End publish_did.

Section publish_did_spec.
Context `{US : UnstableSort} `{HO : HashOrder} `{HA : Hashes} `{HAL : !HashLaws} `{NA : NetAddr}.
Context `{CP : CryptoPrims} `{CL : !CryptoLaws} `{JM : JsonMap} `{SJ : SerdeJson} `{SEL : !SerdeLaws}.
Context `{B6 : Base64Engine} `{BL : !Base64Laws} {io_error : Type}.
Context {C : Type} `{MC : Moka C}.
Local Abbreviation Hd := (DIDSignatureVerifierHandler io_error).
Local Abbreviation nodes := (cluster ForgetfulStorage Hd C).

(** Arithmetic with durations. *)
Local Ltac secs := unfold from_secs in *; lia.

Variable fates : nat -> nat -> Fate.
Variable pause : Z -> nodes -> nodes.
Variable lasts : nat -> N.
Variable h : Hd.
Hypothesis pause_inv : forall t t' cl, t <= t' -> cluster_inv h t cl -> cluster_inv h t' (pause t' cl).

Local Abbreviation world_inv := (timed_inv (cluster_inv h)).
Local Abbreviation after := (comes_after lasts (cluster_inv h)).
Local Abbreviation sleep_inv := (sleep_inv pause (cluster_inv h) pause_inv).
Local Abbreviation after_sleep := (after_sleep lasts pause (cluster_inv h) pause_inv).

Lemma operate_ok al who a w :
  world_inv w ->
  exists o w', operate CRAWL_FUEL fates pause lasts al who a w = Some (o, w') /\ after 0 1 w w' /\
    forall v, o = OValue (Some v) -> authentic h v.
Proof.
  intros Hw. unfold operate, run_move. cbn [mnow mwho mfate mact].
  destruct (body w !! who) as [p|] eqn:Ep.
  - destruct (run_action_inv h (clock w) a (sit al (body w) (fates (ops w)) who p)) as (o & cl & -> & Hcl & Ho).
    { by apply sit_inv. }
    do 2 eexists. split; [done|]. split; [by apply after_awaited|done].
  - do 2 eexists. split; [done|]. split; [by apply after_awaited|done].
Qed.

Lemma join_ok who w :
  world_inv w ->
  exists w' n, join CRAWL_FUEL fates pause lasts who w = Some w' /\ (n = 2 \/ n = 3)%nat /\ after (from_secs 3) n w w'.
Proof.
  intros Hw. unfold join. cbv zeta. set (boot := ABootstrap _).
  destruct (operate_ok 3 who boot w Hw) as (o & w1 & -> & H1 & _). cbn [mbind option_bind].
  assert (exists o' w2 n, match o with ONodes (_ :: _) => Some (o, w1) | _ => operate CRAWL_FUEL fates pause lasts 3 who boot w1 end
    = Some (o', w2) /\ (n = 1 \/ n = 2)%nat /\ after 0 n w w2) as (o' & w2 & n & -> & Hn & H2).
  { destruct (operate_ok 3 who boot w1 (proj1 H1)) as (o' & w2 & Eo & H2 & _). rewrite Eo.
    assert (after 0 2 w w2) as H12 by (eapply after_trans; [exact H1|exact H2|done|done]).
    assert (forall r, r = Some (o', w2) -> exists o'' w2' n, r = Some (o'', w2') /\ (n = 1 \/ n = 2)%nat /\ after 0 n w w2') as Htwice.
    { intros r ->. exists o', w2, 2%nat. by split; [|split; [right|]]. }
    destruct o as [| |[|m ns]| |]; try (by apply Htwice). exists (ONodes (m :: ns)), w1, 1%nat. by split; [|split; [left|]]. }
  cbn [mbind option_bind].
  assert (after (from_secs 2) 0 w2 (sleep pause (from_secs 2) w2)) as H3 by (apply after_sleep; [secs|apply H2]).
  destruct (operate_ok 3 who boot _ (proj1 H3)) as (o3 & w4 & -> & H4 & _). cbn [mbind option_bind].
  assert (after (from_secs 1) 0 w4 (sleep pause (from_secs 1) w4)) as H5 by (apply after_sleep; [secs|apply H4]).
  eexists _, (S n). split; [done|]. split; [lia|].
  eapply after_trans; [eapply after_trans; [exact H2|eapply after_trans; [exact H3|exact H4|done|done]|done|done]|exact H5|secs|lia].
Qed.

(** The end of the attempts [i] to [i + n - 1] to publish. *)
Definition loop_end (i n : nat) (r : option nat) (w w' : Timed nodes) : Prop :=
  match r with
  | Some j => (i <= j < i + n)%nat /\ after (Z.of_nat (j - i) * 500000000) (j - i + 1) w w'
  | None => after (Z.of_nat n * 500000000) n w w'
  end.

Lemma publish_loop_ok i n who key record w :
  world_inv w ->
  exists r w', publish_loop CRAWL_FUEL fates pause lasts i n who key record w = Some (r, w') /\ loop_end i n r w w'.
Proof.
  revert i w. induction n as [|n IH]; intros i w Hw; cbn [publish_loop].
  { do 2 eexists. split; [done|]. by apply after_refl. }
  destruct (operate_ok 3 who (ASet key record) w Hw) as (o & w1 & -> & H1 & _). cbn [mbind option_bind].
  assert (after 500000000 1 w (sleep pause 500000000 w1)) as H2.
  { eapply after_trans; [exact H1|apply after_sleep; [done|apply H1]|done|done]. }
  destruct (IH (S i) _ (proj1 H2)) as (r & w2 & Er & Hr).
  assert (loop_end i (S n) r w w2) as Hagain.
  { destruct r as [j|]; cbn [loop_end] in *; [destruct Hr as [Hj Hr]; split; [lia|]|];
      (eapply after_trans; [exact H2|exact Hr|lia|lia]). }
  destruct o as [|[[]|]| | |]; try (by exists r, w2).
  do 2 eexists. split; [done|]. split; [lia|]. rewrite Nat.sub_diag. exact H1.
Qed.

Lemma launch_ok ksize alpha use_cache read_file random port a w :
  (0 < ksize)%nat ->
  h = mkDIDHandler (b! "issuer.bin") read_file -> world_inv w ->
  parse_addr "127.0.0.1" port = Some a -> body w !! a = None ->
  exists p w', launch fates ksize alpha use_cache read_file random port w = Some (a, w') /\ after 0 0 w w' /\
    body w' = <[a := p]> (body w).
Proof.
  intros Hk Hh Hw Ha Hn. unfold launch. rewrite Ha. cbn [mbind option_bind].
  rewrite decide_False by (rewrite Hn; by intros [? ?]).
  eexists _, (mkTimed _ _ _ _). split; [done|]. cbn [clock body rise running listen self own others].
  split; [|done]. split_and!; [|simpl; lia|simpl; lia|done]. unfold timed_inv. cbn [clock body]. apply rise_inv. rewrite <- Hh.
  apply (listen_new_inv h (clock w) ksize alpha None random use_cache); [done|done|]. by intros p.
Qed.

(** Only a record too short to have a document cannot be shown. *)
Lemma show_record_None record : show_record record = None -> (length record < 12 + SIG_LEN)%nat.
Proof.
  unfold show_record. cbv zeta. destruct (Nat.ltb_spec (length record) (12 + SIG_LEN)); [done|].
  destruct (from_slice _) as [doc|]; [|done]. by destruct (pretty_ok doc) as [t ->].
Qed.

Lemma show_record_Some record shown :
  show_record record = Some shown ->
  (12 + SIG_LEN <= length record)%nat /\
  shown = match from_slice (drop (12 + SIG_LEN) record) with
          | Ok doc => pretty ← ok (to_string_pretty doc); Some (doc, pretty)
          | Err _ => None
          end.
Proof.
  unfold show_record. cbv zeta. destruct (Nat.ltb_spec (length record) (12 + SIG_LEN)); [done|].
  destruct (from_slice _) as [doc|]; [|by intros [= <-]]. destruct (ok (to_string_pretty doc)); [|done]. by intros [= <-].
Qed.

(** The end of a run that began at [now]: the invariant and the clock. *)
Definition ends_at (now : Z) (w : Timed nodes) : Prop :=
  world_inv w /\ clock w = now + slept w + spent lasts (ops w).

Lemma ended_run now cl w1 w2 w3 d1 n1 d2 n2 n3 :
  after d1 n1 (mkTimed now 0 0 cl) w1 -> after d2 n2 w1 w2 -> after 0 n3 w2 w3 ->
  ends_at now w3 /\ slept w3 = d1 + d2 /\ ops w3 = (n1 + n2 + n3)%nat.
Proof.
  intros (_ & Hs1 & Ho1 & Ht1) (_ & Hs2 & Ho2 & Ht2) (Hi & Hs3 & Ho3 & Ht3). cbn [slept ops] in *.
  split_and!; [|lia|lia]. split; [done|]. apply Ht3, Ht2, Ht1. unfold on_time. cbn [clock slept ops spent]. lia.
Qed.

(** The sleep up to attempt [i]: three seconds, and half a second per attempt
    that failed. *)
Definition slept_until (i : nat) : Z := from_secs 3 + (Z.of_nat i - 1) * 500000000.


End publish_did_spec.

(** ** A run of the program *)

#[local] Existing Instances toy_prims toy_laws btree_map tree_json toy_base64 toy_base64_laws demo_hashes demo_hash_laws plain_addr.
#[local] Existing Instance tree_json_laws.

Abbreviation two_hosts := (cluster ForgetfulStorage (DIDSignatureVerifierHandler unit) SimpleCache).

Definition no_issuer (_ : bytes) : result bytes unit := Err tt.

(** While the program sleeps, both nodes run the oldest tasks they have spawned. *)
Definition catch_up (t : Z) (cl : two_hosts) : two_hosts :=
  let turn a := mkMove t (fun _ => Delivered) a (ATask 0) in
  match run_moves 5 3 (concat (replicate 4 [turn ("127.0.0.1"%string, 5678); turn ("127.0.0.1"%string, 5679)])) cl with
  | Some (_, cl) => cl
  | None => cl
  end.

(** With no message lost, the record is published at the first attempt and node 1
    shows the document of the identity. *)
Example publish_did_example :
  match publish_did 5 (fun _ _ => Delivered) catch_up (fun _ => 1000000%N) no_issuer 0 [x01] [x02] toy_pk toy_sk toy_pk toy_uuid with
  | Some (RecordFound attempt _ (Some (doc, _)) _) =>
      attempt = 1%nat /\ as_str (index_str doc (b! "id")) = Some (generate_did_iiot toy_uuid)
  | _ => False
  end.
Proof. vm_compute. split; reflexivity. Qed.

Definition idle_hosts (_ : Z) (cl : two_hosts) : two_hosts := cl.

(** Every operation waits for a timeout, as no answer arrives. *)
Definition timeouts (_ : nat) : N := 5000000000.

