(* ===== verification/PyBindings.v ===== *)
(** * PyBindings: the Python classes

    Models [src/src/py_bindings.rs].  A Python server owns one [Server] (here with
    the tasks its methods start, of [NodeState.v], and the file system); each
    method takes the lock, calls the [Server] method and converts the result, so
    one call is one step on that state ([py_call]).  A raised exception is an [Err]: which
    error it reports, not the text.  PyO3's conversions of the arguments, the
    asyncio event loop and [init_runtime], which configures the Tokio runtime,
    are outside.  The key-manager classes wrap the managers of [KeyManager.v]. *)
From S2P Require Import Prelude Node Routing RoutingTable RoutingTableSpec Storage Text Json Crypto AuthHandler KeyManager SigCache Crawling Protocol ProtocolSpec Network NetworkSpec NodeState.
From Stdlib Require Import Strings.Byte.
Local Open Scope Z_scope.

(** [PyRuntimeError], by what it reports. *)
Inductive PyErr :=
| NodeIdLength (got : nat)
| ListenFailed
| KmError (e : KeyManagerError).

Definition km_err (e : KeyManagerError) : PyErr := KmError e.

(** What a coroutine of the server returns. *)
Inductive PyValue :=
| PyNone
| PyBool (b : bool)
| PyBytes (b : bytes)
| PyPeers (l : list (string * Z)).

(** [Option<bool>] and [Option<bytes>] as Python objects. *)
Definition py_bool (r : option bool) : PyValue := from_option PyBool PyNone r.
Definition py_bytes (r : option bytes) : PyValue := from_option PyBytes PyNone r.

Section py_server.
Context `{US : UnstableSort} `{HO : HashOrder} `{HA : Hashes} `{NA : NetAddr}.
Context `{CP : CryptoPrims} `{DL : DocLib} {io_error : Type}.
Context `{JM : JsonMap} `{SJ : SerdeJson} `{HX : HexCodec}.
Context {C : Type} `{MC : Moka C}.
Local Abbreviation Hd := (DIDSignatureVerifierHandler io_error).
Context {R : Type} `{NW : !Net R ForgetfulStorage Hd C}.

Record PyServer := mkPyServer {
  inner : Server R;
  tasks : Lifecycle.Tasks;
  disk : FileSystem
}.

(** The constructor; arguments left out are [None].  [random] and [place] are
    those of [Server_new]. *)
Definition PyServer_new (now : Z) (ksize alpha : option nat) (issuer_path : option bytes)
    (node_id : option bytes) (sig_cache : option bool) (read_file : bytes -> result bytes io_error)
    (random : bytes) (place : KademliaProtocol ForgetfulStorage Hd C -> R) (fs : FileSystem)
  : result PyServer PyErr :=
  let path := default [] issuer_path in
  let handler := mkDIDHandler path read_file in
  let? fixed_id :=
    match node_id with
    | Some v => if Nat.eqb (length v) 20 then Ok (Some v) else Err (NodeIdLength (length v))
    | None => Ok None
    end in
  let server := Server_new now handler (default 20%nat ksize) (default 3%nat alpha) fixed_id random
                  (server_storage None) (default false sig_cache) place in
  Ok (mkPyServer server Lifecycle.new fs).

(** The methods.  [listen] also takes what the machine decides: the number of
    cores and whether the system lets the socket be bound. *)
Inductive PyMethod :=
| PListen (num_workers : nat) (os_ok : bool) (port : Z) (host : string)
| PBootstrap (addrs : list (string * Z))
| PGet (key : bytes)
| PSet (key value : bytes)
| PUpdate (key value : bytes) (auth_signature : option bytes)
| PDelete (key auth_signature delete_msg : bytes)
| PStop
| PBootstrappableNeighbors
| PSaveState (fname : bytes)
| PSaveStateRegularly (fname : bytes) (frequency_secs : Z).

Variable fuel : nat.

Definition set_inner (s : PyServer) (i : Server R) : PyServer := mkPyServer i (tasks s) (disk s).

(** The methods' results at time [now]; [None]: a lookup ran out of fuel. *)
Local Abbreviation outcome := (option (result PyValue PyErr * PyServer)).

Definition py_listen (now : Z) (num_workers : nat) (os_ok : bool) (port : Z) (host : string) (s : PyServer) : outcome :=
  match Lifecycle.listen num_workers os_ok port host (tasks s) with
  | (Ok _, ts) => Some (Ok PyNone, mkPyServer (listen now (inner s)) ts (disk s))
  | (Err _, ts) => Some (Err ListenFailed, mkPyServer (inner s) ts (disk s))
  end.

Definition py_bootstrap (now : Z) (addrs : list (string * Z)) (s : PyServer) : outcome :=
  '(nodes, i) ← bootstrap fuel now addrs (inner s);
  Some (Ok (PyPeers (omap address nodes)), set_inner s i).

Definition py_get (now : Z) (key : bytes) (s : PyServer) : outcome :=
  '(result, i) ← server_get fuel now key (inner s); Some (Ok (py_bytes result), set_inner s i).

Definition py_set (now : Z) (key value : bytes) (s : PyServer) : outcome :=
  '(r, i) ← server_set fuel now key value (inner s); Some (Ok (py_bool r), set_inner s i).

Definition py_update (now : Z) (key value : bytes) (auth_signature : option bytes) (s : PyServer) : outcome :=
  '(r, i) ← server_update fuel now key value auth_signature (inner s); Some (Ok (py_bool r), set_inner s i).

Definition py_delete (now : Z) (key auth_signature delete_msg : bytes) (s : PyServer) : outcome :=
  '(r, i) ← server_delete fuel now key auth_signature delete_msg (inner s); Some (Ok (py_bool r), set_inner s i).

Definition py_stop (now : Z) (s : PyServer) : outcome :=
  let '(_, i) := stop now (inner s) in
  Some (Ok PyNone, mkPyServer i (Lifecycle.stop (tasks s)) (disk s)).

Definition py_bootstrappable_neighbors (now : Z) (s : PyServer) : outcome :=
  let '(l, i) := bootstrappable_neighbors now (inner s) in Some (Ok (PyPeers l), set_inner s i).

Definition py_save_state (now : Z) (fname : bytes) (s : PyServer) : outcome :=
  let '(i, fs) := save_state now fname (inner s) (disk s) in Some (Ok PyNone, mkPyServer i (tasks s) fs).

Definition py_save_state_regularly (fname : bytes) (frequency_secs : Z) (s : PyServer) : outcome :=
  Some (Ok PyNone, mkPyServer (inner s) (Lifecycle.save_state_regularly fname frequency_secs (tasks s)) (disk s)).

(** One awaited call. *)
Definition py_call (now : Z) (m : PyMethod) (s : PyServer) : outcome :=
  match m with
  | PListen num_workers os_ok port host => py_listen now num_workers os_ok port host s
  | PBootstrap addrs => py_bootstrap now addrs s
  | PGet key => py_get now key s
  | PSet key value => py_set now key value s
  | PUpdate key value auth_signature => py_update now key value auth_signature s
  | PDelete key auth_signature delete_msg => py_delete now key auth_signature delete_msg s
  | PStop => py_stop now s
  | PBootstrappableNeighbors => py_bootstrappable_neighbors now s
  | PSaveState fname => py_save_state now fname s
  | PSaveStateRegularly fname frequency_secs => py_save_state_regularly fname frequency_secs s
  end.

(** A program: calls and the times at which they are awaited.  Up to each of these
    times the node handles requests and runs its tasks, and the task that saves the
    state writes files: that is the function [idle]. *)
Fixpoint py_session (idle : Z -> PyServer -> PyServer) (calls : list (Z * PyMethod)) (s : PyServer) : option (list (result PyValue PyErr) * PyServer) :=
  match calls with
  | [] => Some ([], s)
  | (now, m) :: calls =>
      '(r, s) ← py_call now m (idle now s);
      '(rs, s) ← py_session idle calls s;
      Some (r :: rs, s)
  end.

End py_server.
Arguments PyServer R : clear implicits.

(** ** The key-manager classes *)

(** The methods the three classes share. *)
Class PyKeyManager (P : Type) := {
  py_store_public_key : P -> bytes -> bytes -> FileSystem -> result unit PyErr * FileSystem;
  py_store_private_key : P -> bytes -> bytes -> FileSystem -> result unit PyErr * FileSystem;
  py_get_public_key : P -> bytes -> FileSystem -> result bytes PyErr;
  py_get_private_key : P -> bytes -> FileSystem -> result bytes PyErr;
  py_get_jose_format : P -> bytes -> gmap bytes bytes
}.

Definition raise_km {A B} (r : result A KeyManagerError * B) : result A PyErr * B := (map_err km_err (fst r), snd r).

Section py_keys.
Context `{CP : CryptoPrims} `{DL : DocLib} `{KG : KeyGen}.

Record PyDilithiumKeyManager := mkPyDilithium { pd_inner : DilithiumKeyManager }.

Definition PyDilithium_new (keys_dir : bytes) (security_level : Z) (fs : FileSystem) : PyDilithiumKeyManager * FileSystem :=
  let '(m, fs) := DilithiumKeyManager_new keys_dir security_level fs in (mkPyDilithium m, fs).

(** With a level, a manager of that level over the same directory generates. *)
Definition py_dilithium_generate (p : PyDilithiumKeyManager) (security_level : option Z) (rng : entropy) (fs : FileSystem)
  : result (bytes * bytes) PyErr * FileSystem :=
  let level := default (dsecurity_level (pd_inner p)) security_level in
  let '(m, fs) := DilithiumKeyManager_new (dkeys_dir (pd_inner p)) level fs in
  (map_err km_err (generate_keypair m rng), fs).

#[global] Instance py_dilithium_km : PyKeyManager PyDilithiumKeyManager := {
  py_store_public_key p key_name public_key fs := raise_km (store_public_key (pd_inner p) key_name public_key fs);
  py_store_private_key p key_name private_key fs := raise_km (store_private_key (pd_inner p) key_name private_key fs);
  py_get_public_key p key_name fs := map_err km_err (get_public_key (pd_inner p) key_name fs);
  py_get_private_key p key_name fs := map_err km_err (get_private_key (pd_inner p) key_name fs);
  py_get_jose_format p public_key := get_jose_format (pd_inner p) public_key
}.

Definition py_dilithium_sign (p : PyDilithiumKeyManager) (private_key message : bytes) : result bytes PyErr :=
  map_err km_err (dilithium_km_sign (pd_inner p) private_key message).
Definition py_dilithium_verify (p : PyDilithiumKeyManager) (public_key message signature : bytes) : result bool PyErr :=
  map_err km_err (dilithium_km_verify (pd_inner p) public_key message signature).

Record PyKyberKeyManager := mkPyKyber { pk_inner : KyberKeyManager }.

Definition PyKyber_new (keys_dir : bytes) (security_level : Z) (fs : FileSystem) : PyKyberKeyManager * FileSystem :=
  let '(m, fs) := KyberKeyManager_new keys_dir security_level fs in (mkPyKyber m, fs).

Definition py_kyber_generate (p : PyKyberKeyManager) (security_level : option Z) (rng : entropy) (fs : FileSystem)
  : result (bytes * bytes) PyErr * FileSystem :=
  let level := default (ksecurity_level (pk_inner p)) security_level in
  let '(m, fs) := KyberKeyManager_new (kkeys_dir (pk_inner p)) level fs in
  (map_err km_err (generate_keypair m rng), fs).

#[global] Instance py_kyber_km : PyKeyManager PyKyberKeyManager := {
  py_store_public_key p key_name public_key fs := raise_km (store_public_key (pk_inner p) key_name public_key fs);
  py_store_private_key p key_name private_key fs := raise_km (store_private_key (pk_inner p) key_name private_key fs);
  py_get_public_key p key_name fs := map_err km_err (get_public_key (pk_inner p) key_name fs);
  py_get_private_key p key_name fs := map_err km_err (get_private_key (pk_inner p) key_name fs);
  py_get_jose_format p public_key := get_jose_format (pk_inner p) public_key
}.

Record PyEd25519KeyManager := mkPyEd { pe_inner : Ed25519KeyManager }.

Definition PyEd25519_new (keys_dir : bytes) (fs : FileSystem) : PyEd25519KeyManager * FileSystem :=
  let '(m, fs) := Ed25519KeyManager_new keys_dir fs in (mkPyEd m, fs).

Definition py_ed25519_generate (p : PyEd25519KeyManager) (rng : entropy) : result (bytes * bytes) PyErr :=
  map_err km_err (generate_keypair (pe_inner p) rng).

#[global] Instance py_ed25519_km : PyKeyManager PyEd25519KeyManager := {
  py_store_public_key p key_name public_key fs := raise_km (store_public_key (pe_inner p) key_name public_key fs);
  py_store_private_key p key_name private_key fs := raise_km (store_private_key (pe_inner p) key_name private_key fs);
  py_get_public_key p key_name fs := map_err km_err (get_public_key (pe_inner p) key_name fs);
  py_get_private_key p key_name fs := map_err km_err (get_private_key (pe_inner p) key_name fs);
  py_get_jose_format p public_key := get_jose_format (pe_inner p) public_key
}.

Definition py_ed25519_sign (p : PyEd25519KeyManager) (private_key message : bytes) : result bytes PyErr :=
  map_err km_err (ed25519_km_sign (pe_inner p) private_key message).
Definition py_ed25519_verify (p : PyEd25519KeyManager) (public_key message signature : bytes) : result bool PyErr :=
  map_err km_err (ed25519_km_verify (pe_inner p) public_key message signature).

(** The level override of the Python class.  A Dilithium manager of any
    level, asked for a key pair of level [l], generates one of [l] (or raises
    [InvalidSecurityLevel l]); it stores and loads that pair, and signs and
    verifies with it.  But the JWK it writes for the public key names the level of
    the manager, not the level of the key. *)
Theorem py_level_override `{!CryptoLaws} `{!KeyGenLaws} (dir name : bytes) (l0 l : Z) (rng : entropy)
    (fs fs0 : FileSystem) (p : PyDilithiumKeyManager) :
  let d := foldl walk_one (path_start fs dir) (components dir) in
  PyDilithium_new dir l0 fs = (p, fs0) ->
  no_file_on fs (path_start fs dir) (components dir) = true ->
  plain name -> d ++ [name ++ b! ".public"] ∉ dirs fs0 -> d ++ [name ++ b! ".private"] ∉ dirs fs0 ->
  match py_dilithium_generate p (Some l) rng fs0 with
  | (Err e, _) => e = KmError (InvalidSecurityLevel l) /\ l ∉ [2; 3; 5]
  | (Ok (pk, sk), fs1) => l ∈ [2; 3; 5] /\ dil_keypair l pk sk /\ fs1 = fs0 /\
      exists fs2 fs3, py_store_public_key p name pk fs1 = (Ok tt, fs2) /\
        py_store_private_key p name sk fs2 = (Ok tt, fs3) /\
        py_get_public_key p name fs3 = Ok pk /\ py_get_private_key p name fs3 = Ok sk /\
        (forall msg, exists s, py_dilithium_sign p sk msg = Ok s /\ py_dilithium_verify p pk msg s = Ok true) /\
        py_get_jose_format p pk !! (b! "alg") = Some (b! "CRYDI" ++ fmt_Z l0)
  end.
Proof.
  intros d [= <- <-] Hfree Hn Hp1 Hp2. unfold py_dilithium_generate. cbn [default from_option Datatypes.id pd_inner dkeys_dir DilithiumKeyManager_new].
  rewrite dilithium_generate. cbn [dsecurity_level]. case_decide as Hl; [|done].
  pose proof (dil_generate_ok l rng Hl) as Hk. destruct (dil_generate l rng) as [pk sk]. cbn [fst snd map_err] in *.
  split; [done|]. split; [done|]. split; [by apply create_dir_all_again|].
  destruct (loaded_keys (FB := dilithium_backed) (mkDilithiumKM dir l0) (create_dir_all (create_dir_all fs dir) dir) name pk sk d Hn)
    as (fs2 & fs3 & E1 & E2 & Hp & Hs).
  - rewrite create_dir_all_again by done. by apply create_dir_all_dir.
  - by rewrite create_dir_all_again.
  - by rewrite create_dir_all_again.
  - exists fs2, fs3. cbn [py_store_public_key py_store_private_key py_get_public_key py_get_private_key py_dilithium_km pd_inner].
    rewrite E1, Hp, Hs. unfold raise_km. rewrite E2. split_and!; try done.
    intros msg. destruct (dilithium_roundtrip l pk sk msg Hk) as [Es Ev].
    eexists. unfold py_dilithium_sign, py_dilithium_verify, dilithium_km_sign, dilithium_km_verify.
    rewrite Es. split; [done|]. cbn [pd_inner]. by rewrite Ev.
Qed.

End py_keys.

(** ** Properties of the server class *)

(** Times in order, from [t], and the last of them. *)
Fixpoint nondecreasing (t : Z) (ts : list Z) : Prop :=
  match ts with [] => True | t' :: ts => t <= t' /\ nondecreasing t' ts end.
Definition last_time (t : Z) (ts : list Z) : Z := foldl (fun _ t => t) t ts.

Section py_server_spec.
Context `{US : UnstableSort} `{HO : HashOrder} `{HA : Hashes} `{HAL : !HashLaws} `{NA : NetAddr}.
Context `{CP : CryptoPrims} `{CL : !CryptoLaws} `{DL : DocLib} `{DLL : !DocLaws} {io_error : Type}.
Context `{JM : JsonMap} `{SJ : SerdeJson} `{HX : HexCodec}.
Context {C : Type} `{MC : Moka C}.
Local Abbreviation Hd := (DIDSignatureVerifierHandler io_error).
Context {R : Type} `{NW : !Net R ForgetfulStorage Hd C} `{NS : !NetSafe R}.

(** The invariant of a Python server: the node's, that of its tasks, and that
    both agree on whether it listens. *)
Record py_inv (h : Hd) (t : Z) (s : PyServer R) : Prop := {
  py_server : server_inv h t (inner s);
  py_tasks : Lifecycle.tasks_inv (tasks s);
  py_listening : Lifecycle.protocol (tasks s) = listening (inner s);
  py_node : wf_node (snode (inner s));
  py_ksize : (0 < sksize (inner s))%nat
}.

(** The type each method documents for what it returns or raises. *)
Definition py_typed (h : Hd) (m : PyMethod) (r : result PyValue PyErr) : Prop :=
  match m, r with
  | PListen _ _ _ _, Ok PyNone => True
  | PListen _ _ _ _, Err ListenFailed => True
  | (PBootstrap _ | PBootstrappableNeighbors), Ok (PyPeers _) => True
  | PGet _, Ok PyNone => True
  | PGet _, Ok (PyBytes v) => authentic h v
  | (PSet _ _ | PUpdate _ _ _ | PDelete _ _ _), Ok (PyNone | PyBool _) => True
  | (PStop | PSaveState _ | PSaveStateRegularly _ _), Ok PyNone => True
  | _, _ => False
  end.

Lemma py_inv_inner h t s i :
  py_inv h t s -> server_inv h t i -> same_params (inner s) i -> py_inv h t (set_inner s i).
Proof.
  intros [_ Ht Hl Hn Hk] Hi Hp. apply same_params_fields in Hp as (En & El & Ek & _).
  split; simpl; [done|done|congruence|by rewrite En|by rewrite Ek].
Qed.

Lemma py_inv_later h t t' s : t <= t' -> py_inv h t s -> py_inv h t' s.
Proof. intros Hle []. split; try done. by eapply run_inv_later. Qed.

Lemma stop_keeps h t (s : Server R) : server_inv h t s -> wf_node (snode s) -> server_inv h t (snd (stop t s)).
Proof.
  intros Hi Hn. unfold stop. destruct (negb (listening s)); [done|].
  destruct (neighbors_of_spec h t t (snode s) s Hi Hn) as [Hi1 _]. by destruct (neighbors_of _ _ _).
Qed.

Lemma bootstrappable_keeps h t (s : Server R) :
  server_inv h t s -> wf_node (snode s) -> server_inv h t (snd (bootstrappable_neighbors t s)).
Proof.
  intros Hi Hn. unfold bootstrappable_neighbors. destruct (negb (listening s)); [done|].
  destruct (neighbors_of_spec h t t (snode s) s Hi Hn) as [Hi1 _]. by destruct (neighbors_of _ _ _).
Qed.

Lemma save_state_server t fname (s : Server R) fs :
  fst (save_state t fname s fs) = snd (bootstrappable_neighbors t s).
Proof. unfold save_state. by destruct (bootstrappable_neighbors t s) as [[|] ?]. Qed.

(** An operation of the server behind the lock, and its converted result. *)
Lemma py_wrapped {A} h t m s (op : option (A * Server R)) (conv : A -> PyValue) :
  py_inv h t s -> is_Some op ->
  (forall x i, op = Some (x, i) -> server_inv h t i /\ same_params (inner s) i /\ py_typed h m (Ok (conv x))) ->
  exists r s', ('(x, i) ← op; Some (Ok (conv x), set_inner s i)) = Some (r, s') /\ py_inv h t s' /\ py_typed h m r.
Proof.
  intros Hi [[x i] Eo] Hop. destruct (Hop x i Eo) as (H1 & H2 & H3). rewrite Eo.
  eexists _, _. split; [done|]. split; [by apply py_inv_inner|done].
Qed.

Lemma py_listen_ok h t n b port host s :
  py_inv h t s ->
  exists r s', py_call CRAWL_FUEL t (PListen n b port host) s = Some (r, s') /\ py_inv h t s' /\
    py_typed h (PListen n b port host) r.
Proof.
  intros [Hsv Htk Hl Hn Hk]. cbn [py_call]. unfold py_listen.
  pose proof (Lifecycle.listen_ok n b port host (tasks s) Htk) as [[Hti _] _].
  pose proof (Lifecycle.listen_protocol n b port host (tasks s)) as Hp.
  destruct (Lifecycle.listen n b port host (tasks s)) as [[u|u] ts]; cbn [fst snd] in *;
    do 2 eexists; (split; [done|]); (split; [|done]); split; simpl; try done; [by apply listen_inv|congruence].
Qed.

Lemma py_call_ok h t m s :
  py_inv h t s ->
  exists r s', py_call CRAWL_FUEL t m s = Some (r, s') /\ py_inv h t s' /\ py_typed h m r.
Proof.
  intros Hi. pose proof Hi as [Hsv Htk Hl Hn Hk].
  destruct m as [n b port host|addrs|key|key v|key v auth|key auth msg| | |fname|fname q]; [by apply py_listen_ok|..].
  - apply py_wrapped; [done|by apply (bootstrap_returns h)|]. intros ns i E.
    pose proof (bootstrap_spec h CRAWL_FUEL t addrs (inner s) Hsv) as Hs. rewrite E in Hs.
    split; [apply Hs|]. split; [by eapply bootstrap_params|done].
  - apply py_wrapped; [done|by apply (server_get_returns h)|]. intros v i E.
    pose proof (server_get_spec h CRAWL_FUEL t key (inner s) Hsv) as Hs. rewrite E in Hs. destruct Hs as (Hs & _ & Ha).
    split; [done|]. split; [by eapply server_get_params|]. destruct v; [by apply Ha|done].
  - apply py_wrapped; [done|by apply (server_set_returns h)|]. intros r i E.
    pose proof (server_set_spec h CRAWL_FUEL t key v (inner s) Hsv) as Hs. rewrite E in Hs.
    split; [apply Hs|]. split; [by eapply server_set_params|by destruct r].
  - apply py_wrapped; [done|by apply (server_update_returns h)|]. intros r i E.
    pose proof (server_update_spec h CRAWL_FUEL t key v auth (inner s) Hsv) as Hs. rewrite E in Hs.
    split; [apply Hs|]. split; [by eapply server_update_params|by destruct r].
  - apply py_wrapped; [done|by apply (server_delete_returns h)|]. intros r i E.
    pose proof (server_delete_spec h CRAWL_FUEL t key auth msg (inner s) Hsv) as Hs. rewrite E in Hs.
    split; [apply Hs|]. split; [by eapply server_delete_params|by destruct r].
  - cbn [py_call]. unfold py_stop. pose proof (stop_keeps h t (inner s) Hsv Hn) as Hs. pose proof (stop_params t (inner s)) as Hp.
    destruct (stop t (inner s)) as [ls i]. cbn [snd] in *. do 2 eexists. split; [done|]. split; [|done].
    destruct (py_inv_inner h t s i Hi Hs Hp). split; cbn [inner tasks set_inner] in *; try done;
      [by apply Lifecycle.extends_stop|by rewrite Lifecycle.stop_protocol].
  - cbn [py_call]. unfold py_bootstrappable_neighbors. pose proof (bootstrappable_keeps h t (inner s) Hsv Hn) as Hs.
    pose proof (bootstrappable_params t (inner s)) as Hp. destruct (bootstrappable_neighbors t (inner s)) as [ls i].
    do 2 eexists. split; [done|]. split; [by apply py_inv_inner|done].
  - cbn [py_call]. unfold py_save_state. pose proof (bootstrappable_keeps h t (inner s) Hsv Hn) as Hs.
    pose proof (bootstrappable_params t (inner s)) as Hp.
    pose proof (save_state_server t fname (inner s) (disk s)) as Ef. destruct (save_state _ _ _ _) as [i fs].
    cbn [fst] in Ef. subst i. do 2 eexists. split; [done|]. split; [|done].
    by destruct (py_inv_inner h t s _ Hi Hs Hp).
  - cbn [py_call]. do 2 eexists. split; [done|]. split; [|done]. split; simpl; try done.
    + exact (proj1 (Lifecycle.extends_op (tasks s) (Lifecycle.SaveRegularly fname q) Htk)).
    + rewrite <- Hl. unfold Lifecycle.save_state_regularly. by destruct (Lifecycle.protocol (tasks s)) eqn:E.
Qed.

(** C21: a Python session is typed and safe.  A server built with a bucket size
    above 0 runs any sequence of calls, in the order of time, to its end, whatever
    the peers answer, and whatever the node does between the calls that keeps its
    invariant; every result has the type its method documents: only [listen]
    raises, and the bytes [get] returns are an authentic record.  The node and its
    tasks keep their invariants throughout. *)
Theorem py_session_typed (h : Hd) (idle : Z -> PyServer R -> PyServer R) (t : Z) (calls : list (Z * PyMethod)) (s : PyServer R) :
  (forall t t' s, t <= t' -> py_inv h t s -> py_inv h t' (idle t' s)) ->
  py_inv h t s -> nondecreasing t (fst <$> calls) ->
  exists rs s', py_session CRAWL_FUEL idle calls s = Some (rs, s') /\
    Forall2 (py_typed h) (snd <$> calls) rs /\ py_inv h (last_time t (fst <$> calls)) s'.
Proof.
  intros Hidle. revert t s. induction calls as [|[now m] calls IH]; intros t s Hi Ht; cbn [py_session].
  { exists [], s. by split_and!; [|constructor|]. }
  destruct Ht as [Hle Ht]. simpl in Hle. apply (Hidle t now) in Hi; [|done].
  destruct (py_call_ok h now m (idle now s) Hi) as (r & s1 & -> & Hi1 & Hr). cbn [mbind option_bind].
  destruct (IH now s1 Hi1 Ht) as (rs & s2 & -> & Hrs & Hi2). cbn [mbind option_bind].
  eexists _, _. split; [done|]. split; [by constructor|done].
Qed.

(** Building a Python server.  The constructor raises exactly when an
    identifier of another length than 20 is given; the server it otherwise
    returns has the invariant (for a bucket size above 0), does not listen, has
    no task, the given or default parameters, and keeps no cache unless asked. *)
Theorem py_server_new_ok (now : Z) (ksize alpha : option nat) (issuer_path node_id : option bytes)
    (sig_cache : option bool) (read_file : bytes -> result bytes io_error) (random : bytes)
    (place : KademliaProtocol ForgetfulStorage Hd C -> R) (fs : FileSystem) :
  let h := mkDIDHandler (default [] issuer_path) read_file in
  (forall p, rproto (place p) = p /\ net_ok h now (place p)) ->
  match PyServer_new now ksize alpha issuer_path node_id sig_cache read_file random place fs with
  | Err e => exists v, node_id = Some v /\ length v <> 20%nat /\ e = NodeIdLength (length v)
  | Ok s => (forall v, node_id = Some v -> length v = 20%nat /\ id (snode (inner s)) = v) /\
            sksize (inner s) = default 20%nat ksize /\ salpha (inner s) = default 3%nat alpha /\
            listening (inner s) = false /\ Lifecycle.alive (tasks s) = ∅ /\ disk s = fs /\
            (is_Some (Protocol.sig_cache (rproto (running (inner s)))) <-> sig_cache = Some true) /\
            (default 20%nat ksize <> 0%nat -> py_inv h now s)
  end.
Proof.
  intros h Hp. unfold PyServer_new. cbv zeta. fold h.
  assert (forall i, (forall v, i = Some v -> length v = ID_LEN) -> default 20%nat ksize <> 0%nat ->
    py_inv h now (mkPyServer (Server_new now h (default 20%nat ksize) (default 3%nat alpha) i random
      (server_storage None) (default false sig_cache) place) Lifecycle.new fs)) as Hinv.
  { intros i Hlen Hk. destruct (Server_new_inv h now (default 20%nat ksize) (default 3%nat alpha) i random
      (default false sig_cache) place ltac:(lia) Hlen Hp). split; try done. simpl. lia. }
  assert (forall (c : bool) (x : SignatureCache C), is_Some (if c then Some x else None) <-> c = true) as Hc.
  { intros [] x; [done|]. split; [by intros []|done]. }
  assert (default false sig_cache = true <-> sig_cache = Some true) as Hd by (destruct sig_cache as [[]|]; naive_solver).
  destruct node_id as [v|]; [destruct (Nat.eqb_spec (length v) 20) as [E|]; [|by exists v]|];
    cbn [result_bind inner tasks disk]; split_and!; try done.
  - intros w [= <-]. done.
  - simpl. rewrite (proj1 (Hp _)). simpl. by rewrite Hc.
  - apply Hinv. by intros w [= <-].
  - simpl. rewrite (proj1 (Hp _)). simpl. by rewrite Hc.
  - by apply Hinv.
Qed.

(** Without an issuer path the issuer checks are not skipped but fail.
    When the empty path cannot be read, every update of the status list through
    such a Python server is rejected ([None]), whatever the value and its
    signature. *)
Theorem no_issuer_path_rejects (h : Hd) (t : Z) (v : bytes) (e : io_error) (s : PyServer R) :
  py_inv h t s -> issuer_pub_key_path h = [] -> read_file h [] = Err e ->
  exists s', py_call CRAWL_FUEL t (PUpdate STATUS_LIST_KEY v None) s = Some (Ok PyNone, s').
Proof.
  intros Hi Hp Hr. pose proof (py_server _ _ _ Hi) as Hsv. cbn [py_call]. unfold py_update, server_update.
  pose proof (server_get_spec h CRAWL_FUEL t STATUS_LIST_KEY (inner s) Hsv) as Hg.
  destruct (server_get_returns h t STATUS_LIST_KEY (inner s) Hsv) as [[old i] Eg]. rewrite Eg in *.
  cbn [mbind option_bind]. destruct Hg as (Hi1 & _). destruct old as [old|]; [|by eexists].
  pose proof (pi_handler _ _ (proj1 Hi1)) as Hh. cbn [snd] in Hh. rewrite Hh. cbv zeta.
  rewrite bool_decide_true, bool_decide_false by (done || by intros []). cbn [negb andb].
  assert (unwrap_or false (handle_issuer_node_signature_verification h v) = false) as ->; [|by eexists].
  apply not_true_iff_false. rewrite unwrap_or_true. simpl. unfold did_issuer_verification, load_issuer_pub_key.
  rewrite Hp, Hr. destruct (get_alg_string v) as [alg|]; [|done]. simpl.
  destruct (map_err _ (resolve_alg_and_length alg)) as [[? n]|]; [|done]. simpl.
  by destruct (extract_sig_and_data v n) as [[]|].
Qed.

End py_server_spec.

(** ** Examples *)

#[local] Existing Instances toy_prims toy_laws toy_doc toy_doc_laws btree_map tree_json toy_hex demo_hashes demo_hash_laws plain_addr toy_keygen toy_keygen_laws.

Abbreviation py_net := (Running ForgetfulStorage (DIDSignatureVerifierHandler unit) SimpleCache).

Definition unreadable (_ : bytes) : result bytes unit := Err tt.
Definition alone (p : KademliaProtocol ForgetfulStorage (DIDSignatureVerifierHandler unit) SimpleCache) : py_net :=
  mkRunning p (fun _ _ _ => None) 0.

(** [Server()] in Python. *)
Definition py_demo : PyServer py_net :=
  mkPyServer (Server_new 0 (mkDIDHandler [] unreadable) 20 3 None [x01] (server_storage None) false alone) Lifecycle.new toy_fs.

Lemma py_demo_inv : py_inv (mkDIDHandler [] unreadable) 0 py_demo.
Proof.
  destruct (Server_new_inv (mkDIDHandler [] unreadable) 0 20 3 None [x01] false alone) as [Hi Hn]; [lia|done|done|].
  split; try done. simpl. lia.
Qed.

Lemma py_server_new_ok_witness :
  match PyServer_new 0 None None None None None unreadable [x01] alone toy_fs with
  | Ok s => sksize (inner s) = 20%nat /\ listening (inner s) = false
  | Err _ => False
  end.
Proof.
  pose proof (py_server_new_ok 0 None None None None None unreadable [x01] alone toy_fs (fun p => conj eq_refl I)) as H.
  destruct (PyServer_new 0 None None None None None unreadable [x01] alone toy_fs) as [s|e].
  - destruct H as (_ & Hk & _ & Hl & _). split; [exact Hk|exact Hl].
  - destruct H as (v & Hv & _). discriminate Hv.
Defined.

Definition py_demo_calls : list (Z * PyMethod) :=
  [(1, PListen 2 true 5678 "127.0.0.1"); (2, PListen 2 true 5678 "127.0.0.1"); (3, PSet (b! "k") [x00]);
   (4, PGet (b! "k")); (5, PStop)].

(** Between the calls the node's state is saved. *)
Definition saver (now : Z) (s : PyServer py_net) : PyServer py_net :=
  match py_save_state now (b! "node.json") s with Some (_, s) => s | None => s end.

Lemma saver_inv h t t' s : t <= t' -> py_inv h t s -> py_inv h t' (saver t' s).
Proof.
  intros Ht Hi. apply (py_inv_later h t t') in Hi; [|done].
  destruct (py_call_ok h t' (PSaveState (b! "node.json")) s Hi) as (r & s1 & E & Hi1 & _). cbn [py_call] in E.
  unfold saver. by rewrite E.
Qed.

Lemma py_session_typed_witness :
  exists rs s', py_session CRAWL_FUEL saver py_demo_calls py_demo = Some (rs, s') /\
    Forall2 (py_typed (mkDIDHandler [] unreadable)) (snd <$> py_demo_calls) rs.
Proof.
  destruct (py_session_typed (mkDIDHandler [] unreadable) saver 0 py_demo_calls py_demo (saver_inv _) py_demo_inv) as (rs & s' & E & Ht & _).
  - simpl. lia.
  - exists rs, s'. split; [exact E|exact Ht].
Defined.

Lemma no_issuer_path_rejects_witness :
  exists s', py_call CRAWL_FUEL 0 (PUpdate STATUS_LIST_KEY [x01] None) py_demo = Some (Ok PyNone, s').
Proof.
  exact (no_issuer_path_rejects (mkDIDHandler [] unreadable) 0 [x01] tt py_demo py_demo_inv eq_refl eq_refl).
Defined.

Definition py_identity : PyDilithiumKeyManager * FileSystem := PyDilithium_new (b! "keys/a") 2 toy_fs.

Lemma py_level_override_witness :
  exists pk sk s, py_dilithium_sign (fst py_identity) sk (b! "hello") = Ok s /\
    py_dilithium_verify (fst py_identity) pk (b! "hello") s = Ok true /\
    py_get_jose_format (fst py_identity) pk !! (b! "alg") = Some (b! "CRYDI2").
Proof.
  pose proof (py_level_override (b! "keys/a") (b! "alice") 2 5 (fun _ => x07) toy_fs (snd py_identity) (fst py_identity)
    (surjective_pairing _)) as H. simpl in H.
  edestruct H as (_ & _ & _ & fs2 & fs3 & _ & _ & _ & _ & Hs & Hj).
  - reflexivity.
  - apply (bool_decide_unpack _). vm_compute. exact I.
  - apply (bool_decide_unpack _). vm_compute. exact I.
  - apply (bool_decide_unpack _). vm_compute. exact I.
  - destruct (Hs (b! "hello")) as (sg & H1 & H2). eexists _, _, sg. split; [exact H1|]. split; [exact H2|exact Hj].
Defined.
