(* ===== verification/Harness.v ===== *)
(** * Harness: the resilience test

    Models [src/scripts/resilience_attacker.rs] and
    [src/scripts/resilience_victim.rs]: the loop that keeps a bounded number of
    calls in flight, the counting of their results in the two kinds of phase, the
    forged records, the verdict, and the waiting and seeding of the victim, of which
    [Resilience.v] makes the two programs.  Which
    task of the [JoinSet] finishes next ([pick]) and how each call ends are
    arbitrary functions.  A phase keeps the list of its samples; the figures
    reported of them are in [Latency.v]. *)
From S2P Require Import Prelude Node Routing RoutingTable RoutingTableSpec Storage Text Json Crypto AuthHandler Did SigCache Crawling Protocol ProtocolSpec Network NetworkSpec.
From Stdlib Require Import Strings.Byte.
Local Open Scope Z_scope.

(** ** A bounded number of tasks in flight *)

Section bounded.
Context {J A : Type}.
Variable concurrency : nat.
Variable pick : nat -> nat -> nat.
Variable on_join : A -> J -> A.

(** The tasks running, those not yet spawned, what was counted, and the number of
    tasks joined. *)
Record Loop := mkLoop { jset : list J; iter : list J; acc : A; joined : nat }.

(** [while jset.len() < concurrency { match iter.next() { .. } }] *)
Fixpoint fill (jset iter : list J) : list J * list J :=
  match iter with
  | [] => (jset, [])
  | j :: rest => if Nat.ltb (length jset) concurrency then fill (jset ++ [j]) rest else (jset, iter)
  end.

(** One turn of the loop; [None] is the [break]. *)
Definition turn (l : Loop) : option Loop :=
  let '(js, it) := fill (jset l) (iter l) in
  match js with
  | [] => None
  | j0 :: _ =>
      let i := (pick (joined l) (length js) mod length js)%nat in
      let j := nth i js j0 in
      Some (mkLoop (take i js ++ drop (S i) js) it (on_join (acc l) j) (S (joined l)))
  end.

Fixpoint run_loop (fuel : nat) (l : Loop) : option A :=
  match fuel with
  | O => None
  | S fuel => match turn l with Some l => run_loop fuel l | None => Some (acc l) end
  end.

(** States the loop goes through. *)
Inductive turns : Loop -> Loop -> Prop :=
| turns_refl l : turns l l
| turns_step l l' l'' : turns l l' -> turn l' = Some l'' -> turns l l''.

(** *** Facts *)

Lemma fill_spec js it :
  (length js <= concurrency)%nat ->
  let '(js', it') := fill js it in
  js' ++ it' = js ++ it /\ (length js' <= concurrency)%nat /\ (concurrency <> 0%nat -> js' = [] -> it' = []).
Proof.
  revert js. induction it as [|j it IH]; intros js Hl; simpl; [done|].
  destruct (Nat.ltb_spec (length js) concurrency) as [Hlt|Hge].
  - specialize (IH (js ++ [j])). rewrite length_app in IH. simpl in IH. specialize (IH ltac:(lia)).
    destruct (fill (js ++ [j]) it) as [js' it']. rewrite <- app_assoc in IH. done.
  - split_and!; [done|done|]. intros Hc ->. simpl in Hge. lia.
Qed.

Lemma pick_perm (js : list J) i j0 :
  (i < length js)%nat -> js ≡ₚ nth i js j0 :: (take i js ++ drop (S i) js).
Proof.
  intros Hi. rewrite <- (take_drop i js) at 1. destruct (drop i js) as [|j rest] eqn:E.
  { apply (f_equal length) in E. rewrite length_drop in E. simpl in E. lia. }
  assert (nth i js j0 = j) as ->.
  { transitivity (nth i (take i js ++ j :: rest) j0); [by rewrite <- E, take_drop|].
    rewrite app_nth2, length_take by (rewrite length_take; lia).
    by replace (i - i `min` length js)%nat with 0%nat by lia. }
  replace (drop (S i) js) with rest.
  - by rewrite Permutation_middle.
  - change (S i) with (1 + i)%nat. rewrite Nat.add_comm, <- drop_drop, E. done.
Qed.

Lemma removed_length (js : list J) i : (length (take i js ++ drop (S i) js) <= length js)%nat.
Proof. rewrite length_app, length_take, length_drop. lia. Qed.

(** At most [concurrency] tasks run, in every state. *)
Lemma turns_bounded l l' :
  turns l l' -> (length (jset l) <= concurrency)%nat -> (length (jset l') <= concurrency)%nat.
Proof.
  intros Ht Hl. induction Ht as [|l l' l'' _ IH Hs]; [done|]. specialize (IH Hl). revert Hs. unfold turn.
  pose proof (fill_spec (jset l') (iter l') IH) as Hf. destruct (fill (jset l') (iter l')) as [js it].
  destruct Hf as (_ & Hb & _). destruct js as [|j0 js0]; [done|]. intros [= <-].
  etrans; [apply removed_length|exact Hb].
Qed.

(** Every task is joined once: what is counted is what one gets by counting the
    tasks in some order. *)
Lemma run_loop_spec fuel l :
  concurrency <> 0%nat -> (length (jset l) <= concurrency)%nat ->
  (length (jset l) + length (iter l) < fuel)%nat ->
  exists order, order ≡ₚ jset l ++ iter l /\ run_loop fuel l = Some (foldl on_join (acc l) order).
Proof.
  intros Hc. revert l. induction fuel as [|fuel IH]; intros l Hl Hf; [lia|]. cbn [run_loop]. unfold turn.
  pose proof (fill_spec (jset l) (iter l) Hl) as Hs. destruct (fill (jset l) (iter l)) as [js it].
  destruct Hs as (Happ & Hb & He). pose proof (f_equal length Happ) as Hlen. rewrite !length_app in Hlen.
  destruct js as [|j0 js0].
  - exists []. rewrite <- Happ, (He Hc eq_refl). done.
  - set (js := j0 :: js0) in *. set (i := (pick (joined l) (length js) mod length js)%nat).
    assert (i < length js)%nat as Hi by (apply Nat.mod_upper_bound; done).
    pose proof (pick_perm js i j0 Hi) as Hperm. pose proof (Permutation_length Hperm) as Hpl. cbn [length] in Hpl.
    destruct (IH (mkLoop (take i js ++ drop (S i) js) it (on_join (acc l) (nth i js j0)) (S (joined l)))) as (order & Ho & Hr).
    + cbn [jset]. lia.
    + cbn [jset iter]. lia.
    + exists (nth i js j0 :: order). split; [|exact Hr]. cbn [jset iter] in Ho. rewrite <- Happ.
      transitivity ((nth i js j0 :: take i js ++ drop (S i) js) ++ it); [by apply perm_skip|].
      by apply Permutation_app_tail.
Qed.

End bounded.
Arguments mkLoop {J A} _ _ _ _.

(** ** The phases *)

(** How a spawned task ends: the call returns in time, the timer of 4.5 seconds
    fires first, or the task panics. *)
Inductive CallEnd (V : Type) :=
| Answered (v : V) (elapsed : Z)
| TimedOut (elapsed : Z)
| TaskPanic.
Arguments Answered {V} v elapsed.
Arguments TimedOut {V} elapsed.
Arguments TaskPanic {V}.

Section phases.
Context `{HA : Hashes}.
Variable pick : nat -> nat -> nat.

Record StoreCount := mkStoreCount {
  accepted : nat;
  rejected : nat;
  timed_out : nat;
  accepted_keys : list bytes;
  latency : list Z
}.

(** What the task returns, as [join_next] gives it: [None] is a panic. *)
Definition store_result (key : bytes) (e : CallEnd bool) : option (bool * bool * bytes * Z) :=
  match e with
  | Answered ok t => Some (false, ok, key, t)
  | TimedOut t => Some (true, false, key, t)
  | TaskPanic => None
  end.

Definition count_store (c : StoreCount) (j : bytes * CallEnd bool) : StoreCount :=
  match store_result (fst j) (snd j) with
  | Some (is_timeout, ok, key, elapsed) =>
      let lat := latency c ++ [elapsed] in
      if is_timeout : bool then mkStoreCount (accepted c) (rejected c) (S (timed_out c)) (accepted_keys c) lat
      else if ok : bool then mkStoreCount (S (accepted c)) (rejected c) (timed_out c) (accepted_keys c ++ [key]) lat
      else mkStoreCount (accepted c) (S (rejected c)) (timed_out c) (accepted_keys c) lat
  | None => mkStoreCount (accepted c) (rejected c) (S (timed_out c)) (accepted_keys c) (latency c)
  end.

(** [call i dkey record] is how the [i]-th call ends. *)
Definition store_phase (call : nat -> bytes -> bytes -> CallEnd bool) (pool : list (bytes * bytes)) (concurrency : nat)
  : option StoreCount :=
  let jobs := imap (fun i kr => (fst kr, call i (digest (fst kr)) (snd kr))) pool in
  run_loop concurrency pick count_store (S (length pool)) (mkLoop [] jobs (mkStoreCount 0 0 0 [] []) 0).

Record GetCount := mkGetCount { hits : nat; misses : nat; get_timed_out : nat; get_latency : list Z }.

(** [timeout(..).await.ok().flatten().is_some()] *)
Definition get_result (e : CallEnd (option bytes)) : option (bool * Z) :=
  match e with
  | Answered v t => Some (bool_decide (is_Some v), t)
  | TimedOut t => Some (false, t)
  | TaskPanic => None
  end.

Definition count_get (c : GetCount) (e : CallEnd (option bytes)) : GetCount :=
  match get_result e with
  | Some (found, elapsed) =>
      let lat := get_latency c ++ [elapsed] in
      if found : bool then mkGetCount (S (hits c)) (misses c) (get_timed_out c) lat
      else mkGetCount (hits c) (S (misses c)) (get_timed_out c) lat
  | None => mkGetCount (hits c) (misses c) (S (get_timed_out c)) (get_latency c)
  end.

Definition get_phase (call : nat -> bytes -> CallEnd (option bytes)) (keys : list bytes) (concurrency : nat)
  : option GetCount :=
  run_loop concurrency pick count_get (S (length keys)) (mkLoop [] (imap call keys) (mkGetCount 0 0 0 []) 0).

(** *** Facts *)

Definition is_answer {V} (p : V -> bool) (e : CallEnd V) : bool :=
  match e with Answered v _ => p v | _ => false end.
Definition is_timeout {V} (e : CallEnd V) : bool := match e with TimedOut _ => true | _ => false end.
Definition is_panic {V} (e : CallEnd V) : bool := match e with TaskPanic => true | _ => false end.

(** How many elements satisfy [p]. *)
Definition count {T} (p : T -> bool) (l : list T) : nat := length (filter (fun x => p x = true) l).

Lemma count_cons {T} (p : T -> bool) x l : count p (x :: l) = ((if p x then 1 else 0) + count p l)%nat.
Proof. unfold count. rewrite filter_cons. by destruct (p x). Qed.

Lemma count_perm {T} (p : T -> bool) l l' : l ≡ₚ l' -> count p l = count p l'.
Proof. unfold count. by intros ->. Qed.

Lemma count_store_all jobs c :
  let r := foldl count_store c jobs in
  accepted r = (accepted c + count (is_answer (fun ok => ok)) (snd <$> jobs))%nat /\
  rejected r = (rejected c + count (is_answer negb) (snd <$> jobs))%nat /\
  timed_out r = (timed_out c + count is_timeout (snd <$> jobs) + count is_panic (snd <$> jobs))%nat /\
  accepted_keys r = accepted_keys c ++ (fst <$> filter (fun j => is_answer (fun ok => ok) (snd j) = true) jobs) /\
  (length (latency r) + count is_panic (snd <$> jobs))%nat = (length (latency c) + length jobs)%nat.
Proof.
  revert c. induction jobs as [|[k e] jobs IH]; intros c; cbn [foldl].
  { simpl. rewrite app_nil_r. unfold count. simpl. split_and!; [lia..|done|lia]. }
  destruct (IH (count_store c (k, e))) as (Ha & Hr & Ht & Hk & Hl). cbv zeta. rewrite Ha, Hr, Ht, Hk.
  rewrite fmap_cons, !count_cons, filter_cons. cbn [snd].
  assert (forall x, length (latency c ++ [x]) = S (length (latency c))) as Hx.
  { intros x. rewrite length_app. simpl. lia. }
  destruct e as [[] t|t|]; cbn [count_store store_result fst snd accepted rejected timed_out accepted_keys latency is_answer
    is_timeout is_panic negb decide decide_rel] in *; rewrite ?Hx in Hl; simpl; (split_and!; [lia..| |simpl in *; lia]).
  - by rewrite <- app_assoc.
  - done.
  - done.
  - done.
Qed.

Lemma count_get_all es c :
  let r := foldl count_get c es in
  hits r = (hits c + count (is_answer (fun v => bool_decide (is_Some v))) es)%nat /\
  misses r = (misses c + count (is_answer (fun v => negb (bool_decide (is_Some v)))) es + count is_timeout es)%nat /\
  get_timed_out r = (get_timed_out c + count is_panic es)%nat.
Proof.
  revert c. induction es as [|e es IH]; intros c; cbn [foldl]; [unfold count; simpl; lia|].
  destruct (IH (count_get c e)) as (Hh & Hm & Ht). cbv zeta. rewrite Hh, Hm, Ht, !count_cons.
  destruct e as [v t|t|]; cbn [count_get get_result is_answer is_timeout is_panic]; [destruct (bool_decide _)|..]; simpl; lia.
Qed.

(** Every end is counted under exactly one heading. *)
Lemma count_ends {V} (p : V -> bool) (es : list (CallEnd V)) :
  (count (is_answer p) es + count (is_answer (fun v => negb (p v))) es + count is_timeout es + count is_panic es = length es)%nat.
Proof.
  induction es as [|e es IH]; [done|]. rewrite !count_cons. cbn [length].
  destruct e as [v t|t|]; simpl; [destruct (p v)|..]; simpl; lia.
Qed.

(** A phase sends and counts every record once.  For every way the calls end
    and every order in which they finish: with a concurrency above 0, at most that
    many calls are in flight; the STORE phase returns with [accepted] and
    [rejected] the numbers of calls answered true and false, [timed_out] the rest,
    the three adding up to the pool, and exactly the accepted keys; the GET phase
    counts the records found as hits, but the calls that timed out as misses.
    With a concurrency of 0 the STORE phase returns at once with all counts 0. *)
Theorem phases_count_once (call : nat -> bytes -> bytes -> CallEnd bool) (pool : list (bytes * bytes))
    (get_call : nat -> bytes -> CallEnd (option bytes)) (keys : list bytes) (concurrency : nat) :
  let jobs := imap (fun i kr => (fst kr, call i (digest (fst kr)) (snd kr))) pool in
  let ends := snd <$> jobs in
  let gets := imap get_call keys in
  (concurrency <> 0%nat ->
   (forall c l, turns concurrency pick count_store (mkLoop [] jobs c 0) l -> (length (jset l) <= concurrency)%nat) /\
   (exists c, store_phase call pool concurrency = Some c /\
     accepted c = count (is_answer (fun ok => ok)) ends /\ rejected c = count (is_answer negb) ends /\
     timed_out c = (count is_timeout ends + count is_panic ends)%nat /\
     (accepted c + rejected c + timed_out c = length pool)%nat /\
     accepted_keys c ≡ₚ (fst <$> filter (fun j => is_answer (fun ok => ok) (snd j) = true) jobs)) /\
   (exists g, get_phase get_call keys concurrency = Some g /\
     hits g = count (is_answer (fun v => bool_decide (is_Some v))) gets /\
     misses g = (count (is_answer (fun v => negb (bool_decide (is_Some v)))) gets + count is_timeout gets)%nat /\
     get_timed_out g = count is_panic gets)) /\
  (concurrency = 0%nat -> store_phase call pool concurrency = Some (mkStoreCount 0 0 0 [] [])).
Proof.
  intros jobs ends gets. split.
  - intros Hc. split_and!.
    + intros c l Ht. eapply turns_bounded; [exact Ht|]. simpl. lia.
    + destruct (run_loop_spec concurrency pick count_store (S (length pool)) (mkLoop [] jobs (mkStoreCount 0 0 0 [] []) 0))
        as (order & Hp & Hr); [done|simpl; lia|simpl; unfold jobs; rewrite length_imap; lia|].
      cbn [jset iter acc app] in *. eexists. split; [exact Hr|].
      destruct (count_store_all order (mkStoreCount 0 0 0 [] [])) as (Ha & Hrj & Ht & Hk & _). cbv zeta in *.
      assert ((snd <$> order) ≡ₚ ends) as He by (by rewrite Hp).
      rewrite Ha, Hrj, Ht, Hk, !(count_perm _ _ _ He). cbn [accepted rejected timed_out accepted_keys app].
      split_and!; [done|done|done| |by rewrite Hp].
      pose proof (count_ends (fun ok : bool => ok) ends) as Hn.
      assert (length ends = length pool) as Hl by (unfold ends, jobs; by rewrite length_fmap, length_imap).
      change (is_answer (fun v : bool => negb ((fun ok : bool => ok) v))) with (is_answer negb) in Hn. lia.
    + destruct (run_loop_spec concurrency pick count_get (S (length keys)) (mkLoop [] gets (mkGetCount 0 0 0 []) 0))
        as (order & Hp & Hr); [done|simpl; lia|simpl; unfold gets; rewrite length_imap; lia|].
      cbn [jset iter acc app] in *. eexists. split; [exact Hr|].
      destruct (count_get_all order (mkGetCount 0 0 0 [])) as (Hh & Hm & Ht). cbv zeta in *.
      by rewrite Hh, Hm, Ht, !(count_perm _ _ _ Hp).
  - intros ->. unfold store_phase. cbn [run_loop]. unfold turn. cbn [jset iter]. fold jobs.
    by destruct jobs.
Qed.

End phases.

(** ** The attack *)

(** [b ^ 0xFF] *)
Definition flip_byte (b : byte) : byte := default b (Byte.of_N (N.lxor (Byte.to_N b) 255)).

(** [rec[500] ^= 0xFF]; [None] is the panic on a shorter record. *)
Definition tamper (record : bytes) : option bytes :=
  b ← record !! 500%nat; Some (<[500%nat := flip_byte b]> record).

Record AttackConfig := mkAttack {
  target_ip : bytes;
  target_port : Z;
  attacker_port : Z;
  pool_size : nat;
  concurrency : nat
}.

(** [std::env::var(name).ok().and_then(|s| s.parse().ok()).unwrap_or(default)] *)
Definition env_or (env : bytes -> option bytes) (name : bytes) (parse : bytes -> option Z) (d : Z) : Z :=
  default d (env name ≫= parse).

Definition parse_usize : bytes -> option Z := parse_uint (2 ^ 64 - 1).

Definition attack_config (env : bytes -> option bytes) : AttackConfig :=
  let target_addr := default (b! "172.21.0.10:5678") (env (b! "TARGET_ADDR")) in
  let '(ip, rest) := split_first x3a target_addr in
  mkAttack ip (default 5678 (rest ≫= parse_u16))
    (env_or env (b! "ATTACKER_PORT") parse_u16 5679)
    (Z.to_nat (env_or env (b! "POOL_SIZE") parse_usize 300))
    (Z.to_nat (env_or env (b! "CONCURRENCY") parse_usize 50)).

Definition inv_size (c : AttackConfig) : nat := Nat.max (pool_size c / 50) 10.

(** What the program reports and whether it exits with an error. *)
Record AttackReport := mkReport {
  phase1 : StoreCount;
  phase2 : StoreCount;
  phase3 : GetCount;
  exit_failure : bool
}.

Section attack.
Context `{HA : Hashes} `{CP : CryptoPrims} `{JM : JsonMap} `{SJ : SerdeJson} `{B6 : Base64Engine}.

(** The key pairs and UUID drawn for the [i]-th record. *)
Record Draw := mkDraw { d_dpk : bytes; d_dsk : bytes; d_kpk : bytes; d_uuid : bytes }.

Definition drawn_record (d : Draw) : option (bytes * bytes) := make_record (d_dpk d) (d_dsk d) (d_kpk d) (d_uuid d).

Definition forged_record (d : Draw) : option (bytes * bytes) :=
  '(key, rec) ← drawn_record d; rec ← tamper rec; Some (key, rec).

Definition valid_pool (draw : nat -> Draw) (c : AttackConfig) : option (list (bytes * bytes)) :=
  mapM (fun i => drawn_record (draw i)) (seq 0 (pool_size c)).

Definition invalid_pool (draw : nat -> Draw) (c : AttackConfig) : option (list (bytes * bytes)) :=
  mapM (fun i => forged_record (draw i)) (seq (pool_size c) (inv_size c)).

(** [run] from the generation of the records on; [calls1], [calls2] and [gets] are
    how the calls of the three phases end.  [None] is a panic. *)
Definition attack (pick : nat -> nat -> nat -> nat) (draw : nat -> Draw)
    (calls1 calls2 : nat -> bytes -> bytes -> CallEnd bool) (gets : nat -> bytes -> CallEnd (option bytes))
    (c : AttackConfig) : option AttackReport :=
  valid ← valid_pool draw c;
  invalid ← invalid_pool draw c;
  p1 ← store_phase (pick 1%nat) calls1 valid (concurrency c);
  p2 ← store_phase (pick 2%nat) calls2 invalid (concurrency c);
  p3 ← get_phase (pick 3%nat) gets (accepted_keys p1) (concurrency c);
  Some (mkReport p1 p2 p3 (negb (Nat.eqb (accepted p2) 0))).

End attack.

Section attack_spec.
Context `{HA : Hashes} `{CP : CryptoPrims} `{CL : !CryptoLaws} `{JM : JsonMap} `{SJ : SerdeJson} `{SL : !SerdeLaws}.
Context `{B6 : Base64Engine} `{BL : !Base64Laws} {io_error : Type}.

Lemma flip_byte_ne b : flip_byte b <> b.
Proof. by destruct b. Qed.

(** A record of a drawn key pair, in its parts. *)
Lemma drawn_parts d :
  dil_keypair 2 (d_dpk d) (d_dsk d) ->
  exists key doc, let sig := dil_detached_sign 2 doc (d_dsk d) in
    drawn_record d = Some (key, alg12 ++ sig ++ doc) /\ length sig = SIG_LEN /\
    encode_did_document (build_did_document (b! "did:iiot:" ++ d_uuid d) (d_dpk d) (d_kpk d)) = Some doc.
Proof.
  intros Hk. set (v := build_did_document (b! "did:iiot:" ++ d_uuid d) (d_dpk d) (d_kpk d)).
  destruct (encode_Some v) as (doc & Eb & Ev). destruct (dht_key_Some (b! "did:iiot:" ++ d_uuid d)) as [key Ek].
  exists key, doc. cbv zeta. split_and!; [| |exact Eb].
  - unfold drawn_record, make_record. rewrite Ek. cbn [mbind option_bind].
    change (sort_json_keys _) with (sort_json_keys v). by rewrite Ev.
  - destruct (dil_keypair_sizes _ _ _ Hk) as (n & Hs & Hlen). apply dil_sizes_sig in Hs. simpl in Hs. subst n.
    specialize (Hlen doc). unfold len, SIG_LEN in *. lia.
Qed.

(** A forged record is a record with a wrong signature.  For a drawn
    Dilithium-2 key pair and a UUID in UTF-8, the record of the pool verifies, and
    the forged one, under the same key, differs from it in one byte of the
    signature; the handler's verdict on the forged record is whether that altered
    signature verifies for the unchanged document under the document's key. *)
Theorem forged_record_verdict (h : DIDSignatureVerifierHandler io_error) (d : Draw) :
  dil_keypair 2 (d_dpk d) (d_dsk d) -> utf8_valid (d_uuid d) = true ->
  exists key sig sig' doc,
    drawn_record d = Some (key, alg12 ++ sig ++ doc) /\
    handle_signature_verification h (alg12 ++ sig ++ doc) = Ok true /\
    forged_record d = Some (key, alg12 ++ sig' ++ doc) /\
    length sig' = length sig /\ (forall i, sig' !! i <> sig !! i <-> i = 488%nat) /\
    handle_signature_verification h (alg12 ++ sig' ++ doc) = map_err Crypto (dilithium_verify (d_dpk d) sig' doc).
Proof.
  intros Hk Hu. destruct (drawn_parts d Hk) as (key & doc & Hr & Hl & He). cbv zeta in *.
  set (sig := dil_detached_sign 2 doc (d_dsk d)) in *.
  assert (doc_has_key doc (d_dpk d)) as Hd by (eapply encoded_has_key; [|exact He]; by rewrite utf8_valid_app).
  destruct (lookup_lt_is_Some_2 sig 488) as [b Hb]; [rewrite Hl; unfold SIG_LEN; lia|].
  exists key, sig, (<[488%nat := flip_byte b]> sig), doc. rewrite length_insert. split_and!; try done.
  - change alg12 with (alg_field (b! "Dilithium-2")). by apply built_record_ok with (d_dpk d).
  - unfold forged_record. rewrite Hr. cbn [mbind option_bind]. unfold tamper.
    rewrite (lookup_app_r alg12) by (simpl; lia). change (500 - length alg12)%nat with 488%nat.
    rewrite lookup_app_l, Hb by (rewrite Hl; unfold SIG_LEN; lia). cbn [mbind option_bind].
    rewrite (insert_app_r_alt alg12) by (simpl; lia). change (500 - length alg12)%nat with 488%nat.
    by rewrite insert_app_l by (rewrite Hl; unfold SIG_LEN; lia).
  - intros i. split.
    + intros Hi. destruct (decide (i = 488%nat)); [done|]. by rewrite list_lookup_insert_ne in Hi.
    + intros ->. rewrite list_lookup_insert_eq, Hb by (rewrite Hl; unfold SIG_LEN; lia). intros [= E]. by apply flip_byte_ne in E.
  - change alg12 with (alg_field (b! "Dilithium-2")). apply packed_verdict; [|done].
    unfold len. rewrite length_insert, Hl. done.
Qed.

Lemma forged_Some d : dil_keypair 2 (d_dpk d) (d_dsk d) -> is_Some (forged_record d).
Proof.
  intros Hk. destruct (drawn_parts d Hk) as (key & doc & Hr & Hl & _). unfold forged_record. rewrite Hr. cbn [mbind option_bind].
  unfold tamper. destruct (lookup_lt_is_Some_2 (alg12 ++ dil_detached_sign 2 doc (d_dsk d) ++ doc) 500) as [b ->]; [|done].
  rewrite !length_app, Hl. change (length alg12) with 12%nat. unfold SIG_LEN. lia.
Qed.

Lemma count_pos {T} (p : T -> bool) l : count p l <> 0%nat <-> exists x, x ∈ l /\ p x = true.
Proof.
  unfold count. split.
  - destruct (filter _ l) as [|x l'] eqn:E; [done|]. intros _. exists x.
    assert (x ∈ filter (fun x => p x = true) l) as Hf by (rewrite E; apply list_elem_of_here).
    by apply list_elem_of_filter in Hf as [Ht Hx].
  - intros (x & Hx & Hp) Hn%nil_length_inv.
    assert (x ∈ filter (fun x => p x = true) l) as Hf by (by apply list_elem_of_filter).
    rewrite Hn in Hf. by apply elem_of_nil in Hf.
Qed.

Lemma store_phase_accepted pick (call : nat -> bytes -> bytes -> CallEnd bool) pool k :
  k <> 0%nat ->
  exists c, store_phase pick call pool k = Some c /\
    (accepted c <> 0%nat <-> exists i key rec t, pool !! i = Some (key, rec) /\ call i (digest key) rec = Answered true t).
Proof.
  intros Hk. set (jobs := imap (fun i kr => (fst kr, call i (digest (fst kr)) (snd kr))) pool).
  destruct (run_loop_spec k pick count_store (S (length pool)) (mkLoop [] jobs (mkStoreCount 0 0 0 [] []) 0))
    as (order & Hp & Hr); [done|simpl; lia|simpl; unfold jobs; rewrite length_imap; lia|].
  eexists. split; [exact Hr|]. cbn [jset iter acc app] in *.
  destruct (count_store_all order (mkStoreCount 0 0 0 [] [])) as (-> & _). cbn [accepted].
  rewrite Nat.add_0_l, (count_perm _ _ (snd <$> jobs)) by (by rewrite Hp). rewrite count_pos. split.
  - intros (e & ([k' e'] & -> & He)%list_elem_of_fmap & Ht). apply list_elem_of_lookup in He as [i Hi].
    unfold jobs in Hi. rewrite list_lookup_imap in Hi. destruct (pool !! i) as [[key rec]|] eqn:Ep; [|done].
    simpl in Hi. injection Hi as <- <-. exists i, key, rec. simpl in Ht.
    destruct (call i (digest key) rec) as [[] t|t|]; try done. by exists t.
  - intros (i & key & rec & t & Hi & E). exists (Answered true t). split; [|done].
    apply list_elem_of_fmap. exists (key, Answered true t). split; [done|]. apply list_elem_of_lookup.
    exists i. unfold jobs. rewrite list_lookup_imap, Hi. simpl. by rewrite E.
Qed.

(** What the attack's verdict means.  For drawn Dilithium-2 key pairs and a
    concurrency above 0, the program generates its records and runs through, with
    at least ten forged records, and exits with a failure exactly when the victim
    accepted some forged record.  With a concurrency of 0 no record is sent, and
    it reports survival whatever the victim would answer. *)
Theorem attack_verdict (pick : nat -> nat -> nat -> nat) (draw : nat -> Draw)
    (calls1 calls2 : nat -> bytes -> bytes -> CallEnd bool) (gets : nat -> bytes -> CallEnd (option bytes)) (c : AttackConfig) :
  (forall i, dil_keypair 2 (d_dpk (draw i)) (d_dsk (draw i))) ->
  exists invalid r, invalid_pool draw c = Some invalid /\ length invalid = inv_size c /\ (10 <= inv_size c)%nat /\
    attack pick draw calls1 calls2 gets c = Some r /\
    (concurrency c <> 0%nat ->
      (exit_failure r = true <->
       exists i key rec t, invalid !! i = Some (key, rec) /\ calls2 i (digest key) rec = Answered true t)) /\
    (concurrency c = 0%nat -> exit_failure r = false).
Proof.
  intros Hk.
  assert (forall l, is_Some (mapM (fun i => forged_record (draw i)) l)) as Hf.
  { intros l. apply mapM_is_Some, Forall_forall. intros i _. by apply forged_Some. }
  assert (is_Some (valid_pool draw c)) as [valid Ev].
  { apply mapM_is_Some, Forall_forall. intros i _.
    destruct (drawn_parts (draw i) (Hk i)) as (key & doc & E & _). by eexists. }
  destruct (Hf (seq (pool_size c) (inv_size c))) as [invalid Ei].
  assert (length invalid = inv_size c) as Hlen by (apply length_mapM in Ei; by rewrite length_seq in Ei).
  unfold attack. rewrite Ev. change (invalid_pool draw c) with (mapM (fun i => forged_record (draw i)) (seq (pool_size c) (inv_size c))).
  rewrite Ei. cbn [mbind option_bind]. exists invalid. unfold store_phase, get_phase.
  destruct (Nat.eq_dec (concurrency c) 0) as [E0|E0].
  - rewrite E0. assert (forall (J A : Type) (js : list J) n pk f a, run_loop 0 pk f (S n) (@mkLoop J A [] js a 0) = Some a) as Hz.
    { intros. cbn [run_loop]. unfold turn. cbn [jset iter]. by destruct js. }
    rewrite !Hz. cbn [mbind option_bind]. rewrite Hz. cbn [mbind option_bind].
    eexists. split_and!; [done|done|unfold inv_size; lia|done|done|done].
  - destruct (store_phase_accepted (pick 1%nat) calls1 valid (concurrency c) E0) as (p1 & E1 & _).
    destruct (store_phase_accepted (pick 2%nat) calls2 invalid (concurrency c) E0) as (p2 & E2 & Hacc).
    unfold store_phase in E1, E2. rewrite E1. cbn [mbind option_bind]. rewrite E2. cbn [mbind option_bind].
    destruct (run_loop_spec (concurrency c) (pick 3%nat) count_get (S (length (accepted_keys p1)))
      (mkLoop [] (imap gets (accepted_keys p1)) (mkGetCount 0 0 0 []) 0)) as (order & _ & E3);
      [done|simpl; lia|simpl; rewrite length_imap; lia|].
    rewrite E3. cbn [mbind option_bind]. eexists. split_and!; [done|done|unfold inv_size; lia|done| |done].
    intros _. cbn [exit_failure]. by rewrite negb_true_iff, Nat.eqb_neq, Hacc.
Qed.

End attack_spec.

(** ** The victim *)

Section victim.
Context `{US : UnstableSort} `{HO : HashOrder} `{HA : Hashes} `{NA : NetAddr}.
Context `{CP : CryptoPrims} `{JM : JsonMap} `{SJ : SerdeJson} `{B6 : Base64Engine} {io_error : Type}.
Context {C : Type} `{MC : Moka C}.
Local Abbreviation Hd := (DIDSignatureVerifierHandler io_error).
Context {T : Type} `{IS : IStorage T}.
Context {R : Type} `{NW : !Net R T Hd C}.

(** [server.storage.set(digest(key), record)]: nothing is verified. *)
Definition seed_one (now : Z) (s : Server R) (kr : bytes * bytes) : Server R :=
  let p := rproto (running s) in
  set_running s (set_rproto (running s) (set_storage p (set now (storage p) (digest (fst kr)) (snd kr)))).

(** The wait for a first neighbour, looked for every half second: [ticks] is how
    many times the program looks before this model gives up ([None]). *)
Fixpoint wait_for_peer (ticks : nat) (idle : Z -> Server R -> Server R) (now : Z) (s : Server R) : option (Z * Server R) :=
  match ticks with
  | O => None
  | S ticks =>
      let '(ns, s) := bootstrappable_neighbors now s in
      match ns with
      | _ :: _ => Some (now, s)
      | [] => let now := now + 500000000 in wait_for_peer ticks idle now (idle now s)
      end
  end.

End victim.

Section victim_spec.
Context `{US : UnstableSort} `{HO : HashOrder} `{HA : Hashes} `{HAL : !HashLaws} `{NA : NetAddr}.
Context `{CP : CryptoPrims} `{CL : !CryptoLaws} `{JM : JsonMap} `{SJ : SerdeJson} `{SEL : !SerdeLaws}.
Context `{B6 : Base64Engine} `{BL : !Base64Laws} {io_error : Type}.
Context {C : Type} `{MC : Moka C}.
Local Abbreviation Hd := (DIDSignatureVerifierHandler io_error).
Context {T : Type} `{SL : StorageLaws T}.
Context {R : Type} `{NW : !Net R T Hd C} `{NS : !NetSafe R}.

Definition good_draw (d : Draw) : Prop := dil_keypair 2 (d_dpk d) (d_dsk d) /\ utf8_valid (d_uuid d) = true.

Lemma drawn_verifies (h : Hd) d kr :
  good_draw d -> drawn_record d = Some kr -> handle_signature_verification h (snd kr) = Ok true.
Proof.
  intros [Hk Hu] Hr. destruct (drawn_parts d Hk) as (key & doc & Hr' & _ & He). cbv zeta in *.
  rewrite Hr in Hr'. injection Hr' as ->. cbn [snd]. change alg12 with (alg_field (b! "Dilithium-2")).
  apply built_record_ok with (d_dpk d); [done|]. eapply encoded_has_key; [|exact He]. by rewrite utf8_valid_app.
Qed.

Lemma seed_one_inv h now (s : Server R) kr :
  authentic h (snd kr) -> server_inv h now s -> server_inv h now (seed_one now s kr).
Proof.
  intros Ha Hi. apply run_inv_set with now; [lia|exact Hi|]. destruct Hi as [[Hw Hh Hc Hs] _]. split; simpl in *; try done.
  - by apply set_storage_wf.
  - apply storage_authentic_set. intros k w. rewrite get_set. case_decide; [by intros [= <-]|].
    intros Hg. apply (Hs now k); [lia|done].
Qed.

Lemma seeded_get now (records : list (bytes * bytes)) (s : Server R) k :
  k ∉ (fun kr => digest (fst kr)) <$> records ->
  get now (storage (rproto (running (foldl (seed_one now) s records)))) k = get now (storage (rproto (running s))) k.
Proof.
  revert s. induction records as [|kr records IH]; intros s Hk; [done|]. rewrite fmap_cons, not_elem_of_cons in Hk.
  cbn [foldl]. rewrite IH by apply Hk. unfold seed_one. simpl. rewrite rproto_set. simpl. rewrite get_set.
  rewrite decide_False; [done|]. intros E. by apply (proj1 Hk).
Qed.

(** The victim seeds authentic records.  Records of good draws, stored without
    a check, keep the node's invariant: each of them verifies; and when their keys
    have distinct digests each is then read back. *)
Theorem victim_seeds_authentic (h : Hd) (now : Z) (draws : list Draw) (s : Server R) :
  server_inv h now s -> Forall good_draw draws ->
  exists records, mapM drawn_record draws = Some records /\ length records = length draws /\
    server_inv h now (foldl (seed_one now) s records) /\
    Forall (fun kr => handle_signature_verification h (snd kr) = Ok true) records /\
    (NoDup ((fun kr => digest (fst kr)) <$> records) ->
     forall key record, (key, record) ∈ records ->
       get now (storage (rproto (running (foldl (seed_one now) s records)))) (digest key) = Some record).
Proof.
  intros Hi Hg.
  assert (is_Some (mapM drawn_record draws)) as [records Er].
  { apply mapM_is_Some. eapply Forall_impl; [exact Hg|]. intros d [Hk _].
    destruct (drawn_parts d Hk) as (key & doc & E & _). by eexists. }
  exists records. split; [done|]. split; [by apply length_mapM in Er|].
  assert (Forall (fun kr => handle_signature_verification h (snd kr) = Ok true) records) as Hv.
  { apply mapM_Some_1 in Er. clear Hi. induction Er as [|d kr draws records Hd _ IH]; constructor.
    - eapply drawn_verifies; [apply (Forall_inv Hg)|exact Hd].
    - apply IH, (Forall_inv_tail Hg). }
  split_and!; [|done|].
  - clear Er Hg. revert s Hi. induction Hv as [|kr records Hkr _ IH]; intros s Hi; [done|]. cbn [foldl].
    apply IH, seed_one_inv; [|done]. exists (snd kr). split; [done|]. by left.
  - clear Er Hv Hi. revert s. induction records as [|[k r] records IH]; intros s Hn key record Hin;
      [by apply elem_of_nil in Hin|]. rewrite fmap_cons, NoDup_cons in Hn. destruct Hn as [Hk Hn]. cbn [foldl].
    apply elem_of_cons in Hin as [[= -> ->]|Hin]; [|by apply IH].
    rewrite seeded_get by done. unfold seed_one. simpl. rewrite rproto_set. simpl. by rewrite get_set, decide_True.
Qed.

End victim_spec.

(** ** Examples *)

#[local] Existing Instances toy_prims toy_laws btree_map tree_json toy_base64 toy_base64_laws demo_hashes demo_hash_laws plain_addr.
#[local] Existing Instance tree_json_laws.

(** Three records, two at a time; the first call is refused, the second times
    out, the third is accepted. *)
Example store_phase_example :
  store_phase (fun n k => n) (fun i _ _ => if decide (i = 0%nat) then Answered false 5
                                           else if decide (i = 1%nat) then TimedOut 4500 else Answered true 7)
    [([x01], []); ([x02], []); ([x03], [])] 2 = Some (mkStoreCount 1 1 1 [[x03]] [5; 7; 4500]).
Proof. vm_compute. reflexivity. Qed.

Definition toy_draw (_ : nat) : Draw := mkDraw toy_pk toy_sk toy_pk toy_uuid.

Lemma forged_record_verdict_witness :
  exists key sig' doc, forged_record (toy_draw 0) = Some (key, alg12 ++ sig' ++ doc) /\
    handle_signature_verification toy_handler (alg12 ++ sig' ++ doc) = map_err Crypto (dilithium_verify toy_pk sig' doc).
Proof.
  destruct (forged_record_verdict toy_handler (toy_draw 0) toy_keypair eq_refl) as (key & sig & sig' & doc & _ & _ & H1 & _ & _ & H2).
  exists key, sig', doc. split; [exact H1|exact H2].
Defined.

Definition refuse (_ : nat) (_ _ : bytes) : CallEnd bool := Answered false 1.

Lemma attack_verdict_witness :
  exists r, attack (fun _ n _ => n) toy_draw refuse refuse (fun _ _ => TimedOut 4500) (attack_config (fun _ => None)) = Some r /\
    exit_failure r = false.
Proof.
  destruct (attack_verdict (fun _ n _ => n) toy_draw refuse refuse (fun _ _ => TimedOut 4500) (attack_config (fun _ => None))
    (fun _ => toy_keypair)) as (invalid & r & _ & _ & _ & E & Hv & _).
  exists r. split; [exact E|]. destruct (exit_failure r); [|reflexivity].
  destruct (proj1 (Hv ltac:(vm_compute; discriminate)) eq_refl) as (i & key & rec & t & _ & Ht). discriminate Ht.
Defined.

Abbreviation victim_net := (Running ForgetfulStorage (DIDSignatureVerifierHandler unit) SimpleCache).

Definition victim_server : Server victim_net :=
  listen 0 (Server_new 0 toy_handler 20 3 None [x01] (server_storage None) false (fun p => mkRunning p (fun _ _ _ => None) 0)).

Lemma victim_seeds_authentic_witness :
  exists records, mapM drawn_record [toy_draw 0] = Some records /\
    server_inv toy_handler 0 (foldl (seed_one 0) victim_server records).
Proof.
  destruct (victim_seeds_authentic toy_handler 0 [toy_draw 0] victim_server) as (records & E & _ & Hi & _).
  - apply (listen_new_inv toy_handler 0 20 3 None [x01] false); [lia|done|by intros p].
  - constructor; [|constructor]. split; [exact toy_keypair|reflexivity].
  - exists records. split; [exact E|exact Hi].
Defined.
