(* ===== verification/Binary64.v ===== *)
(** * Binary64: the floating-point operations of the programs

    Rust's [f64] is the IEEE binary64 format of the Standard Library's
    [SpecFloat], so that each rounding of the code is in the model.  The lemmas
    show what the rounding of the format does to a mantissa that is too long, that
    small integers and their products are exact, and by how much a quotient by a
    hundred is off: enough to compute the ranks of percentiles ([Latency.v]). *)
From S2P Require Import Prelude.
From Stdlib Require Import Floats.SpecFloat.
Local Open Scope Z_scope.

(** ** binary64 *)

Definition f64_add : spec_float -> spec_float -> spec_float := SFadd 53 1024.
Definition f64_sub : spec_float -> spec_float -> spec_float := SFsub 53 1024.
Definition f64_mul : spec_float -> spec_float -> spec_float := SFmul 53 1024.
Definition f64_div : spec_float -> spec_float -> spec_float := SFdiv 53 1024.
Definition f64_sqrt : spec_float -> spec_float := SFsqrt 53 1024.

(** [n as f64], and a literal [n.0]: to nearest, ties to even. *)
Definition f64_of (n : Z) : spec_float := binary_normalize 53 1024 n 0 false.

(** A decimal literal is the nearest binary64 number. *)
Definition f64_ratio (n d : Z) : spec_float := f64_div (f64_of n) (f64_of d).

(** [f64::ceil]; it is exact, and keeps the sign of a zero result. *)
Definition f64_ceil (x : spec_float) : spec_float :=
  match x with
  | S754_finite s m e =>
      if 0 <=? e then x
      else
        let v := if s then - Zpos m else Zpos m in
        binary_normalize 53 1024 (- ((- v) / 2 ^ (- e))) 0 s
  | _ => x
  end.

(** [x as usize]: toward zero, saturating, and 0 for NaN. *)
Definition f64_to_usize (x : spec_float) : Z :=
  match x with
  | S754_nan | S754_zero _ => 0
  | S754_infinity s => if s then 0 else 2 ^ 64 - 1
  | S754_finite s m e =>
      if s then 0 else Z.min (2 ^ 64 - 1) (if 0 <=? e then Zpos m * 2 ^ e else Zpos m / 2 ^ (- e))
  end.

(** ** Rounding *)

(** The digits of a positive number. *)
Lemma digits_bounds m : 2 ^ (Zpos (digits2_pos m) - 1) <= Zpos m < 2 ^ Zpos (digits2_pos m).
Proof.
  assert (forall d x y, 1 <= d -> 2 ^ (d - 1) <= x < 2 ^ d -> 2 * x <= y <= 2 * x + 1 -> 2 ^ (Z.succ d - 1) <= y < 2 ^ Z.succ d) as Hs.
  { intros d x y Hd Hx Hy. replace (Z.succ d - 1) with (Z.succ (d - 1)) by lia. rewrite !Z.pow_succ_r by lia. lia. }
  induction m as [m IH|m IH|]; cbn [digits2_pos]; [..|done]; rewrite Pos2Z.inj_succ; (eapply Hs; [lia|exact IH|lia]).
Qed.

Lemma digits_le m k : 0 <= k -> Zpos m < 2 ^ k -> Zpos (digits2_pos m) <= k.
Proof.
  intros Hk Hm. pose proof (digits_bounds m) as [Hl _]. destruct (Z.le_gt_cases (Zpos (digits2_pos m)) k); [done|].
  assert (2 ^ k <= 2 ^ (Zpos (digits2_pos m) - 1)) by (apply Z.pow_le_mono_r; lia). lia.
Qed.

Lemma digits_ge m k : 0 <= k -> 2 ^ k <= Zpos m -> k < Zpos (digits2_pos m).
Proof.
  intros Hk Hm. pose proof (digits_bounds m) as [_ Hu]. apply (Z.pow_lt_mono_r_iff 2); lia.
Qed.

Lemma digits_shift m n k : 0 <= k -> Zpos m = Zpos n * 2 ^ k -> Zpos (digits2_pos m) = Zpos (digits2_pos n) + k.
Proof.
  intros Hk E. pose proof (digits_bounds n) as [Hl Hu]. pose proof (Z.pow_pos_nonneg 2 k ltac:(lia) Hk) as Hp. apply Z.le_antisymm.
  - apply digits_le; [lia|]. rewrite Z.pow_add_r by lia. nia.
  - assert (Zpos (digits2_pos n) + k - 1 < Zpos (digits2_pos m)); [|lia]. apply digits_ge; [lia|].
    replace (Zpos (digits2_pos n) + k - 1) with (Zpos (digits2_pos n) - 1 + k) by lia. rewrite Z.pow_add_r by lia. nia.
Qed.

Lemma pow2_xO p : 2 ^ Zpos p~0 = 2 ^ Zpos p * 2 ^ Zpos p.
Proof. rewrite <- Z.pow_add_r by lia. f_equal. lia. Qed.

Lemma pow2_xI p : 2 ^ Zpos p~1 = 2 ^ Zpos p * 2 ^ Zpos p * 2.
Proof. rewrite <- Z.pow_add_r, <- (Z.pow_add_r 2 _ 1) by lia. f_equal. lia. Qed.

Lemma iter_shr_m p mrs : 0 <= shr_m mrs -> shr_m (iter_pos shr_1 p mrs) = shr_m mrs / 2 ^ Zpos p.
Proof.
  assert (forall mrs, 0 <= shr_m mrs -> shr_m (shr_1 mrs) = shr_m mrs / 2) as H1.
  { intros [m r s] Hm. simpl in *. rewrite <- Z.div2_div. destruct m as [|[m|m|]|]; simpl; (done || lia). }
  revert mrs. induction p as [p IH|p IH|]; intros mrs Hm; cbn [iter_pos].
  - assert (0 <= shr_m (shr_1 mrs)) as Hs by (rewrite H1 by done; apply Z.div_pos; lia).
    rewrite !IH, H1 by (rewrite ?IH by done; try apply Z.div_pos; lia). rewrite !Z.div_div by lia. by rewrite pow2_xI, (Z.mul_comm _ 2), Z.mul_assoc.
  - rewrite !IH by (rewrite ?IH by done; try apply Z.div_pos; lia). rewrite Z.div_div by lia. by rewrite pow2_xO.
  - by rewrite H1.
Qed.

Lemma iter_shr_exact p m : iter_pos shr_1 p (Build_shr_record (m * 2 ^ Zpos p) false false) = Build_shr_record m false false.
Proof.
  assert (forall m, shr_1 (Build_shr_record (m * 2) false false) = Build_shr_record m false false) as H1.
  { intros x. rewrite Z.mul_comm. by destruct x. }
  revert m. induction p as [p IH|p IH|]; intros m; cbn [iter_pos].
  - by rewrite pow2_xI, !Z.mul_assoc, H1, !IH.
  - by rewrite pow2_xO, Z.mul_assoc, !IH.
  - apply H1.
Qed.

(** By how many digits a number is too long for the format. *)
Definition excess (m : positive) : Z := Z.max 0 (Zpos (digits2_pos m) - 53).

Lemma shr_step m e l :
  -1000 <= Zpos (digits2_pos m) + e ->
  exists r s, shr_fexp 53 1024 (Zpos m) e l = (Build_shr_record (Zpos m / 2 ^ excess m) r s, e + excess m) /\
    (l = loc_Exact -> (2 ^ excess m | Zpos m) -> r = false /\ s = false).
Proof.
  intros He. unfold shr_fexp, fexp, emin. cbn [Zdigits2]. rewrite Z.max_l by lia.
  replace (Zpos (digits2_pos m) + e - 53 - e) with (Zpos (digits2_pos m) - 53) by lia. unfold excess.
  destruct (Zpos (digits2_pos m) - 53) as [|d|d] eqn:Ed; cbn [shr].
  - rewrite Z.max_id, Z.div_1_r, Z.add_0_r. destruct l as [|[]]; by do 2 eexists.
  - rewrite (Z.max_r 0) by lia. pose proof (iter_shr_m d (shr_record_of_loc (Zpos m) l)) as Hm.
    destruct (iter_pos shr_1 d (shr_record_of_loc (Zpos m) l)) as [m' r s] eqn:E. cbn [shr_m] in Hm.
    exists r, s. rewrite Hm by (destruct l as [|[]]; simpl; lia). split; [by destruct l as [|[]]|].
    intros -> [c Hc]. cbn [shr_record_of_loc] in E. rewrite Hc, iter_shr_exact in E. by injection E as <- <- <-.
  - rewrite (Z.max_l 0) by lia. rewrite Z.div_1_r, Z.add_0_r. destruct l as [|[]]; by do 2 eexists.
Qed.

(** The mantissa fits after the shift. *)
Lemma excess_fits m : Zpos m / 2 ^ excess m < 2 ^ 53.
Proof.
  pose proof (digits_bounds m) as [_ Hu]. unfold excess. apply Z.div_lt_upper_bound; [apply Z.pow_pos_nonneg; lia|].
  rewrite <- Z.pow_add_r by lia. eapply Z.lt_le_trans; [exact Hu|]. apply Z.pow_le_mono_r; lia.
Qed.

Lemma excess_pos m : 1 <= Zpos m / 2 ^ excess m.
Proof.
  pose proof (digits_bounds m) as [Hl _]. unfold excess. apply Z.div_le_lower_bound; [apply Z.pow_pos_nonneg; lia|].
  rewrite Z.mul_1_r. eapply Z.le_trans; [|exact Hl]. apply Z.pow_le_mono_r; lia.
Qed.

Lemma excess_small m : Zpos m < 2 ^ 53 -> excess m = 0.
Proof. intros Hm. pose proof (digits_le m 53 ltac:(lia) Hm). unfold excess. lia. Qed.

(** The result of rounding: the mantissa is cut, and perhaps one more. *)
Lemma round_ok m e l :
  -900 <= Zpos (digits2_pos m) + e <= 900 ->
  exists M E c, binary_round_aux 53 1024 false (Zpos m) e l = S754_finite false M E /\
    0 <= c <= 1 /\ e + excess m <= E <= e + excess m + 1 /\
    Zpos M * 2 ^ (E - (e + excess m)) = Zpos m / 2 ^ excess m + c /\
    (l = loc_Exact -> (2 ^ excess m | Zpos m) -> c = 0 /\ E = e + excess m).
Proof.
  intros He. unfold binary_round_aux. destruct (shr_step m e l) as (r & s & -> & Hx); [lia|]. cbn [shr_m].
  set (q := Zpos m / 2 ^ excess m) in *. pose proof (excess_fits m) as Hf. pose proof (excess_pos m) as Hp. fold q in Hf, Hp.
  assert (exists c, round_nearest_even q (loc_of_shr_record (Build_shr_record q r s)) = q + c /\ 0 <= c <= 1 /\
    (r = false /\ s = false -> c = 0)) as (c & -> & Hc & Hc0).
  { destruct r, s; simpl; [|destruct (Z.even q)|..]; [exists 1|exists 0|exists 1|exists 0|exists 0]; split_and!; (lia || done || (intros []; done)). }
  destruct (q + c) as [|R|R] eqn:ER; [lia| |lia].
  assert (excess R = 0 \/ (Zpos R = 2 ^ 53 /\ excess R = 1)) as HR.
  { destruct (decide (Zpos R < 2 ^ 53)) as [Hlt|Hge]; [left; by apply excess_small|]. right. assert (Zpos R = 2 ^ 53) as E by lia. split; [done|].
    injection E as ->. reflexivity. }
  destruct (shr_step R (e + excess m) loc_Exact) as (r' & s' & -> & _).
  { unfold excess. lia. }
  cbn [shr_m].
  pose proof (excess_pos R) as HpR. destruct (Zpos R / 2 ^ excess R) as [|M|M] eqn:EM; [lia| |lia].
  assert (excess m <= Z.max 0 (Zpos (digits2_pos m) - 53)) as Hxs by (unfold excess; lia).
  replace (_ <=? _) with true by (symmetry; apply Z.leb_le; destruct HR as [->|[_ ->]]; lia).
  exists M, (e + excess m + excess R), c. split_and!; [done|lia|lia|lia|lia| |].
  - replace (e + excess m + excess R - (e + excess m)) with (excess R) by lia.
    destruct HR as [E0|[EB E1]]; [rewrite E0, ?Z.pow_0_r, ?Z.div_1_r in EM; rewrite E0, Z.pow_0_r; lia|].
    rewrite E1, EB in EM. rewrite E1, ER, EB, <- EM. reflexivity.
  - intros Hl Hd. specialize (Hc0 (Hx Hl Hd)). split; [done|]. rewrite (excess_small R); lia.
Qed.

(** *** Integers *)

(** [x] is the integer [n], with at most [b] digits after the point. *)
Definition is_int (b : Z) (x : spec_float) (n : Z) : Prop :=
  exists M k, x = S754_finite false M (- k) /\ 0 <= k <= b /\ Zpos M = n * 2 ^ k.

Lemma pow_iter m d : Zpos (Pos.iter xO m d) = Zpos m * 2 ^ Zpos d.
Proof.
  induction d as [|d IH] using Pos.peano_ind; [simpl; lia|].
  rewrite Pos.iter_succ, Pos2Z.inj_succ, Z.pow_succ_r by lia. rewrite Pos2Z.inj_xO, IH. lia.
Qed.

Lemma exact_round m e :
  -900 <= Zpos (digits2_pos m) + e <= 900 -> (2 ^ excess m | Zpos m) ->
  exists M, binary_round_aux 53 1024 false (Zpos m) e loc_Exact = S754_finite false M (e + excess m) /\
    Zpos M * 2 ^ excess m = Zpos m.
Proof.
  intros He Hd. destruct (round_ok m e loc_Exact He) as (M & E & c & -> & _ & _ & HM & Hx). destruct (Hx eq_refl Hd) as [-> ->].
  exists M. split; [done|]. rewrite Z.sub_diag, Z.mul_1_r, Z.add_0_r in HM. rewrite HM. destruct Hd as [j ->].
  rewrite Z.div_mul; [done|]. apply Z.pow_nonzero; unfold excess; lia.
Qed.

Lemma f64_of_int n : 0 < n < 2 ^ 53 -> is_int 52 (f64_of n) n.
Proof.
  intros Hn. destruct n as [|m|]; [lia| |lia]. unfold f64_of. cbn [binary_normalize]. unfold binary_round.
  pose proof (digits_le m 53 ltac:(lia) ltac:(lia)) as Hd. unfold fexp, emin. rewrite Z.add_0_r, Z.max_l by lia. unfold shl_align.
  rewrite Z.sub_0_r. set (k := 53 - Zpos (digits2_pos m)).
  assert (exists mz, (let '(mz, ez) := match Zpos (digits2_pos m) - 53 with Zneg d => (Pos.iter xO m d, Zpos (digits2_pos m) - 53) | _ => (m, 0) end
    in binary_round_aux 53 1024 false (Zpos mz) ez loc_Exact) = binary_round_aux 53 1024 false (Zpos mz) (- k) loc_Exact /\
    Zpos mz = Zpos m * 2 ^ k) as (mz & -> & Hmz).
  { destruct (Zpos (digits2_pos m) - 53) as [|d|d] eqn:E; [|lia|].
    - exists m. unfold k. replace (53 - Zpos (digits2_pos m)) with 0 by lia. split; [done|lia].
    - exists (Pos.iter xO m d). replace k with (Zpos d) by (unfold k; lia). split; [done|]. apply pow_iter. }
  pose proof (digits_shift mz m k ltac:(unfold k; lia) Hmz) as Hdz.
  assert (excess mz = 0) as Hx by (unfold excess, k in *; lia).
  destruct (exact_round mz (- k)) as (M & -> & HM); [unfold k in *; lia|rewrite Hx; apply Z.divide_1_l|].
  rewrite Hx, Z.mul_1_r in HM. exists M, k. rewrite Hx, Z.add_0_r. split_and!; [done|unfold k; lia|unfold k; lia|congruence].
Qed.

Lemma f64_mul_int x y n p :
  is_int 52 x n -> is_int 52 y p -> 0 < n -> 0 < p -> n * p < 2 ^ 53 -> is_int 104 (f64_mul x y) (n * p).
Proof.
  intros (M1 & k1 & -> & Hk1 & E1) (M2 & k2 & -> & Hk2 & E2) Hn Hp Hnp. unfold f64_mul, SFmul. cbn [xorb].
  destruct (n * p) as [|v|v] eqn:Ev; [nia| |nia].
  assert (Zpos (M1 * M2) = Zpos v * 2 ^ (k1 + k2)) as Em by (rewrite Pos2Z.inj_mul, E1, E2, <- Ev, Z.pow_add_r by lia; ring).
  pose proof (digits_shift (M1 * M2) v (k1 + k2) ltac:(lia) Em) as Hd. pose proof (digits_le v 53 ltac:(lia) Hnp) as Hv.
  assert (excess (M1 * M2) <= k1 + k2) as Hx by (unfold excess; lia).
  assert (0 <= excess (M1 * M2)) as Hx0 by (unfold excess; lia).
  destruct (exact_round (M1 * M2) (- k1 + - k2)) as (M & -> & HM).
  { lia. }
  { exists (Zpos v * 2 ^ (k1 + k2 - excess (M1 * M2))). rewrite Em, <- Z.mul_assoc, <- Z.pow_add_r by lia. do 2 f_equal. lia. }
  exists M, (k1 + k2 - excess (M1 * M2)). split_and!; [f_equal; lia|lia|lia|].
  apply (Z.mul_reg_r _ _ (2 ^ excess (M1 * M2))); [apply Z.pow_nonzero; lia|]. rewrite HM, Em, <- Z.mul_assoc, <- Z.pow_add_r by lia.
  do 2 f_equal. lia.
Qed.

(** *** The rank *)

(** The quotient of an integer by a hundred: cut after [u] digits, exactly when it
    has no more, and else perhaps one more in the last. *)
Lemma f64_div_100 x m :
  is_int 104 x m -> 0 < m < 2 ^ 46 ->
  exists M E u c, f64_div x (f64_of 100) = S754_finite false M (- E) /\
    13 <= u /\ 0 <= c <= 1 /\ u - 1 <= E <= u /\ Zpos M * 2 ^ (u - E) = m * 2 ^ u / 100 + c /\ ((100 | m) -> c = 0).
Proof.
  intros (M1 & k1 & -> & Hk1 & E1) Hm. destruct (f64_of_int 100 ltac:(lia)) as (M2 & k2 & -> & Hk2 & E2).
  unfold f64_div, SFdiv, SFdiv_core_binary. cbn [Zdigits2 xorb].
  destruct m as [|v|v]; [lia| |lia]. pose proof (digits_le v 46 ltac:(lia) ltac:(lia)) as Hv.
  pose proof (digits_bounds v) as [Hvl Hvu].
  rewrite (digits_shift M1 v k1), (digits_shift M2 100 k2) by (done || lia).
  change (Zpos (digits2_pos 100)) with 7. set (a := Zpos (digits2_pos v)) in *.
  unfold fexp, emin. rewrite Z.max_l by lia.
  set (t := - Z.min (a + k1 + - k1 - (7 + k2 + - k2) - 53) (- k1 - - k2)).
  assert (60 - a <= t <= 200) as Ht by (unfold t; lia).
  replace (Z.min (a + k1 + - k1 - (7 + k2 + - k2) - 53) (- k1 - - k2)) with (- t) by (unfold t; lia).
  assert (0 <= - k1 - - k2 - - t) as Hs by (unfold t; lia). set (s := - k1 - - k2 - - t) in *.
  assert (match s with Zpos _ => Z.shiftl (Zpos M1) s | Z0 => Zpos M1 | Zneg _ => 0 end = Zpos v * 2 ^ t * 2 ^ k2) as ->.
  { transitivity (Zpos M1 * 2 ^ s).
    - destruct s; [simpl; lia|apply Z.shiftl_mul_pow2; lia|lia].
    - rewrite E1, <- !Z.mul_assoc, <- !Z.pow_add_r by lia. do 2 f_equal. unfold s. lia. }
  pose proof (Z.pow_pos_nonneg 2 k2 ltac:(lia) ltac:(lia)) as Hp2. pose proof (Z.pow_pos_nonneg 2 t ltac:(lia) ltac:(lia)) as Hpt.
  destruct (Z.div_eucl (Zpos v * 2 ^ t * 2 ^ k2) (Zpos M2)) as [q r] eqn:Eq.
  assert (q = Zpos v * 2 ^ t / 100) as Hq.
  { transitivity (Zpos v * 2 ^ t * 2 ^ k2 / Zpos M2); [unfold Z.div; by rewrite Eq|]. rewrite E2. apply Z.div_mul_cancel_r; lia. }
  assert ((100 | Zpos v) -> r = 0) as Hr.
  { intros [j Hj]. transitivity ((Zpos v * 2 ^ t * 2 ^ k2) mod Zpos M2); [unfold Z.modulo; by rewrite Eq|].
    rewrite E2, Hj. replace (j * 100 * 2 ^ t * 2 ^ k2) with (j * 2 ^ t * (100 * 2 ^ k2)) by ring. apply Z.mod_mul. lia. }
  assert (2 ^ 59 <= Zpos v * 2 ^ t < 2 ^ (a + t)) as Hvt.
  { rewrite Z.pow_add_r by lia. split; [|nia]. apply Z.le_trans with (2 ^ (a - 1) * 2 ^ t); [|nia].
    rewrite <- Z.pow_add_r by lia. apply Z.pow_le_mono_r; lia. }
  assert (1 <= q < 2 ^ (a + t - 6)) as Hq1.
  { rewrite Hq. split; [apply Z.div_le_lower_bound; lia|]. apply Z.div_lt_upper_bound; [lia|].
    replace (a + t) with (a + t - 6 + 6) in Hvt by lia. rewrite Z.pow_add_r in Hvt by lia. lia. }
  destruct q as [|Q|Q]; [lia| |lia].
  pose proof (digits_le Q (a + t - 6) ltac:(lia) ltac:(lia)) as HQ.
  destruct (round_ok Q (- t) (new_location (Zpos M2) r)) as (M & E & c & -> & Hc & HE & HM & Hx); [lia|].
  assert (0 <= excess Q <= Z.max 0 (a + t - 59)) as Hxs by (unfold excess; lia).
  exists M, (- E), (t - excess Q), c. rewrite Z.opp_involutive. split_and!; [done|lia|lia|lia|lia|lia| |].
  - replace (t - excess Q - - E) with (E - (- t + excess Q)) by lia. rewrite HM, Hq. f_equal.
    pose proof (Z.pow_pos_nonneg 2 (excess Q) ltac:(lia) ltac:(lia)).
    rewrite Z.div_div by lia. replace t with (t - excess Q + excess Q) at 1 by lia. rewrite Z.pow_add_r by lia.
    rewrite Z.mul_assoc. apply Z.div_mul_cancel_r; lia.
  - intros Hd. apply Hx.
    + unfold new_location, new_location_even, new_location_odd. rewrite (Hr Hd). by destruct (Z.even _).
    + destruct Hd as [j Hj]. rewrite Hq, Hj. exists (j * 2 ^ (t - excess Q)).
      replace (j * 100 * 2 ^ t) with (j * 2 ^ t * 100) by ring. rewrite Z.div_mul by lia.
      rewrite <- Z.mul_assoc, <- Z.pow_add_r by lia. do 2 f_equal. lia.
Qed.

Lemma f64_to_usize_int b x n : is_int b x n -> 0 < n < 2 ^ 53 -> f64_to_usize x = n.
Proof.
  intros (M & k & -> & Hk & E) Hn. cbn [f64_to_usize]. destruct (Z.leb_spec 0 (- k)).
  - replace k with 0 in * by lia. cbn in E. rewrite Z.pow_0_r. lia.
  - rewrite Z.opp_involutive, E, Z.div_mul; [lia|]. apply Z.pow_nonzero; lia.
Qed.

(** The ceiling of a number of hundredths that was cut after [u] digits. *)
Lemma ceil_hundredths m u c :
  0 < m -> 13 <= u -> 0 <= c <= 1 -> ((100 | m) -> c = 0) -> - (- (m * 2 ^ u / 100 + c) / 2 ^ u) = (m + 99) / 100.
Proof.
  intros Hm Hu Hc Hx. assert (2 ^ 13 <= 2 ^ u) as Hp by (apply Z.pow_le_mono_r; lia). set (P := 2 ^ u) in *.
  pose proof (Z.div_mod m 100 ltac:(lia)) as E. pose proof (Z.mod_pos_bound m 100 ltac:(lia)) as Hi.
  set (j := m / 100) in *. set (i := m mod 100) in *.
  assert (m * P / 100 = j * P + i * P / 100) as Ed.
  { rewrite E. replace ((100 * j + i) * P) with (i * P + j * P * 100) by ring. rewrite Z.div_add by lia. lia. }
  assert ((m + 99) / 100 = j + (if decide (i = 0) then 0 else 1)) as ->.
  { rewrite E. replace (100 * j + i + 99) with (i + 99 + j * 100) by ring. rewrite Z.div_add by lia.
    case_decide as H0; [rewrite H0; change ((0 + 99) / 100) with 0; lia|]. rewrite Z.add_comm. f_equal.
    symmetry. apply (Z.div_unique _ _ _ (i - 1)); lia. }
  apply Z.opp_inj. rewrite Z.opp_involutive. symmetry. rewrite Ed. case_decide as Hi0.
  - rewrite Hx by (exists j; lia). rewrite Hi0. apply (Z.div_unique _ _ _ 0); [lia|]. rewrite Z.mul_0_l, Z.div_0_l by lia. lia.
  - pose proof (Z.div_mod (i * P) 100 ltac:(lia)) as Eq. pose proof (Z.mod_pos_bound (i * P) 100 ltac:(lia)) as Hr.
    set (w := i * P / 100) in *. apply (Z.div_unique _ _ _ (P - w - c)); [left; nia|]. ring.
Qed.
