(* ===== verification/Latency.v ===== *)
(** * Latency: the figures the test programs report

    Models the latency helpers of [src/examples/topology_analysis.rs],
    [src/examples/cache_bench.rs] and [src/scripts/resilience_attacker.rs]:
    percentiles, averages and deviations of samples in nanoseconds, in the
    arithmetic of [Binary64.v].  Indexing is [!!]: [None] is the panic of an index
    out of range. *)
From S2P Require Import Prelude Binary64.
From Stdlib Require Import Floats.SpecFloat.
Local Open Scope Z_scope.

(** ** The figures *)

(** [(len as f64 * p / 100.0).ceil() as usize] *)
Definition rank (n : Z) (p : spec_float) : Z :=
  f64_to_usize (f64_ceil (f64_div (f64_mul (f64_of n) p) (f64_of 100))).

Definition percentile (sorted : list Z) (p : spec_float) : option Z :=
  match sorted with
  | [] => Some 0
  | _ =>
      let idx := saturating_sub (rank (Z.of_nat (length sorted)) p) 1 in
      sorted !! Nat.min (Z.to_nat idx) (length sorted - 1)
  end.

(** [v.iter().sum::<u64>()] *)
Definition sum_u64 (v : list Z) : Z := foldl (fun a x => wrap 64 (a + x)) 0 v.

Definition avg_ns (v : list Z) : spec_float :=
  match v with
  | [] => f64_of 0
  | _ => f64_div (f64_of (sum_u64 v)) (f64_of (Z.of_nat (length v)))
  end.

Definition stddev_ns (v : list Z) : spec_float :=
  if Nat.ltb (length v) 2 then f64_of 0
  else
    let mean := avg_ns v in
    let var := f64_div (foldl f64_add (f64_of 0) ((fun x => let d := f64_sub (f64_of x) mean in f64_mul d d) <$> v))
                 (f64_of (Z.of_nat (length v))) in
    f64_sqrt var.

Section latency.
Context `{US : UnstableSort}.

(** [v.sort_unstable()] on integers. *)
Definition sort_samples (v : list Z) : list Z := sort_by_key (fun x => x) v.

Definition latency_stats (v : list Z) : option (spec_float * Z * Z * Z) :=
  let v := sort_samples v in
  let avg := avg_ns v in
  p50 ← percentile v (f64_of 50);
  p95 ← percentile v (f64_of 95);
  Some (avg, p50, p95, default 0 (last v)).

(** [Duration::as_secs_f64], and the closure [ms]. *)
Definition as_secs_f64 (d : Z) : spec_float :=
  f64_add (f64_of (d / 1000000000)) (f64_div (f64_of (d `mod` 1000000000)) (f64_of 1000000000)).
Definition ms (d : Z) : spec_float := f64_mul (as_secs_f64 d) (f64_of 1000).

(** The attacker's index of its 95th percentile, before it is capped. *)
Definition p95_index (n : Z) : Z := f64_to_usize (f64_mul (f64_of n) (f64_ratio 95 100)).

(** [LatencyStats::report]: minimum, average, 95th percentile, maximum and
    operations per second, over [wall]. *)
Definition report (samples : list Z) (wall : Z) : option (spec_float * spec_float * spec_float * spec_float * spec_float) :=
  match samples with
  | [] => Some (f64_of 0, f64_of 0, f64_of 0, f64_of 0, f64_of 0)
  | _ =>
      let samples := sort_samples samples in
      min ← head samples;
      max ← last samples;
      let avg := f64_div (foldl f64_add (f64_of 0) (ms <$> samples)) (f64_of (Z.of_nat (length samples))) in
      let p95_idx := Nat.min (Z.to_nat (p95_index (Z.of_nat (length samples)))) (length samples - 1) in
      p95 ← samples !! p95_idx;
      let tps := f64_div (f64_of (Z.of_nat (length samples))) (as_secs_f64 wall) in
      Some (ms min, avg, ms p95, ms max, tps)
  end.

End latency.

(** ** Ranks *)

(** The rank of a percentile is the nearest rank, although it is computed in
    floating point, for fewer than [RANK_LIMIT] samples. *)
Definition RANK_LIMIT : Z := 2 ^ 39.

Lemma rank_exact n p :
  0 < n < RANK_LIMIT -> 0 < p <= 100 -> rank n (f64_of p) = (n * p + 99) / 100.
Proof.
  unfold RANK_LIMIT. intros Hn Hp. unfold rank. assert (0 < n * p < 2 ^ 46) as Hm by nia.
  pose proof (f64_mul_int _ _ n p (f64_of_int n ltac:(lia)) (f64_of_int p ltac:(lia)) ltac:(lia) ltac:(lia) ltac:(lia)) as Hx.
  destruct (f64_div_100 _ _ Hx Hm) as (M & E & u & c & -> & Hu & Hc & HE & HM & Hx0).
  unfold f64_ceil. rewrite (proj2 (Z.leb_gt 0 (- E))) by lia. rewrite Z.opp_involutive.
  assert (- (- Zpos M / 2 ^ E) = (n * p + 99) / 100) as Hceil.
  { rewrite <- (ceil_hundredths (n * p) u c) by (done || lia). rewrite <- HM. f_equal.
    replace (2 ^ u) with (2 ^ E * 2 ^ (u - E)) by (rewrite <- Z.pow_add_r by lia; f_equal; lia).
    rewrite <- Z.mul_opp_l. symmetry. apply Z.div_mul_cancel_r; apply Z.pow_nonzero; lia. }
  rewrite Hceil. fold (f64_of ((n * p + 99) / 100)).
  assert (0 < (n * p + 99) / 100 < 2 ^ 53) as Hb.
  { split; [apply Z.div_str_pos; lia|]. apply Z.div_lt_upper_bound; lia. }
  eapply f64_to_usize_int; [by apply f64_of_int|done].
Qed.

(** The attacker's index is checked for every number of samples up to
    [MAX_SAMPLES]. *)
Definition MAX_SAMPLES : nat := 500.

Fixpoint all_from (f : Z -> bool) (k : nat) (n : Z) : bool :=
  match k with O => true | S k => f n && all_from f k (n + 1) end.

Lemma all_from_spec f k n m : all_from f k n = true -> n <= m < n + Z.of_nat k -> f m = true.
Proof.
  revert n. induction k as [|k IH]; intros n; cbn [all_from]; [lia|].
  rewrite andb_true_iff. intros [Hn Hk] Hm. destruct (decide (m = n)) as [->|]; [done|].
  apply (IH (n + 1)); [done|lia].
Qed.

Definition index_ok (n : Z) : bool := p95_index n =? n * 95 / 100.

Lemma indices_checked : all_from index_ok MAX_SAMPLES 1 = true.
Proof. vm_compute. reflexivity. Qed.

Lemma p95_index_exact n : 1 <= n <= Z.of_nat MAX_SAMPLES -> p95_index n = n * 95 / 100.
Proof. intros Hn. apply Z.eqb_eq, (all_from_spec index_ok MAX_SAMPLES 1 n indices_checked). lia. Qed.

(** ** Percentiles by counting *)

Definition at_most (v : Z) (l : list Z) : Z := Z.of_nat (length (filter (fun x => x <= v) l)).
Definition below (v : Z) (l : list Z) : Z := Z.of_nat (length (filter (fun x => x < v) l)).

(** The nearest-rank definition: [v] is the least sample with at least [p]
    percent of the samples at most [v]. *)
Definition is_percentile (p v : Z) (l : list Z) : Prop :=
  v ∈ l /\ p * Z.of_nat (length l) <= 100 * at_most v l /\ 100 * below v l < p * Z.of_nat (length l).

#[global] Instance is_percentile_perm p v : Proper ((≡ₚ) ==> iff) (is_percentile p v).
Proof. intros l l' H. unfold is_percentile, at_most, below. by rewrite H. Qed.

Lemma sorted_counts (l : list Z) i v :
  StronglySorted Z.le l -> l !! i = Some v -> Z.of_nat i < at_most v l /\ below v l <= Z.of_nat i.
Proof.
  intros Hs Hi. rewrite <- (take_drop_middle l i v Hi) in Hs |- *. apply StronglySorted_app in Hs as (Hx & _ & Hd).
  assert (i <= length l)%nat as Hl by (apply lookup_lt_Some in Hi; lia). apply StronglySorted_inv in Hd as [_ Hd].
  unfold at_most, below. rewrite !filter_app, !length_app. split.
  - rewrite filter_cons_True by lia. rewrite filter_all; [rewrite length_take; simpl; lia|].
    apply Forall_forall. intros x Hin. apply (Hx x v Hin), list_elem_of_here.
  - rewrite filter_cons_False by lia. rewrite (filter_none _ (drop (S i) l)).
    + pose proof (length_filter (fun x => x < v) (take i l)). rewrite length_take in *. simpl. lia.
    + eapply Forall_impl; [exact Hd|]. simpl. lia.
Qed.

Lemma sorted_at (l : list Z) i v p :
  StronglySorted Z.le l -> l !! i = Some v ->
  100 * Z.of_nat i < p * Z.of_nat (length l) <= 100 * (Z.of_nat i + 1) -> is_percentile p v l.
Proof.
  intros Hs Hi Hr. destruct (sorted_counts l i v Hs Hi). split; [by apply list_elem_of_lookup_2 in Hi|]. lia.
Qed.

Lemma percentile_at (l : list Z) p :
  0 < Z.of_nat (length l) < RANK_LIMIT -> 0 < p <= 100 ->
  percentile l (f64_of p) = l !! Z.to_nat ((Z.of_nat (length l) * p - 1) / 100) /\
  100 * ((Z.of_nat (length l) * p - 1) / 100) < p * Z.of_nat (length l) <= 100 * ((Z.of_nat (length l) * p - 1) / 100 + 1) /\
  0 <= (Z.of_nat (length l) * p - 1) / 100 < Z.of_nat (length l).
Proof.
  intros Hl Hp. unfold percentile. destruct l as [|x l']; [simpl in Hl; lia|]. remember (x :: l') as l eqn:El. clear El.
  cbv zeta. rewrite rank_exact by (done || lia). set (n := Z.of_nat (length l)).
  set (q := (n * p - 1) / 100). pose proof (Z.div_mod (n * p - 1) 100 ltac:(lia)) as E.
  pose proof (Z.mod_pos_bound (n * p - 1) 100 ltac:(lia)) as Hb. fold q in E.
  assert ((n * p + 99) / 100 = q + 1) as ->.
  { replace (n * p + 99) with (n * p - 1 + 1 * 100) by lia. by rewrite Z.div_add. }
  assert (0 <= q < n) by nia. split_and!; [|lia|lia|lia|lia].
  f_equal. unfold saturating_sub. lia.
Qed.

Lemma percentile_total l p : is_Some (percentile l p).
Proof. unfold percentile. destruct l; [done|]. cbv zeta. apply lookup_lt_is_Some_2. simpl. lia. Qed.

Lemma latency_stats_total `{US : UnstableSort} v : is_Some (latency_stats v).
Proof.
  unfold latency_stats. cbv zeta. destruct (percentile_total (sort_samples v) (f64_of 50)) as [a ->]. cbn [mbind option_bind].
  destruct (percentile_total (sort_samples v) (f64_of 95)) as [b ->]. by eexists.
Qed.

Section latency_spec.
Context `{US : UnstableSort}.

Lemma sort_samples_perm v : sort_samples v ≡ₚ v.
Proof. apply sort_by_key_perm. Qed.

Lemma sort_samples_sorted v : StronglySorted Z.le (sort_samples v).
Proof. apply (sort_by_key_sorted (fun x : Z => x)). Qed.

Lemma length_sort_samples v : length (sort_samples v) = length v.
Proof. by rewrite sort_samples_perm. Qed.

Lemma percentile_ok v p :
  0 < Z.of_nat (length v) < RANK_LIMIT -> 0 < p <= 100 ->
  exists x, percentile (sort_samples v) (f64_of p) = Some x /\ is_percentile p x v /\
    sort_samples v !! Z.to_nat ((Z.of_nat (length v) * p - 1) / 100) = Some x.
Proof.
  intros Hv Hp. rewrite <- length_sort_samples in Hv |- *. destruct (percentile_at _ p Hv Hp) as (-> & Hr & Hn).
  destruct (lookup_lt_is_Some_2 (sort_samples v) (Z.to_nat ((Z.of_nat (length (sort_samples v)) * p - 1) / 100))) as [x Hx]; [lia|].
  exists x. split_and!; [done| |done]. rewrite <- sort_samples_perm. eapply sorted_at; [apply sort_samples_sorted|exact Hx|].
  rewrite Z2Nat.id by lia. exact Hr.
Qed.

Lemma sorted_lookup_le (l : list Z) i j x y :
  StronglySorted Z.le l -> l !! i = Some x -> l !! j = Some y -> (i <= j)%nat -> x <= y.
Proof.
  intros Hs Hx Hy Hij. destruct (decide (i = j)) as [->|]; [rewrite Hx in Hy; injection Hy; lia|].
  rewrite <- (take_drop_middle l i x Hx) in Hs. apply StronglySorted_app_1_r, StronglySorted_inv in Hs as [_ Hs].
  rewrite Forall_forall in Hs. apply Hs, (list_elem_of_lookup_2 _ (j - S i)). rewrite lookup_drop, <- Hy. f_equal. lia.
Qed.

(** C36: the figures of the topology test are what they are called.  For 1 to [2^39 - 1]
    samples [latency_stats] does not panic; its median and 95th percentile are the
    nearest-rank percentiles of the samples, although their indices are computed
    in floating point; and median, 95th percentile and maximum are in order, the
    last being a sample that none exceeds. *)
Theorem latency_stats_correct (v : list Z) :
  0 < Z.of_nat (length v) < RANK_LIMIT ->
  exists avg p50 p95 max, latency_stats v = Some (avg, p50, p95, max) /\
    is_percentile 50 p50 v /\ is_percentile 95 p95 v /\ p50 <= p95 <= max /\ max ∈ v /\ Forall (fun x => x <= max) v.
Proof.
  intros Hv. unfold latency_stats. cbv zeta.
  destruct (percentile_ok v 50 Hv) as (a & -> & Ha & Ia); [lia|].
  destruct (percentile_ok v 95 Hv) as (b & -> & Hb & Ib); [lia|]. cbn [mbind option_bind].
  pose proof (sort_samples_sorted v) as Hs. rewrite last_lookup, length_sort_samples.
  destruct (lookup_lt_is_Some_2 (sort_samples v) (pred (length v))) as [m Hm]; [rewrite length_sort_samples; lia|].
  rewrite Hm. cbn [default]. do 4 eexists. split_and!; [done|done|done|..].
  - apply (sorted_lookup_le _ _ _ _ _ Hs Ia Ib). apply Z2Nat.inj_le; [apply Z.div_pos; lia..|]. apply Z.div_le_mono; lia.
  - apply (sorted_lookup_le _ _ _ _ _ Hs Ib Hm).
    assert ((Z.of_nat (length v) * 95 - 1) / 100 < Z.of_nat (length v)) by (apply Z.div_lt_upper_bound; lia). lia.
  - rewrite <- sort_samples_perm. by apply list_elem_of_lookup_2 in Hm.
  - rewrite <- sort_samples_perm. apply Forall_forall. intros x Hx. apply list_elem_of_lookup in Hx as [i Hi].
    apply (sorted_lookup_le _ _ _ _ _ Hs Hi Hm). apply lookup_lt_Some in Hi. rewrite length_sort_samples in Hi. lia.
Qed.

(** The attacker's 95th percentile is one rank too high when the number of
    samples is a multiple of 20, and the nearest rank otherwise. *)
Theorem attacker_p95_rank (n : Z) :
  1 <= n <= Z.of_nat MAX_SAMPLES ->
  p95_index n = rank n (f64_of 95) - 1 + (if n `mod` 20 =? 0 then 1 else 0).
Proof.
  intros Hn. rewrite p95_index_exact by done.
  rewrite rank_exact by (unfold RANK_LIMIT, MAX_SAMPLES in *; lia).
  pose proof (Z.div_mod (n * 95) 100 ltac:(lia)). pose proof (Z.mod_pos_bound (n * 95) 100 ltac:(lia)).
  pose proof (Z.div_mod (n * 95 + 99) 100 ltac:(lia)). pose proof (Z.mod_pos_bound (n * 95 + 99) 100 ltac:(lia)).
  pose proof (Z.div_mod n 20 ltac:(lia)). pose proof (Z.mod_pos_bound n 20 ltac:(lia)).
  destruct (Z.eqb_spec (n `mod` 20) 0); lia.
Qed.

(** [report] does not panic, whatever the number of samples. *)
Lemma report_total samples wall : is_Some (report samples wall).
Proof.
  unfold report. destruct samples as [|x l]; [done|]. cbv zeta.
  assert (0 < length (sort_samples (x :: l)))%nat as Hl by (rewrite length_sort_samples; simpl; lia).
  destruct (sort_samples (x :: l)) as [|y s] eqn:E; [simpl in Hl; lia|]. cbn [head mbind option_bind].
  destruct (last (y :: s)) as [m|] eqn:El; [|by apply last_None in El]. cbn [mbind option_bind].
  destruct (lookup_lt_is_Some_2 (y :: s) (Nat.min (Z.to_nat (p95_index (Z.of_nat (length (y :: s))))) (length (y :: s) - 1)))
    as [z ->]; [lia|done].
Qed.

End latency_spec.

Lemma latency_stats_correct_witness :
  exists avg p50 p95 max, latency_stats [700; 300; 100; 900] = Some (avg, p50, p95, max) /\ is_percentile 50 p50 [700; 300; 100; 900].
Proof.
  destruct (latency_stats_correct [700; 300; 100; 900]) as (avg & a & b & m & E & Ha & _).
  - cbv [length RANK_LIMIT]. lia.
  - exists avg, a, b, m. split; [exact E|exact Ha].
Defined.
