(* ===== verification/Topology.v ===== *)
(** * Topology: the thirty-node test program

    Models [src/examples/topology_analysis.rs]: thirty nodes on one machine, two
    bootstrap passes, a hundred records published by rotating writers and read
    back from other nodes, the diagnostics over all nodes' stores and routing
    tables, and the verdict.  The nodes form a cluster, as in [Publish.v], in
    which any message may be lost.  Random draws are arguments; which operation
    runs into its timeout, and what the nodes have done of it by then, is the
    function [late]; what they do while the program sleeps is [pause]; of both
    only the node invariant is assumed.  The measured times are the function
    [took], which is also how long an operation that ends in time lasts.  Of the printed tables the numbers are kept; the average and the
    logarithm of the convergence summary are left out, and so are the slices of
    keys and DIDs in the printed lines, which a UUID of 36 characters allows. *)
From S2P Require Import Prelude Node Routing RoutingTable RoutingTableSpec Storage Text Json Crypto AuthHandler Did SigCache Crawling Protocol ProtocolSpec Network NetworkSpec NodeState Cluster Clock Publish Harness Latency.
From Stdlib Require Import Strings.Byte Floats.SpecFloat.
Local Open Scope Z_scope.

Definition BASE_PORT : Z := 15810.
Definition NUM_NODES : nat := 30.
Definition NUM_RECORDS : nat := 100.
Definition OP_TIMEOUT : Z := from_secs 10.

(** [args.get(i).and_then(|s| s.parse().ok()).unwrap_or(d)] *)
Definition arg_or (args : list bytes) (i d : nat) : nat :=
  default d (Z.to_nat <$> (args !! i ≫= parse_usize)).

(** [slice::sort_by_key], which is stable. *)
Fixpoint insert_by {A} (key : A -> Z) (x : A) (l : list A) : list A :=
  match l with
  | [] => [x]
  | y :: l' => if key x <=? key y then x :: l else y :: insert_by key x l'
  end.

Definition stable_sort {A} (key : A -> Z) (l : list A) : list A := foldr (insert_by key) [] l.

Section topology.
Context `{US : UnstableSort} `{HO : HashOrder} `{HA : Hashes} `{NA : NetAddr} `{HX : HexCodec}.
Context `{CP : CryptoPrims} `{JM : JsonMap} `{SJ : SerdeJson} `{B6 : Base64Engine} {io_error : Type}.
Context {C : Type} `{MC : Moka C}.
Local Abbreviation Hd := (DIDSignatureVerifierHandler io_error).
Local Abbreviation proto := (KademliaProtocol ForgetfulStorage Hd C).
Local Abbreviation nodes := (cluster ForgetfulStorage Hd C).
Local Abbreviation World := (Timed nodes).

(** A record as it is published: DID, key, bytes. *)
Local Abbreviation entry := (bytes * bytes * bytes)%type.

(** ** Diagnostics *)

Section diagnostics.
Variable now : Z.
(** The servers by their port, in the order they were started. *)
Variable servers : list (proto * Z).

(** [print_storage_tables]: for each key held, in hexadecimal, the ports of its
    holders. *)
Definition add_holder (port : Z) (m : gmap bytes (list Z)) (e : bytes * bytes) : gmap bytes (list Z) :=
  let k := hex_encode (fst e) in <[k := default [] (m !! k) ++ [port]]> m.

Definition storage_tables : gmap bytes (list Z) :=
  foldl (fun m sp => foldl (add_holder (snd sp)) m (iter_all now (storage (fst sp)))) ∅ servers.

(** [print_replication_summary]: the holders by key, and how many keys have each
    number of copies. *)
Definition replication_rows (key_holders : gmap bytes (list Z)) : list (bytes * list Z) :=
  btree_of (map_to_list key_holders).

Definition copy_distribution (key_holders : gmap bytes (list Z)) : list (nat * nat) :=
  let dist := foldr (fun e (m : gmap nat nat) => let c := length (snd e) in <[c := (default 0 (m !! c) + 1)%nat]> m)
                ∅ (map_to_list key_holders) in
  stable_sort (fun e => Z.of_nat (fst e)) (map_to_list dist).

(** [verify_xor_correctness] *)
Inductive XorStatus := Full | Partial | Absent.

Record XorRow := mkXorRow {
  k_closest : list Z;
  holding : list Z;
  missing : list Z;
  extras : list Z
}.

Definition xor_status (r : XorRow) : XorStatus :=
  match missing r, holding r with
  | [], _ => Full
  | _, _ :: _ => Partial
  | _, [] => Absent
  end.

Definition holds (dkey : bytes) (p : proto) : bool := bool_decide (is_Some (get now (storage p) dkey)).

Definition by_dist (dkey : bytes) : list (Z * Z) :=
  stable_sort fst
    ((fun sp => (distance_to (from_id (id (source_node (fst sp)))) (from_id dkey), snd sp)) <$> servers).

(** The server of a port; [None] is the panic of [unwrap]. *)
Definition server_at (port : Z) : option proto := fst ∘ snd <$> list_find (fun sp => snd sp = port) servers.

Fixpoint split_holders (dkey : bytes) (ports : list Z) : option (list Z * list Z) :=
  match ports with
  | [] => Some ([], [])
  | port :: ports =>
      p ← server_at port;
      '(holding, missing) ← split_holders dkey ports;
      Some (if holds dkey p then (port :: holding, missing) else (holding, port :: missing))
  end.

Definition xor_row (ksize : nat) (dkey : bytes) : option XorRow :=
  let k_closest := snd <$> take ksize (by_dist dkey) in
  '(holding, missing) ← split_holders dkey k_closest;
  let extras := snd <$> filter (fun sp => (snd sp ∉ k_closest) /\ holds dkey (fst sp) = true) servers in
  Some (mkXorRow k_closest holding missing extras).

Record XorSummary := mkXor { rows : list XorRow; full_ok : nat; partial_ok : nat; none_ok : nat }.

Definition count_row (s : XorSummary) (r : XorRow) : XorSummary :=
  match xor_status r with
  | Full => mkXor (rows s ++ [r]) (S (full_ok s)) (partial_ok s) (none_ok s)
  | Partial => mkXor (rows s ++ [r]) (full_ok s) (S (partial_ok s)) (none_ok s)
  | Absent => mkXor (rows s ++ [r]) (full_ok s) (partial_ok s) (S (none_ok s))
  end.

Definition verify_xor_correctness (ksize : nat) (published : list entry) : option XorSummary :=
  let check_n := Nat.min (length published) 20 in
  rs ← mapM (fun e => xor_row ksize (digest (snd (fst e)))) (take check_n published);
  Some (foldl count_row (mkXor [] 0 0 0) rs).

(** [print_bucket_structure]: per node its buckets and peers, per bucket its
    size, depth, whether it is lonely, and its lower bound; and the totals. *)
Definition bucket_line (b : KBucket) : nat * nat * bool * Z :=
  (length (bnodes b), Routing.depth b, is_lonely now b, range_lo b).

Definition bucket_structure : list (Z * nat * nat * list (nat * nat * bool * Z)) :=
  (fun sp =>
     let bs := buckets (router (fst sp)) in
     (snd sp, length bs, sum_list (length ∘ bnodes <$> bs), bucket_line <$> bs)) <$> servers.

Definition total_buckets : nat := sum_list ((fun l => snd (fst (fst l))) <$> bucket_structure).
Definition total_peers : nat := sum_list ((fun l => snd (fst l)) <$> bucket_structure).

(** [print_routing_tables]: the peers of each node, by port. *)
Definition routing_tables : list (Z * list Node) :=
  (fun sp => (snd sp, stable_sort (fun n => default 0 (port n)) (concat (bnodes <$> buckets (router (fst sp)))))) <$> servers.

End diagnostics.

(** ** The run *)

Variable fuel : nat.
Variable fates : nat -> nat -> Fate.
Variable pause : Z -> nodes -> nodes.
Variable late : nat -> option (Z -> nodes -> nodes).
Variable took : nat -> N.
Variable ksize alpha : nat.

(** [timeout(OP_TIMEOUT, ...)]: [None] when the time ran out. *)
Definition timed (who : SocketAddr) (a : action) (w : World) : option (option outcome * World) :=
  match late (ops w) with
  | Some partly =>
      let t := clock w + OP_TIMEOUT in
      Some (None, mkTimed t (S (ops w)) (slept w) (partly t (body w)))
  | None => '(o, w) ← operate fuel fates pause took alpha who a w; Some (Some o, w)
  end.

Fixpoint start_all (read_file : bytes -> result bytes io_error) (random : nat -> bytes) (ixs : list nat) (w : World)
  : option (list (SocketAddr * Z) * World) :=
  match ixs with
  | [] => Some ([], w)
  | i :: ixs =>
      let port := BASE_PORT + Z.of_nat i in
      '(a, w) ← launch fates ksize alpha true read_file (random i) port w;
      '(ns, w) ← start_all read_file random ixs w;
      Some ((a, port) :: ns, w)
  end.

(** One pass: all nodes but the seed. *)
Fixpoint bootstrap_pass (ns : list (SocketAddr * Z)) (w : World) : option World :=
  match ns with
  | [] => Some w
  | (a, _) :: ns =>
      '(_, w) ← operate fuel fates pause took alpha a (ABootstrap [("127.0.0.1"%string, BASE_PORT)]) w;
      bootstrap_pass ns w
  end.

Definition bootstrap_all (ns : list (SocketAddr * Z)) (w : World) : option World :=
  w ← bootstrap_pass (tail ns) w;
  w ← bootstrap_pass (tail ns) (sleep pause 300000000 w);
  Some (sleep pause 300000000 w).

(** Phase 1. *)
Record SetPhase := mkSetPhase {
  published : list entry;
  set_ok : nat;
  set_fail : nat;
  set_latencies : list Z
}.

Definition count_set (ns : Z) (e : entry) (result : option outcome) (st : SetPhase) : SetPhase :=
  match result with
  | Some (OAnswer (Some true)) =>
      mkSetPhase (published st ++ [e]) (S (set_ok st)) (set_fail st) (set_latencies st ++ [ns])
  | _ => mkSetPhase (published st) (set_ok st) (S (set_fail st)) (set_latencies st)
  end.

Definition drawn_entry (d : Draw) : option entry := new_record (d_dpk d) (d_dsk d) (d_kpk d) (d_uuid d).

(** The node that writes in iteration [i]. *)
Definition writer_index (i : nat) : nat := (i mod NUM_NODES)%nat.

Fixpoint publish_phase (draw : nat -> Draw) (ns : list (SocketAddr * Z)) (ixs : list nat) (st : SetPhase) (w : World)
  : option (SetPhase * World) :=
  match ixs with
  | [] => Some (st, w)
  | i :: ixs =>
      '(did, key, record) ← drawn_entry (draw i);
      '(writer, _) ← ns !! writer_index i;
      let t := Z.of_N (took (ops w)) in
      '(result, w) ← timed writer (ASet key record) w;
      publish_phase draw ns ixs (count_set t (did, key, record) result st) w
  end.

(** Phase 2; a line per read: the reader's port, the key and the answer, [None]
    after a timeout. *)
Record GetPhase := mkGetPhase {
  get_log : list (Z * bytes * option (option bytes));
  get_ok : nat;
  get_fail : nat;
  get_corrupt : nat;
  get_latencies : list Z
}.

Definition answer_of (result : option outcome) : option (option bytes) :=
  match result with
  | Some (OValue v) => Some v
  | Some _ => Some None
  | None => None
  end.

Definition count_read (ns : Z) (port : Z) (key original : bytes) (answer : option (option bytes)) (st : GetPhase) : GetPhase :=
  let log := get_log st ++ [(port, key, answer)] in
  match answer with
  | Some (Some retrieved) =>
      if decide (retrieved = original)
      then mkGetPhase log (S (get_ok st)) (get_fail st) (get_corrupt st) (get_latencies st ++ [ns])
      else mkGetPhase log (get_ok st) (get_fail st) (S (get_corrupt st)) (get_latencies st ++ [ns])
  | _ => mkGetPhase log (get_ok st) (S (get_fail st)) (get_corrupt st) (get_latencies st)
  end.

(** The node that reads the [i]-th published record. *)
Definition reader_index (i : nat) : nat := ((i + NUM_NODES / 2) mod NUM_NODES)%nat.

Fixpoint retrieve_phase (ns : list (SocketAddr * Z)) (i : nat) (es : list entry) (st : GetPhase) (w : World)
  : option (GetPhase * World) :=
  match es with
  | [] => Some (st, w)
  | (_, key, original) :: es =>
      '(reader, port) ← ns !! reader_index i;
      let t := Z.of_N (took (ops w)) in
      '(result, w) ← timed reader (AGet key) w;
      retrieve_phase ns (S i) es (count_read t port key original (answer_of result) st) w
  end.

(** What the program prints at the end. *)
Record TopologyReport := mkTopology {
  sets : SetPhase;
  gets : GetPhase;
  set_stats : spec_float * Z * Z * Z;
  get_stats : spec_float * Z * Z * Z;
  samples : list (bytes * bytes * option JValue);
  key_holders : gmap bytes (list Z);
  xor_summary : XorSummary;
  bucket_view : list (Z * nat * nat * list (nat * nat * bool * Z));
  peer_view : list (Z * list Node);
  passed : bool
}.

(** [print_sample_docs] *)
Definition sample_docs (published : list entry) : list (bytes * bytes * option JValue) :=
  (fun e => (fst (fst e), hex_encode (digest (snd (fst e))), extract_doc (snd e))) <$> take 3 published.

Definition topology_verdict (s : SetPhase) (g : GetPhase) : bool :=
  Nat.eqb (get_fail g) 0 && Nat.eqb (get_corrupt g) 0 && Nat.eqb (set_fail s) 0.

(** The diagnostics and the verdict; [None] is a panic. *)
Definition conclude (now : Z) (servers : list (proto * Z)) (s : SetPhase) (g : GetPhase) : option TopologyReport :=
  ss ← latency_stats (set_latencies s);
  gs ← latency_stats (get_latencies g);
  x ← verify_xor_correctness now servers ksize (published s);
  Some (mkTopology s g ss gs (sample_docs (published s)) (storage_tables now servers) x
          (bucket_structure now servers) (routing_tables servers) (topology_verdict s g)).

(** A run ends early when a handler does not return: the stack overflow that
    this is ends the process. *)
Inductive TopologyRun := Crashed (w : World) | Finished (r : TopologyReport) (w : World).

Definition servers_of (ns : list (SocketAddr * Z)) (w : World) : option (list (proto * Z)) :=
  mapM (fun ap => p ← body w !! fst ap; Some (p, snd ap)) ns.

(** [run]; [None] is a panic of the program, or a lookup out of fuel. *)
Definition topology_run (read_file : bytes -> result bytes io_error) (random : nat -> bytes) (draw : nat -> Draw) (now : Z)
  : option TopologyRun :=
  '(ns, w) ← start_all read_file random (seq 0 NUM_NODES) (mkTimed now 0 0 ∅);
  w ← bootstrap_all ns w;
  '(s, w) ← publish_phase draw ns (seq 0 NUM_RECORDS) (mkSetPhase [] 0 0 []) w;
  '(g, w) ← retrieve_phase ns 0 (published s) (mkGetPhase [] 0 0 0 []) w;
  match servers_of ns w with
  | None => Some (Crashed w)
  | Some servers => r ← conclude (clock w) servers s g; Some (Finished r w)
  end.

End topology.

(** ** Facts on sorting and on the tables *)

Lemma insert_by_perm {A} (key : A -> Z) x l : insert_by key x l ≡ₚ x :: l.
Proof.
  induction l as [|y l IH]; [done|]. cbn [insert_by]. case_match; [done|]. rewrite IH. apply perm_swap.
Qed.

Lemma stable_sort_perm {A} (key : A -> Z) l : stable_sort key l ≡ₚ l.
Proof. induction l as [|x l IH]; [done|]. unfold stable_sort in *. cbn [foldr]. by rewrite insert_by_perm, IH. Qed.

Lemma insert_by_sorted {A} (key : A -> Z) x l :
  StronglySorted (fun a b => key a <= key b) l -> StronglySorted (fun a b => key a <= key b) (insert_by key x l).
Proof.
  induction 1 as [|y l Hs IH Hf]; cbn [insert_by]; [repeat constructor|].
  destruct (Z.leb_spec (key x) (key y)) as [Hle|Hlt].
  - constructor; [by constructor|]. constructor; [done|]. eapply Forall_impl; [exact Hf|]. simpl. lia.
  - constructor; [done|]. rewrite insert_by_perm. constructor; [lia|done].
Qed.

Lemma stable_sort_sorted {A} (key : A -> Z) l : StronglySorted (fun a b => key a <= key b) (stable_sort key l).
Proof. unfold stable_sort. induction l as [|x l IH]; cbn [foldr]; [constructor|by apply insert_by_sorted]. Qed.

Lemma stable_sort_split {A} (key : A -> Z) k l x y :
  x ∈ take k (stable_sort key l) -> y ∈ drop k (stable_sort key l) -> key x <= key y.
Proof.
  pose proof (stable_sort_sorted key l) as Hs. rewrite <- (take_drop k (stable_sort key l)) in Hs.
  intros Hx Hy. exact (StronglySorted_app_1_elem_of _ _ _ x y Hs Hx Hy).
Qed.

Section tables.
Context `{HA : Hashes} `{NA : NetAddr} `{HX : HexCodec} `{HXL : !HexLaws} {io_error C : Type}.
Local Abbreviation proto := (KademliaProtocol ForgetfulStorage (DIDSignatureVerifierHandler io_error) C).
Implicit Types servers : list (proto * Z).

Lemma hex_inj a b : hex_encode a = hex_encode b -> a = b.
Proof. intros E. pose proof (hex_roundtrip a) as Ha. rewrite E, hex_roundtrip in Ha. congruence. Qed.

Lemma add_holder_key port m e k :
  default [] (add_holder port m e !! hex_encode k) =
  default [] (m !! hex_encode k) ++ (if decide (fst e = k) then [port] else []).
Proof.
  unfold add_holder. case_decide as E; [rewrite E, lookup_insert_eq; done|].
  rewrite lookup_insert_ne, app_nil_r; [done|]. intros E'. by apply E, hex_inj.
Qed.

(** One node's entries add its port once for each key it holds. *)
Lemma add_holders_key port es m k :
  NoDup (fst <$> es) ->
  default [] (foldl (add_holder port) m es !! hex_encode k) =
  default [] (m !! hex_encode k) ++ (if decide (k ∈ fst <$> es) then [port] else []).
Proof.
  revert m. induction es as [|e es IH]; intros m Hn; [by rewrite app_nil_r|]. rewrite fmap_cons in Hn |- *.
  apply NoDup_cons in Hn as [He Hn]. cbn [foldl]. rewrite (IH _ Hn), add_holder_key, <- app_assoc. f_equal.
  repeat case_decide; set_solver.
Qed.

(** The table of a key: the ports of the nodes that hold it, in order. *)
Lemma storage_tables_key now servers k :
  default [] (storage_tables now servers !! hex_encode k) =
  snd <$> filter (fun sp => holds now k (fst sp) = true) servers.
Proof.
  unfold storage_tables.
  assert (forall m, default [] (foldl (fun m sp => foldl (add_holder (snd sp)) m (iter_all now (storage (fst sp)))) m servers !! hex_encode k)
    = default [] (m !! hex_encode k) ++ (snd <$> filter (fun sp => holds now k (fst sp) = true) servers)) as H;
    [|by rewrite H, lookup_empty].
  induction servers as [|[p q] servers IH]; intros m; [by rewrite app_nil_r|]. cbn [foldl]. rewrite IH.
  rewrite add_holders_key by apply iter_all_nodup. cbn [fst snd]. rewrite <- app_assoc. f_equal.
  assert (k ∈ fst <$> iter_all now (storage p) <-> holds now k p = true) as Hk.
  { unfold holds. rewrite bool_decide_eq_true, list_elem_of_fmap. split.
    - intros ([k' v] & -> & Hv). apply iter_all_get in Hv. by eexists.
    - intros [v Hv]. exists (k, v). split; [done|]. by apply iter_all_get. }
  rewrite filter_cons. cbn [fst]. repeat case_decide; (done || tauto).
Qed.

End tables.

Section ports.
Context `{HA : Hashes} `{NA : NetAddr} {io_error C : Type}.
Local Abbreviation proto := (KademliaProtocol ForgetfulStorage (DIDSignatureVerifierHandler io_error) C).
Implicit Types servers : list (proto * Z).

(** Each port names its server. *)
Lemma server_at_unique servers p q : NoDup (snd <$> servers) -> (p, q) ∈ servers -> server_at servers q = Some p.
Proof.
  intros Hn Hp. unfold server_at. destruct (list_find (fun sp => snd sp = q) servers) as [[i [p' q']]|] eqn:E.
  - apply list_find_Some in E as (Hi & Hq & _). simpl in Hq. subst q'. simpl. f_equal.
    apply list_elem_of_lookup in Hp as [j Hj].
    assert (i = j) as ->; [|congruence]. eapply (NoDup_lookup _ _ _ q Hn); by rewrite list_lookup_fmap, ?Hi, ?Hj.
  - apply list_find_None in E. rewrite Forall_forall in E. by destruct (E _ Hp).
Qed.

Definition port_holds (now : Z) servers (dkey : bytes) (q : Z) : bool :=
  match server_at servers q with Some p => holds now dkey p | None => false end.

Lemma split_holders_spec now servers dkey ports :
  (forall q, q ∈ ports -> is_Some (server_at servers q)) ->
  split_holders now servers dkey ports =
    Some (filter (fun q => port_holds now servers dkey q = true) ports, filter (fun q => port_holds now servers dkey q <> true) ports).
Proof.
  induction ports as [|q ports IH]; intros Hp; [done|]. cbn [split_holders].
  destruct (Hp q) as [p Hq]; [set_solver|]. rewrite Hq, IH by set_solver. cbn [mbind option_bind].
  assert (port_holds now servers dkey q = holds now dkey p) as E by (unfold port_holds; by rewrite Hq).
  rewrite <- E, !filter_cons. destruct (port_holds now servers dkey q); repeat case_decide; done.
Qed.

Lemma by_dist_ports servers dkey : snd <$> by_dist servers dkey ≡ₚ snd <$> servers.
Proof. unfold by_dist. rewrite stable_sort_perm, <- list_fmap_compose. done. Qed.

Lemma closest_known servers ksize dkey q :
  q ∈ snd <$> take ksize (by_dist servers dkey) -> exists p, (p, q) ∈ servers.
Proof.
  intros Hq. assert (q ∈ snd <$> servers) as Hs.
  { rewrite <- by_dist_ports. apply list_elem_of_fmap in Hq as (e & -> & He). apply list_elem_of_fmap.
    exists e. split; [done|]. rewrite <- (take_drop ksize (by_dist servers dkey)). set_solver. }
  apply list_elem_of_fmap in Hs as ([p q'] & -> & Hs). by exists p.
Qed.

Lemma xor_row_total now servers ksize dkey :
  NoDup (snd <$> servers) ->
  let ks := snd <$> take ksize (by_dist servers dkey) in
  xor_row now servers ksize dkey =
    Some (mkXorRow ks (filter (fun q => port_holds now servers dkey q = true) ks)
            (filter (fun q => port_holds now servers dkey q <> true) ks)
            (snd <$> filter (fun sp => (snd sp ∉ ks) /\ holds now dkey (fst sp) = true) servers)).
Proof.
  intros Hn ks. unfold xor_row. cbv zeta. rewrite split_holders_spec; [done|].
  intros q (p & Hp)%closest_known. rewrite (server_at_unique servers p q) by done. by eexists.
Qed.

Lemma verify_total now servers ksize (published : list (bytes * bytes * bytes)) :
  NoDup (snd <$> servers) -> is_Some (verify_xor_correctness now servers ksize published).
Proof.
  intros Hn. unfold verify_xor_correctness. cbv zeta.
  assert (is_Some (mapM (fun e : bytes * bytes * bytes => xor_row now servers ksize (digest (snd (fst e))))
    (take (Nat.min (length published) 20) published))) as [rs ->]; [|by eexists].
  apply mapM_is_Some, Forall_forall. intros e _. eexists. apply (xor_row_total now servers ksize _ Hn).
Qed.

Lemma closest_nodup servers ksize dkey : NoDup (snd <$> servers) -> NoDup (snd <$> take ksize (by_dist servers dkey)).
Proof. intros Hn. apply NoDup_fmap_take. by rewrite by_dist_ports. Qed.

(** A server inside is not farther than one outside. *)
Lemma closest_is_closest servers ksize dkey p q p' q' :
  NoDup (snd <$> servers) -> (p, q) ∈ servers -> q ∈ snd <$> take ksize (by_dist servers dkey) ->
  (p', q') ∈ servers -> q' ∉ snd <$> take ksize (by_dist servers dkey) ->
  distance_to (from_id (id (source_node p))) (from_id dkey) <= distance_to (from_id (id (source_node p'))) (from_id dkey).
Proof.
  intros Hn Hp Hq Hp' Hq'.
  set (f := fun sp : proto * Z => (distance_to (from_id (id (source_node (fst sp)))) (from_id dkey), snd sp)).
  assert (forall p q, (p, q) ∈ servers -> f (p, q) ∈ by_dist servers dkey) as Hf.
  { intros p0 q0 H0. unfold by_dist. rewrite stable_sort_perm. apply list_elem_of_fmap. by exists (p0, q0). }
  assert (NoDup (snd <$> by_dist servers dkey)) as Hd by (by rewrite by_dist_ports).
  apply (stable_sort_split fst ksize (f <$> servers) (f (p, q)) (f (p', q'))).
  - apply list_elem_of_fmap in Hq as (e & He & Hin).
    replace (f (p, q)) with e; [done|]. assert (e ∈ by_dist servers dkey) as Hin'.
    { rewrite <- (take_drop ksize (by_dist servers dkey)). set_solver. }
    apply list_elem_of_lookup in Hin' as [i Hi]. destruct (proj1 (list_elem_of_lookup _ _) (Hf p q Hp)) as [j Hj].
    assert (i = j) as ->; [|congruence]. apply (NoDup_lookup _ _ _ q Hd); rewrite list_lookup_fmap, ?Hi, ?Hj; simpl; congruence.
  - pose proof (Hf p' q' Hp') as Hin. rewrite <- (take_drop ksize (by_dist servers dkey)) in Hin.
    apply elem_of_app in Hin as [Hin|Hin]; [|done]. destruct Hq'. apply list_elem_of_fmap. by exists (f (p', q')).
Qed.

(** The holders among the closest and the others are all the holders. *)
Lemma holders_split now servers dkey ks :
  NoDup (snd <$> servers) -> NoDup ks -> (forall q, q ∈ ks -> exists p, (p, q) ∈ servers) ->
  filter (fun q => port_holds now servers dkey q = true) ks ++
    (snd <$> filter (fun sp => (snd sp ∉ ks) /\ holds now dkey (fst sp) = true) servers)
  ≡ₚ snd <$> filter (fun sp => holds now dkey (fst sp) = true) servers.
Proof.
  intros Hn Hk Hks. apply NoDup_Permutation.
  - apply NoDup_app. split_and!; [by apply NoDup_filter| |by apply NoDup_fmap_filter].
    intros q [_ Hq]%list_elem_of_filter ([p' q'] & -> & [[Hno _] _]%list_elem_of_filter)%list_elem_of_fmap. by apply Hno.
  - by apply NoDup_fmap_filter.
  - intros q. rewrite elem_of_app, list_elem_of_filter, !list_elem_of_fmap. split.
    + intros [[Hh Hq]|([p q'] & -> & [[_ Hh] Hin]%list_elem_of_filter)].
      * destruct (Hks q Hq) as [p Hp]. exists (p, q). rewrite list_elem_of_filter. split_and!; [done| |done].
        unfold port_holds in Hh. by rewrite (server_at_unique servers p q) in Hh.
      * exists (p, q'). by rewrite list_elem_of_filter.
    + intros ([p q'] & -> & [Hh Hin]%list_elem_of_filter). simpl in *. destruct (decide (q' ∈ ks)) as [Hq|Hq].
      * left. split; [|done]. unfold port_holds. by rewrite (server_at_unique servers p q').
      * right. exists (p, q'). by rewrite list_elem_of_filter.
Qed.

End ports.

(** ** The two diagnostics agree *)

Section views.
Context `{HA : Hashes} `{NA : NetAddr} `{HX : HexCodec} `{HXL : !HexLaws} {io_error C : Type}.
Local Abbreviation proto := (KademliaProtocol ForgetfulStorage (DIDSignatureVerifierHandler io_error) C).


End views.

(** ** The run *)

(** What a line of the second phase reports of the record it is about. *)
Inductive ReadClass := IsRead | IsCorrupt | IsMissing.

#[global] Instance ReadClass_eq_dec : EqDecision ReadClass.
Proof. solve_decision. Defined.

Definition read_class (el : bytes * bytes * bytes * (Z * bytes * option (option bytes))) : ReadClass :=
  match snd (snd el) with
  | Some (Some v) => if decide (v = snd (fst el)) then IsRead else IsCorrupt
  | _ => IsMissing
  end.

Definition class_count (c : ReadClass) (els : list (bytes * bytes * bytes * (Z * bytes * option (option bytes)))) : nat :=
  length (filter (fun el => read_class el = c) els).

Lemma class_count_cons c el els :
  class_count c (el :: els) = ((if decide (read_class el = c) then 1 else 0) + class_count c els)%nat.
Proof. unfold class_count. rewrite filter_cons. by case_decide. Qed.

Lemma class_count_sum els :
  (class_count IsRead els + class_count IsCorrupt els + class_count IsMissing els = length els)%nat.
Proof.
  induction els as [|el els IH]; [done|]. rewrite !class_count_cons. simpl.
  destruct (read_class el); repeat case_decide; (done || lia).
Qed.

Lemma class_count_all els : class_count IsRead els = length els <-> Forall (fun el => read_class el = IsRead) els.
Proof.
  pose proof (class_count_sum els). split.
  - intros E. apply Forall_forall. intros el Hel. destruct (decide (read_class el = IsRead)) as [|Hne]; [done|].
    pose proof (length_filter_lt (fun el => read_class el = IsRead) els el Hel Hne). unfold class_count in *. lia.
  - intros Hf. unfold class_count. by rewrite filter_all.
Qed.

Lemma sublist_full {A} (l1 l2 : list A) : l1 `sublist_of` l2 -> length l1 = length l2 -> l1 = l2.
Proof.
  induction 1 as [|x l1 l2 _ IH|x l1 l2 Hs _]; simpl; intros Hl; [done|f_equal; apply IH; lia|].
  apply sublist_length in Hs. lia.
Qed.

Section run_spec.
Context `{US : UnstableSort} `{HO : HashOrder} `{HA : Hashes} `{HAL : !HashLaws} `{NA : NetAddr} `{HX : HexCodec}.
Context `{CP : CryptoPrims} `{CL : !CryptoLaws} `{JM : JsonMap} `{SJ : SerdeJson} `{SEL : !SerdeLaws}.
Context `{B6 : Base64Engine} `{BL : !Base64Laws} {io_error : Type}.
Context {C : Type} `{MC : Moka C}.
Local Abbreviation Hd := (DIDSignatureVerifierHandler io_error).
Local Abbreviation nodes := (cluster ForgetfulStorage Hd C).

Variable fates : nat -> nat -> Fate.
Variable pause : Z -> nodes -> nodes.
Variable late : nat -> option (Z -> nodes -> nodes).
Variable took : nat -> N.
Variable ksize alpha : nat.
Variable h : Hd.
Hypothesis pause_inv : forall t t' cl, t <= t' -> cluster_inv h t cl -> cluster_inv h t' (pause t' cl).
Hypothesis late_inv : forall n f t t' cl,
  late n = Some f -> t <= t' -> cluster_inv h t cl -> cluster_inv h t' (f t' cl).

Local Abbreviation winv := (timed_inv (cluster_inv h)).

Lemma timed_ok who a w :
  winv w ->
  exists r w', timed CRAWL_FUEL fates pause late took alpha who a w = Some (r, w') /\ winv w' /\
    forall v, r = Some (OValue (Some v)) -> authentic h v.
Proof.
  intros Hw. unfold timed. destruct (late (ops w)) as [f|] eqn:El.
  - do 2 eexists. split; [done|]. split; [|done]. cbv zeta. unfold timed_inv. cbn [clock body].
    apply (late_inv (ops w) f (clock w)); [done|unfold OP_TIMEOUT, from_secs; lia|done].
  - destruct (operate_ok fates pause took h pause_inv alpha who a w Hw) as (o & w' & -> & [Hw' _] & Ho). cbn [mbind option_bind].
    do 2 eexists. split; [done|]. split; [done|]. intros v [= ->]. by apply Ho.
Qed.

(** The nodes as the program keeps them. *)
Definition node_list (addr : nat -> SocketAddr) (ixs : list nat) : list (SocketAddr * Z) :=
  (fun i => (addr i, BASE_PORT + Z.of_nat i)) <$> ixs.

Lemma start_all_ok read_file random addr ixs w :
  (0 < ksize)%nat -> h = mkDIDHandler (b! "issuer.bin") read_file -> winv w ->
  (forall i, i ∈ ixs -> parse_addr "127.0.0.1" (BASE_PORT + Z.of_nat i) = Some (addr i)) ->
  NoDup (addr <$> ixs) -> (forall i, i ∈ ixs -> body w !! addr i = None) ->
  exists w', start_all fates ksize alpha read_file random ixs w = Some (node_list addr ixs, w') /\ winv w'.
Proof.
  intros Hk Hh. revert w. induction ixs as [|i ixs IH]; intros w Hw Ha Hn He; cbn [start_all]; [by eexists|]. cbv zeta.
  destruct (launch_ok fates took h ksize alpha true read_file (random i) (BASE_PORT + Z.of_nat i) (addr i) w)
    as (p & w1 & -> & [Hw1 _] & N1); [done|done|done|apply Ha; set_solver|apply He; set_solver|].
  rewrite fmap_cons in Hn. apply NoDup_cons in Hn as [Hi Hn]. cbn [mbind option_bind].
  destruct (IH w1) as (w2 & -> & Hw2); [done|intros j Hj; apply Ha; set_solver|done| |by eexists].
  intros j Hj. rewrite N1, lookup_insert_ne; [apply He; set_solver|]. intros E. apply Hi. rewrite E. set_solver.
Qed.

Lemma bootstrap_pass_ok ns w : winv w -> exists w', bootstrap_pass CRAWL_FUEL fates pause took alpha ns w = Some w' /\ winv w'.
Proof.
  revert w. induction ns as [|[a q] ns IH]; intros w Hw; cbn [bootstrap_pass]; [by eexists|].
  destruct (operate_ok fates pause took h pause_inv alpha a (ABootstrap [("127.0.0.1"%string, BASE_PORT)]) w Hw) as (o & w1 & -> & [Hw1 _] & _).
  cbn [mbind option_bind]. by apply IH.
Qed.

Lemma bootstrap_all_ok ns w : winv w -> exists w', bootstrap_all CRAWL_FUEL fates pause took alpha ns w = Some w' /\ winv w'.
Proof.
  intros Hw. unfold bootstrap_all. destruct (bootstrap_pass_ok (tail ns) w Hw) as (w1 & -> & Hw1). cbn [mbind option_bind].
  destruct (bootstrap_pass_ok (tail ns) (sleep pause 300000000 w1)) as (w2 & -> & Hw2); [by apply (sleep_inv pause (cluster_inv h) pause_inv)|].
  cbn [mbind option_bind]. eexists. split; [done|]. by apply (sleep_inv pause (cluster_inv h) pause_inv).
Qed.

Lemma drawn_entry_Some d : exists e, drawn_entry d = Some e.
Proof.
  unfold drawn_entry, new_record, topology_signed_record. destruct (dht_key_Some (b! "did:iiot:" ++ d_uuid d)) as [key ->].
  cbn [mbind option_bind]. destruct (encode_Some (build_did_document (b! "did:iiot:" ++ d_uuid d) (d_dpk d) (d_kpk d))) as (b & -> & _).
  by eexists.
Qed.

(** Which of the drawn records a first phase adds, and its counts. *)
Definition set_progress (all : list (bytes * bytes * bytes)) (st st' : SetPhase) : Prop :=
  exists es, published st' = published st ++ es /\ es `sublist_of` all /\
    (set_ok st' = set_ok st + length es)%nat /\ (set_fail st' + length es = set_fail st + length all)%nat /\
    (length (set_latencies st') = length (set_latencies st) + length es)%nat.

Lemma count_set_progress ns e r st all st' :
  set_progress all (count_set ns e r st) st' -> set_progress (e :: all) st st'.
Proof.
  intros (es & Hp & Hs & Ho & Hf & Hl).
  assert (count_set ns e r st = mkSetPhase (published st ++ [e]) (S (set_ok st)) (set_fail st) (set_latencies st ++ [ns]) \/
    count_set ns e r st = mkSetPhase (published st) (set_ok st) (S (set_fail st)) (set_latencies st)) as [E|E]
    by (unfold count_set; repeat case_match; auto);
    rewrite E in *; cbn [published set_ok set_fail set_latencies] in *.
  - exists (e :: es). rewrite length_app in Hl. cbn [length] in *. split_and!; [|by apply sublist_skip|lia..].
    rewrite Hp. by rewrite <- app_assoc.
  - exists es. cbn [length]. split_and!; [done|by apply sublist_cons|lia..].
Qed.

Lemma publish_phase_ok draw (ns : list (SocketAddr * Z)) ixs st w :
  winv w -> length ns = NUM_NODES ->
  exists all st' w', mapM (fun i => drawn_entry (draw i)) ixs = Some all /\
    publish_phase CRAWL_FUEL fates pause late took alpha draw ns ixs st w = Some (st', w') /\ winv w' /\ set_progress all st st'.
Proof.
  intros Hw Hns. revert st w Hw. induction ixs as [|i ixs IH]; intros st w Hw; cbn [publish_phase].
  - exists [], st, w. split_and!; [done|done|done|]. exists []. rewrite app_nil_r. split_and!; [done|done|simpl; lia..].
  - destruct (drawn_entry_Some (draw i)) as ([[did key] record] & Ed).
    destruct (lookup_lt_is_Some_2 ns (writer_index i)) as [[a q] Ha].
    { rewrite Hns. apply Nat.mod_upper_bound. done. }
    rewrite Ed, Ha. cbn [mbind option_bind]. cbv zeta.
    destruct (timed_ok a (ASet key record) w Hw) as (r & w1 & -> & Hw1 & _). cbn [mbind option_bind].
    destruct (IH (count_set (Z.of_N (took (ops w))) (did, key, record) r st) w1 Hw1) as (all & st' & w2 & Hall & E & Hw2 & Hp).
    exists ((did, key, record) :: all), st', w2. split_and!; [|exact E|done|by eapply count_set_progress].
    cbn [mapM]. rewrite Ed. cbn [mbind option_bind]. by rewrite Hall.
Qed.

(** The lines that a second phase adds for its records, and its counts. *)
Definition get_progress (i : nat) (es : list (bytes * bytes * bytes)) (st st' : GetPhase) : Prop :=
  exists lines, get_log st' = get_log st ++ lines /\ length lines = length es /\
    (forall j e line, es !! j = Some e -> lines !! j = Some line ->
       fst line = (BASE_PORT + Z.of_nat (reader_index (i + j)), snd (fst e)) /\
       forall v, snd line = Some (Some v) -> authentic h v) /\
    (get_ok st' = get_ok st + class_count IsRead (zip es lines))%nat /\
    (get_corrupt st' = get_corrupt st + class_count IsCorrupt (zip es lines))%nat /\
    (get_fail st' = get_fail st + class_count IsMissing (zip es lines))%nat /\
    (length (get_latencies st') + class_count IsMissing (zip es lines) = length (get_latencies st) + length es)%nat.

Lemma count_read_progress ns i e answer es st st' :
  (forall v, answer = Some (Some v) -> authentic h v) ->
  get_progress (S i) es (count_read ns (BASE_PORT + Z.of_nat (reader_index i)) (snd (fst e)) (snd e) answer st) st' ->
  get_progress i (e :: es) st st'.
Proof.
  intros Hans (lines & Hlog & Hlen & Hl & Ho & Hc & Hf & Ht).
  exists ((BASE_PORT + Z.of_nat (reader_index i), snd (fst e), answer) :: lines). cbn [zip zip_with length].
  rewrite !class_count_cons. split_and!.
  - rewrite Hlog. unfold count_read. repeat case_match; cbn [get_log]; by rewrite <- app_assoc.
  - lia.
  - intros [|j] e' line He Hj; simpl in He, Hj.
    + injection He as <-. injection Hj as <-. rewrite Nat.add_0_r. done.
    + rewrite Nat.add_succ_r. by apply (Hl j).
  - rewrite Ho. unfold count_read, read_class. cbn [snd fst]. repeat case_match; cbn [get_ok]; (done || lia).
  - rewrite Hc. unfold count_read, read_class. cbn [snd fst]. repeat case_match; cbn [get_corrupt]; (done || lia).
  - rewrite Hf. unfold count_read, read_class. cbn [snd fst]. repeat case_match; cbn [get_fail]; (done || lia).
  - unfold count_read, read_class in *. cbn [snd fst] in *.
    repeat case_match; cbn [get_latencies] in *; rewrite ?length_app in *; cbn [length] in *; (done || lia).
Qed.

Lemma reader_lookup addr i :
  node_list addr (seq 0 NUM_NODES) !! reader_index i = Some (addr (reader_index i), BASE_PORT + Z.of_nat (reader_index i)).
Proof.
  unfold node_list. rewrite list_lookup_fmap, lookup_seq_lt; [done|]. by apply Nat.mod_upper_bound.
Qed.

Lemma retrieve_phase_ok addr i es st w :
  winv w ->
  exists st' w', retrieve_phase CRAWL_FUEL fates pause late took alpha (node_list addr (seq 0 NUM_NODES)) i es st w = Some (st', w') /\
    winv w' /\ get_progress i es st st'.
Proof.
  revert i st w. induction es as [|[[did key] original] es IH]; intros i st w Hw; cbn [retrieve_phase].
  - do 2 eexists. split; [done|]. split; [done|]. exists []. rewrite app_nil_r. split_and!; [done|done|done|unfold class_count; simpl; lia..].
  - rewrite reader_lookup. cbn [mbind option_bind]. cbv zeta.
    destruct (timed_ok (addr (reader_index i)) (AGet key) w Hw) as (r & w1 & -> & Hw1 & Hr). cbn [mbind option_bind].
    destruct (IH (S i) (count_read (Z.of_N (took (ops w))) (BASE_PORT + Z.of_nat (reader_index i)) key original (answer_of r) st) w1 Hw1)
      as (st' & w2 & E & Hw2 & Hp).
    exists st', w2. split; [exact E|]. split; [done|]. eapply (count_read_progress _ i (did, key, original) (answer_of r)); [|exact Hp].
    intros v Hv. apply Hr. unfold answer_of in Hv. repeat case_match; congruence.
Qed.

(** All records were read: each line's answer is the record. *)
Lemma all_read_lines es lines :
  length lines = length es ->
  class_count IsRead (zip es lines) = length es <->
  Forall2 (fun e line => snd line = Some (Some (snd e))) es lines.
Proof.
  intros Hl. rewrite <- (length_zip_with_l_eq pair es lines) by done. rewrite class_count_all. split.
  - intros Hf. apply Forall2_same_length_lookup. split; [done|]. intros j e line He Hj.
    rewrite Forall_forall in Hf. specialize (Hf (e, line)). unfold read_class in Hf. cbn [fst snd] in Hf.
    assert ((e, line) ∈ zip es lines) as Hin.
    { apply list_elem_of_lookup. exists j. by rewrite lookup_zip_with, He, Hj. }
    specialize (Hf Hin). repeat case_match; try done. congruence.
  - intros Hf. clear Hl. induction Hf as [|e line es lines He _ IH]; simpl; constructor; [|done].
    unfold read_class. cbn [fst snd]. rewrite He. by rewrite decide_True.
Qed.

Lemma servers_of_ports ns (w : Timed nodes) servers : servers_of ns w = Some servers -> snd <$> servers = snd <$> ns.
Proof.
  unfold servers_of. intros Hm%mapM_Some_1. induction Hm as [|[a q] [p q'] ns servers Hx _ IH]; [done|].
  apply bind_Some in Hx as (p0 & _ & [= -> ->]). rewrite !fmap_cons. by f_equal.
Qed.

Lemma servers_of_None ns (w : Timed nodes) : servers_of ns w = None -> exists a q, (a, q) ∈ ns /\ body w !! a = None.
Proof.
  unfold servers_of. intros ([a q] & Hin & Hx)%mapM_None_1%Exists_exists. exists a, q. split; [done|].
  cbn [fst snd] in Hx. by destruct (body w !! a).
Qed.

Lemma node_list_ports addr ixs : NoDup ixs -> NoDup (snd <$> node_list addr ixs).
Proof.
  intros Hn. unfold node_list. rewrite <- list_fmap_compose. apply NoDup_fmap_2; [|done]. intros i j. simpl. lia.
Qed.

Lemma conclude_ok now servers s g :
  NoDup (snd <$> servers) ->
  exists r, conclude (C := C) (io_error := io_error) ksize now servers s g = Some r /\ sets r = s /\ gets r = g /\ passed r = topology_verdict s g.
Proof.
  intros Hn. unfold conclude. destruct (latency_stats_total (set_latencies s)) as [a ->]. cbn [mbind option_bind].
  destruct (latency_stats_total (get_latencies g)) as [b ->]. cbn [mbind option_bind].
  destruct (verify_total now servers ksize (published s) Hn) as [x ->]. by eexists.
Qed.

(** C32: the topology test runs through and its verdict means what it says.  With
    thirty distinct local addresses, whatever messages are lost and whichever
    operations time out: the run ends with its report, unless a node's handler
    never returned.  The published records are among the hundred drawn, in order,
    and every one of the hundred is counted once, as set or failed; each published
    record has one line, in order, and is counted once as read, missing or corrupt;
    every value a reader returned is authentic.  All checks passed exactly when all
    hundred records were published and every reader returned the record. *)
Theorem topology_outcomes (read_file : bytes -> result bytes io_error) (random : nat -> bytes) (draw : nat -> Draw) (now : Z)
    (addr : nat -> SocketAddr) :
  (0 < ksize)%nat -> h = mkDIDHandler (b! "issuer.bin") read_file ->
  (forall i, (i < NUM_NODES)%nat -> parse_addr "127.0.0.1" (BASE_PORT + Z.of_nat i) = Some (addr i)) ->
  NoDup (addr <$> seq 0 NUM_NODES) ->
  exists all res, mapM (fun i => drawn_entry (draw i)) (seq 0 NUM_RECORDS) = Some all /\
    topology_run CRAWL_FUEL fates pause late took ksize alpha read_file random draw now = Some res /\
    match res with
    | Crashed w => winv w /\ exists i, (i < NUM_NODES)%nat /\ body w !! addr i = None
    | Finished r w =>
        winv w /\ published (sets r) `sublist_of` all /\
        set_ok (sets r) = length (published (sets r)) /\ (set_ok (sets r) + set_fail (sets r) = NUM_RECORDS)%nat /\
        Forall2 (fun e line => snd (fst line) = snd (fst e)) (published (sets r)) (get_log (gets r)) /\
        (get_ok (gets r) + get_fail (gets r) + get_corrupt (gets r) = set_ok (sets r))%nat /\
        (forall line v, line ∈ get_log (gets r) -> snd line = Some (Some v) -> authentic h v) /\
        (passed r = true <->
         published (sets r) = all /\ Forall2 (fun e line => snd line = Some (Some (snd e))) all (get_log (gets r)))
    end.
Proof.
  intros Hk Hh Ha Hn. unfold topology_run.
  destruct (start_all_ok read_file random addr (seq 0 NUM_NODES) (mkTimed now 0 0 ∅)) as (w1 & -> & Hw1); [done|done|done| |done|done|].
  { intros i Hi%elem_of_seq. apply Ha. lia. }
  cbn [mbind option_bind]. set (ns := node_list addr (seq 0 NUM_NODES)).
  destruct (bootstrap_all_ok ns w1 Hw1) as (w2 & -> & Hw2). cbn [mbind option_bind].
  destruct (publish_phase_ok draw ns (seq 0 NUM_RECORDS) (mkSetPhase [] 0 0 []) w2 Hw2) as (all & s & w3 & Hall & -> & Hw3 & Hs); [done|].
  cbn [mbind option_bind]. destruct (retrieve_phase_ok addr 0 (published s) (mkGetPhase [] 0 0 0 []) w3 Hw3) as (g & w4 & Hg' & Hw4 & Hg).
  fold ns in Hg'. rewrite Hg'. cbn [mbind option_bind]. exists all.
  assert (length all = NUM_RECORDS) as Hlen by (apply length_mapM in Hall; by rewrite length_seq in Hall).
  destruct (servers_of ns w4) as [servers|] eqn:Es.
  - destruct (conclude_ok (clock w4) servers s g) as (r & -> & Er & Eg & Ep).
    { rewrite (servers_of_ports _ _ _ Es). apply node_list_ports, NoDup_seq. }
    cbn [mbind option_bind]. eexists. split; [done|]. split; [done|]. split; [done|]. rewrite Er, Eg, Ep.
    destruct Hs as (es & Hp & Hsub & Ho & Hf & _). cbn [published set_ok set_fail app] in *. subst es.
    destruct Hg as (lines & Hl & Hll & Hj & Gr & Gc & Gm & _). cbn [get_log get_ok get_fail get_corrupt app] in *. subst lines.
    pose proof (class_count_sum (zip (published s) (get_log g))) as Hsum. rewrite length_zip_with_l_eq in Hsum by done.
    split_and!; [done|lia|lia| |lia| |].
    + apply Forall2_same_length_lookup. split; [done|]. intros j e line He Hline. by destruct (Hj j e line He Hline) as [-> _].
    + intros line v Hline Hv. apply list_elem_of_lookup in Hline as [j Hline].
      destruct (lookup_lt_is_Some_2 (published s) j) as [e He]; [apply lookup_lt_Some in Hline; lia|].
      by apply (proj2 (Hj j e line He Hline)).
    + unfold topology_verdict. rewrite !andb_true_iff, !Nat.eqb_eq. split.
      * intros [[G1 G2] S1]. assert (published s = all) as E by (apply sublist_full; [done|lia]). split; [done|].
        rewrite <- E. apply all_read_lines; [done|lia].
      * intros [E Hr]. rewrite <- E in Hr. apply all_read_lines in Hr; [|done]. rewrite E in *. lia.
  - eexists. split; [done|]. split; [done|]. split; [done|].
    destruct (servers_of_None ns w4 Es) as (a & q & Hin & Hnone). apply list_elem_of_fmap in Hin as (i & [= -> ->] & Hi%elem_of_seq).
    exists i. split; [lia|done].
Qed.

End run_spec.

(** The reader is half the cluster away from the writer only while no publication
    has failed: after [f] failures it is the writer itself when [f] is 15 modulo
    30. *)
Theorem reader_meets_writer (i f : nat) :
  (f <= i)%nat -> reader_index (i - f) = writer_index i <-> (f mod NUM_NODES = NUM_NODES / 2)%nat.
Proof.
  intros Hf. unfold reader_index, writer_index, NUM_NODES. change (30 / 2)%nat with 15%nat.
  pose proof (Nat.div_mod (i - f + 15) 30 ltac:(lia)). pose proof (Nat.mod_upper_bound (i - f + 15) 30 ltac:(lia)).
  pose proof (Nat.div_mod i 30 ltac:(lia)). pose proof (Nat.mod_upper_bound i 30 ltac:(lia)).
  pose proof (Nat.div_mod f 30 ltac:(lia)). pose proof (Nat.mod_upper_bound f 30 ltac:(lia)). lia.
Qed.

(** ** Examples *)

#[local] Existing Instances toy_prims toy_laws btree_map tree_json toy_base64 toy_base64_laws demo_hashes demo_hash_laws plain_addr toy_hex toy_hex_laws.
#[local] Existing Instance tree_json_laws.

Abbreviation toy_proto := (KademliaProtocol ForgetfulStorage (DIDSignatureVerifierHandler unit) SimpleCache).

(** A node that holds the records [es] under their digests. *)
Definition toy_node (i : byte) (es : list (bytes * bytes)) : toy_proto :=
  KademliaProtocol_new 0 (from_id (replicate 20 i))
    (foldl (fun s e => fs_set 0 s (fst e) (snd e)) (ForgetfulStorage_new (-1)) es) 2 toy_handler None.

Definition toy_key : bytes := replicate 20 x01.

(** Three nodes of which the second and the third hold a record; the first two are
    closest to its key. *)
Definition toy_servers : list (toy_proto * Z) :=
  [(toy_node x01 [], 15810); (toy_node x02 [(toy_key, [x2a])], 15811); (toy_node x40 [(toy_key, [x2a])], 15812)].

Example xor_row_example :
  xor_row 0 toy_servers 2 toy_key = Some (mkXorRow [15810; 15811] [15811] [15810] [15812]) /\
  storage_tables 0 toy_servers !! hex_encode toy_key = Some [15811; 15812].
Proof. vm_compute. split; reflexivity. Qed.


Definition toy_host (i : nat) : string * Z := ("127.0.0.1"%string, BASE_PORT + Z.of_nat i).

(** The fortieth operation times out. *)
Definition toy_late (n : nat) : option (Z -> two_hosts -> two_hosts) := if decide (n = 40%nat) then Some idle_hosts else None.

Lemma toy_late_inv h n f t t' cl : toy_late n = Some f -> t <= t' -> cluster_inv h t cl -> cluster_inv h t' (f t' cl).
Proof. unfold toy_late. case_decide; [|done]. intros [= <-]. apply cluster_inv_later. Qed.

Lemma topology_outcomes_witness :
  exists res, topology_run CRAWL_FUEL (fun _ _ => ResponseLost) idle_hosts toy_late
    (fun _ => 1000%N) (arg_or [] 1 20) (arg_or [] 2 3) no_issuer (fun i => [byte_of_Z (Z.of_nat i)]) toy_draw 0 = Some res.
Proof.
  destruct (topology_outcomes (fun _ _ => ResponseLost) idle_hosts toy_late
    (fun _ => 1000%N) 20 3 (mkDIDHandler (b! "issuer.bin") no_issuer)
    (fun t t' cl => cluster_inv_later _ t t' cl)
    (toy_late_inv _)
    no_issuer (fun i => [byte_of_Z (Z.of_nat i)]) toy_draw 0 toy_host) as (all & res & _ & E & _).
  - lia.
  - reflexivity.
  - intros i _. reflexivity.
  - apply (bool_decide_unpack _). vm_compute. exact I.
  - exists res. exact E.
Defined.
