(* ===== verification/CacheBench.v ===== *)
(** * CacheBench: the signature cache benchmark

    Models [src/examples/cache_bench.rs]: the three-node clusters, the workload of
    concurrent writes, and the cold and warm reads of a single node whose store was
    filled directly.  Random draws and measured times are arguments.  The writes of
    a workload overlap: the order in which they finish, and whether each ends with
    an answer of [set], a timeout or a panic of its task, are arbitrary.  The
    answers of the timed reads, which the program drops, are kept, since they are
    what the cache must not change.  The averages, deviations and percentiles that
    are printed are in [Latency.v]. *)
From S2P Require Import Prelude Node Routing RoutingTable RoutingTableSpec Storage Text Json Crypto AuthHandler Did SigCache Crawling Protocol ProtocolSpec Network NetworkSpec Cluster Clock Publish Harness Binary64 Latency.
From Stdlib Require Import Strings.Byte Floats.SpecFloat.
Local Open Scope Z_scope.

(** ** The workload of writes *)

Record SetResults := mkSetResults { set_ns : list Z; wok : nat; failures : nat; wall_secs : spec_float }.

(** How the task of a write ends: with what [set] returned, with a timeout, or
    with a panic, which [let _ = h.await] passes over. *)
Inductive WriteEnd := Returned (r : option bool) | WriteTimeout | WritePanic.

#[global] Instance WriteEnd_eq_dec : EqDecision WriteEnd.
Proof. solve_decision. Defined.

(** The task of write [i], from [r == Ok(Some(true))] on. *)
Definition finish_write (ends : nat -> WriteEnd) (took : nat -> Z) (st : SetResults) (i : nat) : SetResults :=
  match ends i with
  | Returned (Some true) => mkSetResults (set_ns st ++ [took i]) (S (wok st)) (failures st) (wall_secs st)
  | Returned _ | WriteTimeout => mkSetResults (set_ns st) (wok st) (S (failures st)) (wall_secs st)
  | WritePanic => st
  end.

(** [run_set_workload], with the writes in the order in which they finish; [wall]
    is the time it takes. *)
Definition run_set_workload `{UnstableSort} (ends : nat -> WriteEnd) (took : nat -> Z) (order : list nat) (wall : Z)
  : SetResults :=
  let st := foldl (finish_write ends took) (mkSetResults [] 0 0 (as_secs_f64 wall)) order in
  mkSetResults (sort_samples (set_ns st)) (wok st) (failures st) (wall_secs st).

Section cache_bench.
Context `{US : UnstableSort} `{HO : HashOrder} `{HA : Hashes} `{NA : NetAddr}.
Context `{CP : CryptoPrims} `{JM : JsonMap} `{SJ : SerdeJson} `{B6 : Base64Engine} {io_error : Type}.
Context {C : Type} `{MC : Moka C}.
Local Abbreviation Hd := (DIDSignatureVerifierHandler io_error).
Local Abbreviation nodes := (cluster ForgetfulStorage Hd C).

(** [start_cluster]; [None] is a panic, or a lookup out of fuel. *)
Definition start_cluster (fuel : nat) (fates : nat -> nat -> Fate) (pause : Z -> nodes -> nodes) (lasts : nat -> N)
    (read_file : bytes -> result bytes io_error) (random : nat -> bytes) (seed peer1 peer2 : Z) (use_cache : bool)
    (w : Timed nodes) : option (list SocketAddr * Timed nodes) :=
  '(s, w) ← launch fates 20 3 use_cache read_file (random 0%nat) seed w;
  '(p1, w) ← launch fates 20 3 use_cache read_file (random 1%nat) peer1 w;
  '(p2, w) ← launch fates 20 3 use_cache read_file (random 2%nat) peer2 w;
  let boot := ABootstrap [("127.0.0.1"%string, seed)] in
  '(_, w) ← operate fuel fates pause lasts 3 p1 boot w;
  '(_, w) ← operate fuel fates pause lasts 3 p2 boot w;
  Some ([s; p1; p2], sleep pause 300000000 w).

(** ** Cold and warm reads *)

Context {R : Type} `{NW : !Net R ForgetfulStorage Hd C}.

(** The generator of this program has the text of the attacker's. *)
Definition bench_record : Draw -> option (bytes * bytes) := drawn_record.

(** One pass over the records; the [i]-th operation of the program is at time
    [begins i] and takes [took i]. *)
Fixpoint read_pass (fuel : nat) (begins took : nat -> Z) (i : nat) (records : list (bytes * bytes)) (s : Server R)
  : option (list (option bytes) * list Z * Server R) :=
  match records with
  | [] => Some ([], [], s)
  | (key, _) :: records =>
      '(v, s) ← server_get fuel (begins i) key s;
      '(vs, ns, s) ← read_pass fuel begins took (S i) records s;
      Some (v :: vs, took i :: ns, s)
  end.

Record VerifyResults := mkVerify {
  cold : list (option bytes);
  warm : list (option bytes);
  cold_ns : list Z;
  warm_ns : list Z
}.

Definition run_verify_micro (fuel : nat) (begins took : nat -> Z) (read_file : bytes -> result bytes io_error) (random : bytes)
    (use_cache : bool) (draws : list Draw) (place : KademliaProtocol ForgetfulStorage Hd C -> R) : option VerifyResults :=
  let handler := mkDIDHandler (b! "issuer.bin") read_file in
  let s := listen (begins 0%nat) (Server_new (begins 0%nat) handler 20 3 None random (server_storage None) use_cache place) in
  records ← mapM bench_record draws;
  let s := foldl (seed_one (begins 0%nat)) s records in
  '(cold, cold_ns, s) ← read_pass fuel begins took 1 records s;
  '(warm, warm_ns, s) ← read_pass fuel begins took (1 + length records) records s;
  Some (mkVerify cold warm (sort_samples cold_ns) (sort_samples warm_ns)).

End cache_bench.

(** ** The figures *)

Definition CACHED_SEED : Z := 15810.
Definition CACHED_PEER1 : Z := 15811.
Definition CACHED_PEER2 : Z := 15812.
Definition UNCACHED_SEED : Z := 15813.
Definition UNCACHED_PEER1 : Z := 15814.
Definition UNCACHED_PEER2 : Z := 15815.
Definition MICRO_CACHED_PORT : Z := 15816.
Definition MICRO_UNCACHED_PORT : Z := 15817.
Definition DEFAULT_OPS : nat := Z.to_nat 10000.
Definition MICRO_OPS : nat := 500.

(** A line of [print_set_table] or [print_verify_table]: average, deviation, and
    the percentiles, in whole nanoseconds as they are given to [fmt_dur]. *)
Record TableLine := mkLine { l_avg : Z; l_stddev : Z; l_p50 : Z; l_p95 : Z; l_p99 : Z; l_max : Z }.

Definition table_line (v : list Z) : option TableLine :=
  p50 ← percentile v (f64_of 50);
  p95 ← percentile v (f64_of 95);
  p99 ← percentile v (f64_of 99);
  Some (mkLine (f64_to_usize (avg_ns v)) (f64_to_usize (stddev_ns v)) p50 p95 p99 (default 0 (last v))).

(** Operations per second, and the line unless no write succeeded. *)
Definition set_table (r : SetResults) (num_ops : nat) : option (spec_float * option TableLine) :=
  let tp := f64_div (f64_of (Z.of_nat num_ops)) (wall_secs r) in
  match set_ns r with
  | [] => Some (tp, None)
  | _ => l ← table_line (set_ns r); Some (tp, Some l)
  end.

Definition verify_table (r : VerifyResults) : option (TableLine * TableLine) :=
  c ← table_line (cold_ns r); w ← table_line (warm_ns r); Some (c, w).

(** [if c > 0.0 { u / c } else { 0.0 }] *)
Definition speedup (c u : spec_float) : spec_float := if SFltb (f64_of 0) c then f64_div u c else f64_of 0.

(** The line printed between the phases, when both averages are positive. *)
Definition set_comparison (c u : spec_float) : option spec_float :=
  if SFltb (f64_of 0) c && SFltb (f64_of 0) u then Some (f64_div u c) else None.

(** ** The program *)

Record BenchReport := mkBench {
  cached_set : SetResults;
  uncached_set : SetResults;
  set_tables : (spec_float * option TableLine) * (spec_float * option TableLine);
  set_line : option spec_float;
  cached_v : VerifyResults;
  uncached_v : VerifyResults;
  verify_tables : (TableLine * TableLine) * (TableLine * TableLine);
  speedups : spec_float * spec_float * spec_float
}.

Section bench_program.
Context `{US : UnstableSort} `{HO : HashOrder} `{HA : Hashes} `{NA : NetAddr}.
Context `{CP : CryptoPrims} `{JM : JsonMap} `{SJ : SerdeJson} `{B6 : Base64Engine} {io_error : Type}.
Context {C : Type} `{MC : Moka C}.
Local Abbreviation Hd := (DIDSignatureVerifierHandler io_error).
Local Abbreviation nodes := (cluster ForgetfulStorage Hd C).

Variable fuel : nat.
Variable fates : nat -> nat -> Fate.
Variable pause : Z -> nodes -> nodes.
Variable lasts : nat -> nat -> N.
Variable read_file : bytes -> result bytes io_error.
Variable random : nat -> nat -> bytes.

(** Of the four parts: how each operation ends, its time, the order of the ends
    and the wall time; when each read begins. *)
Variable ends : nat -> nat -> WriteEnd.
Variable took : nat -> nat -> Z.
Variable order : nat -> list nat.
Variable wall : nat -> Z.
Variable begins : nat -> nat -> Z.
Variable draws : nat -> list Draw.

(** A single node on a port of its own, with nobody to talk to. *)
Definition micro (part : nat) (port : Z) (use_cache : bool) : option VerifyResults :=
  a ← parse_addr "127.0.0.1" port;
  run_verify_micro fuel (begins part) (took part) read_file (random part 0%nat) use_cache (draws part)
    (fun p => mkSeat p a ∅ (fates 2%nat) 0).

(** [run]; the two clusters and the two single nodes never exchange a message, so
    that each is a world of its own.  [None] is a panic, or a lookup out of fuel. *)
Definition bench_run (now : Z) : option BenchReport :=
  '(_, w) ← start_cluster fuel fates pause (lasts 0%nat) read_file (random 0%nat) CACHED_SEED CACHED_PEER1 CACHED_PEER2 true
              (mkTimed now 0 0 ∅);
  let cached_set := run_set_workload (ends 0%nat) (took 0%nat) (order 0%nat) (wall 0%nat) in
  t1 ← set_table cached_set DEFAULT_OPS;
  let now := clock w + wall 0%nat + from_secs 1 in
  '(_, _) ← start_cluster fuel fates pause (lasts 1%nat) read_file (random 1%nat) UNCACHED_SEED UNCACHED_PEER1 UNCACHED_PEER2 false
              (mkTimed now 0 0 ∅);
  let uncached_set := run_set_workload (ends 1%nat) (took 1%nat) (order 1%nat) (wall 1%nat) in
  t2 ← set_table uncached_set DEFAULT_OPS;
  let set_c := avg_ns (set_ns cached_set) in
  let set_u := avg_ns (set_ns uncached_set) in
  cached_v ← micro 2 MICRO_CACHED_PORT true;
  v1 ← verify_table cached_v;
  uncached_v ← micro 3 MICRO_UNCACHED_PORT false;
  v2 ← verify_table uncached_v;
  Some (mkBench cached_set uncached_set (t1, t2) (set_comparison set_c set_u) cached_v uncached_v (v1, v2)
    (speedup set_c set_u,
     speedup (avg_ns (cold_ns cached_v)) (avg_ns (cold_ns uncached_v)),
     speedup (avg_ns (warm_ns cached_v)) (avg_ns (warm_ns uncached_v)))).

End bench_program.

(** ** The order of the writes does not matter *)

Definition write_ok (ends : nat -> WriteEnd) (i : nat) : Prop := ends i = Returned (Some true).
Definition write_lost (ends : nat -> WriteEnd) (i : nat) : Prop := ends i = WritePanic.
Definition write_failed (ends : nat -> WriteEnd) (i : nat) : Prop := ~ write_ok ends i /\ ~ write_lost ends i.

#[global] Instance write_ok_dec ends i : Decision (write_ok ends i).
Proof. unfold write_ok. apply _. Defined.
#[global] Instance write_lost_dec ends i : Decision (write_lost ends i).
Proof. unfold write_lost. apply _. Defined.
#[global] Instance write_failed_dec ends i : Decision (write_failed ends i).
Proof. unfold write_failed. apply _. Defined.

(** How many of the first [n] writes end in each way. *)
Definition count_writes (P : nat -> Prop) `{!forall i, Decision (P i)} (n : nat) : nat := length (filter P (seq 0 n)).

(** A write ends in one of three ways. *)
Lemma finish_cases ends took st i :
  (write_ok ends i /\ ~ write_lost ends i /\ ~ write_failed ends i /\
     finish_write ends took st i = mkSetResults (set_ns st ++ [took i]) (S (wok st)) (failures st) (wall_secs st)) \/
  (~ write_ok ends i /\ write_lost ends i /\ ~ write_failed ends i /\ finish_write ends took st i = st) \/
  (~ write_ok ends i /\ ~ write_lost ends i /\ write_failed ends i /\
     finish_write ends took st i = mkSetResults (set_ns st) (wok st) (S (failures st)) (wall_secs st)).
Proof.
  unfold write_failed, write_ok, write_lost, finish_write. destruct (ends i) as [[[]|]| |]; naive_solver.
Qed.

Lemma finish_writes ends took order st :
  foldl (finish_write ends took) st order =
  mkSetResults (set_ns st ++ (took <$> filter (write_ok ends) order)) (wok st + length (filter (write_ok ends) order))
    (failures st + length (filter (write_failed ends) order)) (wall_secs st).
Proof.
  revert st. induction order as [|i order IH]; intros st; cbn [foldl].
  { destruct st. simpl. by rewrite app_nil_r, !Nat.add_0_r. }
  rewrite IH, !filter_cons.
  destruct (finish_cases ends took st i) as [(?&?&?&->)|[(?&?&?&->)|(?&?&?&->)]]; repeat case_decide; try done;
    cbn [set_ns wok failures wall_secs length]; rewrite ?fmap_cons, <- ?app_assoc; f_equal; lia.
Qed.

Lemma sort_samples_unique `{UnstableSort} l l' : l ≡ₚ l' -> sort_samples l = sort_samples l'.
Proof.
  intros Hp. apply (StronglySorted_unique Z.le); [apply sort_samples_sorted..|]. by rewrite !sort_samples_perm.
Qed.

Lemma write_ends ends (l : list nat) :
  (length (filter (write_ok ends) l) + length (filter (write_failed ends) l) + length (filter (write_lost ends) l) = length l)%nat.
Proof.
  induction l as [|i l IH]; [done|]. rewrite !filter_cons.
  destruct (finish_cases ends (fun _ => 0) (mkSetResults [] 0 0 (f64_of 0)) i) as [(?&?&?&_)|[(?&?&?&_)|(?&?&?&_)]];
    repeat case_decide; try done; simpl; lia.
Qed.

(** The result of a workload does not depend on the order in which its writes
    finish: it has the times of the writes that succeeded, sorted, and counts those
    and the others; the tasks that panicked are in neither count. *)
Theorem set_workload_order `{UnstableSort} (ends : nat -> WriteEnd) (took : nat -> Z) (order : list nat) (wall : Z) (n : nat) :
  order ≡ₚ seq 0 n ->
  run_set_workload ends took order wall =
    mkSetResults (sort_samples (took <$> filter (write_ok ends) (seq 0 n))) (count_writes (write_ok ends) n)
      (count_writes (write_failed ends) n) (as_secs_f64 wall).
Proof.
  intros Hp. unfold run_set_workload. cbv zeta. rewrite !finish_writes. cbn [set_ns wok failures wall_secs app]. unfold count_writes.
  f_equal; [apply sort_samples_unique; by rewrite Hp|by rewrite Hp..].
Qed.

(** ** The cache does not change what is read *)

Section cache_bench_spec.
Context `{US : UnstableSort} `{HO : HashOrder} `{HA : Hashes} `{HAL : !HashLaws} `{NA : NetAddr}.
Context `{CP : CryptoPrims} `{CL : !CryptoLaws} `{JM : JsonMap} `{SJ : SerdeJson} `{SEL : !SerdeLaws}.
Context `{B6 : Base64Engine} `{BL : !Base64Laws} {io_error : Type}.
Context {C : Type} `{MC : Moka C}.
Local Abbreviation Hd := (DIDSignatureVerifierHandler io_error).
Local Abbreviation nodes := (cluster ForgetfulStorage Hd C).

Lemma get_unlimited (st : ForgetfulStorage) t t' k : ttl st = -1 -> get t st k = get t' st k.
Proof. intros E. unfold get. simpl. unfold fs_get_default, is_expired. rewrite E. done. Qed.

Lemma start_cluster_ok fates pause lasts (h : Hd) read_file random use_cache seed peer1 peer2 a0 a1 a2 (w : Timed nodes) :
  (forall t t' cl, t <= t' -> cluster_inv h t cl -> cluster_inv h t' (pause t' cl)) ->
  h = mkDIDHandler (b! "issuer.bin") read_file -> timed_inv (cluster_inv h) w -> body w = ∅ ->
  parse_addr "127.0.0.1" seed = Some a0 -> parse_addr "127.0.0.1" peer1 = Some a1 -> parse_addr "127.0.0.1" peer2 = Some a2 ->
  NoDup [a0; a1; a2] ->
  exists w', start_cluster CRAWL_FUEL fates pause lasts read_file random seed peer1 peer2 use_cache w = Some ([a0; a1; a2], w') /\ timed_inv (cluster_inv h) w'.
Proof.
  intros Hpause Hh Hw He H0 H1 H2 Hn. unfold start_cluster.
  rewrite !NoDup_cons, !not_elem_of_cons in Hn. destruct Hn as ((N01 & N02 & _) & (N12 & _) & _).
  destruct (launch_ok fates lasts h 20 3 use_cache read_file (random 0%nat) seed a0 w) as (q0 & w0 & -> & [Hw0 _] & N0);
    [lia|done|done|done|by rewrite He|]. cbn [mbind option_bind].
  destruct (launch_ok fates lasts h 20 3 use_cache read_file (random 1%nat) peer1 a1 w0) as (q1 & w1 & -> & [Hw1 _] & N1);
    [lia|done|done|done|by rewrite N0, He, lookup_insert_ne|]. cbn [mbind option_bind].
  destruct (launch_ok fates lasts h 20 3 use_cache read_file (random 2%nat) peer2 a2 w1) as (q2 & w2 & -> & [Hw2 _] & N2);
    [lia|done|done|done|by rewrite N1, N0, He, !lookup_insert_ne|]. cbn [mbind option_bind]. cbv zeta.
  destruct (operate_ok fates pause lasts h Hpause 3 a1 (ABootstrap [("127.0.0.1"%string, seed)]) w2 Hw2) as (o3 & w3 & -> & [Hw3 _] & _). cbn [mbind option_bind].
  destruct (operate_ok fates pause lasts h Hpause 3 a2 (ABootstrap [("127.0.0.1"%string, seed)]) w3 Hw3) as (o4 & w4 & -> & [Hw4 _] & _). cbn [mbind option_bind].
  eexists. split; [done|]. by apply (sleep_inv pause (cluster_inv h) Hpause).
Qed.

Context {R : Type} `{NW : !Net R ForgetfulStorage Hd C} `{NS : !NetSafe R}.
Implicit Types s : Server R.

Lemma read_pass_ok (h : Hd) fuel begins took i records s :
  (forall j, begins j <= begins (S j)) -> server_inv h (begins i) s -> ttl (storage (rproto (running s))) = -1 ->
  (forall key record, (key, record) ∈ records ->
     get 0 (storage (rproto (running s))) (digest key) = Some record /\
     verify_record h (bool_decide (key = STATUS_LIST_KEY)) record = true) ->
  exists s', read_pass fuel begins took i records s = Some (Some ∘ snd <$> records, took <$> seq i (length records), s') /\
    server_inv h (begins (i + length records)%nat) s' /\ storage (rproto (running s')) = storage (rproto (running s)).
Proof.
  intros Hc. revert i s. induction records as [|[key record] records IH]; intros i s Hi Ht Hr; cbn [read_pass].
  { exists s. rewrite Nat.add_0_r. done. }
  destruct (Hr key record) as [Hg Hv]; [set_solver|].
  destruct (local_get h fuel (begins i) key record s Hi) as (s1 & -> & Hi1 & Hs1); [|done|].
  { by rewrite (get_unlimited _ _ 0). }
  cbn [mbind option_bind]. destruct (IH (S i) s1) as (s2 & -> & Hi2 & Hs2).
  - eapply run_inv_later; [apply Hc|done].
  - by rewrite Hs1.
  - rewrite Hs1. intros k r Hk. apply Hr. set_solver.
  - exists s2. rewrite Hs2. split_and!; [done| |done]. cbn [length]. by rewrite Nat.add_succ_r.
Qed.

Lemma seeded_ttl now records s :
  ttl (storage (rproto (running (foldl (seed_one now) s records)))) = ttl (storage (rproto (running s))).
Proof.
  revert s. induction records as [|kr records IH]; intros s; [done|]. cbn [foldl]. rewrite IH. unfold seed_one. simpl.
  by rewrite rproto_set.
Qed.

(** The signature cache does not change what is read.  In the benchmark of cold and warm reads, for records with distinct digests whose keys are not the
    status list's, and with the cache or without it, both passes read every record
    as it was stored, and have one sample for each. *)
Theorem cached_reads_agree (fuel : nat) (begins took : nat -> Z) (read_file : bytes -> result bytes io_error) (random : bytes)
    (use_cache : bool) (draws : list Draw) (records : list (bytes * bytes)) (place : KademliaProtocol ForgetfulStorage Hd C -> R) :
  (forall j, begins j <= begins (S j)) ->
  (forall p, rproto (place p) = p /\ net_ok (mkDIDHandler (b! "issuer.bin") read_file) (begins 0%nat) (place p)) ->
  Forall good_draw draws -> mapM bench_record draws = Some records ->
  Forall (fun kr => fst kr <> STATUS_LIST_KEY) records -> NoDup ((fun kr => digest (fst kr)) <$> records) ->
  exists res, run_verify_micro fuel begins took read_file random use_cache draws place = Some res /\
    cold res = Some ∘ snd <$> records /\ warm res = Some ∘ snd <$> records /\
    (exists c w, cold_ns res = sort_samples c /\ warm_ns res = sort_samples w /\
       length c = length records /\ length w = length records).
Proof.
  intros Hc Hp Hg Hm Hk Hn. unfold run_verify_micro. cbv zeta. set (h := mkDIDHandler _ read_file) in *.
  set (s0 := listen _ _). rewrite Hm. cbn [mbind option_bind].
  assert (server_inv h (begins 0%nat) s0) as Hi0 by (apply listen_new_inv; [lia|done|done]).
  destruct (victim_seeds_authentic h (begins 0%nat) draws s0 Hi0 Hg) as (records' & Hm' & _ & Hi & Hv & Hget).
  assert (records' = records) as -> by (unfold bench_record in Hm; congruence). specialize (Hget Hn).
  set (s := foldl (seed_one (begins 0%nat)) s0 records) in *.
  assert (ttl (storage (rproto (running s))) = -1) as Ht.
  { unfold s. rewrite seeded_ttl. unfold s0, listen. simpl. rewrite rproto_set. simpl. by rewrite (proj1 (Hp _)). }
  assert (forall key record, (key, record) ∈ records -> get 0 (storage (rproto (running s))) (digest key) = Some record /\
    verify_record h (bool_decide (key = STATUS_LIST_KEY)) record = true) as Hr.
  { intros key record Hin. rewrite (get_unlimited _ 0 (begins 0%nat)) by done. split; [by apply Hget|].
    rewrite Forall_forall in Hk, Hv. specialize (Hk _ Hin). specialize (Hv _ Hin). cbn [fst snd] in *.
    rewrite bool_decide_eq_false_2 by done. unfold verify_record. by rewrite Hv. }
  destruct (read_pass_ok h fuel begins took 1 records s Hc) as (s1 & -> & Hi1 & Hs1); [by eapply run_inv_later; [apply Hc|]|done|done|].
  cbn [mbind option_bind].
  destruct (read_pass_ok h fuel begins took (1 + length records) records s1 Hc) as (s2 & -> & _); [done|by rewrite Hs1|by rewrite Hs1|].
  cbn [mbind option_bind]. eexists. split; [done|]. cbn [cold warm cold_ns warm_ns].
  split_and!; [done|done|]. do 2 eexists. split_and!; [done|done|by rewrite length_fmap, length_seq..].
Qed.

End cache_bench_spec.

(** ** The whole program *)

Section bench_spec.
Context `{US : UnstableSort}.

(** The percentiles of a line are those of the samples. *)
Definition line_ok (v : list Z) (l : TableLine) : Prop :=
  is_percentile 50 (l_p50 l) v /\ is_percentile 95 (l_p95 l) v /\ is_percentile 99 (l_p99 l) v.

Lemma table_line_ok v :
  0 < Z.of_nat (length v) < RANK_LIMIT -> exists l, table_line (sort_samples v) = Some l /\ line_ok (sort_samples v) l.
Proof.
  intros Hv. unfold table_line.
  destruct (percentile_ok v 50 Hv ltac:(lia)) as (a & -> & Ha & _). cbn [mbind option_bind].
  destruct (percentile_ok v 95 Hv ltac:(lia)) as (b & -> & Hb & _). cbn [mbind option_bind].
  destruct (percentile_ok v 99 Hv ltac:(lia)) as (c & -> & Hc & _). cbn [mbind option_bind].
  eexists. split; [done|]. unfold line_ok. cbn [l_p50 l_p95 l_p99].
  unfold is_percentile, at_most, below in *. by rewrite !sort_samples_perm.
Qed.

(** The table of a workload: no line when nothing was written. *)
Definition set_table_good (r : SetResults) (l : option TableLine) : Prop :=
  match l with
  | None => wok r = 0%nat
  | Some l => (0 < wok r)%nat /\ line_ok (set_ns r) l
  end.

Lemma set_table_ok ends took order wall n :
  order ≡ₚ seq 0 n -> Z.of_nat n < RANK_LIMIT ->
  let r := run_set_workload ends took order wall in
  exists tp l, set_table r n = Some (tp, l) /\ set_table_good r l /\
    (wok r = count_writes (write_ok ends) n)%nat /\ length (set_ns r) = wok r /\
    (wok r + failures r + count_writes (write_lost ends) n = n)%nat /\
    set_ns r ≡ₚ took <$> filter (write_ok ends) (seq 0 n).
Proof.
  intros Ho Hn r. unfold r. rewrite (set_workload_order ends took order wall n Ho). set (v := took <$> _).
  pose proof (write_ends ends (seq 0 n)) as Hw. rewrite length_seq in Hw.
  assert (length v = count_writes (write_ok ends) n) as Hv by (unfold v; by rewrite length_fmap).
  unfold set_table. cbn [set_ns wok failures wall_secs]. cbv zeta.
  assert (exists tp l, match sort_samples v with
      | [] => Some (f64_div (f64_of (Z.of_nat n)) (as_secs_f64 wall), None)
      | _ :: _ => l ← table_line (sort_samples v); Some (f64_div (f64_of (Z.of_nat n)) (as_secs_f64 wall), Some l)
      end = Some (tp, l) /\
    set_table_good (mkSetResults (sort_samples v) (count_writes (write_ok ends) n) (count_writes (write_failed ends) n) (as_secs_f64 wall)) l)
    as (tp & l & E & Hl).
  { pose proof (length_sort_samples v) as Hs. destruct (sort_samples v) as [|x w] eqn:Es.
    - do 2 eexists. split; [done|]. cbn [set_table_good wok]. simpl in Hs. lia.
    - rewrite <- Es in Hs |- *. assert (0 < length v)%nat as H0 by (rewrite <- Hs, Es; simpl; lia).
      destruct (table_line_ok v) as (l & -> & Hl); [unfold count_writes in *; lia|]. do 2 eexists. split; [done|].
      cbn [set_table_good wok set_ns]. split; [lia|done]. }
  exists tp, l. split; [exact E|]. split; [exact Hl|]. rewrite length_sort_samples. unfold count_writes in *.
  split_and!; [done|lia|lia|apply sort_samples_perm].
Qed.

(** Without a successful write there is no comparison, and the summary has [0.0]. *)
Lemma set_comparison_none c u : c = [] \/ u = [] -> set_comparison (avg_ns c) (avg_ns u) = None.
Proof. unfold set_comparison. intros [-> | ->]; simpl; [done|by rewrite andb_false_r]. Qed.

Lemma speedup_zero c u : c = [] \/ u = [] -> speedup (avg_ns c) (avg_ns u) = f64_of 0.
Proof.
  unfold speedup. intros [-> | ->]; [done|]. change (avg_ns []) with (S754_zero false).
  destruct (avg_ns c) as [|[]| |[] m e]; done.
Qed.

End bench_spec.

Section bench_claims.
Context `{US : UnstableSort} `{HO : HashOrder} `{HA : Hashes} `{HAL : !HashLaws} `{NA : NetAddr}.
Context `{CP : CryptoPrims} `{CL : !CryptoLaws} `{JM : JsonMap} `{SJ : SerdeJson} `{SEL : !SerdeLaws}.
Context `{B6 : Base64Engine} `{BL : !Base64Laws} {io_error : Type}.
Context {C : Type} `{MC : Moka C}.
Local Abbreviation Hd := (DIDSignatureVerifierHandler io_error).
Local Abbreviation nodes := (cluster ForgetfulStorage Hd C).

(** A part of the second phase, and what it is about. *)
Definition micro_ok (recs : list (bytes * bytes)) (v : VerifyResults) (tables : TableLine * TableLine) : Prop :=
  cold v = Some ∘ snd <$> recs /\ warm v = Some ∘ snd <$> recs /\
  length (cold_ns v) = MICRO_OPS /\ length (warm_ns v) = MICRO_OPS /\
  line_ok (cold_ns v) (fst tables) /\ line_ok (warm_ns v) (snd tables).

(** What is assumed of the records drawn for such a part. *)
Record good_part (ds : list Draw) (recs : list (bytes * bytes)) : Prop := {
  gp_draws : Forall good_draw ds;
  gp_records : mapM bench_record ds = Some recs;
  gp_length : length ds = MICRO_OPS;
  gp_keys : Forall (fun kr => fst kr <> STATUS_LIST_KEY) recs;
  gp_distinct : NoDup ((fun kr => digest (fst kr)) <$> recs)
}.

Lemma micro_total fuel fates read_file random took begins draws part port a use_cache recs :
  (forall j, begins part j <= begins part (S j)) -> parse_addr "127.0.0.1" port = Some a -> good_part (draws part) recs ->
  exists v t, micro (C := C) (io_error := io_error) fuel fates read_file random took begins draws part port use_cache = Some v /\
    verify_table v = Some t /\ micro_ok recs v t.
Proof.
  intros Hc Ha [Hg Hm Hl Hk Hn]. unfold micro. rewrite Ha. cbn [mbind option_bind].
  destruct (cached_reads_agree fuel (begins part) (took part) read_file (random part 0%nat) use_cache (draws part) recs
    (fun p => mkSeat p a ∅ (fates 2%nat) 0) Hc) as (v & -> & Ec & Ew & (c & w & Hcs & Hws & Lc & Lw)); [|done..|].
  { intros p. split; [done|]. intros b q Hq. cbn [others] in Hq. by rewrite lookup_empty in Hq. }
  pose proof (length_mapM _ _ _ Hm) as Hlr. rewrite Hl in Hlr. rewrite <- Hlr in Lc, Lw.
  destruct (table_line_ok c) as (lc & Elc & Hlc); [rewrite Lc; done|].
  destruct (table_line_ok w) as (lw & Elw & Hlw); [rewrite Lw; done|].
  exists v, (lc, lw). unfold verify_table, micro_ok. rewrite Hcs, Hws, Elc, Elw, !length_sort_samples.
  cbn [mbind option_bind fst snd]. by split_and!.
Qed.

(** What a workload whose writes end as [ends] says, and take [took], reports. *)
Definition workload_ok (ends : nat -> WriteEnd) (took : nat -> Z) (r : SetResults) (table : spec_float * option TableLine) : Prop :=
  wok r = count_writes (write_ok ends) DEFAULT_OPS /\
  (wok r + failures r + count_writes (write_lost ends) DEFAULT_OPS = DEFAULT_OPS)%nat /\
  set_ns r ≡ₚ took <$> filter (write_ok ends) (seq 0 DEFAULT_OPS) /\
  set_table_good r (snd table).

Lemma workload_total ends took order wall :
  order ≡ₚ seq 0 DEFAULT_OPS ->
  let r := run_set_workload ends took order wall in
  exists t, set_table r DEFAULT_OPS = Some t /\ workload_ok ends took r t /\ (wok r = 0%nat -> set_ns r = []).
Proof.
  intros Ho. destruct (set_table_ok ends took order wall DEFAULT_OPS Ho) as (tp & l & E & Hl & Hw & Hlen & Hs & Hp).
  { unfold DEFAULT_OPS. rewrite Z2Nat.id by lia. done. }
  exists (tp, l). split; [exact E|]. split; [by split_and!|]. intros H0. rewrite H0 in Hlen. by apply nil_length_inv.
Qed.

(** C34: the cache benchmark runs through and compares like with like.  Whatever
    messages are lost, however long the operations take and however the writes end,
    the program reaches its summary.  Each workload counts as written exactly the
    writes for which [set] returned [Some true], and keeps their times; with the
    failures and the tasks that panicked, which are in neither count, they are the
    ten thousand.  Its table has a line of figures unless nothing was written.  In
    the second phase, with the cache and without it, both passes read each of the
    five hundred records as it was stored.  All printed percentiles, of the writes
    and of the reads, are the nearest-rank percentiles of the samples.  When a
    cluster has written nothing, the line that compares the writes is not printed,
    and the summary, which always has such a line, gives a speedup of zero. *)
Theorem bench_outcomes (fates : nat -> nat -> Fate) (pause : Z -> nodes -> nodes) (lasts : nat -> nat -> N) (h : Hd)
    (read_file : bytes -> result bytes io_error) (random : nat -> nat -> bytes)
    (ends : nat -> nat -> WriteEnd) (took : nat -> nat -> Z) (order : nat -> list nat) (wall : nat -> Z)
    (begins : nat -> nat -> Z) (draws : nat -> list Draw) (recs : nat -> list (bytes * bytes)) (now : Z)
    (addr : Z -> SocketAddr) :
  (forall t t' cl, t <= t' -> cluster_inv h t cl -> cluster_inv h t' (pause t' cl)) ->
  h = mkDIDHandler (b! "issuer.bin") read_file ->
  (forall part j, begins part j <= begins part (S j)) -> (forall part, order part ≡ₚ seq 0 DEFAULT_OPS) ->
  (forall i, 0 <= i < 8 -> parse_addr "127.0.0.1" (CACHED_SEED + i) = Some (addr i)) ->
  NoDup [addr 0; addr 1; addr 2] -> NoDup [addr 3; addr 4; addr 5] ->
  good_part (draws 2%nat) (recs 2%nat) -> good_part (draws 3%nat) (recs 3%nat) ->
  exists r, bench_run CRAWL_FUEL fates pause lasts read_file random ends took order wall begins draws now = Some r /\
    workload_ok (ends 0%nat) (took 0%nat) (cached_set r) (fst (set_tables r)) /\
    workload_ok (ends 1%nat) (took 1%nat) (uncached_set r) (snd (set_tables r)) /\
    micro_ok (recs 2%nat) (cached_v r) (fst (verify_tables r)) /\
    micro_ok (recs 3%nat) (uncached_v r) (snd (verify_tables r)) /\
    (wok (cached_set r) = 0%nat \/ wok (uncached_set r) = 0%nat ->
       set_line r = None /\ fst (fst (speedups r)) = f64_of 0).
Proof.
  intros Hpause Hh Hbegins Horder Haddr Hn1 Hn2 Hg2 Hg3. unfold bench_run.
  destruct (start_cluster_ok fates pause (lasts 0%nat) h read_file (random 0%nat) true CACHED_SEED CACHED_PEER1 CACHED_PEER2
    (addr 0) (addr 1) (addr 2) (mkTimed now 0 0 ∅) Hpause Hh) as (w1 & -> & Hw1);
    [done|done|exact (Haddr 0 ltac:(lia))|exact (Haddr 1 ltac:(lia))|exact (Haddr 2 ltac:(lia))|done|].
  cbn [mbind option_bind]. cbv zeta.
  destruct (workload_total (ends 0%nat) (took 0%nat) (order 0%nat) (wall 0%nat) (Horder 0%nat)) as (t1 & E1 & Hr1 & Hz1).
  set (r1 := run_set_workload (ends 0%nat) (took 0%nat) (order 0%nat) (wall 0%nat)) in *. rewrite E1. cbn [mbind option_bind].
  destruct (start_cluster_ok fates pause (lasts 1%nat) h read_file (random 1%nat) false UNCACHED_SEED UNCACHED_PEER1 UNCACHED_PEER2
    (addr 3) (addr 4) (addr 5) (mkTimed (clock w1 + wall 0%nat + from_secs 1) 0 0 ∅) Hpause Hh)
    as (w2 & -> & _); [done|done|exact (Haddr 3 ltac:(lia))|exact (Haddr 4 ltac:(lia))|exact (Haddr 5 ltac:(lia))|done|].
  cbn [mbind option_bind].
  destruct (workload_total (ends 1%nat) (took 1%nat) (order 1%nat) (wall 1%nat) (Horder 1%nat)) as (t2 & E2 & Hr2 & Hz2).
  set (r2 := run_set_workload (ends 1%nat) (took 1%nat) (order 1%nat) (wall 1%nat)) in *. rewrite E2. cbn [mbind option_bind].
  destruct (micro_total CRAWL_FUEL fates read_file random took begins draws 2 MICRO_CACHED_PORT (addr 6) true (recs 2%nat)
    (Hbegins 2%nat)) as (v1 & l1 & -> & El1 & Hv1); [exact (Haddr 6 ltac:(lia))|done|]. cbn [mbind option_bind]. rewrite El1. cbn [mbind option_bind].
  destruct (micro_total CRAWL_FUEL fates read_file random took begins draws 3 MICRO_UNCACHED_PORT (addr 7) false (recs 3%nat)
    (Hbegins 3%nat)) as (v2 & l2 & -> & El2 & Hv2); [exact (Haddr 7 ltac:(lia))|done|]. cbn [mbind option_bind]. rewrite El2. cbn [mbind option_bind].
  eexists. split; [done|]. cbn [cached_set uncached_set cached_v uncached_v verify_tables set_tables set_line speedups fst snd].
  split_and!; [done|done|done|done|]. intros Hz.
  assert (set_ns r1 = [] \/ set_ns r2 = []) as Hnil by (destruct Hz; auto).
  split; [by apply set_comparison_none|by apply speedup_zero].
Qed.

End bench_claims.

(** ** Example *)

#[local] Existing Instances toy_prims toy_laws btree_map tree_json toy_base64 toy_base64_laws demo_hashes demo_hash_laws plain_addr.
#[local] Existing Instance tree_json_laws.

Definition bench_records : list (bytes * bytes) := default [] (mapM bench_record [toy_draw 0]).

Lemma cached_reads_agree_witness :
  exists res, run_verify_micro 1 Z.of_nat (fun _ => 1000) no_issuer [x01] true [toy_draw 0]
    (fun p => mkRunning p (fun _ _ _ => None) 0) = Some res /\ warm res = Some ∘ snd <$> bench_records.
Proof.
  destruct (cached_reads_agree (C := SimpleCache) 1 Z.of_nat (fun _ => 1000) no_issuer [x01] true [toy_draw 0] bench_records
    (fun p => mkRunning p (fun _ _ _ => None) 0)) as (res & E & _ & Hw & _).
  - intros j. lia.
  - by intros p.
  - constructor; [|constructor]. split; [exact toy_keypair|reflexivity].
  - apply (bool_decide_unpack _). vm_compute. exact I.
  - apply (bool_decide_unpack _). vm_compute. exact I.
  - apply (bool_decide_unpack _). vm_compute. exact I.
  - exists res. split; [exact E|exact Hw].
Defined.

(** Five hundred identities of one key pair, with three decimal digits each. *)
Definition digit (n : nat) : byte := byte_of_Z (48 + Z.of_nat (n mod 10)).
Definition numbered (i : nat) : Draw := mkDraw toy_pk toy_sk toy_pk [digit (i / 100); digit (i / 10); digit i].
Definition numbered_draws : list Draw := numbered <$> seq 0 MICRO_OPS.
Definition numbered_records : list (bytes * bytes) := default [] (mapM bench_record numbered_draws).

Lemma numbered_mapM (ds : list Draw) (recs : list (bytes * bytes)) :
  mapM bench_record ds = Some recs -> mapM (fun d => dht_key (b! "did:iiot:" ++ d_uuid d)) ds = Some (fst <$> recs).
Proof.
  intros H%mapM_Some. apply mapM_Some. induction H as [|d kr ds recs Hd _ IH]; constructor; [|done].
  revert Hd. unfold bench_record, drawn_record, make_record. intros (key & -> & Hb)%bind_Some.
  by apply bind_Some in Hb as (b & _ & [= <-]).
Qed.

(** The conditions on the records are conditions on the keys. *)
Lemma part_of_keys (ds : list Draw) (recs : list (bytes * bytes)) (keys : list bytes) :
  Forall good_draw ds -> mapM bench_record ds = Some recs -> length ds = MICRO_OPS ->
  mapM (fun d => dht_key (b! "did:iiot:" ++ d_uuid d)) ds = Some keys ->
  Forall (fun k => k <> STATUS_LIST_KEY) keys -> NoDup (digest <$> keys) -> good_part ds recs.
Proof.
  intros Hg Hm Hl Hk Hs Hn. rewrite (numbered_mapM ds recs Hm) in Hk. injection Hk as <-.
  rewrite <- list_fmap_compose in Hn. rewrite (Forall_fmap fst (fun k => k <> STATUS_LIST_KEY)) in Hs.
  split; [exact Hg|exact Hm|exact Hl|exact Hs|exact Hn].
Qed.

Lemma numbered_part : good_part numbered_draws numbered_records.
Proof.
  assert (Forall good_draw numbered_draws) as Hg.
  { apply Forall_forall. intros d (i & -> & Hi)%list_elem_of_fmap. split; [exact toy_keypair|].
    assert (forallb (fun i => utf8_valid (d_uuid (numbered i))) (seq 0 MICRO_OPS) = true) as Hu by (vm_compute; reflexivity).
    by apply (proj1 (Forall_forall _ _) (proj1 (forallb_Forall _ _) Hu)). }
  apply (part_of_keys numbered_draws numbered_records (d_uuid <$> numbered_draws)).
  - exact Hg.
  - unfold numbered_records. assert (is_Some (mapM bench_record numbered_draws)) as [r Hr]; [|by rewrite Hr].
    apply mapM_is_Some. eapply Forall_impl; [exact Hg|]. intros d [Hk _].
    destruct (drawn_parts d Hk) as (key & doc & Hr & _). by eexists.
  - vm_compute. reflexivity.
  - apply (bool_decide_unpack _). vm_compute. exact I.
  - apply (bool_decide_unpack _). vm_compute. exact I.
  - apply (bool_decide_unpack _). vm_compute. exact I.
Qed.

(** Of three writes one succeeds, one times out and one panics. *)
Definition some_writes (i : nat) : WriteEnd :=
  if Nat.eqb (i mod 3) 0 then Returned (Some true) else if Nat.eqb (i mod 3) 1 then WriteTimeout else WritePanic.

Lemma bench_outcomes_witness :
  exists r, bench_run CRAWL_FUEL (fun _ _ => ResponseLost) idle_hosts (fun _ => timeouts) no_issuer (fun _ _ => [x01]) (fun _ => some_writes) (fun _ _ => 1000)
      (fun _ => seq 0 DEFAULT_OPS) (fun _ => 1) (fun _ => Z.of_nat) (fun _ => numbered_draws) 0 = Some r /\
    workload_ok some_writes (fun _ => 1000) (cached_set r) (fst (set_tables r)).
Proof.
  destruct (bench_outcomes (C := SimpleCache) (fun _ _ => ResponseLost) idle_hosts (fun _ => timeouts) (mkDIDHandler (b! "issuer.bin") no_issuer) no_issuer
    (fun _ _ => [x01]) (fun _ => some_writes) (fun _ _ => 1000) (fun _ => seq 0 DEFAULT_OPS) (fun _ => 1) (fun _ => Z.of_nat)
    (fun _ => numbered_draws) (fun _ => numbered_records) 0 (fun i => ("127.0.0.1"%string, CACHED_SEED + i)))
    as (r & E & Hc & _).
  - intros t t' cl. apply cluster_inv_later.
  - reflexivity.
  - intros part j. lia.
  - intros part. reflexivity.
  - intros i _. reflexivity.
  - apply (bool_decide_unpack _). vm_compute. exact I.
  - apply (bool_decide_unpack _). vm_compute. exact I.
  - exact numbered_part.
  - exact numbered_part.
  - exists r. split; [exact E|exact Hc].
Defined.
