(* ===== verification/Resilience.v ===== *)
(** * Resilience: the two programs of the resilience test

    Models the [run] of [src/scripts/resilience_victim.rs] and of
    [src/scripts/resilience_attacker.rs] on the parts of [Harness.v] and the
    figures of [Latency.v].  Both are generic in the network ([Net]), like the
    node program: what a node does while its program waits is the function [idle],
    and how long an operation takes is [lasts] ([Clock.v]).  Which task of a phase
    finishes next, how long a call takes and whether the timer of 4.5 seconds
    fires first are arbitrary functions.  In a cluster ([Cluster.v]) the attacked
    node handles the attacker's calls, whatever messages are lost.  Printing is
    left out, but for the line that another program parses. *)
From S2P Require Import Prelude Node Routing RoutingTable RoutingTableSpec Storage Text Json Crypto AuthHandler Did SigCache Crawling Protocol ProtocolSpec Network NetworkSpec Cluster Clock NodeScript Harness Binary64 Latency.
From Stdlib Require Import Strings.Byte Floats.SpecFloat.
Local Open Scope Z_scope.

(** ** The victim *)

Record VictimConfig := mkVictimConfig { node_port : Z; seed_count : nat; lifetime_secs : Z }.

Definition victim_config (env : bytes -> option bytes) : VictimConfig :=
  mkVictimConfig (env_or env (b! "NODE_PORT") parse_u16 5678)
    (Z.to_nat (env_or env (b! "SEED_COUNT") parse_usize 5))
    (env_or env (b! "LIFETIME_SECS") (parse_uint (2 ^ 64 - 1)) 180).

Section victim_program.
Context `{US : UnstableSort} `{HO : HashOrder} `{HA : Hashes} `{NA : NetAddr}.
Context `{CP : CryptoPrims} `{JM : JsonMap} `{SJ : SerdeJson} `{B6 : Base64Engine} {io_error : Type}.
Context {C : Type} `{MC : Moka C}.
Local Abbreviation Hd := (DIDSignatureVerifierHandler io_error).
Context {R : Type} `{NW : !Net R ForgetfulStorage Hd C}.
Variable idle : Z -> Server R -> Server R.

Record VictimReport := mkVictimReport {
  seeded : list (bytes * bytes);
  lifetime_elapsed : bool;
  final_count : nat;
  leaves : list (SocketAddr * RpcMessage)
}.

(** The [select!]: [signal] is when SIGTERM or Ctrl-C arrives, if one does.  How
    long the program stays alive, and whether the lifetime ended it. *)
Definition stay_alive (lifetime : Z) (signal : option Z) : Z * bool :=
  match signal with
  | Some t => if t <? lifetime then (t, false) else (lifetime, true)
  | None => (lifetime, true)
  end.

(** [run]; the inner [None] is a panic ([expect] on the socket, [unwrap] on the
    records), the outer one that nobody has connected after [ticks] half seconds.
    The task that prints the size of the store is left out. *)
Definition victim_run (ticks : nat) (env : bytes -> option bytes) (read_file : bytes -> result bytes io_error)
    (now : Z) (random : bytes) (place : KademliaProtocol ForgetfulStorage Hd C -> R) (bind_ok : bool)
    (draw : nat -> Draw) (signal : option Z) : option (option (VictimReport * Timed (Server R))) :=
  let c := victim_config env in
  let handler := mkDIDHandler (b! "issuer.bin") read_file in
  let server := Server_new now handler 20 3 None random (server_storage None) false place in
  if negb bind_ok then Some None
  else
    '(now, s) ← wait_for_peer ticks idle now (listen now server);
    match mapM drawn_record (draw <$> seq 0 (seed_count c)) with
    | None => Some None
    | Some records =>
        let s := foldl (seed_one now) s records in
        let '(alive, elapsed) := stay_alive (from_secs (lifetime_secs c)) signal in
        let st := sleep idle alive (mkTimed now 0 0 s) in
        let final_count := length (iter_all (clock st) (storage (rproto (running (body st))))) in
        let '(leaves, s) := stop (clock st) (body st) in
        Some (Some (mkVictimReport records elapsed final_count leaves, mkTimed (clock st) (ops st) (slept st) s))
    end.

End victim_program.

(** ** The attacker *)

(** How a call under the timer goes: in time, or not. *)
Inductive Timing := InTime (elapsed : Z) | Late (elapsed : Z).

(** [serde_json]'s value of an [f64]: [null] when it is not finite. *)
Definition f64_json (x : spec_float) : JValue :=
  match x with S754_infinity _ | S754_nan => JNull | _ => JNumber (Float x) end.

Definition usize_json (n : nat) : JValue := JNumber (PosInt (Z.of_nat n)).

(** [miss_rate < 0.05] *)
Definition miss_rate (hits misses : nat) : spec_float :=
  if Nat.ltb 0 (hits + misses) then f64_ratio (Z.of_nat misses) (Z.of_nat (hits + misses)) else f64_of 0.
Definition retrieval_reliable (hits misses : nat) : bool := SFltb (miss_rate hits misses) (f64_ratio 5 100).

(** Minimum, average, 95th percentile, maximum and operations per second. *)
Definition figures : Type := spec_float * spec_float * spec_float * spec_float * spec_float.

Section metrics.
Context `{JM : JsonMap}.

(** The document of the line [METRICS_JSON]. *)
Definition metrics_json (concurrency : nat) (p1 p2 : StoreCount) (p3 : GetCount) (l1 l2 l3 : figures) : JValue :=
  let '(_, avg1, p95_1, max1, tps1) := l1 in
  let '(_, avg2, p95_2, max2, tps2) := l2 in
  let '(_, avg3, p95_3, max3, tps3) := l3 in
  obj [
    (b! "pool_size", usize_json (accepted p1 + rejected p1 + timed_out p1));
    (b! "inv_size", usize_json (accepted p2 + rejected p2 + timed_out p2));
    (b! "concurrency", usize_json concurrency);
    (b! "p1_accepted", usize_json (accepted p1));
    (b! "p1_rejected", usize_json (rejected p1));
    (b! "p1_timeout", usize_json (timed_out p1));
    (b! "p1_avg_ms", f64_json avg1);
    (b! "p1_p95_ms", f64_json p95_1);
    (b! "p1_max_ms", f64_json max1);
    (b! "p1_tps", f64_json tps1);
    (b! "p2_accepted", usize_json (accepted p2));
    (b! "p2_rejected", usize_json (rejected p2));
    (b! "p2_timeout", usize_json (timed_out p2));
    (b! "p2_avg_ms", f64_json avg2);
    (b! "p2_p95_ms", f64_json p95_2);
    (b! "p2_tps", f64_json tps2);
    (b! "p3_hits", usize_json (hits p3));
    (b! "p3_misses", usize_json (misses p3));
    (b! "p3_timeout", usize_json (get_timed_out p3));
    (b! "p3_avg_ms", f64_json avg3);
    (b! "p3_p95_ms", f64_json p95_3);
    (b! "p3_max_ms", f64_json max3);
    (b! "p3_tps", f64_json tps3)].

End metrics.

Section attacker_program.
Context `{US : UnstableSort} `{HO : HashOrder} `{HA : Hashes} `{NA : NetAddr}.
Context `{CP : CryptoPrims} `{JM : JsonMap} `{SJ : SerdeJson} `{B6 : Base64Engine} {io_error : Type}.
Context {C : Type} `{MC : Moka C}.
Local Abbreviation Hd := (DIDSignatureVerifierHandler io_error).
Context {R : Type} `{NW : !Net R ForgetfulStorage Hd C}.

Variable fuel : nat.
Variable lasts : nat -> N.
Variable idle : Z -> Server R -> Server R.
(** Of the three phases: the timing of each call, the wall time, which task of the
    [JoinSet] is joined next; and what an operation does before it is dropped. *)
Variable timing : nat -> nat -> Timing.
Variable wall : nat -> Z.
Variable pick : nat -> nat -> nat -> nat.
Variable cut : nat -> Z -> Server R -> Server R.

(** [timeout(RPC_TIMEOUT, p.call_store_rpc(&v, dkey, record))]: the call dropped by
    the timer has sent its request. *)
Definition store_one (ti : Timing) (now : Z) (victim : Node) (kr : bytes * bytes) (r : R) : CallEnd bool * R :=
  let c := store_call victim (digest (fst kr)) (snd kr) in
  match ti with
  | InTime t => let '(ok, r) := one_call now c r in (Answered ok t, r)
  | Late t => (TimedOut t, match request c (rproto r) with Some (a, m) => fst (send now r a m) | None => r end)
  end.

Fixpoint store_all (ph i : nat) (now : Z) (victim : Node) (pool : list (bytes * bytes)) (r : R) : list (CallEnd bool) * R :=
  match pool with
  | [] => ([], r)
  | kr :: pool =>
      let '(e, r) := store_one (timing ph i) now victim kr r in
      let '(es, r) := store_all ph (S i) now victim pool r in
      (e :: es, r)
  end.

(** The end of a phase that took [d] and left the server [s]. *)
Definition phase_over (d : Z) (s : Server R) (st : Timed (Server R)) : Timed (Server R) :=
  let t := clock st + d in mkTimed t (ops st) (slept st) (idle t s).

(** A phase of STORE: with no task allowed in flight nothing is sent. *)
Definition store_step (ph concurrency : nat) (victim : Node) (pool : list (bytes * bytes)) (st : Timed (Server R))
  : list (CallEnd bool) * Timed (Server R) :=
  if Nat.eqb concurrency 0 then ([], st)
  else
    let '(ends, r) := store_all ph 0 (clock st) victim pool (running (body st)) in
    (ends, phase_over (wall ph) (set_running (body st) r) st).

(** [timeout(RPC_TIMEOUT, s.get(&key))] *)
Fixpoint get_all (i : nat) (now : Z) (keys : list bytes) (s : Server R) : option (list (CallEnd (option bytes)) * Server R) :=
  match keys with
  | [] => Some ([], s)
  | key :: keys =>
      '(e, s) ← match timing 3 i with
                | InTime t => '(v, s) ← server_get fuel now key s; Some (Answered v t, s)
                | Late t => Some (TimedOut t, cut i now s)
                end;
      '(es, s) ← get_all (S i) now keys s;
      Some (e :: es, s)
  end.

Definition get_step (concurrency : nat) (keys : list bytes) (st : Timed (Server R)) : option (list (CallEnd (option bytes)) * Timed (Server R)) :=
  if Nat.eqb concurrency 0 then Some ([], st)
  else
    '(ends, s) ← get_all 0 (clock st) keys (body st);
    Some (ends, phase_over (wall 3) s st).

(** A list of ends as [attack] takes them. *)
Definition ended {V} (ends : list (CallEnd V)) (i : nat) : CallEnd V := nth i ends TaskPanic.

Record AttackerReport := mkAttacker {
  counts : AttackReport;
  reliable : bool;
  lat1 : figures;
  lat2 : figures;
  lat3 : figures;
  metrics : option bytes
}.

(** [run] after the three phases: the verdict, and the line for the other program,
    which is not printed when the process has exited. *)
Definition conclude_attack (c : AttackConfig) (r : AttackReport) : option AttackerReport :=
  l1 ← report (latency (phase1 r)) (wall 1);
  l2 ← report (latency (phase2 r)) (wall 2);
  l3 ← report (get_latency (phase3 r)) (wall 3);
  let ok := retrieval_reliable (hits (phase3 r)) (misses (phase3 r)) in
  if exit_failure r then Some (mkAttacker r ok l1 l2 l3 None)
  else
    line ← Prelude.ok (to_vec (metrics_json (concurrency c) (phase1 r) (phase2 r) (phase3 r) l1 l2 l3));
    Some (mkAttacker r ok l1 l2 l3 (Some line)).

(** The state after joining: the node listens, waits for five seconds, bootstraps
    to the victim and waits for one more. *)
Definition attack_join (env : bytes -> option bytes) (read_file : bytes -> result bytes io_error) (now : Z)
    (random : bytes) (place : KademliaProtocol ForgetfulStorage Hd C -> R) : option (Timed (Server R)) :=
  let c := attack_config env in
  let handler := mkDIDHandler (b! "issuer.bin") read_file in
  let server := Server_new now handler 20 3 None random (server_storage None) true place in
  let st := sleep idle (from_secs 5) (mkTimed now 0 0 (listen now server)) in
  '(discovered, s) ← bootstrap fuel (clock st) [(string_of (target_ip c), target_port c)] (body st);
  Some (sleep idle (from_secs 1) (awaited lasts idle s st)).

(** How the program ends.  All but the last are panics: the socket cannot be bound,
    nobody is in the routing table, a record cannot be built, the last line cannot
    be printed. *)
Inductive AttackEnd := NoSocket | NoPeer | RecordPanic | ReportPanic | Attacked (rep : AttackerReport) (st : Timed (Server R)).

(** [run] from the first phase on: the victim and both pools are there. *)
Definition attack_phases (c : AttackConfig) (draw : nat -> Draw) (victim : Node) (valid invalid : list (bytes * bytes))
    (st : Timed (Server R)) : option AttackEnd :=
  let '(ends1, st) := store_step 1 (concurrency c) victim valid st in
  let '(ends2, st) := store_step 2 (concurrency c) victim invalid st in
  '(rejoined, s) ← bootstrap fuel (clock st) [(string_of (target_ip c), target_port c)] (body st);
  let st := sleep idle 500000000 (awaited lasts idle s st) in
  p1 ← store_phase (pick 1) (fun i _ _ => ended ends1 i) valid (concurrency c);
  '(ends3, st) ← get_step (concurrency c) (accepted_keys p1) st;
  match (r ← attack pick draw (fun i _ _ => ended ends1 i) (fun i _ _ => ended ends2 i) (fun i _ => ended ends3 i) c;
         conclude_attack c r) with
  | Some rep => Some (Attacked rep st)
  | None => Some ReportPanic
  end.

(** [run]; [None] means out of fuel. *)
Definition attacker_run (env : bytes -> option bytes) (read_file : bytes -> result bytes io_error) (now : Z)
    (random : bytes) (place : KademliaProtocol ForgetfulStorage Hd C -> R) (bind_ok : bool) (draw : nat -> Draw)
  : option AttackEnd :=
  let c := attack_config env in
  if negb bind_ok then Some NoSocket
  else
    st ← attack_join env read_file now random place;
    let '(ns, s) := neighbors_of (clock st) (source_node (rproto (running (body st)))) (body st) in
    let st := mkTimed (clock st) (ops st) (slept st) s in
    match ns, valid_pool draw c, invalid_pool draw c with
    | [], _, _ => Some NoPeer
    | victim :: _, Some valid, Some invalid => attack_phases c draw victim valid invalid st
    | _, _, _ => Some RecordPanic
    end.

End attacker_program.

(** ** What the test shows *)

(** A network in which a node says that it stored a value only when the value is
    authentic: the promise of the nodes of a cluster. *)
Section honest.
Context `{US : UnstableSort} `{HA : Hashes} `{NA : NetAddr}.
Context {T : Type} `{IS : IStorage T}.
Context {Hd E : Type} `{SH : SignatureVerifierHandler Hd E}.
Context {C : Type} `{MC : Moka C}.

Class HonestNet (R : Type) `{!Net R T Hd C} `{!NetSafe R} := {
  store_honest h t (r : R) a i k v :
    run_inv h t r -> snd (send t r a (Store i k v)) = Some (StoreResult true) -> authentic h v
}.

End honest.

Section cluster_honest.
Context `{US : UnstableSort} `{HO : HashOrder} `{HA : Hashes} `{NA : NetAddr}.
Context {T : Type} `{SL : StorageLaws T}.
Context {Hd E : Type} `{HL : HandlerLaws Hd E}.
Context {C : Type} `{MC : Moka C}.

Lemma dispatch_store_honest h t i k v peer (p p' : KademliaProtocol T Hd C) :
  proto_inv h (t, p) -> dispatch_request t (Store i k v) peer p = Some (Some (StoreResult true), p') -> authentic h v.
Proof.
  intros Hi. simpl. pose proof (rpc_store_cases t i (addr_ip peer, addr_port peer) k v p) as Hc.
  destruct (rpc_store t i _ k v p) as [b p1]. intros [= -> <-]. destruct Hc as (Hok & _).
  destruct (proj1 Hok eq_refl) as [Hv _]. rewrite <- (pi_handler _ _ Hi). cbn [snd].
  apply (verify_for_key_sound t k v p); [|done]. rewrite (pi_handler _ _ Hi : signature_handler p = h). apply Hi.
Qed.

#[global] Instance cluster_honest : HonestNet (T := T) (Hd := Hd) (C := C) (Seat T Hd C).
Proof.
  constructor. intros h t r a i k v [Ho Hc] Hs. simpl in *. unfold cluster_send in Hs.
  destruct (negb _); [done|]. destruct (fate r (sent r)); [|done|done]. unfold deliver in Hs. cbn [self own others] in Hs.
  case_decide.
  - destruct (dispatch_request t _ (self r) (own r)) as [[resp p]|] eqn:Ed; [|done]. cbn [snd] in Hs. subst resp.
    by eapply dispatch_store_honest.
  - destruct (others r !! a) as [p|] eqn:Ea; [|done].
    destruct (dispatch_request t _ (self r) p) as [[resp p']|] eqn:Ed; [|done]. cbn [snd] in Hs. subst resp.
    eapply dispatch_store_honest; [by apply (Hc a)|exact Ed].
Qed.

End cluster_honest.

Section resilience_spec.
Context `{US : UnstableSort} `{HO : HashOrder} `{HA : Hashes} `{HAL : !HashLaws} `{NA : NetAddr}.
Context `{CP : CryptoPrims} `{CL : !CryptoLaws} `{JM : JsonMap} `{SJ : SerdeJson} `{SEL : !SerdeLaws}.
Context `{B6 : Base64Engine} `{BL : !Base64Laws} {io_error : Type}.
Context {C : Type} `{MC : Moka C}.
Local Abbreviation Hd := (DIDSignatureVerifierHandler io_error).
Context {R : Type} `{NW : !Net R ForgetfulStorage Hd C} `{NS : !NetSafe R}.

(** Whatever the node does while its program waits, and whatever a dropped
    operation has done, keeps the node's invariant. *)
Variable lasts : nat -> N.
Variable idle : Z -> Server R -> Server R.
Variable timing : nat -> nat -> Timing.
Variable wall : nat -> Z.
Variable pick : nat -> nat -> nat -> nat.
Variable cut : nat -> Z -> Server R -> Server R.
Variable h : Hd.
Hypothesis idle_inv : forall t t' s, t <= t' -> server_inv h t s -> server_inv h t' (idle t' s).
Hypothesis idle_params : forall t s, same_params s (idle t s).
Hypothesis cut_inv : forall i t s, server_inv h t s -> server_inv h t (cut i t s).
Hypothesis wall_pos : forall ph, 0 <= wall ph.

Local Abbreviation inv := (timed_inv (server_inv h)).
Local Abbreviation sleep_inv := (sleep_inv idle (server_inv h) idle_inv).
Local Abbreviation awaited_inv := (awaited_inv lasts idle (server_inv h) idle_inv).

(** *** The victim *)

Lemma wait_for_peer_inv ticks now s now' s' :
  server_inv h now s -> wf_node (snode s) -> wait_for_peer ticks idle now s = Some (now', s') ->
  now <= now' /\ server_inv h now' s' /\ same_params s s'.
Proof.
  revert now s. induction ticks as [|ticks IH]; intros now s Hi Hn; cbn [wait_for_peer]; [done|].
  assert (server_inv h now (snd (bootstrappable_neighbors now s))) as Hb.
  { unfold bootstrappable_neighbors. destruct (negb (listening s)); [done|].
    destruct (neighbors_of_spec h now now (snode s) s Hi Hn) as [Hi1 _]. by destruct (neighbors_of _ _ _). }
  pose proof (bootstrappable_params now s) as Hp.
  destruct (bootstrappable_neighbors now s) as [[|n ns] s1]; cbn [snd] in *.
  - intros Hw. pose proof (idle_params (now + 500000000) s1) as Hp1.
    assert (same_params s (idle (now + 500000000) s1)) as Hp2 by (by etransitivity).
    destruct (IH (now + 500000000) (idle (now + 500000000) s1)) as (Hle & Hi' & Hp'); [|by rewrite Hp2|done|].
    + eapply idle_inv; [|exact Hb]. lia.
    + split_and!; [lia|done|]. by etransitivity.
  - intros [= <- <-]. split_and!; [lia|done|done].
Qed.

(** The victim's program.  With good draws it ends without a panic when the
    socket can be bound and somebody connects: after the wait and the time to the
    signal or its lifetime; it seeds as many records as configured, each of which
    verifies, and every live record it then holds is authentic. *)
Theorem victim_outcomes (ticks : nat) (env : bytes -> option bytes) (read_file : bytes -> result bytes io_error) (now : Z)
    (random : bytes) (place : KademliaProtocol ForgetfulStorage Hd C -> R) (bind_ok : bool) (draw : nat -> Draw) (signal : option Z) :
  h = mkDIDHandler (b! "issuer.bin") read_file ->
  (forall p, rproto (place p) = p /\ net_ok h now (place p)) -> (forall i, good_draw (draw i)) ->
  0 <= lifetime_secs (victim_config env) -> (forall t, signal = Some t -> 0 <= t) ->
  match victim_run idle ticks env read_file now random place bind_ok draw signal with
  | None => bind_ok = true
  | Some None => bind_ok = false
  | Some (Some (r, st)) =>
      length (seeded r) = seed_count (victim_config env) /\
      Forall (fun kr => handle_signature_verification h (snd kr) = Ok true) (seeded r) /\
      now + fst (stay_alive (from_secs (lifetime_secs (victim_config env))) signal) <= clock st /\
      final_count r = length (iter_all (clock st) (storage (rproto (running (body st))))) /\
      (forall t key v, clock st <= t -> get t (storage (rproto (running (body st)))) key = Some v -> authentic h v)
  end.
Proof.
  intros Hh Hp Hg Hl Hs. unfold victim_run. cbv zeta. destruct bind_ok; cbn [negb]; [|done].
  destruct (Server_new_inv h now 20 3 None random false place) as [Hi0 Hn0]; [lia|done|done|]. rewrite <- Hh.
  set (s0 := Server_new now h 20 3 None random (server_storage None) false place) in *.
  pose proof (listen_inv h now s0 ltac:(done || (simpl; lia)) Hn0 Hi0) as Hi.
  destruct (wait_for_peer ticks idle now (listen now s0)) as [[now1 s1]|] eqn:Ew; cbn [mbind option_bind]; [|done].
  destruct (wait_for_peer_inv _ _ _ _ _ Hi Hn0 Ew) as (Hle & Hi1 & _).
  destruct (victim_seeds_authentic h now1 (draw <$> seq 0 (seed_count (victim_config env))) s1 Hi1)
    as (records & Er & Hlen & Hi2 & Hv & _); [by apply Forall_fmap, Forall_true|].
  rewrite length_fmap, length_seq in Hlen. rewrite Er.
  assert (0 <= fst (stay_alive (from_secs (lifetime_secs (victim_config env))) signal)) as Ha.
  { unfold stay_alive, from_secs. destruct signal as [t|]; [specialize (Hs t eq_refl)|cbn [fst]; lia].
    destruct (t <? _); cbn [fst]; lia. }
  destruct (stay_alive _ signal) as [alive elapsed]. cbn [fst] in Ha |- *.
  set (st := sleep idle alive (mkTimed now1 0 0 (foldl (seed_one now1) s1 records))).
  assert (inv st) as Hst by (by apply (sleep_inv alive (mkTimed now1 0 0 _))).
  pose proof (stop_effect (clock st) (body st)) as [Hsto _].
  destruct (stop (clock st) (body st)) as [leaves s3]. cbn [fst snd] in Hsto.
  cbn [seeded final_count clock body]. rewrite Hsto. split_and!; [done|done| |done|].
  - unfold st, sleep. cbn [clock]. lia.
  - intros t key v Ht. apply (pi_storage _ _ (proj1 Hst) t key v Ht).
Qed.

(** *** The attacker *)

Lemma store_one_inv ti now victim kr (r : R) :
  wf_node victim -> run_inv h now r -> run_inv h now (snd (store_one ti now victim kr r)).
Proof.
  intros Hv Hr. unfold store_one. cbv zeta.
  pose proof (proj1 (calls_ok h now victim (digest (fst kr)) (snd kr) [] [] Hv)) as Hc. destruct ti as [t|t].
  - pose proof (one_call_inv h now r _ Hc Hr). by destruct (one_call now _ r).
  - cbn [snd]. destruct (request _ (rproto r)) as [[a m]|]; [|done]. destruct Hr. by apply net_send.
Qed.

Lemma store_all_inv ph i now victim pool (r : R) :
  wf_node victim -> run_inv h now r -> run_inv h now (snd (store_all timing ph i now victim pool r)).
Proof.
  intros Hv. revert i r. induction pool as [|kr pool IH]; intros i r Hr; cbn [store_all]; [done|].
  pose proof (store_one_inv (timing ph i) now victim kr r Hv Hr) as H1.
  destruct (store_one _ now victim kr r) as [e r1]. specialize (IH (S i) r1 H1).
  by destruct (store_all timing ph (S i) now victim pool r1).
Qed.

Lemma phase_over_inv d s st : 0 <= d -> server_inv h (clock st) s -> inv (phase_over idle d s st).
Proof. intros Hd0 Hi. unfold timed_inv, phase_over. cbn [clock body]. eapply idle_inv; [|exact Hi]. lia. Qed.

Lemma store_step_inv ph k victim pool st :
  wf_node victim -> inv st ->
  inv (snd (store_step idle timing wall ph k victim pool st)) /\
  clock st <= clock (snd (store_step idle timing wall ph k victim pool st)).
Proof.
  intros Hv Hi. unfold store_step. destruct (Nat.eqb k 0); [split; [done|simpl; lia]|].
  pose proof (store_all_inv ph 0 (clock st) victim pool (running (body st)) Hv Hi) as Hr.
  destruct (store_all timing ph 0 (clock st) victim pool (running (body st))) as [ends r]. cbn [snd] in *.
  specialize (wall_pos ph). split; [by apply phase_over_inv|]. cbn [phase_over clock]. lia.
Qed.

Lemma get_all_ok i now keys s :
  server_inv h now s ->
  exists es s', get_all CRAWL_FUEL timing cut i now keys s = Some (es, s') /\ server_inv h now s'.
Proof.
  revert i s. induction keys as [|key keys IH]; intros i s Hi; cbn [get_all]; [by do 2 eexists|].
  assert (exists e s1, match timing 3 i with
                | InTime t => '(v, s) ← server_get CRAWL_FUEL now key s; Some (Answered v t, s)
                | Late t => Some (TimedOut t, cut i now s)
                end = Some (e, s1) /\ server_inv h now s1) as (e & s1 & -> & Hi1).
  { destruct (timing 3 i) as [t|t]; [|do 2 eexists; split; [done|by apply cut_inv]].
    destruct (server_get_returns h now key s Hi) as [[v s1] Eg].
    pose proof (server_get_spec h CRAWL_FUEL now key s Hi) as Hg. rewrite Eg in *. do 2 eexists. split; [done|apply Hg]. }
  cbn [mbind option_bind]. destruct (IH (S i) s1 Hi1) as (es & s2 & -> & Hi2). by do 2 eexists.
Qed.

Lemma get_step_ok k keys st :
  inv st -> exists es st', get_step CRAWL_FUEL idle timing wall cut k keys st = Some (es, st') /\ inv st' /\ clock st <= clock st'.
Proof.
  intros Hi. unfold get_step. destruct (Nat.eqb k 0); [do 2 eexists; split_and!; [done|done|lia]|].
  destruct (get_all_ok 0 (clock st) keys (body st) Hi) as (es & s & -> & Hi1). cbn [mbind option_bind].
  do 2 eexists. split; [done|]. specialize (wall_pos 3).
  split; [by apply phase_over_inv|]. cbn [phase_over clock]. lia.
Qed.

(** What a node that keeps its promise accepted was authentic. *)
Lemma store_one_honest `{!HonestNet R} ti now victim kr (r : R) t :
  wf_node victim -> run_inv h now r -> fst (store_one ti now victim kr r) = Answered true t -> authentic h (snd kr).
Proof.
  intros Hv Hr. unfold store_one. cbv zeta. destruct ti as [t'|t']; [|done].
  unfold one_call. cbn [request finish store_call]. unfold to_peer.
  destruct (peer_sock_addr victim) as [a|] eqn:Ea; cbn [mbind option_bind].
  - pose proof (store_honest h now r a (id (source_node (rproto r))) (digest (fst kr)) (snd kr) Hr) as Hh.
    destruct (send now r a _) as [r1 ans]. cbn [snd] in Hh. unfold call_store_rpc. rewrite Ea.
    destruct ans as [m|]; [destruct m as [| | |[]| | | | | | | | | | | |]|]; cbn [fst]; try done. intros _. by apply Hh.
  - unfold call_store_rpc. by rewrite Ea.
Qed.

Lemma store_all_honest `{!HonestNet R} ph i now victim pool (r : R) j kr t :
  wf_node victim -> run_inv h now r -> pool !! j = Some kr ->
  ended (fst (store_all timing ph i now victim pool r)) j = Answered true t -> authentic h (snd kr).
Proof.
  intros Hv. revert i r j. induction pool as [|kr0 pool IH]; intros i r j Hr Hj; [done|]. cbn [store_all].
  pose proof (store_one_inv (timing ph i) now victim kr0 r Hv Hr) as H1.
  pose proof (store_one_honest (timing ph i) now victim kr0 r t Hv Hr) as Hone.
  destruct (store_one _ now victim kr0 r) as [e r1]. cbn [fst snd] in *.
  specialize (IH (S i) r1). destruct (store_all timing ph (S i) now victim pool r1) as [es r2]. cbn [fst] in *.
  destruct j as [|j]; cbn [ended nth]; [injection Hj as <-; exact Hone|]. by apply IH.
Qed.

Lemma store_step_honest `{!HonestNet R} ph k victim pool st j kr t :
  wf_node victim -> inv st -> pool !! j = Some kr ->
  ended (fst (store_step idle timing wall ph k victim pool st)) j = Answered true t -> authentic h (snd kr).
Proof.
  intros Hv Hi Hj. unfold store_step. destruct (Nat.eqb k 0); [by destruct j|].
  pose proof (store_all_honest ph 0 (clock st) victim pool (running (body st)) j kr t Hv Hi Hj) as Hh.
  by destruct (store_all timing ph 0 (clock st) victim pool (running (body st))).
Qed.

(** The figures and the last line never fail. *)
Lemma conclude_attack_ok c r :
  exists rep, conclude_attack wall c r = Some rep /\ counts rep = r /\ (metrics rep = None <-> exit_failure r = true) /\
    reliable rep = retrieval_reliable (hits (phase3 r)) (misses (phase3 r)).
Proof.
  unfold conclude_attack. destruct (report_total (latency (phase1 r)) (wall 1)) as [l1 ->].
  destruct (report_total (latency (phase2 r)) (wall 2)) as [l2 ->].
  destruct (report_total (get_latency (phase3 r)) (wall 3)) as [l3 ->]. cbn [mbind option_bind]. cbv zeta.
  destruct (exit_failure r) eqn:Ee; [by eexists|].
  destruct (to_vec_ok (metrics_json (concurrency c) (phase1 r) (phase2 r) (phase3 r) l1 l2 l3)) as [b ->].
  cbn [Prelude.ok mbind option_bind]. eexists. split; [done|]. by split_and!.
Qed.

(** The totals of the phases of an attack. *)
Lemma attack_totals draw calls1 calls2 gets c r :
  concurrency c <> 0%nat -> attack pick draw calls1 calls2 gets c = Some r ->
  (accepted (phase1 r) + rejected (phase1 r) + timed_out (phase1 r) = pool_size c)%nat /\
  (accepted (phase2 r) + rejected (phase2 r) + timed_out (phase2 r) = inv_size c)%nat /\
  store_phase (pick 1) calls1 (default [] (valid_pool draw c)) (concurrency c) = Some (phase1 r).
Proof.
  intros Hc. unfold attack.
  intros (valid & Ev & (invalid & Ei & (p1 & E1 & (p2 & E2 & (p3 & _ & [= <-])%bind_Some)%bind_Some)%bind_Some)%bind_Some)%bind_Some.
  cbn [phase1 phase2]. rewrite Ev. cbn [default].
  assert (forall ph calls pool p, store_phase (pick ph) calls pool (concurrency c) = Some p ->
    (accepted p + rejected p + timed_out p = length pool)%nat) as Hsum.
  { intros ph calls pool p Hp. destruct (phases_count_once (pick ph) calls pool (fun _ _ => TaskPanic) [] (concurrency c)) as [H1 _].
    destruct (H1 Hc) as (_ & (p' & Ep & _ & _ & _ & Hs & _) & _). congruence. }
  split_and!; [| |exact E1].
  - rewrite (Hsum _ _ _ _ E1). unfold valid_pool in Ev. apply length_mapM in Ev. by rewrite <- Ev, length_seq.
  - rewrite (Hsum _ _ _ _ E2). unfold invalid_pool in Ei. apply length_mapM in Ei. by rewrite <- Ei, length_seq.
Qed.

Lemma attack_pools draw c :
  (forall i, dil_keypair 2 (d_dpk (draw i)) (d_dsk (draw i))) ->
  exists valid invalid, valid_pool draw c = Some valid /\ invalid_pool draw c = Some invalid.
Proof.
  intros Hk. unfold valid_pool, invalid_pool.
  assert (is_Some (mapM (fun i => drawn_record (draw i)) (seq 0 (pool_size c)))) as [valid ->].
  { apply mapM_is_Some, Forall_forall. intros i _. destruct (drawn_parts (draw i) (Hk i)) as (key & doc & E' & _). by eexists. }
  assert (is_Some (mapM (fun i => forged_record (draw i)) (seq (pool_size c) (inv_size c)))) as [invalid ->].
  { apply mapM_is_Some, Forall_forall. intros i _. by apply forged_Some. }
  by do 2 eexists.
Qed.

Lemma store_phase_total pk calls (pool : list (bytes * bytes)) k : is_Some (store_phase pk calls pool k).
Proof.
  destruct (phases_count_once pk calls pool (fun _ _ => TaskPanic) [] k) as [H1 H0].
  destruct (decide (k = 0%nat)) as [E0|Hne]; [by rewrite (H0 E0)|]. destruct (H1 Hne) as (_ & (c & -> & _) & _). done.
Qed.

(** What the report [rep] of an attack that ended in [st] promises. *)
Definition report_good (draw : nat -> Draw) (c : AttackConfig) (rep : AttackerReport) : Prop :=
  (concurrency c <> 0%nat ->
     (accepted (phase1 (counts rep)) + rejected (phase1 (counts rep)) + timed_out (phase1 (counts rep)) = pool_size c)%nat /\
     (accepted (phase2 (counts rep)) + rejected (phase2 (counts rep)) + timed_out (phase2 (counts rep)) = inv_size c)%nat) /\
  (metrics rep = None <-> exit_failure (counts rep) = true) /\
  (exit_failure (counts rep) = true ->
     exists invalid kr, invalid_pool draw c = Some invalid /\ kr ∈ invalid /\ authentic h (snd kr)).

Lemma attack_phases_ok `{!HonestNet R} c draw victim valid invalid st :
  (forall i, dil_keypair 2 (d_dpk (draw i)) (d_dsk (draw i))) -> wf_node victim -> inv st ->
  valid_pool draw c = Some valid -> invalid_pool draw c = Some invalid ->
  exists rep st', attack_phases CRAWL_FUEL lasts idle timing wall pick cut c draw victim valid invalid st = Some (Attacked rep st') /\
    inv st' /\ clock st + 500000000 <= clock st' /\ report_good draw c rep.
Proof.
  intros Hk Hv Hi3 Ev Ei. unfold attack_phases.
  destruct (store_step_inv 1 (concurrency c) victim valid st Hv Hi3) as [Hi4 Hc4].
  destruct (store_step idle timing wall 1 (concurrency c) victim valid st) as [ends1 st3]. cbn [snd] in Hi4, Hc4.
  destruct (store_step_inv 2 (concurrency c) victim invalid st3 Hv Hi4) as [Hi5 Hc5].
  pose proof (fun j kr t => store_step_honest 2 (concurrency c) victim invalid st3 j kr t Hv Hi4) as Hhon.
  destruct (store_step idle timing wall 2 (concurrency c) victim invalid st3) as [ends2 st4]. cbn [fst snd] in *.
  set (addr := (string_of (target_ip c), target_port c)).
  destruct (bootstrap_returns h (clock st4) [addr] (body st4) Hi5) as [[ns2 s4] Eb2].
  pose proof (bootstrap_spec h CRAWL_FUEL (clock st4) [addr] (body st4) Hi5) as Hb2. rewrite Eb2 in *.
  destruct Hb2 as [Hi6 _]. cbn [mbind option_bind]. cbv zeta.
  assert (inv (sleep idle 500000000 (awaited lasts idle s4 st4))) as Hi7 by (apply sleep_inv; [done|by apply awaited_inv]).
  set (st5 := sleep idle 500000000 (awaited lasts idle s4 st4)) in *.
  assert (clock st4 + 500000000 <= clock st5) as Hc6 by (unfold st5; cbn [sleep awaited clock]; lia).
  destruct (store_phase_total (pick 1) (fun i _ _ => ended ends1 i) valid (concurrency c)) as [p1 ->]. cbn [mbind option_bind].
  destruct (get_step_ok (concurrency c) (accepted_keys p1) st5 Hi7) as (ends3 & st6 & -> & Hi8 & Hc8). cbn [mbind option_bind].
  destruct (attack_verdict pick draw (fun i _ _ => ended ends1 i) (fun i _ _ => ended ends2 i) (fun i _ => ended ends3 i) c Hk)
    as (invalid' & r & Ei' & _ & _ & Ea & Hexit & Hzero). rewrite Ea. cbn [mbind option_bind].
  destruct (conclude_attack_ok c r) as (rep & -> & Hr & Hm & _). rewrite Ei in Ei'. injection Ei' as <-.
  exists rep, st6. split_and!; [done|done|lia|]. unfold report_good. rewrite Hr. split_and!; [|done|].
  - intros Hne. by destruct (attack_totals _ _ _ _ _ _ Hne Ea) as (? & ? & _).
  - intros He. destruct (decide (concurrency c = 0%nat)) as [E0|Hne]; [by rewrite (Hzero E0) in He|].
    destruct (proj1 (Hexit Hne) He) as (j & key & rec & t & Hj & Ht). exists invalid, (key, rec).
    split_and!; [done|by eapply list_elem_of_lookup_2|]. by apply (Hhon j (key, rec) t).
Qed.

(** The node that joined: its invariant and its time. *)
Lemma attack_join_ok env read_file now random place :
  h = mkDIDHandler (b! "issuer.bin") read_file ->
  (forall p, rproto (place p) = p /\ net_ok h now (place p)) ->
  exists st, attack_join CRAWL_FUEL lasts idle env read_file now random place = Some st /\ inv st /\ now + from_secs 6 <= clock st.
Proof.
  intros Hh Hp. unfold attack_join. cbv zeta. rewrite <- Hh.
  set (s0 := listen now (Server_new now h 20 3 None random (server_storage None) true place)).
  assert (inv (sleep idle (from_secs 5) (mkTimed now 0 0 s0))) as Hi0.
  { apply sleep_inv; [unfold from_secs; lia|]. apply listen_new_inv; [lia|done|done]. }
  set (st0 := sleep idle (from_secs 5) (mkTimed now 0 0 s0)) in *. set (addr := (_, _)).
  destruct (bootstrap_returns h (clock st0) [addr] (body st0) Hi0) as [[ns1 s1] Eb].
  pose proof (bootstrap_spec h CRAWL_FUEL (clock st0) [addr] (body st0) Hi0) as Hb. rewrite Eb in *.
  destruct Hb as [Hi1 _]. cbn [mbind option_bind]. eexists. split; [done|]. split.
  - apply sleep_inv; [unfold from_secs; lia|by apply awaited_inv].
  - cbn [sleep awaited clock]. unfold st0. cbn [sleep clock]. unfold from_secs. lia.
Qed.

(** A node has no neighbours exactly when its routing table is empty. *)
Lemma no_neighbors now s :
  server_inv h now s ->
  fst (neighbors_of now (source_node (rproto (running s))) s) = [] <-> all_nodes (router (rproto (running s))) = [].
Proof.
  intros Hi. destruct (pi_wf _ _ (proj1 Hi)) as [Ht Hl Hk _]. cbn [snd] in Ht, Hl, Hk.
  set (rt := router (rproto (running s))) in *. set (src := source_node (rproto (running s))) in *.
  assert (wf_node src) as Hsrc by (rewrite <- Hl; apply Ht).
  destruct (table_locate rt (long_id src) Ht (wf_node_range src Hsrc)) as (l1 & b & l2 & Hloc).
  unfold neighbors_of. fold rt. rewrite (find_neighbors_candidates now rt src None _ _ _ Hloc Hk). cbn [fst].
  rewrite <- !length_zero_iff_nil, neighbors_perm, (candidates_length rt src None Ht Hsrc).
  rewrite filter_all; [lia|]. apply Forall_forall. intros m Hm. unfold eligible, skip_neighbor. rewrite orb_false_r.
  apply bool_decide_eq_false. intros E. apply (tw_self rt Ht). rewrite Hl, <- E.
  apply list_elem_of_fmap_2, all_nodes_contacts, Hm.
Qed.

(** C33: the resilience test accuses only a node that accepted a forgery.  Against
    nodes that say they stored a value only when it is authentic (the nodes of a
    cluster do, whatever messages are lost), however long the operations take and
    for any timing of the calls: the attacker's program ends.  It panics exactly
    when its socket cannot be bound, or when the routing table of its node is empty
    in the state in which it has joined.  Otherwise its counts add up to the records
    sent, and it exits with a failure, without the machine-readable line, only if one
    of its forged records is authentic, that is, if a signature with a flipped byte
    verifies or has the hash of one that does. *)
Theorem attacker_outcomes `{!HonestNet R} (env : bytes -> option bytes) (read_file : bytes -> result bytes io_error) (now : Z)
    (random : bytes) (place : KademliaProtocol ForgetfulStorage Hd C -> R) (bind_ok : bool) (draw : nat -> Draw) :
  h = mkDIDHandler (b! "issuer.bin") read_file ->
  (forall p, rproto (place p) = p /\ net_ok h now (place p)) ->
  (forall i, dil_keypair 2 (d_dpk (draw i)) (d_dsk (draw i))) ->
  let c := attack_config env in
  exists res joined, attacker_run CRAWL_FUEL lasts idle timing wall pick cut env read_file now random place bind_ok draw = Some res /\
    attack_join CRAWL_FUEL lasts idle env read_file now random place = Some joined /\
    (res = NoSocket <-> bind_ok = false) /\
    (res = NoPeer <-> bind_ok = true /\ all_nodes (router (rproto (running (body joined)))) = []) /\
    res <> RecordPanic /\ res <> ReportPanic /\
    forall rep st, res = Attacked rep st -> inv st /\ now + 6500000000 <= clock st /\ report_good draw c rep.
Proof.
  intros Hh Hp Hk c. destruct (attack_join_ok env read_file now random place Hh Hp) as (st1 & Ej & Hi2 & Hc1).
  unfold attacker_run. cbv zeta. fold c. destruct bind_ok; cbn [negb].
  2:{ exists NoSocket, st1. split_and!; (done || naive_solver). }
  rewrite Ej. cbn [mbind option_bind]. pose proof (no_neighbors (clock st1) (body st1) Hi2) as Hempty.
  set (src := source_node (rproto (running (body st1)))) in *.
  assert (wf_node src) as Hsrc.
  { destruct (pi_wf _ _ (proj1 Hi2)) as [Ht Hl _ _]. cbn [snd] in Hl. unfold src. rewrite <- Hl. apply Ht. }
  destruct (neighbors_of_spec h (clock st1) (clock st1) src (body st1) Hi2 Hsrc) as [Hi3 Hns].
  destruct (neighbors_of (clock st1) src (body st1)) as [ns s2] eqn:En. cbn [fst snd] in *.
  destruct ns as [|victim ns].
  { exists NoPeer, st1. split_and!; (done || naive_solver). }
  apply Forall_cons in Hns as [Hv _].
  destruct (attack_pools draw c Hk) as (valid & invalid & Ev & Ei). rewrite Ev, Ei.
  destruct (attack_phases_ok c draw victim valid invalid (mkTimed (clock st1) (ops st1) (slept st1) s2) Hk Hv Hi3 Ev Ei)
    as (rep & st & -> & Hi & Hc & Hgood). cbn [clock] in Hc. unfold from_secs in Hc1.
  exists (Attacked rep st), st1. split_and!; try done.
  - split; [done|]. intros [_ Hnil]. by apply Hempty in Hnil.
  - intros ? ? [= <- <-]. split_and!; [done|lia|done].
Qed.

End resilience_spec.

(** [miss_rate < 0.05] is exact where it changes: for up to 500 reads the largest
    number of misses below a twentieth passes, and the next number does not. *)
Definition boundary_ok (n : Z) : bool :=
  let m := (n + 19) / 20 in
  retrieval_reliable (Z.to_nat (n - (m - 1))) (Z.to_nat (m - 1)) && negb (retrieval_reliable (Z.to_nat (n - m)) (Z.to_nat m)).

Lemma boundaries_checked : all_from boundary_ok MAX_SAMPLES 1 = true.
Proof. vm_compute. reflexivity. Qed.

Theorem miss_rate_boundary (n : Z) :
  1 <= n <= Z.of_nat MAX_SAMPLES ->
  let m := (n + 19) / 20 in
  20 * (m - 1) < n <= 20 * m /\
  retrieval_reliable (Z.to_nat (n - (m - 1))) (Z.to_nat (m - 1)) = true /\
  retrieval_reliable (Z.to_nat (n - m)) (Z.to_nat m) = false.
Proof.
  intros Hn m. pose proof (all_from_spec boundary_ok MAX_SAMPLES 1 n boundaries_checked ltac:(lia)) as H.
  unfold boundary_ok in H. fold m in H. rewrite andb_true_iff, negb_true_iff in H. split; [|done].
  unfold m. pose proof (Z.div_mod (n + 19) 20 ltac:(lia)). pose proof (Z.mod_pos_bound (n + 19) 20 ltac:(lia)). lia.
Qed.

(** ** A run of the test *)

#[local] Existing Instances toy_prims toy_laws btree_map tree_json toy_base64 toy_base64_laws demo_hashes demo_hash_laws plain_addr.
#[local] Existing Instance tree_json_laws.

Local Abbreviation toy_seat := (Seat ForgetfulStorage (DIDSignatureVerifierHandler unit) SimpleCache).

Definition no_issuer_key (_ : bytes) : result bytes unit := Err tt.

(** The victim, listening at the default address, and the attacker's place. *)
Definition toy_victim : KademliaProtocol ForgetfulStorage (DIDSignatureVerifierHandler unit) SimpleCache :=
  let server : Server toy_seat :=
    Server_new 0 (mkDIDHandler (b! "issuer.bin") no_issuer_key) 20 3 None [x01] (server_storage None) false
      (fun p => mkSeat p ("172.21.0.10"%string, 5678) ∅ (fun _ => Delivered) 0) in
  own (running (listen 0 server)).

Definition toy_place (fate : nat -> Fate) (p : KademliaProtocol ForgetfulStorage (DIDSignatureVerifierHandler unit) SimpleCache)
  : toy_seat := mkSeat p ("172.21.0.11"%string, 5679) {[ ("172.21.0.10"%string, 5678) := toy_victim ]} fate 0.

(** While the program waits the node runs the tasks it has spawned. *)
Fixpoint work_off (n : nat) (t : Z) (s : Server toy_seat) : Server toy_seat :=
  match n with
  | O => s
  | S n =>
      match spawned (own (running s)) with
      | [] => s
      | task :: _ =>
          match run_task_in t task (set_own (running s) (unspawn 0 (own (running s)))) with
          | Some r => work_off n t (set_running s r)
          | None => s
          end
      end
  end.

Definition toy_env (name : bytes) : option bytes := if decide (name = b! "POOL_SIZE") then Some (b! "1") else None.

(** Distinct identities of one key pair. *)
Definition toy_draws (i : nat) : Draw := mkDraw toy_pk toy_sk toy_pk (b! "uuid-" ++ be_bytes 1 (65 + Z.of_nat i)).

(** With no message lost the valid record is stored and read back, and the ten
    forged ones are refused. *)
Example attacker_example :
  match attacker_run 5 (fun _ => 1000%N) (work_off 6) (fun _ _ => InTime 1000000) (fun _ => 1000000000) (fun _ n _ => n) (fun _ _ s => s)
          toy_env no_issuer_key 0 [x02] (toy_place (fun _ => Delivered)) true toy_draws with
  | Some (Attacked rep _) =>
      let r := counts rep in
      (accepted (phase1 r), rejected (phase1 r), accepted (phase2 r), rejected (phase2 r), hits (phase3 r), misses (phase3 r))
        = (1, 0, 0, 10, 1, 0)%nat /\
      exit_failure r = false /\ reliable rep = true
  | _ => False
  end.
Proof. vm_compute. split_and!; reflexivity. Qed.

Lemma toy_victim_inv : proto_inv (mkDIDHandler (b! "issuer.bin") no_issuer_key) (0, toy_victim).
Proof.
  pose (place p := mkSeat p ("172.21.0.10"%string, 5678) ∅ (fun _ => Delivered) 0 : toy_seat).
  refine (proj1 (listen_new_inv (mkDIDHandler (b! "issuer.bin") no_issuer_key) 0 20 3 None [x01] false place _ _ _));
    [lia|done|].
  intros p. split; [done|]. intros a q Hq. cbn [place others] in Hq. by rewrite lookup_empty in Hq.
Qed.

(** Every second answer is lost and every third call is late. *)
Definition toy_fate (n : nat) : Fate := if Nat.even n then Delivered else ResponseLost.
Definition toy_timing (_ i : nat) : Timing := if Nat.eqb (i mod 3) 2 then Late 4500 else InTime 7.

Lemma attacker_outcomes_witness :
  exists res (joined : Timed (Server toy_seat)), attacker_run CRAWL_FUEL (fun _ => 5000000000%N) (fun _ s => s) toy_timing (fun _ => 1000000000) (fun _ n _ => n) (fun _ _ s => s)
                toy_env no_issuer_key 0 [x02] (toy_place toy_fate) true toy_draws = Some res /\
    (res = NoPeer <-> true = true /\ all_nodes (router (rproto (running (body joined)))) = []).
Proof.
  destruct (attacker_outcomes (R := toy_seat) (fun _ => 5000000000%N) (fun _ s => s) toy_timing (fun _ => 1000000000) (fun _ n _ => n) (fun _ _ s => s)
    (mkDIDHandler (b! "issuer.bin") no_issuer_key)) with (env := toy_env) (read_file := no_issuer_key) (now := 0)
    (random := [x02]) (place := toy_place toy_fate) (bind_ok := true) (draw := toy_draws) as (res & joined & E & _ & _ & Hn & _).
  - intros t t' s. apply run_inv_later.
  - done.
  - intros ph. lia.
  - apply cluster_honest.
  - reflexivity.
  - intros p. split; [done|]. intros a q Hq. cbn [toy_place others] in Hq. apply lookup_singleton_Some in Hq as [_ <-]. apply toy_victim_inv.
  - intros i. exact toy_keypair.
  - exists res, joined. split; [exact E|exact Hn].
Defined.
